(* ===== verification/_CoqProject ===== *)
-Q . S2P
Prelude.v
Serialize.v
ArithUint256.v
MerkleDamgard.v
Sha2.v
Sha1Ripemd.v
Hash.v
SipHash.v
Transaction.v
Merkle.v
MerkleBlock.v
Base58.v
Script.v
Coins.v
CoinsProofs.v
CoinsDB.v
CoinsSpec.v
BlockIndex.v
BlockIndexSpec.v
Chain.v
Pow.v
PubKey.v
Interpreter.v
SoftFork.v
Conditions.v
EvalSafety.v
Multisig.v
StandardScripts.v
SigHash.v
Solver.v
TxVerify.v
BlockChecks.v
Headers.v
VersionBits.v
Connect.v
Compressor.v
ConnectSpec.v
Supply.v
Disconnect.v
Bech32.v
Gf1024.v
Bech32Code.v
Bech32Locate.v
KeyIO.v
BtcSharp.v
BtcSharpSpec.v
Hostfxr.v
