(* ===== verification/Prelude.v ===== *)
(** * Bitcoin Core and its managed Bech32 port, modelled in Rocq

    The repository is Bitcoin Core (src/bitcoin/) with a C# port of its Bech32
    code (src/btcsharp/).  This library is a shallow embedding of the parts that
    decide what a valid coin, script, transaction and block is: every function of
    the source that is covered is a Rocq function, and the theorems are about
    these functions.

    ** Conventions

    An integer of the source is a [Z]; where the width matters the conversion of
    the source is written out ([wrap], [swrap], [u8] to [i64] below).  A byte is a
    [Z], a buffer a list of them; [wf_bytes] says that each is in range.  Code that
    throws or asserts returns a [result]; state is passed explicitly.  A container
    that is a map is a [gmap], one that is a set a [gset]; where order or
    duplicates are visible it is a list.  Shared mutable nodes (the linked list of
    flagged coins, the pointers of the block index) are a store and addresses into
    it.  Code outside src/ and the primitives that are not modelled (the curve
    arithmetic of libsecp256k1, the key-value store behind the coins database) is
    an interface: a class or a section variable, whose laws are named hypotheses
    and are instantiated in the witnesses.

    ** The files, what they model and what they prove

    - Prelude: integers, byte readers, errors, tactics and hint databases.
    - Serialize (serialize.h, streams.h): integers, CompactSize, VarInt, vectors.
      Every writer and reader are inverse, and the readers accept exactly what the
      writers produce.
    - ArithUint256 (arith_uint256.h, .cpp): the limb algorithms compute the
      arithmetic operations modulo 2^256; the compact format.
    - MerkleDamgard, Sha2, Sha1Ripemd, Hash, SipHash (crypto/, hash.h, hash.cpp):
      the compression functions, the buffering scheme shared by the streaming
      hashers, keyed hashes.  A hasher returns the digest of the concatenation
      however the input is cut; the double-hash fast path is the double hash.
    - Transaction (primitives/, consensus/tx_check.cpp): both encodings of a
      transaction, blocks, the context-free checks.
    - Script (script/script.h, .cpp): operations, pushes, script numbers.
    - Coins, CoinsProofs, CoinsDB, CoinsSpec (coins.h, coins.cpp, txdb.cpp): the
      cache with its flags and linked list, the cursor of a flush, the database
      with batched writes.  A stack of caches over a database is the finite map of
      unspent coins; an interrupted write can be repaired.
    - BlockIndex, BlockIndexSpec, Chain (chain.h, chain.cpp,
      node/blockstorage.cpp): the tree of headers with skip pointers, the active
      chain, locators, forks.  Skip pointers give ancestors; inserting a header
      keeps the invariant of the tree.
    - Pow (pow.cpp): retargeting and the check of a hash; each required target is
      one that the rule for permitted transitions accepts.
    - PubKey (pubkey.h, .cpp): keys, the lax DER parser, Taproot tweaks.
    - Interpreter (script/interpreter.cpp): [EvalScript] and [VerifyScript].
      SoftFork, Conditions, EvalSafety, Multisig and StandardScripts hold its
      properties: flags only restrict, the condition stack, no assertion fails and
      the limits hold, multisig matching, what standard outputs need.
    - SigHash (script/interpreter.cpp): the three signature hashes against the
      original algorithm, BIP143 and BIP341, and the checker of a transaction
      input, which satisfies the interface that EvalSafety assumes.
    - Bech32, Gf1024, Bech32Code, Bech32Locate (bech32.h, bech32.cpp): the codec
      is a bijection, four wrong characters are detected, one is located.
    - Merkle (consensus/merkle.cpp): roots and branches.  The streaming algorithm
      builds the branch of the textbook tree; a branch proves its leaf.
    - MerkleBlock (merkleblock.h, .cpp): partial Merkle trees.  What is built is read
      back and yields the selection; no tree proves a transaction that is not in the
      block.
    - Base58 (base58.cpp), Solver (script/solver.cpp, addresstype.cpp), KeyIO
      (key_io.cpp, util/strencodings.h): output scripts, the destinations they pay
      to, and their addresses.  Scripts and destinations determine each other;
      addresses are read back.
    - TxVerify (consensus/tx_verify.cpp): finality, relative lock times, signature
      operations, amounts.  The lock-time opcodes really lock; the check of the
      inputs is exact.
    - BlockChecks (validation.cpp, consensus/validation.h, signet.cpp): the checks
      of a header and a block.  The header commits to the block with its witnesses;
      a generated commitment is accepted.
    - Headers (validation.cpp): [AcceptBlockHeader] and [ProcessNewBlockHeaders].
      The tree of headers holds only headers that are valid in their place.
    - VersionBits (versionbits.cpp): the deployment of soft forks by version bits.
      The cached computation is the state machine of BIP9; enough signalling
      activates a deployment.
    - Connect (validation.cpp): [ConnectBlock], [DisconnectBlock],
      [CheckInputScripts] and [UpdateCoins] over the coins cache.  The cache of
      verified transactions is the class [ExecutionCache]; the queue of script
      checks is the list of the checks, whose results [Complete] reports; the undo
      data is what the caller passes in and out.
    - Compressor (compressor.cpp, undo.h, coins.h, node/blockstorage.cpp): the
      compact encodings of outputs, coins and undo data, and the record of the undo
      file.  They are read back.
    - ConnectSpec: the rules for the set of unspent coins as a relation, and that
      [ConnectBlock] implements them.  Supply: no chain creates more than the
      subsidies, 21 million bitcoin.  Disconnect: disconnecting a block with
      the undo data from the file restores the coins.
    - BtcSharp, BtcSharpSpec (src/btcsharp/, btcsharp_bech32_bridge.cpp): the C#
      port of Bech32, the bridge that carries its results across the language
      boundary, and the native wrappers.  For strings of the length of an address
      the managed path returns what the native code returns; a longer encoding is
      lost in the wrapper.
    - Hostfxr (hostfxr_bridge.cpp, btcsharp_log_bridge.cpp): the life cycle of the
      hosted runtime; in sequential use the function pointers that are set belong
      to an open runtime; two threads can interleave so that they do not.

    ** Fuel and bounds

    Loops whose length is known are structural.  The loops over a script, a stack
    of conditions, a chain of pointers or a search take a natural number of steps,
    computed from the length of the script, the height of the block or the size of
    the store; the theorems about them are proved with that number, so that none
    of them holds because a loop ran out of steps.  [EvalScript_bounded],
    [VerifyScript_total] and [GetAncestor_correct] state this directly.

    ** Not modelled

    Libraries in the tree that the node only calls (libsecp256k1, LevelDB, crc32c,
    minisketch, univalue, ctaes) are interfaces or left out.  The SIMD versions of
    SHA-256 need intrinsics; the portable version is the one modelled.  Networking,
    RPC, interfaces between processes, logging, start-up, files on disk, threads,
    wallets of the interface layer and the test suites perform input and output or
    drive the parts above.  The manifest lists them one by one.
*)

From stdpp Require Export prelude gmap strings list numbers.
From Stdlib Require Export ZArith Lia.

#[global] Open Scope Z_scope.

(** * Machine integers

    An integer of the source is a [Z].  The conversions below are the ones C++
    performs when a value is stored in a [w]-bit type. *)

Definition wrap (w z : Z) : Z := z mod 2 ^ w.
Definition swrap (w z : Z) : Z := (z + 2 ^ (w - 1)) mod 2 ^ w - 2 ^ (w - 1).

Abbreviation u8 := (wrap 8).
Abbreviation u16 := (wrap 16).
Abbreviation u32 := (wrap 32).
Abbreviation u64 := (wrap 64).
Abbreviation i32 := (swrap 32).
Abbreviation i64 := (swrap 64).

Definition is_uint (w z : Z) : Prop := 0 <= z < 2 ^ w.
Definition is_sint (w z : Z) : Prop := - 2 ^ (w - 1) <= z < 2 ^ (w - 1).

#[global] Instance is_uint_dec w z : Decision (is_uint w z).
Proof. unfold is_uint. apply _. Defined.
#[global] Instance is_sint_dec w z : Decision (is_sint w z).
Proof. unfold is_sint. apply _. Defined.

(** Bytes are [Z] values; a buffer is a list of them. *)
Abbreviation bytes := (list Z).
Definition zlen {A} (l : list A) : Z := Z.of_nat (length l).

Definition to_bytes (s : string) : bytes :=
  (fun c => Z.of_nat (Ascii.nat_of_ascii c)) <$> String.list_ascii_of_string s.

Definition wf_bytes (bs : bytes) : Prop := Forall (is_uint 8) bs.

#[global] Instance wf_bytes_dec bs : Decision (wf_bytes bs).
Proof. unfold wf_bytes. apply _. Defined.

(** * Hint databases *)

Create HintDb btc discriminated.
Create Rewrite HintDb btc_bits.

(** * Error results *)

Inductive result (E A : Type) : Type :=
| Ok (a : A)
| Err (e : E).
Arguments Ok {E A} a.
Arguments Err {E A} e.

#[global] Instance result_ret {E} : MRet (result E) := fun A a => Ok a.
#[global] Instance result_bind {E} : MBind (result E) :=
  fun A B f m => match m with Ok a => f a | Err e => Err e end.

#[global] Instance result_eq_dec {E A} `{EqDecision E, EqDecision A} :
  EqDecision (result E A).
Proof. solve_decision. Defined.

Lemma result_bind_inv {E A B} (m : result E A) (k : A -> result E B) b :
  m ≫= k = Ok b -> exists a, m = Ok a /\ k a = Ok b.
Proof. destruct m as [a|]; [|done]. intros H. by exists a. Qed.

Definition is_ok {E A} (r : result E A) : bool :=
  match r with Ok _ => true | Err _ => false end.

(** * Readers over a byte stream

    A stream that is read from is the list of its unread bytes; an exception
    ([std::ios_base::failure]) is [Err] of its message. *)

Definition reader (A : Type) : Type := bytes -> result string (A * bytes).

#[global] Instance reader_ret : MRet reader := fun A a s => Ok (a, s).
#[global] Instance reader_bind : MBind reader :=
  fun A B f m s =>
    match m s with
    | Ok (a, s') => f a s'
    | Err e => Err e
    end.

Definition fail_read {A} (e : string) : reader A := fun _ => Err e.

Lemma reader_bind_ok {A B} (m : reader A) (f : A -> reader B) s a s' :
  m s = Ok (a, s') -> (m ≫= f) s = f a s'.
Proof. intros H. unfold mbind, reader_bind. by rewrite H. Qed.

(** * Bounds of machine integers *)

Lemma pow2_pos w : 0 <= w -> 0 < 2 ^ w.
Proof. intros. by apply Z.pow_pos_nonneg. Qed.

Lemma wrap_range w z : 0 <= w -> is_uint w (wrap w z).
Proof. intros. apply Z.mod_pos_bound, pow2_pos; lia. Qed.

Lemma wrap_small w z : is_uint w z -> wrap w z = z.
Proof. intros. by apply Z.mod_small. Qed.

Lemma swrap_small w z : 0 < w -> is_sint w z -> swrap w z = z.
Proof.
  intros Hw [H1 H2]. unfold swrap.
  assert (2 ^ w = 2 * 2 ^ (w - 1)) as E by (rewrite <- Z.pow_succ_r by lia; f_equal; lia).
  rewrite Z.mod_small; lia.
Qed.

Lemma swrap_range w z : 0 < w -> is_sint w (swrap w z).
Proof.
  intros Hw. unfold swrap, is_sint.
  assert (2 ^ w = 2 * 2 ^ (w - 1)) as E by (rewrite <- Z.pow_succ_r by lia; f_equal; lia).
  pose proof (Z.mod_pos_bound (z + 2 ^ (w - 1)) (2 ^ w) ltac:(apply pow2_pos; lia)). lia.
Qed.

#[export] Hint Resolve wrap_range wrap_small swrap_small swrap_range : btc.

(** * Bit operations as arithmetic *)

Lemma max_if a b : (if a <? b then b else a) = Z.max a b.
Proof. destruct (Z.ltb_spec a b); lia. Qed.

Lemma min_if a b : (if b <? a then b else a) = Z.min a b.
Proof. destruct (Z.ltb_spec b a); lia. Qed.

Lemma land_mask w z : 0 <= w -> Z.land z (2 ^ w - 1) = z mod 2 ^ w.
Proof.
  intros. rewrite <- Z.land_ones by lia. f_equal. rewrite Z.ones_equiv. lia.
Qed.

Lemma testbit_small w z i : is_uint w z -> w <= i -> Z.testbit z i = false.
Proof.
  intros [H1 H2] Hi. destruct (decide (z = 0)) as [->|]; [apply Z.bits_0|].
  apply Z.bits_above_log2; [done|].
  assert (Z.log2 z < w) by (apply Z.log2_lt_pow2; lia). lia.
Qed.

Lemma land_pow2 x k : 0 <= k -> Z.land x (2 ^ k) = Z.b2z (Z.testbit x k) * 2 ^ k.
Proof.
  intros Hk. apply Z.bits_inj'. intros i Hi. rewrite Z.land_spec, Z.pow2_bits_eqb by lia.
  rewrite Z.mul_pow2_bits by lia. destruct (Z.eqb_spec k i) as [<-|Hne].
  - rewrite andb_true_r, Z.sub_diag. by destruct (Z.testbit x k).
  - rewrite andb_false_r. symmetry. destruct (Z.testbit x k); [|apply Z.testbit_0_l].
    apply (Z.pow2_bits_false 0). lia.
Qed.

Lemma testbit_top w x : 0 <= w -> is_uint (w + 1) x -> Z.testbit x w = (2 ^ w <=? x).
Proof.
  intros Hw [H1 H2]. destruct (Z.leb_spec (2 ^ w) x) as [Hle|Hlt].
  - assert (0 < 2 ^ w) by (apply pow2_pos; lia).
    assert (Z.log2 x = w) as <- by (apply Z.log2_unique; [lia|rewrite <- Z.add_1_r; lia]).
    apply Z.bit_log2. lia.
  - by apply (testbit_small w).
Qed.

Lemma land_disjoint w a b : 0 <= w -> is_uint w a -> Z.land a (b * 2 ^ w) = 0.
Proof.
  intros Hw Ha. rewrite <- Z.shiftl_mul_pow2 by lia.
  apply Z.bits_inj'. intros i Hi. rewrite Z.land_spec, Z.bits_0.
  destruct (decide (i < w)).
  - rewrite Z.shiftl_spec_low by lia. apply andb_false_r.
  - rewrite (testbit_small w a i) by (auto; lia). done.
Qed.

Lemma lor_shiftl_add w a b :
  0 <= w -> is_uint w a -> Z.lor a (Z.shiftl b w) = a + b * 2 ^ w.
Proof.
  intros Hw Ha. rewrite <- Z.shiftl_mul_pow2 by lia.
  rewrite <- Z.add_lor_land.
  assert (Z.land a (Z.shiftl b w) = 0) as ->; [|lia].
  rewrite Z.shiftl_mul_pow2 by lia. by apply land_disjoint.
Qed.

Lemma lor_pow2_add w a b :
  0 <= w -> is_uint w a -> Z.lor a (b * 2 ^ w) = a + b * 2 ^ w.
Proof. intros. rewrite <- Z.shiftl_mul_pow2 at 1 by lia. by apply lor_shiftl_add. Qed.

Lemma lxor_pow2_add w a b :
  0 <= w -> is_uint w a -> Z.lxor (b * 2 ^ w) a = b * 2 ^ w + a.
Proof.
  intros Hw Ha. rewrite Z.lxor_comm, Z.lxor_lor by (by apply land_disjoint).
  rewrite lor_pow2_add by done. lia.
Qed.

Lemma lor_is_uint w a b : 0 <= w -> is_uint w a -> is_uint w b -> is_uint w (Z.lor a b).
Proof.
  intros Hw Ha Hb. assert (Z.lor a b = wrap w (Z.lor a b)) as ->; [|by apply wrap_range].
  unfold wrap. rewrite <- Z.land_ones by done.
  apply Z.bits_inj'. intros i Hi. rewrite Z.land_spec.
  destruct (decide (i < w)).
  - rewrite Z.ones_spec_low by lia. by rewrite andb_true_r.
  - rewrite Z.ones_spec_high by lia. rewrite andb_false_r, Z.lor_spec.
    by rewrite !(testbit_small w) by (auto; lia).
Qed.

Lemma lxor_is_uint w a b : 0 <= w -> is_uint w a -> is_uint w b -> is_uint w (Z.lxor a b).
Proof.
  intros Hw Ha Hb. assert (Z.lxor a b = wrap w (Z.lxor a b)) as ->; [|by apply wrap_range].
  unfold wrap. rewrite <- Z.land_ones by done.
  apply Z.bits_inj'. intros i Hi. rewrite Z.land_spec.
  destruct (decide (i < w)).
  - rewrite Z.ones_spec_low by lia. by rewrite andb_true_r.
  - rewrite Z.ones_spec_high by lia. rewrite andb_false_r, Z.lxor_spec.
    by rewrite !(testbit_small w) by (auto; lia).
Qed.

#[export] Hint Resolve lor_is_uint lxor_is_uint : btc.

(** A decidable fact about bytes is proved by checking the 256 of them. *)
Lemma range_forall n (P : Z -> bool) : forallb P (seqZ 0 n) = true -> forall z, 0 <= z < n -> P z = true.
Proof.
  intros H z Hz. rewrite forallb_forall in H. apply H, list_elem_of_In, elem_of_seqZ. lia.
Qed.

Lemma byte_forall (P : Z -> bool) :
  forallb P (Z.of_nat <$> seq 0 256) = true -> forall z, is_uint 8 z -> P z = true.
Proof.
  intros H z [H1 H2]. rewrite forallb_forall in H. apply H.
  apply list_elem_of_In. rewrite list_elem_of_fmap. exists (Z.to_nat z).
  split; [lia|]. rewrite elem_of_seq. lia.
Qed.

(** * Little- and big-endian integers *)

Fixpoint le_bytes (n : nat) (z : Z) : bytes :=
  match n with
  | O => []
  | S n => z mod 256 :: le_bytes n (z / 256)
  end.

Fixpoint le_val (bs : bytes) : Z :=
  match bs with
  | [] => 0
  | b :: bs => b + 256 * le_val bs
  end.

Definition be_bytes (n : nat) (z : Z) : bytes := rev (le_bytes n z).
Definition be_val (bs : bytes) : Z := le_val (rev bs).

Lemma length_le_bytes n z : length (le_bytes n z) = n.
Proof. revert z. induction n; simpl; auto. Qed.

Lemma le_bytes_wf n z : wf_bytes (le_bytes n z).
Proof.
  revert z. induction n; intros z; constructor; [|apply IHn].
  apply (Z.mod_pos_bound z 256). lia.
Qed.

Lemma pow256_succ n : 2 ^ (8 * Z.of_nat (S n)) = 256 * 2 ^ (8 * Z.of_nat n).
Proof.
  replace (8 * Z.of_nat (S n)) with (8 + 8 * Z.of_nat n) by lia.
  rewrite Z.pow_add_r by lia. done.
Qed.

Lemma le_val_bound bs : wf_bytes bs -> is_uint (8 * Z.of_nat (length bs)) (le_val bs).
Proof.
  induction 1 as [|b bs Hb Hbs IH]; [done|].
  unfold is_uint in *. change (length (b :: bs)) with (S (length bs)).
  rewrite pow256_succ. simpl le_val. change (2 ^ 8) with 256 in Hb. lia.
Qed.

Lemma le_val_bytes n z : is_uint (8 * Z.of_nat n) z -> le_val (le_bytes n z) = z.
Proof.
  revert z. induction n as [|n IH]; intros z Hz.
  - unfold is_uint in Hz. simpl in *. lia.
  - simpl le_bytes. simpl le_val. rewrite IH.
    + pose proof (Z.div_mod z 256). lia.
    + unfold is_uint in *. rewrite pow256_succ in Hz. split.
      * apply Z.div_pos; lia.
      * apply Z.div_lt_upper_bound; lia.
Qed.

Lemma le_bytes_val bs : wf_bytes bs -> le_bytes (length bs) (le_val bs) = bs.
Proof.
  induction 1 as [|b bs Hb Hbs IH]; [done|].
  unfold is_uint in Hb. change (2 ^ 8) with 256 in Hb. simpl.
  replace ((b + 256 * le_val bs) mod 256) with b.
  - replace ((b + 256 * le_val bs) / 256) with (le_val bs); [by rewrite IH|].
    rewrite Z.add_comm, Z.mul_comm, Z.div_add_l by lia. rewrite Z.div_small; lia.
  - rewrite Z.add_comm, Z.mul_comm, Z.add_comm, Z.mod_add by lia.
    by rewrite Z.mod_small.
Qed.

Lemma le_val_app a b : le_val (a ++ b) = le_val a + 2 ^ (8 * Z.of_nat (length a)) * le_val b.
Proof.
  induction a as [|x a IH].
  - simpl app. simpl length. change (2 ^ (8 * Z.of_nat 0)) with 1. simpl. lia.
  - change (length (x :: a)) with (S (length a)). rewrite pow256_succ.
    simpl. rewrite IH. lia.
Qed.

Lemma wf_bytes_app a b : wf_bytes (a ++ b) <-> wf_bytes a /\ wf_bytes b.
Proof. apply Forall_app. Qed.

#[export] Hint Resolve le_bytes_wf : btc.

(** * Lists *)

Lemma take_app_exact {A} (l1 l2 : list A) n : n = length l1 -> take n (l1 ++ l2) = l1.
Proof. intros ->. by rewrite take_app_length. Qed.

Lemma drop_app_exact {A} (l1 l2 : list A) n : n = length l1 -> drop n (l1 ++ l2) = l2.
Proof. intros ->. by rewrite drop_app_length. Qed.

(** * Tactics *)

(** Case analysis on the boolean comparisons of the code. *)
Ltac bool_cases :=
  repeat match goal with
  | |- context [Z.leb ?a ?b] => destruct (Z.leb_spec a b)
  | |- context [Z.ltb ?a ?b] => destruct (Z.ltb_spec a b)
  | |- context [Z.eqb ?a ?b] => destruct (Z.eqb_spec a b)
  end.

(** Turn boolean hypotheses into propositions. *)
Ltac bool_props :=
  repeat match goal with
  | H : (_ && _) = true |- _ => apply andb_prop in H as [??]
  | H : (_ || _) = false |- _ => apply orb_false_elim in H as [??]
  | H : negb _ = true |- _ => apply negb_true_iff in H
  | H : negb _ = false |- _ => apply negb_false_iff in H
  | H : (_ <=? _) = true |- _ => apply Z.leb_le in H
  | H : (_ <=? _) = false |- _ => apply Z.leb_gt in H
  | H : (_ <? _) = true |- _ => apply Z.ltb_lt in H
  | H : (_ <? _) = false |- _ => apply Z.ltb_ge in H
  | H : (_ =? _) = true |- _ => apply Z.eqb_eq in H
  | H : (_ =? _) = false |- _ => apply Z.eqb_neq in H
  end.

(** Closed decidable facts by evaluation. *)
Ltac by_decide := refine (bool_decide_unpack _ _); vm_compute; exact I.
