(* ===== verification/Serialize.v ===== *)
(** Serialization primitives: src/bitcoin/src/serialize.h over a [DataStream]
    (src/bitcoin/src/streams.h).  Fixed-width integers, CompactSize, VarInt,
    byte vectors and element vectors, each with its writer, its reader, and the
    law that relates them. *)

From S2P Require Import Prelude.

(** * The stream *)

(** [DataStream::read]: take [n] bytes off the front, or throw. *)
Definition stream_read (n : Z) : reader bytes := fun s =>
  if n =? 0 then Ok ([], s)
  else if Z.of_nat (length s) <? n then Err "DataStream::read(): end of data"
  else Ok (take (Z.to_nat n) s, drop (Z.to_nat n) s).

(** [DataStream::ignore]. *)
Definition stream_ignore (n : Z) : reader () := fun s =>
  if Z.of_nat (length s) <? n then Err "DataStream::ignore(): end of data"
  else Ok (tt, drop (Z.to_nat n) s).

(** * Fixed-width integers *)

Definition ser_writedata8 (obj : Z) : bytes := le_bytes 1 (u8 obj).
Definition ser_writedata16 (obj : Z) : bytes := le_bytes 2 (u16 obj).
Definition ser_writedata16be (obj : Z) : bytes := be_bytes 2 (u16 obj).
Definition ser_writedata32 (obj : Z) : bytes := le_bytes 4 (u32 obj).
Definition ser_writedata32be (obj : Z) : bytes := be_bytes 4 (u32 obj).
Definition ser_writedata64 (obj : Z) : bytes := le_bytes 8 (u64 obj).

Definition ser_readdata8 : reader Z := bs ← stream_read 1; mret (le_val bs).
Definition ser_readdata16 : reader Z := bs ← stream_read 2; mret (le_val bs).
Definition ser_readdata16be : reader Z := bs ← stream_read 2; mret (be_val bs).
Definition ser_readdata32 : reader Z := bs ← stream_read 4; mret (le_val bs).
Definition ser_readdata32be : reader Z := bs ← stream_read 4; mret (be_val bs).
Definition ser_readdata64 : reader Z := bs ← stream_read 8; mret (le_val bs).

(** * CompactSize *)

Definition MAX_SIZE : Z := 0x02000000.
Definition MAX_VECTOR_ALLOCATE : Z := 5000000.

Definition uint16_max : Z := 0xffff.
Definition uint32_max : Z := 0xffffffff.
Definition uint64_max : Z := 0xffffffffffffffff.

Definition GetSizeOfCompactSize (nSize : Z) : Z :=
  if nSize <? 253 then 1
  else if nSize <=? uint16_max then 1 + 2
  else if nSize <=? uint32_max then 1 + 4
  else 1 + 8.

Definition WriteCompactSize (nSize : Z) : bytes :=
  if nSize <? 253 then ser_writedata8 nSize
  else if nSize <=? uint16_max then ser_writedata8 253 ++ ser_writedata16 nSize
  else if nSize <=? uint32_max then ser_writedata8 254 ++ ser_writedata32 nSize
  else ser_writedata8 255 ++ ser_writedata64 nSize.

(** The range check at the end of [ReadCompactSize]. *)
Definition compact_size_checked (range_check : bool) (nSizeRet : Z) : reader Z :=
  if range_check && (MAX_SIZE <? nSizeRet)
  then fail_read "ReadCompactSize(): size too large"
  else mret nSizeRet.

Definition ReadCompactSize (range_check : bool) : reader Z :=
  chSize ← ser_readdata8;
  if chSize <? 253 then compact_size_checked range_check chSize
  else if chSize =? 253 then
    nSizeRet ← ser_readdata16;
    if nSizeRet <? 253 then fail_read "non-canonical ReadCompactSize()"
    else compact_size_checked range_check nSizeRet
  else if chSize =? 254 then
    nSizeRet ← ser_readdata32;
    if nSizeRet <? 0x10000 then fail_read "non-canonical ReadCompactSize()"
    else compact_size_checked range_check nSizeRet
  else
    nSizeRet ← ser_readdata64;
    if nSizeRet <? 0x100000000 then fail_read "non-canonical ReadCompactSize()"
    else compact_size_checked range_check nSizeRet.

(** * VarInt

    [WriteVarInt] fills the array [tmp] of [(sizeof(n)*8+6)/7] bytes from index
    0 upwards and then emits it from the last index used down to 0.  The model
    conses onto [tmp], so the list is already in output order; the loop has one
    step per array slot and returns [None] if it would write past the end. *)

Definition varint_slots (w : Z) : nat := Z.to_nat ((w + 6) / 7).

Fixpoint WriteVarInt_loop (slots : nat) (n : Z) (len : nat) (tmp : bytes) : option bytes :=
  match slots with
  | O => None
  | S slots =>
      let tmp := Z.lor (Z.land n 0x7F) (if decide (len = O) then 0x00 else 0x80) :: tmp in
      if n <=? 0x7F then Some tmp
      else WriteVarInt_loop slots (Z.shiftr n 7 - 1) (S len) tmp
  end.

Definition WriteVarInt (w n : Z) : option bytes := WriteVarInt_loop (varint_slots w) n 0 [].

Fixpoint GetSizeOfVarInt_loop (slots : nat) (n nRet : Z) : option Z :=
  match slots with
  | O => None
  | S slots =>
      let nRet := nRet + 1 in
      if n <=? 0x7F then Some nRet
      else GetSizeOfVarInt_loop slots (Z.shiftr n 7 - 1) nRet
  end.

Definition GetSizeOfVarInt (w n : Z) : option Z := GetSizeOfVarInt_loop (varint_slots w) n 0.

(** [max] is [std::numeric_limits<I>::max()]. *)
Fixpoint ReadVarInt_loop (max n : Z) (s : bytes) : result string (Z * bytes) :=
  match s with
  | [] => Err "DataStream::read(): end of data"
  | chData :: s =>
      if Z.shiftr max 7 <? n then Err "ReadVarInt(): size too large"
      else
        let n := Z.lor (Z.shiftl n 7) (Z.land chData 0x7F) in
        if Z.land chData 0x80 =? 0 then Ok (n, s)
        else if n =? max then Err "ReadVarInt(): size too large"
        else ReadVarInt_loop max (n + 1) s
  end.

Definition ReadVarInt (max : Z) : reader Z := ReadVarInt_loop max 0.

(** [VARINT(x)] in a serialization method: [WriteVarInt] fills its array and
    writes it; the values that fit the type fit the array. *)
Definition ser_varint (w n : Z) : bytes := default [] (WriteVarInt w n).

(** * Custom-width integers *)

Definition CustomUint_MAX (Bytes : Z) : Z := Z.shiftr 0xffffffffffffffff (8 * (8 - Bytes)).

Definition CustomUintFormatter_Ser (Bytes : Z) (BigEndian : bool) (v : Z) : result string bytes :=
  if (v <? 0) || (CustomUint_MAX Bytes <? v) then Err "CustomUintFormatter value out of range"
  else if BigEndian
  then Ok (drop (Z.to_nat (8 - Bytes)) (be_bytes 8 v))
  else Ok (take (Z.to_nat Bytes) (le_bytes 8 v)).

Definition CustomUintFormatter_Unser (Bytes : Z) (BigEndian : bool) : reader Z :=
  bs ← stream_read Bytes;
  if BigEndian
  then mret (be_val (replicate (Z.to_nat (8 - Bytes)) 0 ++ bs))
  else mret (le_val (bs ++ replicate (Z.to_nat (8 - Bytes)) 0)).

(** * Formatters for sizes and strings *)

(** [min_I]/[max_I] are the limits of the destination type. *)
Definition CompactSizeFormatter_Unser (RangeCheck : bool) (max_I : Z) : reader Z :=
  n ← ReadCompactSize RangeCheck;
  if max_I <? n then fail_read "CompactSize exceeds limit of type" else mret n.

Definition LimitedStringFormatter_Unser (Limit : Z) : reader bytes :=
  size ← ReadCompactSize true;
  if Limit <? size then fail_read "String length limit exceeded"
  else stream_read size.

(** * Byte vectors

    [Serialize]/[Unserialize] of [std::vector<unsigned char>] and of
    [prevector].  The reader takes the data in blocks of at most 5,000,000
    bytes, one iteration per block. *)

Definition BYTE_BLOCK : Z := 1 + 4999999 / 1.

Definition ser_byte_vector (v : bytes) : bytes :=
  WriteCompactSize (Z.of_nat (length v)) ++ v.

Fixpoint read_blocks (fuel : nat) (nSize i : Z) (v : bytes) : reader bytes :=
  match fuel with
  | O => mret v
  | S fuel =>
      if i <? nSize then
        let blk := Z.min (nSize - i) BYTE_BLOCK in
        data ← stream_read blk;
        read_blocks fuel nSize (i + blk) (v ++ data)
      else mret v
  end.

Definition unser_byte_vector : reader bytes :=
  nSize ← ReadCompactSize true;
  read_blocks (Z.to_nat (nSize / BYTE_BLOCK + 1)) nSize 0 [].

(** * Vectors of elements: [VectorFormatter] *)

Section VectorFormatter.
Context {A : Type} (formatter_Ser : A -> bytes) (formatter_Unser : reader A).
(** [sizeof(value_type)], which sets how many elements are reserved at once. *)
Context (elt_size : Z).

Definition VectorFormatter_Ser (v : list A) : bytes :=
  WriteCompactSize (Z.of_nat (length v)) ++ flat_map formatter_Ser v.

(** The inner loop: read [k] elements onto [v]. *)
Fixpoint unser_elements (k : nat) (v : list A) : reader (list A) :=
  match k with
  | O => mret v
  | S k => a ← formatter_Unser; unser_elements k (v ++ [a])
  end.

(** The outer loop, one iteration per allocation batch. *)
Fixpoint unser_batches (fuel : nat) (size allocated : Z) (v : list A) : reader (list A) :=
  match fuel with
  | O => mret v
  | S fuel =>
      if allocated <? size then
        let allocated := Z.min size (allocated + MAX_VECTOR_ALLOCATE / elt_size) in
        v ← unser_elements (Z.to_nat (allocated - Z.of_nat (length v))) v;
        unser_batches fuel size allocated v
      else mret v
  end.

Definition VectorFormatter_Unser : reader (list A) :=
  size ← ReadCompactSize true;
  unser_batches (Z.to_nat (size / (MAX_VECTOR_ALLOCATE / elt_size) + 1)) size 0 [].
End VectorFormatter.

(** * The contract of a serialization

    What a component that stores or sends values relies on: on the values [P],
    reading gives back what was written and leaves the rest of the stream; and
    whatever is read successfully is the one encoding of the value. *)

Class Codec {A : Type} (P : A -> Prop) (Ser : A -> bytes) (Unser : reader A) : Prop := {
  codec_app : forall a rest, P a -> Unser (Ser a ++ rest) = Ok (a, rest);
  codec_inv : forall s a rest, wf_bytes s -> Unser s = Ok (a, rest) -> s = Ser a ++ rest /\ P a;
}.

(** * Reading what was written *)

Lemma stream_read_app n bs rest :
  n = Z.of_nat (length bs) -> stream_read n (bs ++ rest) = Ok (bs, rest).
Proof.
  intros ->. unfold stream_read. destruct bs as [|b bs]; [done|].
  rewrite (proj2 (Z.eqb_neq _ 0)) by (simpl; lia).
  rewrite (proj2 (Z.ltb_ge _ _)) by (rewrite length_app; lia).
  by rewrite Nat2Z.id, take_app_length, drop_app_length.
Qed.

Lemma stream_read_inv n s bs rest :
  0 <= n -> stream_read n s = Ok (bs, rest) -> s = bs ++ rest /\ n = Z.of_nat (length bs).
Proof.
  unfold stream_read. intros Hn H.
  destruct (n =? 0) eqn:E; bool_props; [simplify_eq; done|].
  destruct (Z.of_nat (length s) <? n) eqn:E2; bool_props; [done|]. simplify_eq.
  rewrite take_drop, length_take. split; [done|lia].
Qed.

(** A fixed-width read of a fixed-width write, and its converse. *)
Lemma read_le_app n z rest :
  is_uint (8 * Z.of_nat n) z ->
  (bs ← stream_read (Z.of_nat n); mret (M:=reader) (le_val bs)) (le_bytes n z ++ rest) = Ok (z, rest).
Proof.
  intros Hz. erewrite reader_bind_ok by (apply stream_read_app; by rewrite length_le_bytes).
  unfold mret, reader_ret. by rewrite le_val_bytes.
Qed.

Lemma read_le_inv n z s rest :
  wf_bytes s ->
  (bs ← stream_read (Z.of_nat n); mret (M:=reader) (le_val bs)) s = Ok (z, rest) ->
  s = le_bytes n z ++ rest /\ is_uint (8 * Z.of_nat n) z.
Proof.
  intros Hs H. unfold mbind, reader_bind in H.
  destruct (stream_read (Z.of_nat n) s) as [[bs s']|] eqn:E; [|done].
  unfold mret, reader_ret in H. simplify_eq.
  apply stream_read_inv in E as [-> E]; [|lia]. apply Nat2Z.inj in E as ->.
  apply wf_bytes_app in Hs as [Hb _]. split; [by rewrite le_bytes_val|by apply le_val_bound].
Qed.

Lemma read8_app z rest : is_uint 8 z -> ser_readdata8 (ser_writedata8 z ++ rest) = Ok (z, rest).
Proof. intros. unfold ser_writedata8. rewrite wrap_small by done. by apply (read_le_app 1). Qed.
Lemma read16_app z rest : is_uint 16 z -> ser_readdata16 (ser_writedata16 z ++ rest) = Ok (z, rest).
Proof. intros. unfold ser_writedata16. rewrite wrap_small by done. by apply (read_le_app 2). Qed.
Lemma read32_app z rest : is_uint 32 z -> ser_readdata32 (ser_writedata32 z ++ rest) = Ok (z, rest).
Proof. intros. unfold ser_writedata32. rewrite wrap_small by done. by apply (read_le_app 4). Qed.
Lemma read64_app z rest : is_uint 64 z -> ser_readdata64 (ser_writedata64 z ++ rest) = Ok (z, rest).
Proof. intros. unfold ser_writedata64. rewrite wrap_small by done. by apply (read_le_app 8). Qed.

Lemma read8_inv z s rest :
  wf_bytes s -> ser_readdata8 s = Ok (z, rest) -> s = ser_writedata8 z ++ rest /\ is_uint 8 z.
Proof.
  intros Hs H. apply (read_le_inv 1) in H as [-> Hz]; [|done].
  unfold ser_writedata8. by rewrite wrap_small.
Qed.
Lemma read16_inv z s rest :
  wf_bytes s -> ser_readdata16 s = Ok (z, rest) -> s = ser_writedata16 z ++ rest /\ is_uint 16 z.
Proof.
  intros Hs H. apply (read_le_inv 2) in H as [-> Hz]; [|done].
  unfold ser_writedata16. by rewrite wrap_small.
Qed.
Lemma read32_inv z s rest :
  wf_bytes s -> ser_readdata32 s = Ok (z, rest) -> s = ser_writedata32 z ++ rest /\ is_uint 32 z.
Proof.
  intros Hs H. apply (read_le_inv 4) in H as [-> Hz]; [|done].
  unfold ser_writedata32. by rewrite wrap_small.
Qed.
Lemma read64_inv z s rest :
  wf_bytes s -> ser_readdata64 s = Ok (z, rest) -> s = ser_writedata64 z ++ rest /\ is_uint 64 z.
Proof.
  intros Hs H. apply (read_le_inv 8) in H as [-> Hz]; [|done].
  unfold ser_writedata64. by rewrite wrap_small.
Qed.

(** ** CompactSize *)

(** The sizes a reader accepts. *)
Definition compact_size_ok (range_check : bool) (n : Z) : Prop :=
  is_uint 64 n /\ (range_check = true -> n <= MAX_SIZE).

Lemma compact_size_checked_ok rc n s :
  (rc = true -> n <= MAX_SIZE) -> compact_size_checked rc n s = Ok (n, s).
Proof.
  intros H. unfold compact_size_checked. destruct rc; simpl; [|done].
  by rewrite (proj2 (Z.ltb_ge _ _)) by auto.
Qed.

Lemma compact_size_checked_inv rc n m s s' :
  compact_size_checked rc n s = Ok (m, s') -> m = n /\ s' = s /\ (rc = true -> n <= MAX_SIZE).
Proof.
  unfold compact_size_checked. intros H.
  destruct (rc && (MAX_SIZE <? n)) eqn:E; [done|]. unfold mret, reader_ret in H. simplify_eq.
  split; [done|]. split; [done|]. intros ->. simpl in E. by bool_props.
Qed.

Ltac unfold_uint := unfold is_uint, uint16_max, uint32_max, uint64_max in *.

Lemma ReadCompactSize_WriteCompactSize rc n rest :
  compact_size_ok rc n -> ReadCompactSize rc (WriteCompactSize n ++ rest) = Ok (n, rest).
Proof.
  intros [Hn Hrc]. unfold ReadCompactSize, WriteCompactSize.
  destruct (n <? 253) eqn:E1; [|destruct (n <=? uint16_max) eqn:E2;
    [|destruct (n <=? uint32_max) eqn:E3]]; bool_props; unfold_uint.
  - erewrite reader_bind_ok by (apply read8_app; unfold_uint; lia).
    rewrite (proj2 (Z.ltb_lt _ _)) by lia. by apply compact_size_checked_ok.
  - rewrite <- app_assoc. erewrite reader_bind_ok by (by apply read8_app). simpl.
    erewrite reader_bind_ok by (apply read16_app; unfold_uint; lia).
    rewrite (proj2 (Z.ltb_ge _ _)) by lia. by apply compact_size_checked_ok.
  - rewrite <- app_assoc. erewrite reader_bind_ok by (by apply read8_app). simpl.
    erewrite reader_bind_ok by (apply read32_app; unfold_uint; lia).
    rewrite (proj2 (Z.ltb_ge _ _)) by lia. by apply compact_size_checked_ok.
  - rewrite <- app_assoc. erewrite reader_bind_ok by (by apply read8_app). simpl.
    erewrite reader_bind_ok by (apply read64_app; unfold_uint; lia).
    rewrite (proj2 (Z.ltb_ge _ _)) by lia. by apply compact_size_checked_ok.
Qed.

Lemma reader_bind_inv {A B} (m : reader A) (f : A -> reader B) s b s' :
  (m ≫= f) s = Ok (b, s') -> exists a s1, m s = Ok (a, s1) /\ f a s1 = Ok (b, s').
Proof.
  unfold mbind, reader_bind. destruct (m s) as [[a s1]|]; [|done]. eauto.
Qed.

Lemma ReadCompactSize_inv rc n s rest :
  wf_bytes s -> ReadCompactSize rc s = Ok (n, rest) ->
  s = WriteCompactSize n ++ rest /\ compact_size_ok rc n.
Proof.
  intros Hs H. apply reader_bind_inv in H as (ch & s1 & H8 & H).
  apply read8_inv in H8 as [-> Hch]; [|done]. apply wf_bytes_app in Hs as [_ Hs].
  unfold compact_size_ok, WriteCompactSize. unfold is_uint in Hch.
  destruct (ch <? 253) eqn:E1; [|destruct (ch =? 253) eqn:E2; [|destruct (ch =? 254) eqn:E3]].
  - apply compact_size_checked_inv in H as (-> & -> & Hrc). rewrite E1. unfold_uint. bool_props.
    split; [done|]. split; [lia|done].
  - apply reader_bind_inv in H as (m & s2 & Hm & H). apply read16_inv in Hm as [-> Hm]; [|done].
    destruct (m <? 253) eqn:E4; [done|]. apply compact_size_checked_inv in H as (-> & -> & Hrc).
    bool_props. subst. unfold_uint. rewrite (proj2 (Z.ltb_ge _ _)), (proj2 (Z.leb_le _ _)) by lia.
    rewrite <- app_assoc. split; [done|]. split; [lia|done].
  - apply reader_bind_inv in H as (m & s2 & Hm & H). apply read32_inv in Hm as [-> Hm]; [|done].
    destruct (m <? 0x10000) eqn:E4; [done|]. apply compact_size_checked_inv in H as (-> & -> & Hrc).
    bool_props. subst. unfold_uint.
    rewrite (proj2 (Z.ltb_ge _ _)), (proj2 (Z.leb_gt _ _)), (proj2 (Z.leb_le _ _)) by lia.
    rewrite <- app_assoc. split; [done|]. split; [lia|done].
  - apply reader_bind_inv in H as (m & s2 & Hm & H). apply read64_inv in Hm as [-> Hm]; [|done].
    destruct (m <? 0x100000000) eqn:E4; [done|]. apply compact_size_checked_inv in H as (-> & -> & Hrc).
    bool_props. unfold_uint. assert (ch = 255) as -> by lia.
    rewrite (proj2 (Z.ltb_ge _ _)), !(proj2 (Z.leb_gt _ _)) by lia.
    rewrite <- app_assoc. split; [done|]. split; [lia|done].
Qed.

(** ** VarInt

    The encoding as a relation: [f] is the continuation bit of the last byte. *)

Inductive varint_enc : Z -> Z -> bytes -> Prop :=
| varint_enc_last f n : 0 <= n <= 127 -> varint_enc f n [n + f]
| varint_enc_more f n p : 127 < n -> varint_enc 128 (n / 128 - 1) p ->
    varint_enc f n (p ++ [n mod 128 + f]).

Definition cont_bit (len : nat) : Z := if decide (len = O) then 0 else 128.

Lemma varint_digit n len :
  Z.lor (Z.land n 0x7F) (if decide (len = O) then 0x00 else 0x80) = n mod 128 + cont_bit len.
Proof.
  change 0x7F with (2 ^ 7 - 1). rewrite land_mask by lia. unfold cont_bit.
  case_decide; [by rewrite Z.lor_0_r, Z.add_0_r|].
  apply (lor_pow2_add 7 (n mod 2 ^ 7) 1); [lia|]. apply Z.mod_pos_bound; lia.
Qed.

Lemma WriteVarInt_loop_sound slots n len tmp out :
  0 <= n -> WriteVarInt_loop slots n len tmp = Some out ->
  exists p, out = p ++ tmp /\ varint_enc (cont_bit len) n p.
Proof.
  revert n len tmp. induction slots as [|slots IH]; intros n len tmp Hn H; [done|].
  cbn [WriteVarInt_loop] in H. rewrite varint_digit in H.
  destruct (n <=? 0x7F) eqn:E; bool_props.
  - simplify_eq. eexists [_]. split; [done|]. rewrite Z.mod_small by lia. by constructor.
  - rewrite Z.shiftr_div_pow2 in H by lia. change (2 ^ 7) with 128 in H.
    assert (1 <= n / 128) by (apply Z.div_le_lower_bound; lia).
    apply IH in H as (p & -> & Hp); [|lia].
    exists (p ++ [n mod 128 + cont_bit len]). rewrite <- app_assoc. split; [done|].
    constructor; [lia|done].
Qed.

Lemma WriteVarInt_loop_total slots n len tmp :
  slots <> O -> 0 <= n < 2 ^ (7 * Z.of_nat slots) ->
  exists out, WriteVarInt_loop slots n len tmp = Some out.
Proof.
  revert n len tmp. induction slots as [|slots IH]; intros n len tmp Hs Hn; [done|].
  cbn [WriteVarInt_loop]. destruct (n <=? 0x7F) eqn:E; bool_props; [eauto|].
  replace (7 * Z.of_nat (S slots)) with (7 + 7 * Z.of_nat slots) in Hn by lia.
  rewrite Z.pow_add_r in Hn by lia. change (2 ^ 7) with 128 in Hn.
  apply IH; [intros ->; simpl in Hn; lia|].
  rewrite Z.shiftr_div_pow2 by lia. change (2 ^ 7) with 128.
  assert (1 <= n / 128) by (apply Z.div_le_lower_bound; lia).
  assert (n / 128 < 2 ^ (7 * Z.of_nat slots)) by (apply Z.div_lt_upper_bound; lia). lia.
Qed.

Lemma WriteVarInt_total w n : 0 < w -> is_uint w n -> exists bs, WriteVarInt w n = Some bs.
Proof.
  intros Hw [H0 Hn].
  pose proof (Z.div_mod (w + 6) 7). pose proof (Z.mod_pos_bound (w + 6) 7).
  assert (0 < (w + 6) / 7) by lia. unfold WriteVarInt, varint_slots.
  apply WriteVarInt_loop_total; [lia|]. split; [lia|].
  eapply Z.lt_le_trans; [exact Hn|]. apply Z.pow_le_mono_r; lia.
Qed.

Lemma WriteVarInt_sound w n bs : 0 <= n -> WriteVarInt w n = Some bs -> varint_enc 0 n bs.
Proof.
  intros Hn H. apply WriteVarInt_loop_sound in H as (p & -> & H); [|done].
  by rewrite app_nil_r.
Qed.

Lemma varint_enc_fun f n p q : varint_enc f n p -> varint_enc f n q -> p = q.
Proof.
  intros Hp. revert q. induction Hp as [f n Hn|f n p Hn Hp IH]; intros q Hq;
    inversion Hq; subst; auto; try lia. f_equal. by apply IH.
Qed.

(** What one byte of input contributes. *)
Lemma varint_step acc ch :
  0 <= acc -> Z.lor (Z.shiftl acc 7) (Z.land ch 0x7F) = acc * 128 + ch mod 128.
Proof.
  intros. change 0x7F with (2 ^ 7 - 1). rewrite land_mask by lia.
  rewrite Z.lor_comm, lor_shiftl_add by (try lia; apply Z.mod_pos_bound; lia).
  change (2 ^ 7) with 128. lia.
Qed.

Lemma byte_high_bit ch : is_uint 8 ch -> Z.land ch 0x80 = ch / 128 * 128.
Proof.
  intros H. apply Z.eqb_eq.
  by apply (byte_forall (fun c => Z.land c 0x80 =? c / 128 * 128)).
Qed.

Lemma ReadVarInt_loop_cont max n p s :
  varint_enc 128 n p -> n < max ->
  ReadVarInt_loop max 0 (p ++ s) = ReadVarInt_loop max (n + 1) s.
Proof.
  intros Hp. remember 128 as f eqn:Ef. revert s. induction Hp as [f n Hn|f n p Hn Hp IH];
    intros s Hmax; subst f.
  - simpl. rewrite (proj2 (Z.ltb_ge _ 0)) by (apply Z.shiftr_nonneg; lia).
    rewrite varint_step, byte_high_bit by (try unfold is_uint; lia).
    assert ((n + 128) / 128 = 1) as -> by (symmetry; apply Z.div_unique with n; lia).
    assert ((n + 128) mod 128 = n) as -> by (symmetry; apply Z.mod_unique with 1; lia).
    simpl. by rewrite (proj2 (Z.eqb_neq _ _)) by lia.
  - assert (0 <= n mod 128 < 128) by (apply Z.mod_pos_bound; lia).
    assert (1 <= n / 128) by (apply Z.div_le_lower_bound; lia).
    pose proof (Z.div_lt n 128 ltac:(lia) ltac:(lia)).
    rewrite <- app_assoc. rewrite IH by (done || lia).
    replace (n / 128 - 1 + 1) with (n / 128) by lia. simpl.
    rewrite (proj2 (Z.ltb_ge _ _)) by (rewrite Z.shiftr_div_pow2 by lia; apply Z.div_le_mono; lia).
    rewrite varint_step, byte_high_bit by (try unfold is_uint; lia).
    assert ((n mod 128 + 128) / 128 = 1) as -> by (symmetry; apply Z.div_unique with (n mod 128); lia).
    assert ((n mod 128 + 128) mod 128 = n mod 128) as -> by (symmetry; apply Z.mod_unique with 1; lia).
    simpl. replace (n / 128 * 128 + n mod 128) with n by (pose proof (Z.div_mod n 128); lia).
    by rewrite (proj2 (Z.eqb_neq _ _)) by lia.
Qed.

Lemma ReadVarInt_enc max n p s :
  varint_enc 0 n p -> n <= max -> ReadVarInt max (p ++ s) = Ok (n, s).
Proof.
  unfold ReadVarInt. intros Hp Hmax. inversion Hp as [f n' Hn|f n' p' Hn Hp']; subst.
  - simpl. rewrite (proj2 (Z.ltb_ge _ 0)) by (apply Z.shiftr_nonneg; lia).
    rewrite varint_step, byte_high_bit by (try unfold is_uint; lia).
    rewrite Z.add_0_r, Z.div_small, Z.mod_small by lia. done.
  - assert (0 <= n mod 128 < 128) by (apply Z.mod_pos_bound; lia).
    pose proof (Z.div_lt n 128 ltac:(lia) ltac:(lia)). pose proof (Z.div_pos n 128 ltac:(lia) ltac:(lia)).
    rewrite <- app_assoc.
    rewrite (ReadVarInt_loop_cont _ (n / 128 - 1)) by (done || lia).
    replace (n / 128 - 1 + 1) with (n / 128) by lia. simpl.
    rewrite (proj2 (Z.ltb_ge _ _)) by (rewrite Z.shiftr_div_pow2 by lia; apply Z.div_le_mono; lia).
    rewrite varint_step, byte_high_bit by (try unfold is_uint; lia).
    rewrite Z.add_0_r, (Z.div_small (n mod 128)), (Z.mod_small (n mod 128)) by lia. simpl.
    replace (n / 128 * 128 + n mod 128) with n by (pose proof (Z.div_mod n 128); lia). done.
Qed.

(** The bytes read so far, [p], and the accumulator [acc] they leave. *)
Lemma varint_read_back w max n rest :
  0 < w -> is_uint w n -> n <= max -> ReadVarInt max (ser_varint w n ++ rest) = Ok (n, rest).
Proof.
  intros Hw Hn Hmax. unfold ser_varint. destruct (WriteVarInt_total w n Hw Hn) as [bs E]. rewrite E.
  apply ReadVarInt_enc; [|done]. by apply (WriteVarInt_sound w); [destruct Hn|].
Qed.

Definition varint_prefix (max acc : Z) (p : bytes) : Prop :=
  (acc = 0 /\ p = []) \/ (exists m, acc = m + 1 /\ 0 <= m < max /\ varint_enc 128 m p).

Lemma varint_prefix_step max acc p ch f :
  0 <= max -> varint_prefix max acc p -> acc <= Z.shiftr max 7 -> 0 <= ch < 256 -> f = ch / 128 * 128 ->
  varint_enc f (acc * 128 + ch mod 128) (p ++ [ch]).
Proof.
  intros Hmax Hp Hacc Hch ->. rewrite Z.shiftr_div_pow2 in Hacc by lia.
  assert (0 <= ch mod 128 < 128) by (apply Z.mod_pos_bound; lia).
  pose proof (Z.div_mod ch 128 ltac:(lia)).
  destruct Hp as [[-> ->]|(m & -> & Hm & Henc)].
  - rewrite Z.mul_0_l, Z.add_0_l. replace [ch] with [ch mod 128 + ch / 128 * 128] by (f_equal; lia).
    constructor. lia.
  - set (n := (m + 1) * 128 + ch mod 128).
    assert (n / 128 = m + 1) as Hd by (symmetry; apply Z.div_unique with (ch mod 128); lia).
    assert (n mod 128 = ch mod 128) as Hr by (symmetry; apply Z.mod_unique with (m + 1); lia).
    replace ch with (n mod 128 + ch / 128 * 128) at 2 by lia.
    constructor; [lia|]. by replace (n / 128 - 1) with m by lia.
Qed.

Lemma ReadVarInt_loop_inv max acc p s n rest :
  0 <= max -> max mod 128 = 127 -> wf_bytes s -> varint_prefix max acc p -> ReadVarInt_loop max acc s = Ok (n, rest) ->
  exists q, p ++ s = q ++ rest /\ varint_enc 0 n q /\ 0 <= n <= max.
Proof.
  intros Hmax H127 Hs. revert acc p. induction Hs as [|ch s Hch Hs IH]; intros acc p Hp H; [done|].
  simpl in H. destruct (Z.shiftr max 7 <? acc) eqn:E; [done|]. bool_props.
  assert (0 <= acc) by (destruct Hp as [[-> _]|(m & -> & ? & _)]; lia).
  rewrite varint_step, byte_high_bit in H by done.
  pose proof (varint_prefix_step _ _ _ ch _ Hmax Hp E ltac:(unfold is_uint in Hch; lia) eq_refl) as Henc.
  assert (0 <= ch mod 128 < 128) by (apply Z.mod_pos_bound; lia).
  rewrite Z.shiftr_div_pow2 in E by lia. change (2 ^ 7) with 128 in E.
  assert (acc * 128 + ch mod 128 <= max) by (pose proof (Z.div_mod max 128 ltac:(lia)); lia).
  destruct (ch / 128 * 128 =? 0) eqn:E2; bool_props.
  - simplify_eq. rewrite E2 in Henc. exists (p ++ [ch]). rewrite <- app_assoc. split; [done|].
    split; [done|lia].
  - destruct (acc * 128 + ch mod 128 =? max) eqn:E3; [done|]. bool_props.
    assert (ch / 128 * 128 = 128) as E4.
    { unfold is_uint in Hch. pose proof (Z.div_lt_upper_bound ch 128 2 ltac:(lia)).
      pose proof (Z.div_pos ch 128). lia. }
    rewrite E4 in Henc.
    apply (IH _ (p ++ [ch])) in H as (q & Hq & Hn); [|right; eexists; split; [done|split; [lia|done]]].
    exists q. rewrite <- Hq, <- app_assoc. done.
Qed.

(** ** Vectors *)

Lemma stream_read_split a b s :
  0 <= a -> 0 <= b ->
  stream_read (a + b) s = (x ← stream_read a; y ← stream_read b; mret (M:=reader) (x ++ y)) s.
Proof.
  intros Ha Hb. unfold mbind, reader_bind, mret, reader_ret, stream_read.
  destruct (Z.eqb_spec a 0) as [->|Ha0].
  - rewrite Z.add_0_l. destruct (b =? 0); [done|]. by destruct (_ <? b).
  - rewrite (proj2 (Z.eqb_neq (a + b) 0)) by lia.
    destruct (Z.ltb_spec (Z.of_nat (length s)) a).
    + by rewrite (proj2 (Z.ltb_lt _ _)) by lia.
    + destruct (Z.eqb_spec b 0) as [->|Hb0].
      * rewrite Z.add_0_r, (proj2 (Z.ltb_ge _ _)) by lia. by rewrite app_nil_r.
      * rewrite length_drop. destruct (Z.ltb_spec (Z.of_nat (length s)) (a + b)).
        -- by rewrite (proj2 (Z.ltb_lt _ b)) by lia.
        -- rewrite (proj2 (Z.ltb_ge _ b)) by lia.
           rewrite drop_drop, take_take_drop, <- Z2Nat.inj_add by lia. done.
Qed.

Lemma read_blocks_eq fuel nSize i v s :
  0 <= i <= nSize -> nSize - i <= Z.of_nat fuel * BYTE_BLOCK ->
  read_blocks fuel nSize i v s = (data ← stream_read (nSize - i); mret (M:=reader) (v ++ data)) s.
Proof.
  revert i v s. induction fuel as [|fuel IH]; intros i v s Hi Hf; cbn [read_blocks].
  - assert (nSize - i = 0) as -> by lia. unfold mbind, reader_bind, mret, reader_ret. simpl.
    by rewrite app_nil_r.
  - destruct (Z.ltb_spec i nSize).
    + set (blk := Z.min (nSize - i) BYTE_BLOCK). assert (0 < BYTE_BLOCK) by done.
      assert (blk <= nSize - i) by lia.
      replace (nSize - i) with (blk + (nSize - (i + blk))) at 1 by lia.
      unfold mbind at 2, reader_bind at 2. rewrite stream_read_split by lia.
      unfold mbind, reader_bind, mret, reader_ret.
      destruct (stream_read blk s) as [[data s']|]; [|done].
      rewrite IH by lia. unfold mbind, reader_bind, mret, reader_ret.
      destruct (stream_read _ s') as [[data' s'']|]; [|done]. by rewrite app_assoc.
    + assert (nSize - i = 0) as -> by lia. unfold mbind, reader_bind, mret, reader_ret. simpl.
      by rewrite app_nil_r.
Qed.

Lemma blocks_fuel n b : 0 <= n -> 0 < b -> n <= Z.of_nat (Z.to_nat (n / b + 1)) * b.
Proof.
  intros. rewrite Z2Nat.id by (pose proof (Z.div_pos n b); lia).
  pose proof (Z.div_mod n b). pose proof (Z.mod_pos_bound n b). lia.
Qed.

Lemma unser_byte_vector_eq s :
  wf_bytes s -> unser_byte_vector s = (ReadCompactSize true ≫= stream_read) s.
Proof.
  intros Hs. unfold unser_byte_vector, mbind, reader_bind.
  destruct (ReadCompactSize true s) as [[n s']|] eqn:E; [|done].
  apply ReadCompactSize_inv in E as [_ [[Hn _] _]]; [|done].
  rewrite read_blocks_eq by (try (rewrite Z.sub_0_r; apply blocks_fuel); done || lia).
  rewrite Z.sub_0_r. unfold mbind, reader_bind, mret, reader_ret. simpl.
  by destruct (stream_read n s') as [[]|].
Qed.

Lemma length_compact_ok {A} (v : list A) :
  Z.of_nat (length v) <= MAX_SIZE -> compact_size_ok true (Z.of_nat (length v)).
Proof. unfold compact_size_ok, is_uint, MAX_SIZE. lia. Qed.

Lemma unser_ser_byte_vector v rest :
  Z.of_nat (length v) <= MAX_SIZE -> unser_byte_vector (ser_byte_vector v ++ rest) = Ok (v, rest).
Proof.
  intros Hv. unfold unser_byte_vector, ser_byte_vector. rewrite <- app_assoc.
  erewrite reader_bind_ok by (by apply ReadCompactSize_WriteCompactSize, length_compact_ok).
  rewrite read_blocks_eq by (try (rewrite Z.sub_0_r; apply blocks_fuel); done || lia).
  rewrite Z.sub_0_r. by erewrite reader_bind_ok by by apply stream_read_app.
Qed.

Section VectorFormatter.
Context {A : Type} (Ser : A -> bytes) (Unser : reader A) (elt_size : Z).
Hypothesis Helt : 0 < MAX_VECTOR_ALLOCATE / elt_size.

Lemma unser_elements_add k1 k2 v s :
  unser_elements Unser (k1 + k2) v s
  = (w ← unser_elements Unser k1 v; unser_elements Unser k2 w) s.
Proof.
  revert v s. induction k1 as [|k1 IH]; intros v s; [done|]. simpl.
  unfold mbind, reader_bind. destruct (Unser s) as [[a s']|]; [|done]. apply IH.
Qed.

Lemma unser_elements_length k v s w rest :
  unser_elements Unser k v s = Ok (w, rest) -> length w = (length v + k)%nat.
Proof.
  revert v s. induction k as [|k IH]; intros v s H; simpl in H.
  - unfold mret, reader_ret in H. simplify_eq. lia.
  - apply reader_bind_inv in H as (a & s1 & _ & H). apply IH in H.
    rewrite length_app in H. simpl in H. lia.
Qed.

Lemma unser_batches_eq fuel size v s :
  Z.of_nat (length v) <= size ->
  size - Z.of_nat (length v) <= Z.of_nat fuel * (MAX_VECTOR_ALLOCATE / elt_size) ->
  unser_batches Unser elt_size fuel size (Z.of_nat (length v)) v s
  = unser_elements Unser (Z.to_nat (size - Z.of_nat (length v))) v s.
Proof.
  revert v s. induction fuel as [|fuel IH]; intros v s Hv Hf; cbn [unser_batches].
  - by replace (Z.to_nat _) with O by lia.
  - destruct (Z.ltb_spec (Z.of_nat (length v)) size); [|by replace (Z.to_nat (size - _)) with O by lia].
    set (al := Z.min _ _).
    replace (Z.to_nat (size - Z.of_nat (length v)))
      with (Z.to_nat (al - Z.of_nat (length v)) + Z.to_nat (size - al))%nat by lia.
    rewrite unser_elements_add. unfold mbind, reader_bind.
    destruct (unser_elements _ _ _ s) as [[w s']|] eqn:E; [|done].
    apply unser_elements_length in E. assert (al = Z.of_nat (length w)) as Hal by lia.
    rewrite Nat2Z.inj_succ, Z.mul_succ_l in Hf. rewrite Hal. apply IH; lia.
Qed.

Lemma unser_elements_ser (P : A -> Prop) v acc rest :
  (forall a rest, P a -> Unser (Ser a ++ rest) = Ok (a, rest)) -> Forall P v ->
  unser_elements Unser (length v) acc (flat_map Ser v ++ rest) = Ok (acc ++ v, rest).
Proof.
  intros Hlaw Hv. revert acc. induction Hv as [|a v Ha Hv IH]; intros acc; simpl.
  - by rewrite app_nil_r.
  - rewrite <- app_assoc. erewrite reader_bind_ok by by apply Hlaw.
    rewrite IH. by rewrite <- app_assoc.
Qed.

Lemma VectorFormatter_roundtrip (P : A -> Prop) v rest :
  (forall a rest, P a -> Unser (Ser a ++ rest) = Ok (a, rest)) ->
  Forall P v -> Z.of_nat (length v) <= MAX_SIZE ->
  VectorFormatter_Unser Unser elt_size (VectorFormatter_Ser Ser v ++ rest) = Ok (v, rest).
Proof.
  intros Hlaw Hv Hlen. unfold VectorFormatter_Unser, VectorFormatter_Ser. rewrite <- app_assoc.
  erewrite reader_bind_ok by (by apply ReadCompactSize_WriteCompactSize, length_compact_ok).
  rewrite (unser_batches_eq _ _ []) by (simpl; try rewrite Z.sub_0_r; try apply blocks_fuel; lia).
  simpl. rewrite Z.sub_0_r, Nat2Z.id. by apply (unser_elements_ser P).
Qed.
End VectorFormatter.

(** ** Codecs of the primitive types *)

#[export] Instance codec8 : Codec (is_uint 8) ser_writedata8 ser_readdata8.
Proof. constructor; intros; [by apply read8_app|by apply read8_inv]. Qed.
#[export] Instance codec16 : Codec (is_uint 16) ser_writedata16 ser_readdata16.
Proof. constructor; intros; [by apply read16_app|by apply read16_inv]. Qed.
#[export] Instance codec32 : Codec (is_uint 32) ser_writedata32 ser_readdata32.
Proof. constructor; intros; [by apply read32_app|by apply read32_inv]. Qed.
#[export] Instance codec64 : Codec (is_uint 64) ser_writedata64 ser_readdata64.
Proof. constructor; intros; [by apply read64_app|by apply read64_inv]. Qed.

(** Fixed-size byte arrays: [uint256], [uint160]. *)
Definition blob (n : Z) (b : bytes) : Prop := Z.of_nat (length b) = n /\ wf_bytes b.

#[export] Instance blob_dec n b : Decision (blob n b).
Proof. unfold blob. apply _. Defined.

Lemma codec_blob n : 0 <= n -> Codec (blob n) (fun b => b) (stream_read n).
Proof.
  intros Hn. constructor.
  - intros a rest [Ha _]. by apply stream_read_app.
  - intros s a rest Hs H. apply stream_read_inv in H as [-> H]; [|done].
    apply wf_bytes_app in Hs as [Ha _]. done.
Qed.

Definition byte_vector (v : bytes) : Prop := wf_bytes v /\ Z.of_nat (length v) <= MAX_SIZE.

#[export] Instance byte_vector_dec v : Decision (byte_vector v).
Proof. unfold byte_vector. apply _. Defined.

#[export] Instance codec_byte_vector : Codec byte_vector ser_byte_vector unser_byte_vector.
Proof.
  constructor.
  - intros v rest [_ Hv]. by apply unser_ser_byte_vector.
  - intros s v rest Hs H. rewrite unser_byte_vector_eq in H by done.
    apply reader_bind_inv in H as (n & s1 & Hn & H).
    apply ReadCompactSize_inv in Hn as [-> [[Hn _] Hmax]]; [|done].
    apply wf_bytes_app in Hs as [_ Hs]. apply stream_read_inv in H as [-> ->]; [|done].
    apply wf_bytes_app in Hs as [Hv _]. unfold ser_byte_vector. rewrite <- app_assoc.
    split; [done|]. split; [done|auto].
Qed.

Section CodecVector.
Context {A : Type} {P : A -> Prop} {Ser : A -> bytes} {Unser : reader A}.
Context {C : Codec P Ser Unser} (elt_size : Z).
Hypothesis Helt : 0 < MAX_VECTOR_ALLOCATE / elt_size.

Lemma unser_elements_inv k acc s w rest :
  wf_bytes s -> unser_elements Unser k acc s = Ok (w, rest) ->
  exists v, w = acc ++ v /\ s = flat_map Ser v ++ rest /\ length v = k /\ Forall P v.
Proof.
  revert acc s. induction k as [|k IH]; intros acc s Hs H; cbn [unser_elements] in H.
  - unfold mret, reader_ret in H. simplify_eq. exists []. by rewrite app_nil_r.
  - apply reader_bind_inv in H as (a & s1 & Ha & H). apply codec_inv in Ha as [-> Ha]; [|done].
    apply wf_bytes_app in Hs as [_ Hs]. apply IH in H as (v & -> & -> & Hl & Hv); [|done].
    exists (a :: v). cbn. rewrite <- !app_assoc, Hl. auto.
Qed.

Definition vector_of (v : list A) : Prop := Forall P v /\ Z.of_nat (length v) <= MAX_SIZE.

Lemma codec_vector : Codec vector_of (VectorFormatter_Ser Ser) (VectorFormatter_Unser Unser elt_size).
Proof.
  constructor.
  - intros v rest [Hv Hl]. apply (VectorFormatter_roundtrip _ _ _ Helt P); try done. apply codec_app.
  - intros s v rest Hs H. apply reader_bind_inv in H as (n & s1 & Hn & H).
    apply ReadCompactSize_inv in Hn as [-> [[Hn _] Hmax]]; [|done].
    apply wf_bytes_app in Hs as [_ Hs].
    rewrite (unser_batches_eq Unser elt_size Helt _ _ []) in H
      by (cbn; try rewrite Z.sub_0_r; try apply blocks_fuel; lia).
    cbn [length Z.of_nat] in H. rewrite Z.sub_0_r in H.
    apply unser_elements_inv in H as (w & -> & -> & Hl & Hv); [|done].
    cbn [app]. unfold VectorFormatter_Ser, vector_of. rewrite <- app_assoc.
    assert (Z.of_nat (length w) = n) as -> by lia. auto.
Qed.
End CodecVector.

(** Signed integers are written through their unsigned image. *)
Definition ser_int32 (z : Z) : bytes := ser_writedata32 (u32 z).
Definition unser_int32 : reader Z := z ← ser_readdata32; mret (i32 z).
Definition ser_int64 (z : Z) : bytes := ser_writedata64 (u64 z).
Definition unser_int64 : reader Z := z ← ser_readdata64; mret (i64 z).

Lemma swrap_wrap w z : 0 < w -> is_sint w z -> swrap w (wrap w z) = z.
Proof.
  intros Hw Hz. unfold swrap, wrap. rewrite Z.add_mod_idemp_l.
  - by apply swrap_small.
  - pose proof (pow2_pos w). lia.
Qed.

Lemma wrap_swrap w z : 0 < w -> is_uint w z -> wrap w (swrap w z) = z.
Proof.
  intros Hw Hz. unfold swrap, wrap. rewrite Zminus_mod_idemp_l.
  rewrite Z.add_simpl_r. by apply Z.mod_small.
Qed.

Lemma codec_signed w (Ser : Z -> bytes) (Unser : reader Z) :
  0 < w -> Codec (is_uint w) Ser Unser ->
  Codec (is_sint w) (fun z => Ser (wrap w z)) (z ← Unser; mret (swrap w z)).
Proof.
  intros Hw C. constructor.
  - intros z rest Hz. erewrite reader_bind_ok by (apply codec_app, wrap_range; lia).
    unfold mret, reader_ret. by rewrite swrap_wrap.
  - intros s z rest Hs H. apply reader_bind_inv in H as (x & s1 & Hx & H).
    apply codec_inv in Hx as [-> Hx]; [|done]. unfold mret, reader_ret in H. simplify_eq.
    rewrite wrap_swrap by done. split; [done|by apply swrap_range].
Qed.

#[export] Instance codec_int32 : Codec (is_sint 32) ser_int32 unser_int32.
Proof. by apply codec_signed; [|apply _]. Qed.
#[export] Instance codec_int64 : Codec (is_sint 64) ser_int64 unser_int64.
Proof. by apply codec_signed; [|apply _]. Qed.

(** Reading a record is reading its fields one after the other: run the next
    field over what was written, or split the stream at the next field. *)
Ltac codec_write := rewrite <- ?app_assoc; erewrite reader_bind_ok by (apply codec_app; eassumption).

Ltac codec_read H x Hx :=
  let s1 := fresh "s" in let Ha := fresh "Ha" in
  apply reader_bind_inv in H as (x & s1 & Ha & H);
  apply codec_inv in Ha as [-> Hx]; [|assumption];
  match goal with Hs : wf_bytes (_ ++ s1) |- _ => apply wf_bytes_app in Hs as [_ Hs] end.

(** ** Sizes *)

Lemma length_WriteCompactSize n : Z.of_nat (length (WriteCompactSize n)) = GetSizeOfCompactSize n.
Proof.
  unfold WriteCompactSize, GetSizeOfCompactSize.
  by destruct (n <? 253), (n <=? uint16_max), (n <=? uint32_max).
Qed.

Lemma GetSizeOfVarInt_loop_eq slots n len tmp :
  GetSizeOfVarInt_loop slots n (Z.of_nat (length tmp))
  = (fun bs : bytes => Z.of_nat (length bs)) <$> WriteVarInt_loop slots n len tmp.
Proof.
  revert n len tmp. induction slots as [|slots IH]; intros n len tmp; [done|].
  cbn [GetSizeOfVarInt_loop WriteVarInt_loop].
  replace (Z.of_nat (length tmp) + 1) with (Z.of_nat (S (length tmp))) by lia.
  destruct (n <=? 0x7F); [done|]. apply (IH _ _ (_ :: tmp)).
Qed.

(** * Properties *)

(** CompactSize is a bijection between the sizes a reader accepts and their
    byte strings: [ReadCompactSize] returns [n] exactly when the stream starts
    with the bytes [WriteCompactSize] emits for [n], so every accepted size has
    one encoding, non-canonical ones are refused, and the length is the one
    [GetSizeOfCompactSize] announces. *)
Theorem compact_size_bijection rc n s rest :
  wf_bytes s ->
  (ReadCompactSize rc s = Ok (n, rest)
   <-> s = WriteCompactSize n ++ rest /\ compact_size_ok rc n)
  /\ Z.of_nat (length (WriteCompactSize n)) = GetSizeOfCompactSize n.
Proof.
  intros Hs. split; [|apply length_WriteCompactSize]. split.
  - by apply ReadCompactSize_inv.
  - intros [-> Hn]. by apply ReadCompactSize_WriteCompactSize.
Qed.

Lemma compact_size_bijection_witness :
  ReadCompactSize true [253; 0; 1; 42] = Ok (256, [42])
  /\ Z.of_nat (length (WriteCompactSize 256)) = 3.
Proof.
  destruct (compact_size_bijection true 256 [253; 0; 1; 42] [42]) as [H1 H2].
  - repeat constructor; done.
  - split; [|rewrite H2; reflexivity]. apply H1. split; [reflexivity|].
    split; [split; done|done].
Defined.

(** VarInt is a bijection for every unsigned type of [w] bits: the writer
    never leaves its array of [(w+6)/7] bytes, [GetSizeOfVarInt] is the length it
    writes, and the reader returns [n] exactly when the stream starts with the
    writer's bytes for [n]. *)
Theorem varint_bijection w n s rest :
  7 <= w -> wf_bytes s ->
  (is_uint w n -> is_Some (WriteVarInt w n))
  /\ GetSizeOfVarInt w n = (fun bs : bytes => Z.of_nat (length bs)) <$> WriteVarInt w n
  /\ (ReadVarInt (2 ^ w - 1) s = Ok (n, rest)
       <-> exists bs, WriteVarInt w n = Some bs /\ s = bs ++ rest /\ is_uint w n).
Proof.
  intros Hw Hs. assert (0 < 2 ^ w) by (apply pow2_pos; lia).
  split; [intros Hn; apply WriteVarInt_total; [lia|done]|].
  split; [apply (GetSizeOfVarInt_loop_eq _ _ 0 [])|]. split.
  - intros H1. apply (ReadVarInt_loop_inv _ _ []) in H1 as (q & Hq & Henc & Hn);
      [|lia| |done|by left].
    + simpl in Hq. subst s. destruct (WriteVarInt_total w n) as [bs Hbs]; [lia|unfold is_uint; lia|].
      exists bs. split; [done|]. apply WriteVarInt_sound in Hbs; [|lia].
      rewrite (varint_enc_fun _ _ _ _ Henc Hbs). unfold is_uint. split; [done|lia].
    + replace w with ((w - 7) + 7) by lia. rewrite Z.pow_add_r by lia. change (2 ^ 7) with 128.
      replace (_ - 1) with (127 + (2 ^ (w - 7) - 1) * 128) by lia. by rewrite Z.mod_add by lia.
  - intros (bs & Hbs & -> & [Hn1 Hn2]). apply WriteVarInt_sound in Hbs; [|done].
    by apply ReadVarInt_enc; [|lia].
Qed.

Lemma varint_bijection_witness :
  ReadVarInt (2 ^ 32 - 1) [0x82; 0xFE; 0x7F; 9] = Ok (65535, [9]).
Proof.
  destruct (varint_bijection 32 65535 [0x82; 0xFE; 0x7F; 9] [9]) as (_ & _ & H).
  - lia.
  - repeat constructor; done.
  - apply H. exists [0x82; 0xFE; 0x7F]. repeat split; reflexivity || (intros ?; discriminate).
Defined.

(** Reading a byte vector block by block is reading its announced size at
    once, on every input and including the failures, and gives back the vector
    that was written. *)
Theorem byte_vector_blocks s v rest :
  wf_bytes s -> Z.of_nat (length v) <= MAX_SIZE ->
  unser_byte_vector s = (ReadCompactSize true ≫= stream_read) s
  /\ unser_byte_vector (ser_byte_vector v ++ rest) = Ok (v, rest).
Proof.
  intros Hs Hv. split; [by apply unser_byte_vector_eq|by apply unser_ser_byte_vector].
Qed.

Lemma byte_vector_blocks_witness :
  unser_byte_vector [2; 7] = Err "DataStream::read(): end of data"
  /\ unser_byte_vector [2; 7; 8; 9] = Ok ([7; 8], [9]).
Proof.
  destruct (byte_vector_blocks [2; 7] [7; 8] [9]) as [H1 H2].
  - repeat constructor; done.
  - done.
  - split; [rewrite H1; reflexivity|exact H2].
Defined.
