(* ===== verification/ArithUint256.v ===== *)
(** Big unsigned integers: [base_uint] and [arith_uint256] of
    src/bitcoin/src/arith_uint256.{h,cpp}.  A number is its list of 32-bit limbs
    [pn], least significant first; [uval] is the integer they denote, and the
    lemmas say that each limb algorithm computes the arithmetic operation
    modulo [2^BITS]. *)

From S2P Require Import Prelude.

Abbreviation limbs := (list Z).

Definition wf_limbs (pn : limbs) : Prop := Forall (is_uint 32) pn.

#[global] Instance wf_limbs_dec pn : Decision (wf_limbs pn).
Proof. unfold wf_limbs. apply _. Defined.

(** The integer denoted by the limbs. *)
Fixpoint uval (pn : limbs) : Z :=
  match pn with
  | [] => 0
  | x :: pn => x + 2 ^ 32 * uval pn
  end.

Definition nbits (pn : limbs) : Z := 32 * Z.of_nat (length pn).

(** * Operations of [base_uint] *)

(** [base_uint(uint64_t)] and [operator=(uint64_t)]. *)
Definition of_u64 (WIDTH : nat) (b : Z) : limbs :=
  take WIDTH (u32 b :: u32 (Z.shiftr b 32) :: replicate (WIDTH - 2) 0).

Definition not32 (x : Z) : Z := 0xffffffff - x.

Definition uint_not (pn : limbs) : limbs := not32 <$> pn.

Definition uint_xor (a b : limbs) : limbs := zip_with Z.lxor a b.
Definition uint_and (a b : limbs) : limbs := zip_with Z.land a b.
Definition uint_or (a b : limbs) : limbs := zip_with Z.lor a b.

(** [operator++]: stop at the first limb that does not wrap to zero. *)
Fixpoint uint_incr (pn : limbs) : limbs :=
  match pn with
  | [] => []
  | x :: pn =>
      let x := u32 (x + 1) in
      if x =? 0 then x :: uint_incr pn else x :: pn
  end.

(** [operator--]. *)
Fixpoint uint_decr (pn : limbs) : limbs :=
  match pn with
  | [] => []
  | x :: pn =>
      let x := u32 (x - 1) in
      if x =? 0xffffffff then x :: uint_decr pn else x :: pn
  end.

(** Unary minus. *)
Definition uint_neg (pn : limbs) : limbs := uint_incr (uint_not pn).

Fixpoint add_loop (carry : Z) (a b : limbs) : limbs :=
  match a, b with
  | x :: a, y :: b =>
      let n := u64 (carry + x + y) in
      Z.land n 0xffffffff :: add_loop (Z.shiftr n 32) a b
  | _, _ => []
  end.

Definition uint_add (a b : limbs) : limbs := add_loop 0 a b.
Definition uint_sub (a b : limbs) : limbs := uint_add a (uint_neg b).

Fixpoint mul32_loop (carry b32 : Z) (a : limbs) : limbs :=
  match a with
  | [] => []
  | x :: a =>
      let n := u64 (carry + b32 * x) in
      Z.land n 0xffffffff :: mul32_loop (Z.shiftr n 32) b32 a
  end.

(** [operator*=(uint32_t)]. *)
Definition uint_mul32 (a : limbs) (b32 : Z) : limbs := mul32_loop 0 b32 a.

(** The inner loop of [operator*=]: [a] holds the limbs [a.pn[j..WIDTH)]. *)
Fixpoint mul_inner (carry x : Z) (a b : limbs) : limbs :=
  match a, b with
  | p :: a, y :: b =>
      let n := u64 (carry + p + x * y) in
      Z.land n 0xffffffff :: mul_inner (Z.shiftr n 32) x a b
  | _, _ => []
  end.

(** The outer loop, over the limbs of [*this]; limb [j] of [a] is final after
    its iteration, the next one works on the limbs above it. *)
Fixpoint mul_outer (pn a b : limbs) : limbs :=
  match pn with
  | [] => a
  | x :: pn =>
      match mul_inner 0 x a b with
      | [] => []
      | h :: t => h :: mul_outer pn t b
      end
  end.

Definition uint_mul (a b : limbs) : limbs := mul_outer a (replicate (length a) 0) b.

Definition or_limb (i : nat) (v : Z) (pn : limbs) : limbs := alter (fun x => Z.lor x v) i pn.

(** One iteration of [operator<<=], with [shift = 32 * k + s]. *)
Definition shl_step (WIDTH k : nat) (s : Z) (a : limbs) (pn : limbs) (i : nat) : limbs :=
  let pn := if decide (i + k + 1 < WIDTH)%nat then
              if s =? 0 then pn
              else or_limb (i + k + 1) (Z.shiftr (nth i a 0) (32 - s)) pn
            else pn in
  if decide (i + k < WIDTH)%nat then or_limb (i + k) (u32 (Z.shiftl (nth i a 0) s)) pn else pn.

Definition uint_shl (a : limbs) (shift : Z) : limbs :=
  let WIDTH := length a in
  foldl (shl_step WIDTH (Z.to_nat (shift / 32)) (shift mod 32) a) (replicate WIDTH 0) (seq 0 WIDTH).

(** One iteration of [operator>>=]. *)
Definition shr_step (k : nat) (s : Z) (a : limbs) (pn : limbs) (i : nat) : limbs :=
  let pn := if decide (k + 1 <= i)%nat then
              if s =? 0 then pn
              else or_limb (i - k - 1) (u32 (Z.shiftl (nth i a 0) (32 - s))) pn
            else pn in
  if decide (k <= i)%nat then or_limb (i - k) (Z.shiftr (nth i a 0) s) pn else pn.

Definition uint_shr (a : limbs) (shift : Z) : limbs :=
  let WIDTH := length a in
  foldl (shr_step (Z.to_nat (shift / 32)) (shift mod 32) a) (replicate WIDTH 0) (seq 0 WIDTH).

(** [CompareTo]: from the most significant limb down. *)
Fixpoint compare_loop (a b : limbs) : Z :=
  match a, b with
  | x :: a, y :: b => if x <? y then -1 else if y <? x then 1 else compare_loop a b
  | _, _ => 0
  end.

Definition CompareTo (a b : limbs) : Z := compare_loop (rev a) (rev b).

Definition uint_gt (a b : limbs) : bool := 0 <? CompareTo a b.
Definition uint_lt (a b : limbs) : bool := CompareTo a b <? 0.
Definition uint_ge (a b : limbs) : bool := 0 <=? CompareTo a b.

Definition EqualTo (pn : limbs) (b : Z) : bool :=
  forallb (fun x => x =? 0) (drop 2 pn)
  && (nth 1 pn 0 =? Z.shiftr b 32) && (nth 0 pn 0 =? Z.land b 0xffffffff).

(** The inner loop of [bits]: [nbits] from 31 down to 1. *)
Fixpoint top_bit (nbits : nat) (x : Z) : Z :=
  match nbits with
  | O => 1
  | S k => if Z.land x (Z.shiftl 1 (Z.of_nat nbits)) =? 0 then top_bit k x
           else Z.of_nat nbits + 1
  end.

(** The outer loop, on the limbs from the most significant one down. *)
Fixpoint bits_loop (a : limbs) : Z :=
  match a with
  | [] => 0
  | x :: a => if x =? 0 then bits_loop a else 32 * Z.of_nat (length a) + top_bit 31 x
  end.

Definition bits (pn : limbs) : Z := bits_loop (rev pn).

Definition GetLow64 (pn : limbs) : Z := Z.lor (nth 0 pn 0) (Z.shiftl (nth 1 pn 0) 32).

(** The loop of [operator/=]; one unit of fuel per value of [shift]. *)
Fixpoint div_loop (fuel : nat) (shift : Z) (num div pn : limbs) : limbs :=
  match fuel with
  | O => pn
  | S fuel =>
      if shift <? 0 then pn
      else
        let '(num, pn) :=
          if uint_ge num div
          then (uint_sub num div,
                or_limb (Z.to_nat (shift / 32)) (Z.shiftl 1 (Z.land shift 31)) pn)
          else (num, pn) in
        div_loop fuel (shift - 1) num (uint_shr div 1) pn
  end.

Definition uint_div (a b : limbs) : result string limbs :=
  let zero := replicate (length a) 0 in
  let num_bits := bits a in
  let div_bits := bits b in
  if div_bits =? 0 then Err "Division by zero"
  else if num_bits <? div_bits then Ok zero
  else
    let shift := num_bits - div_bits in
    Ok (div_loop (Z.to_nat (shift + 1)) shift a (uint_shl b shift) zero).

(** * [arith_uint256] *)

Definition WIDTH256 : nat := 8.

Definition arith_u64 (b : Z) : limbs := of_u64 WIDTH256 b.

(** [SetCompact]: the value, [pfNegative] and [pfOverflow]. *)
Definition SetCompact (nCompact : Z) : limbs * bool * bool :=
  let nSize := Z.shiftr nCompact 24 in
  let nWord := Z.land nCompact 0x007fffff in
  let '(nWord, v) :=
    if nSize <=? 3 then
      let nWord := Z.shiftr nWord (8 * (3 - nSize)) in (nWord, arith_u64 nWord)
    else (nWord, uint_shl (arith_u64 nWord) (8 * (nSize - 3))) in
  let fNegative := negb (nWord =? 0) && negb (Z.land nCompact 0x00800000 =? 0) in
  let fOverflow := negb (nWord =? 0)
    && ((34 <? nSize) || ((0xff <? nWord) && (33 <? nSize)) || ((0xffff <? nWord) && (32 <? nSize))) in
  (v, fNegative, fOverflow).

(** The mantissa and size [GetCompact] computes before it assembles them. *)
Definition compact_parts (v : limbs) : Z * Z :=
  let nSize := (bits v + 7) / 8 in
  let nCompact :=
    if nSize <=? 3 then u32 (Z.shiftl (GetLow64 v) (8 * (3 - nSize)))
    else u32 (GetLow64 (uint_shr v (8 * (nSize - 3)))) in
  if Z.land nCompact 0x00800000 =? 0 then (nCompact, nSize)
  else (Z.shiftr nCompact 8, nSize + 1).

(** [GetCompact]; [None] where one of its two assertions fails. *)
Definition GetCompact (v : limbs) (fNegative : bool) : option Z :=
  let '(nCompact, nSize) := compact_parts v in
  if negb (Z.land nCompact (not32 0x007fffff) =? 0) || negb (nSize <? 256) then None
  else
    let nCompact := Z.lor nCompact (Z.shiftl nSize 24) in
    Some (Z.lor nCompact
      (if fNegative && negb (Z.land nCompact 0x007fffff =? 0) then 0x00800000 else 0)).

(** Conversions to and from the 32-byte blob [uint256]. *)
Definition ArithToUint256 (a : limbs) : bytes := flat_map (le_bytes 4) a.

Fixpoint read_limbs (n : nat) (a : bytes) : limbs :=
  match n with
  | O => []
  | S n => le_val (take 4 a) :: read_limbs n (drop 4 a)
  end.

Definition UintToArith256 (a : bytes) : limbs := read_limbs WIDTH256 a.

(** * Values *)

Lemma nbits_cons x pn : nbits (x :: pn) = 32 + nbits pn.
Proof. unfold nbits. simpl length. lia. Qed.

Lemma nbits_nonneg pn : 0 <= nbits pn.
Proof. unfold nbits. lia. Qed.

Lemma pow_nbits_cons x pn : 2 ^ nbits (x :: pn) = 2 ^ 32 * 2 ^ nbits pn.
Proof. rewrite nbits_cons. apply Z.pow_add_r; [done|apply nbits_nonneg]. Qed.

Lemma pow_nbits_pos pn : 0 < 2 ^ nbits pn.
Proof. apply pow2_pos, nbits_nonneg. Qed.

Lemma uval_bound pn : wf_limbs pn -> is_uint (nbits pn) (uval pn).
Proof.
  unfold is_uint. induction 1 as [|x pn Hx Hpn IH]; [done|].
  rewrite pow_nbits_cons. unfold is_uint in Hx. cbn [uval]. lia.
Qed.

Lemma uval_inj a b : wf_limbs a -> wf_limbs b -> length a = length b -> uval a = uval b -> a = b.
Proof.
  intros Ha. revert b. induction Ha as [|x a Hx Ha IH]; intros [|y b] Hb Hlen E; try done.
  inversion Hb as [|? ? Hy Hb']; subst. cbn [uval] in E. unfold is_uint in *.
  assert (x = y) as -> by lia. f_equal. apply IH; [done|by inversion Hlen|lia].
Qed.

Lemma uval_replicate n : uval (replicate n 0) = 0.
Proof. induction n; cbn [replicate uval]; lia. Qed.

Lemma wf_replicate n : wf_limbs (replicate n 0).
Proof. apply Forall_replicate. done. Qed.

Lemma wf_limbs_nth a i : wf_limbs a -> is_uint 32 (nth i a 0).
Proof.
  intros Ha. destruct (nth_in_or_default i a 0) as [H| ->]; [|done].
  unfold wf_limbs in Ha. rewrite Forall_forall in Ha. by apply Ha.
Qed.

#[export] Hint Resolve wf_replicate wf_limbs_nth pow_nbits_pos nbits_nonneg : btc.

Lemma low_high32 n : 0 <= n -> Z.land n 0xffffffff = n mod 2 ^ 32 /\ Z.shiftr n 32 = n / 2 ^ 32.
Proof.
  intros. change 0xffffffff with (2 ^ 32 - 1). rewrite land_mask by lia.
  by rewrite Z.shiftr_div_pow2 by lia.
Qed.

(** A limb and its carry, put back together. *)
Lemma carry_split n X M :
  0 < M -> n mod 2 ^ 32 + 2 ^ 32 * ((n / 2 ^ 32 + X) mod M) = (n + 2 ^ 32 * X) mod (2 ^ 32 * M).
Proof.
  intros HM. rewrite (Z.rem_mul_r (n + 2 ^ 32 * X)) by lia. f_equal.
  - rewrite Z.mul_comm, Z.mod_add by lia. done.
  - do 2 f_equal. rewrite Z.mul_comm, Z.div_add by lia. done.
Qed.

(** * Multiplication and addition *)

Lemma mul_inner_length carry x a b :
  (length a <= length b)%nat -> length (mul_inner carry x a b) = length a.
Proof.
  revert carry b. induction a as [|p a IH]; intros carry [|y b] H; simpl in *; try lia.
  rewrite IH; lia.
Qed.

Lemma mul_inner_spec carry x a b :
  is_uint 32 carry -> is_uint 32 x -> wf_limbs a -> wf_limbs b -> (length a <= length b)%nat ->
  uval (mul_inner carry x a b) = (carry + uval a + x * uval b) mod 2 ^ nbits a
  /\ wf_limbs (mul_inner carry x a b).
Proof.
  intros Hc Hx Ha. revert carry b Hc. induction Ha as [|p a Hp Ha IH]; intros carry b Hc Hb Hlen.
  - cbn. split; [|constructor]. by rewrite Z.mod_1_r.
  - destruct Hb as [|y b Hy Hb]; [simpl in Hlen; lia|].
    cbn [mul_inner uval]. unfold is_uint in *. set (n := u64 _).
    assert (n = carry + p + x * y) as Hn.
    { apply wrap_small. unfold is_uint. nia. }
    destruct (low_high32 n) as [-> ->]; [nia|].
    destruct (IH (n / 2 ^ 32) b) as [-> Hwf]; [|done|simpl in Hlen; lia|].
    { split; [apply Z.div_pos; nia|apply Z.div_lt_upper_bound; nia]. }
    split.
    + rewrite pow_nbits_cons, <- Z.add_assoc, carry_split by auto with btc. f_equal. lia.
    + constructor; [apply Z.mod_pos_bound; lia|done].
Qed.

Lemma add_loop_mul_inner carry a b : add_loop carry a b = mul_inner carry 1 a b.
Proof.
  revert carry b. induction a as [|x a IH]; intros carry [|y b]; [done..|].
  cbn [add_loop mul_inner]. rewrite Z.mul_1_l. by rewrite IH.
Qed.

Lemma mul32_loop_mul_inner carry b32 a :
  mul32_loop carry b32 a = mul_inner carry b32 (replicate (length a) 0) a.
Proof.
  revert carry. induction a as [|x a IH]; intros carry; [done|].
  cbn [mul32_loop mul_inner length replicate]. rewrite Z.add_0_r. by rewrite IH.
Qed.

Lemma uint_add_spec a b :
  wf_limbs a -> wf_limbs b -> length a = length b ->
  uval (uint_add a b) = (uval a + uval b) mod 2 ^ nbits a
  /\ wf_limbs (uint_add a b) /\ length (uint_add a b) = length a.
Proof.
  intros Ha Hb Hlen. unfold uint_add. rewrite add_loop_mul_inner.
  destruct (mul_inner_spec 0 1 a b) as [-> ?]; [done..|lia|].
  rewrite Z.mul_1_l. split; [f_equal; lia|]. split; [done|]. apply mul_inner_length. lia.
Qed.

Lemma nbits_length a b : length a = length b -> nbits a = nbits b.
Proof. unfold nbits. by intros ->. Qed.

Lemma uint_mul32_spec a b32 :
  wf_limbs a -> is_uint 32 b32 ->
  uval (uint_mul32 a b32) = (uval a * b32) mod 2 ^ nbits a
  /\ wf_limbs (uint_mul32 a b32) /\ length (uint_mul32 a b32) = length a.
Proof.
  intros Ha Hb. unfold uint_mul32. rewrite mul32_loop_mul_inner.
  destruct (mul_inner_spec 0 b32 (replicate (length a) 0) a) as [-> ?];
    [done|done|apply wf_replicate|done|by rewrite length_replicate|].
  rewrite uval_replicate. rewrite (nbits_length _ a) by apply length_replicate.
  split; [f_equal; lia|]. split; [done|].
  rewrite mul_inner_length; rewrite length_replicate; done.
Qed.

Lemma mul_outer_spec pn a b :
  wf_limbs pn -> wf_limbs a -> wf_limbs b -> length pn = length a -> (length a <= length b)%nat ->
  uval (mul_outer pn a b) = (uval a + uval pn * uval b) mod 2 ^ nbits a
  /\ wf_limbs (mul_outer pn a b) /\ length (mul_outer pn a b) = length a.
Proof.
  intros Hpn. revert a. induction Hpn as [|x pn Hx Hpn IH]; intros a Ha Hb Hlen Hlb.
  - destruct a; [|done]. cbn. split; [by rewrite Z.mod_1_r|]. split; [constructor|done].
  - destruct a as [|p a]; [done|]. cbn [mul_outer].
    destruct (mul_inner_spec 0 x (p :: a) b) as [Hv Hwf]; [done..|].
    pose proof (mul_inner_length 0 x (p :: a) b Hlb) as Hl.
    destruct (mul_inner 0 x (p :: a) b) as [|h t]; [done|].
    inversion Hwf as [|? ? Hh Ht]; subst. simpl in Hl, Hlen, Hlb.
    destruct (IH t Ht Hb ltac:(lia) ltac:(lia)) as (Hv2 & Hwf2 & Hl2).
    cbn [uval length] in *. rewrite Hv2. rewrite (nbits_length t a) by lia.
    split; [|split; [by constructor|lia]].
    rewrite pow_nbits_cons in *. set (M := 2 ^ nbits a) in *.
    assert (0 < M) by apply pow_nbits_pos.
    assert (h mod 2 ^ 32 = h /\ h / 2 ^ 32 = 0) as [E1 E2].
    { unfold is_uint in Hh. by rewrite Z.mod_small, Z.div_small. }
    rewrite <- E1 at 1.
    rewrite <- (Z.add_0_l (uval t + _)), <- E2, carry_split by done.
    rewrite Z.mul_add_distr_l, Z.add_assoc, Hv, Z.add_mod_idemp_l by lia. f_equal. lia.
Qed.

Lemma uint_mul_spec a b :
  wf_limbs a -> wf_limbs b -> length a = length b ->
  uval (uint_mul a b) = (uval a * uval b) mod 2 ^ nbits a
  /\ wf_limbs (uint_mul a b) /\ length (uint_mul a b) = length a.
Proof.
  intros Ha Hb Hlen. unfold uint_mul.
  destruct (mul_outer_spec a (replicate (length a) 0) b) as (-> & ? & ->);
    [done|apply wf_replicate|done|by rewrite length_replicate|rewrite length_replicate; lia|].
  rewrite uval_replicate, (nbits_length _ a), length_replicate by apply length_replicate. done.
Qed.

(** * Complement, increment and subtraction *)

Lemma uint_not_spec a :
  wf_limbs a -> uval (uint_not a) = 2 ^ nbits a - 1 - uval a
  /\ wf_limbs (uint_not a) /\ length (uint_not a) = length a.
Proof.
  induction 1 as [|x a Hx Ha (IH1 & IH2 & IH3)]; [repeat split; constructor|].
  unfold uint_not in *. rewrite fmap_cons. cbn [uval length]. rewrite IH1, pow_nbits_cons, IH3.
  unfold not32, is_uint in *. split; [lia|]. split; [|done]. constructor; [unfold is_uint; lia|done].
Qed.

Lemma uint_incr_spec a :
  wf_limbs a -> uval (uint_incr a) = (uval a + 1) mod 2 ^ nbits a
  /\ wf_limbs (uint_incr a) /\ length (uint_incr a) = length a.
Proof.
  induction 1 as [|x a Hx Ha (IH1 & IH2 & IH3)]; [repeat split; constructor|]. cbn [uint_incr].
  pose proof (uval_bound a Ha) as Hb. unfold is_uint in Hx, Hb. rewrite pow_nbits_cons. cbn [uval].
  destruct (decide (x = 2 ^ 32 - 1)) as [->|Hne].
  - change (u32 (2 ^ 32 - 1 + 1)) with 0. rewrite Z.eqb_refl. cbn [uval length]. rewrite IH1, IH3.
    split; [|split; [by constructor|done]].
    replace (2 ^ 32 - 1 + 2 ^ 32 * uval a + 1) with (2 ^ 32 * (uval a + 1)) by lia.
    rewrite Z.mul_mod_distr_l by (try lia; pose proof (pow_nbits_pos a); lia). lia.
  - assert (u32 (x + 1) = x + 1) as -> by (apply wrap_small; unfold is_uint; lia).
    rewrite (proj2 (Z.eqb_neq _ _)) by lia. cbn [uval length].
    split; [|split; [constructor; [unfold is_uint; lia|done]|done]].
    rewrite Z.mod_small by lia. lia.
Qed.

Lemma uint_decr_spec a :
  wf_limbs a -> uval (uint_decr a) = (uval a - 1) mod 2 ^ nbits a
  /\ wf_limbs (uint_decr a) /\ length (uint_decr a) = length a.
Proof.
  induction 1 as [|x a Hx Ha (IH1 & IH2 & IH3)]; [repeat split; constructor|]. cbn [uint_decr].
  pose proof (uval_bound a Ha) as Hb. unfold is_uint in Hx, Hb. rewrite pow_nbits_cons. cbn [uval].
  pose proof (pow_nbits_pos a). destruct (decide (x = 0)) as [->|Hne].
  - change (u32 (0 - 1)) with 0xffffffff. cbn [uval length]. rewrite Z.eqb_refl. cbn [uval length].
    rewrite IH1, IH3. split; [|split; [by constructor|done]].
    replace (0 + 2 ^ 32 * uval a - 1) with (0xffffffff + 2 ^ 32 * (uval a - 1)) by lia.
    rewrite <- carry_split by done. change (0xffffffff / 2 ^ 32) with 0. by rewrite Z.add_0_l.
  - assert (u32 (x - 1) = x - 1) as -> by (apply wrap_small; unfold is_uint; lia).
    rewrite (proj2 (Z.eqb_neq _ _)) by lia. cbn [uval length].
    split; [|split; [constructor; [unfold is_uint; lia|done]|done]].
    rewrite Z.mod_small by lia. lia.
Qed.

Lemma uint_neg_spec a :
  wf_limbs a -> uval (uint_neg a) = (- uval a) mod 2 ^ nbits a
  /\ wf_limbs (uint_neg a) /\ length (uint_neg a) = length a.
Proof.
  intros Ha. destruct (uint_not_spec a Ha) as (H1 & H2 & H3).
  destruct (uint_incr_spec _ H2) as (H4 & H5 & H6). unfold uint_neg.
  rewrite H4, H1, H6, (nbits_length _ _ H3). split; [|done].
  replace (_ - 1 - _ + 1) with (- uval a + 1 * 2 ^ nbits a) by lia.
  by rewrite Z.mod_add by (pose proof (pow_nbits_pos a); lia).
Qed.

Lemma uint_sub_spec a b :
  wf_limbs a -> wf_limbs b -> length a = length b ->
  uval (uint_sub a b) = (uval a - uval b) mod 2 ^ nbits a
  /\ wf_limbs (uint_sub a b) /\ length (uint_sub a b) = length a.
Proof.
  intros Ha Hb Hlen. destruct (uint_neg_spec b Hb) as (H1 & H2 & H3). unfold uint_sub.
  destruct (uint_add_spec a (uint_neg b)) as (H4 & H5 & H6); [done|done|lia|].
  rewrite H4, H1, (nbits_length b a) by done. split; [|done].
  by rewrite Z.add_mod_idemp_r by (pose proof (pow_nbits_pos a); lia).
Qed.

(** * Comparison *)

Lemma uval_app a b : uval (a ++ b) = uval a + 2 ^ nbits a * uval b.
Proof.
  induction a as [|x a IH]; [change (2 ^ nbits []) with 1; cbn [app uval]; lia|]. rewrite pow_nbits_cons. cbn [app uval]. rewrite IH. lia.
Qed.

Lemma wf_limbs_rev a : wf_limbs a -> wf_limbs (rev a).
Proof. intros H. by apply Forall_rev. Qed.

Lemma compare_loop_spec a b :
  wf_limbs a -> wf_limbs b -> length a = length b ->
  compare_loop a b = match uval (rev a) ?= uval (rev b) with Lt => -1 | Eq => 0 | Gt => 1 end.
Proof.
  intros Ha. revert b. induction Ha as [|x a Hx Ha IH]; intros b Hb Hlen; [by destruct b|].
  destruct Hb as [|y b Hy Hb]; [done|]. cbn [compare_loop rev]. rewrite !uval_app. cbn [uval].
  assert (length (rev a) = length (rev b)) as Hr by (rewrite !length_rev; by inversion Hlen).
  rewrite (nbits_length _ _ Hr).
  pose proof (uval_bound _ (wf_limbs_rev _ Ha)) as B1. pose proof (uval_bound _ (wf_limbs_rev _ Hb)) as B2.
  rewrite (nbits_length _ _ Hr) in B1. unfold is_uint in *. set (M := 2 ^ nbits (rev b)) in *.
  destruct (Z.ltb_spec x y); [|destruct (Z.ltb_spec y x)].
  - rewrite (proj2 (Z.compare_lt_iff _ _)) by nia. done.
  - rewrite (proj2 (Z.compare_gt_iff _ _)) by nia. done.
  - assert (x = y) as -> by lia. rewrite IH by (done || by inversion Hlen).
    destruct (Z.compare_spec (uval (rev a)) (uval (rev b)));
      destruct (Z.compare_spec (uval (rev a) + M * (y + 2 ^ 32 * 0)) (uval (rev b) + M * (y + 2 ^ 32 * 0)));
      done || lia.
Qed.

Lemma CompareTo_spec a b :
  wf_limbs a -> wf_limbs b -> length a = length b ->
  CompareTo a b = match uval a ?= uval b with Lt => -1 | Eq => 0 | Gt => 1 end.
Proof.
  intros Ha Hb Hlen. unfold CompareTo.
  rewrite compare_loop_spec by (try apply wf_limbs_rev; rewrite ?length_rev; done).
  by rewrite !rev_involutive.
Qed.

Section Comparisons.
Context (a b : limbs).
Hypotheses (Ha : wf_limbs a) (Hb : wf_limbs b) (Hlen : length a = length b).

Lemma uint_gt_spec : uint_gt a b = (uval b <? uval a).
Proof.
  unfold uint_gt. rewrite CompareTo_spec by done. rewrite (Z.ltb_compare (uval b)), (Z.compare_antisym (uval a)).
  by destruct (uval a ?= uval b).
Qed.

Lemma uint_lt_spec : uint_lt a b = (uval a <? uval b).
Proof.
  unfold uint_lt. rewrite CompareTo_spec by done. rewrite (Z.ltb_compare (uval a)).
  by destruct (uval a ?= uval b).
Qed.

Lemma uint_ge_spec : uint_ge a b = (uval b <=? uval a).
Proof.
  unfold uint_ge. rewrite CompareTo_spec by done.
  rewrite (Z.leb_compare (uval b)), (Z.compare_antisym (uval a)).
  by destruct (uval a ?= uval b).
Qed.
End Comparisons.

Lemma uval_zero_forallb a :
  wf_limbs a -> forallb (fun x => x =? 0) a = (uval a =? 0).
Proof.
  induction 1 as [|x a Hx Ha IH]; [done|]. cbn [forallb uval]. rewrite IH.
  pose proof (uval_bound a Ha) as [??]. unfold is_uint in Hx.
  destruct (Z.eqb_spec x 0), (Z.eqb_spec (uval a) 0), (Z.eqb_spec (x + 2 ^ 32 * uval a) 0); simpl; lia.
Qed.

Lemma EqualTo_spec a b :
  wf_limbs a -> (2 <= length a)%nat -> is_uint 64 b -> EqualTo a b = (uval a =? b).
Proof.
  intros Ha Hlen Hb. destruct Ha as [|x a Hx Ha]; [simpl in Hlen; lia|].
  destruct Ha as [|y a Hy Ha]; [simpl in Hlen; lia|]. unfold EqualTo. cbn [drop nth uval].
  rewrite drop_0, uval_zero_forallb by done. unfold is_uint in *.
  destruct (low_high32 b) as [-> ->]; [lia|].
  pose proof (Z.div_mod b (2 ^ 32)). pose proof (Z.mod_pos_bound b (2 ^ 32)).
  pose proof (uval_bound a Ha) as [??].
  destruct (Z.eqb_spec (uval a) 0), (Z.eqb_spec y (b / 2 ^ 32)), (Z.eqb_spec x (b mod 2 ^ 32)),
    (Z.eqb_spec (x + 2 ^ 32 * (y + 2 ^ 32 * uval a)) b); try done; exfalso; lia.
Qed.

(** * Bits *)

Lemma testbit_uval a i :
  wf_limbs a -> 0 <= i ->
  Z.testbit (uval a) i = Z.testbit (nth (Z.to_nat (i / 32)) a 0) (i mod 32).
Proof.
  intros Ha. revert i. induction Ha as [|x a Hx Ha IH]; intros i Hi.
  - cbn [uval nth]. destruct (Z.to_nat _); by rewrite !Z.testbit_0_l.
  - cbn [uval]. rewrite Z.mul_comm, <- lor_pow2_add by (done || lia).
    rewrite Z.lor_spec, Z.mul_pow2_bits by lia. destruct (decide (i < 32)).
    + rewrite Z.div_small, Z.mod_small, (Z.testbit_neg_r _ (i - 32)), orb_false_r by lia. done.
    + rewrite (testbit_small 32 x i), orb_false_l, IH by (done || lia).
      replace i with ((i - 32) + 1 * 32) at 3 4 by lia.
      rewrite Z.div_add, Z.mod_add by lia.
      replace (Z.to_nat ((i - 32) / 32 + 1)) with (S (Z.to_nat ((i - 32) / 32)))
        by (pose proof (Z.div_pos (i - 32) 32); lia). done.
Qed.

Lemma top_bit_spec n x :
  0 < x < 2 ^ (Z.of_nat n + 1) -> top_bit n x = Z.log2 x + 1.
Proof.
  revert x. induction n as [|n IH]; intros x Hx; cbn [top_bit].
  - assert (x = 1) as -> by (simpl in Hx; lia). done.
  - rewrite Z.shiftl_1_l, land_pow2, testbit_top by (unfold is_uint; lia).
    assert (0 < 2 ^ Z.of_nat (S n)) by (apply pow2_pos; lia).
    destruct (Z.leb_spec (2 ^ Z.of_nat (S n)) x).
    + rewrite (proj2 (Z.eqb_neq _ _)) by (simpl Z.b2z; lia).
      f_equal. symmetry. apply Z.log2_unique; [lia|]. rewrite <- Z.add_1_r. lia.
    + rewrite (proj2 (Z.eqb_eq _ _)) by done. apply IH. split; [lia|].
      by replace (Z.of_nat n + 1) with (Z.of_nat (S n)) by lia.
Qed.

(** The number of bits of a value, as [bits] counts them. *)
Definition bitlen (v : Z) : Z := if v =? 0 then 0 else Z.log2 v + 1.

Lemma bits_loop_spec a :
  wf_limbs a -> bits_loop a = bitlen (uval (rev a)).
Proof.
  induction 1 as [|x a Hx Ha IH]; [done|]. cbn [bits_loop rev]. rewrite uval_app. cbn [uval].
  pose proof (uval_bound _ (wf_limbs_rev _ Ha)) as Hb.
  assert (nbits (rev a) = 32 * Z.of_nat (length a)) as Hn by (unfold nbits; by rewrite length_rev).
  rewrite Hn in *. unfold is_uint in *. destruct (Z.eqb_spec x 0) as [->|Hne].
  - rewrite IH. do 2 f_equal. lia.
  - rewrite top_bit_spec by (change (Z.of_nat 31 + 1) with 32; lia). unfold bitlen.
    set (k := 32 * Z.of_nat (length a)) in *.
    assert (0 < 2 ^ k) by (apply pow2_pos; lia).
    rewrite (proj2 (Z.eqb_neq _ _)) by nia.
    assert (Z.log2 (uval (rev a) + 2 ^ k * (x + 2 ^ 32 * 0)) = k + Z.log2 x) as ->; [|lia].
    pose proof (Z.log2_spec x) as [L1 L2]; [lia|]. pose proof (Z.log2_nonneg x).
    apply Z.log2_unique; [lia|]. rewrite <- Z.add_succ_r, !Z.pow_add_r by lia. nia.
Qed.

Lemma bits_spec a : wf_limbs a -> bits a = bitlen (uval a).
Proof.
  intros. unfold bits. rewrite bits_loop_spec by by apply wf_limbs_rev. by rewrite rev_involutive.
Qed.

(** * Shifts *)

Lemma length_or_limb i v pn : length (or_limb i v pn) = length pn.
Proof. apply length_alter. Qed.

Lemma nth_or_limb i v pn j :
  (i < length pn)%nat ->
  nth j (or_limb i v pn) 0 = if decide (i = j) then Z.lor (nth j pn 0) v else nth j pn 0.
Proof.
  intros Hi. unfold or_limb. rewrite !nth_lookup. case_decide as Hd.
  - subst j. rewrite list_lookup_alter_eq || rewrite list_lookup_alter.
    destruct (pn !! i) eqn:E; [done|]. apply lookup_ge_None in E. lia.
  - by rewrite list_lookup_alter_ne.
Qed.

Lemma nth_replicate_0 n j : nth j (replicate n 0) 0 = 0.
Proof. rewrite nth_lookup. destruct (replicate n 0 !! j) eqn:E; [|done]. by apply lookup_replicate in E as [-> _]. Qed.

(** The parts of limb [j] that come from the first [m] limbs of [a]. *)
Definition shl_lo (k : nat) (s : Z) (a : limbs) (m j : nat) : Z :=
  if decide (k <= j < k + m)%nat then u32 (Z.shiftl (nth (j - k) a 0) s) else 0.
Definition shl_hi (k : nat) (s : Z) (a : limbs) (m j : nat) : Z :=
  if s =? 0 then 0 else
  if decide (k + 1 <= j < k + 1 + m)%nat then Z.shiftr (nth (j - k - 1) a 0) (32 - s) else 0.

Lemma shl_loop_spec W k s a m :
  (m <= W)%nat ->
  let pn := foldl (shl_step W k s a) (replicate W 0) (seq 0 m) in
  length pn = W /\ forall j, (j < W)%nat -> nth j pn 0 = Z.lor (shl_lo k s a m j) (shl_hi k s a m j).
Proof.
  intros Hm. induction m as [|m IH].
  - simpl. split; [apply length_replicate|]. intros j Hj. rewrite nth_replicate_0.
    unfold shl_lo, shl_hi. repeat case_decide; try lia. by destruct (s =? 0).
  - cbv zeta in *. destruct IH as [IHl IHn]; [lia|]. rewrite seq_S, foldl_app.
    simpl foldl at 1 3. set (pn := foldl _ _ _) in *. change (0 + m)%nat with m.
    assert (length (shl_step W k s a pn m) = W) as Hl.
    { unfold shl_step. repeat case_decide; destruct (s =? 0); rewrite ?length_or_limb; done. }
    split; [done|]. intros j Hj. unfold shl_step.
    set (pn1 := if decide (m + k + 1 < W)%nat then _ else pn).
    assert (length pn1 = W) as Hl1.
    { unfold pn1. case_decide; destruct (s =? 0); rewrite ?length_or_limb; done. }
    assert (nth j pn1 0 = if decide (m + k + 1 = j)%nat
                          then Z.lor (nth j pn 0) (shl_hi k s a (S m) j) else nth j pn 0) as H1.
    { unfold pn1, shl_hi. destruct (s =? 0).
      - repeat case_decide; by rewrite ?Z.lor_0_r.
      - repeat case_decide; rewrite ?nth_or_limb by lia; repeat case_decide; try lia; try done.
        do 3 f_equal. lia. }
    assert (shl_hi k s a (S m) j = if decide (m + k + 1 = j)%nat then shl_hi k s a (S m) j
                                   else shl_hi k s a m j) as H2.
    { unfold shl_hi. destruct (s =? 0); repeat case_decide; try lia; done. }
    assert (shl_hi k s a m (m + k + 1) = 0) as H3.
    { unfold shl_hi. rewrite decide_False by lia. by destruct (s =? 0). }
    assert (shl_lo k s a m (m + k) = 0) as H4 by (unfold shl_lo; by rewrite decide_False by lia).
    assert (shl_lo k s a (S m) j = if decide (m + k = j)%nat
                                   then u32 (Z.shiftl (nth m a 0) s) else shl_lo k s a m j) as H5.
    { unfold shl_lo. repeat case_decide; try lia; try done. do 3 f_equal. lia. }
    rewrite H2, H5. rewrite (IHn j Hj) in H1. clear H2 H5 IHn.
    destruct (decide (m + k + 1 = j)%nat), (decide (m + k = j)%nat), (decide (m + k < W)%nat); try lia;
      rewrite ?nth_or_limb by lia; rewrite ?decide_True by done; rewrite ?decide_False by done;
      rewrite ?H1; try subst j; rewrite ?H3, ?H4, ?Z.lor_0_l, ?Z.lor_0_r; try done.
    apply Z.lor_comm.
Qed.

Lemma shl_limb_wf k s a m j :
  wf_limbs a -> 0 <= s < 32 -> is_uint 32 (Z.lor (shl_lo k s a m j) (shl_hi k s a m j)).
Proof.
  intros Ha Hs. apply lor_is_uint; [lia|..].
  - unfold shl_lo. case_decide; [by apply wrap_range|done].
  - unfold shl_hi. destruct (s =? 0); [done|]. case_decide; [|done].
    pose proof (wf_limbs_nth a (j - k - 1) Ha) as [H1 H2]. rewrite Z.shiftr_div_pow2 by lia.
    assert (0 < 2 ^ (32 - s)) by (apply pow2_pos; lia).
    split; [apply Z.div_pos; lia|apply Z.div_lt_upper_bound; nia].
Qed.

Lemma wf_limbs_from_nth a : (forall j, (j < length a)%nat -> is_uint 32 (nth j a 0)) -> wf_limbs a.
Proof.
  intros H. apply Forall_lookup. intros i x Hx. specialize (H i (lookup_lt_Some _ _ _ Hx)).
  by rewrite nth_lookup, Hx in H.
Qed.

Lemma nbits_limb (i : Z) (W : nat) : 0 <= i -> i < 32 * Z.of_nat W <-> (Z.to_nat (i / 32) < W)%nat.
Proof.
  intros Hi. pose proof (Z.div_mod i 32). pose proof (Z.mod_pos_bound i 32).
  pose proof (Z.div_pos i 32). lia.
Qed.

Lemma uint_shl_spec a shift :
  wf_limbs a -> 0 <= shift ->
  uval (uint_shl a shift) = (uval a * 2 ^ shift) mod 2 ^ nbits a
  /\ wf_limbs (uint_shl a shift) /\ length (uint_shl a shift) = length a.
Proof.
  intros Ha Hs. unfold uint_shl.
  destruct (shl_loop_spec (length a) (Z.to_nat (shift / 32)) (shift mod 32) a (length a)) as [Hl Hn]; [done|].
  set (pn := foldl _ _ _) in *. set (k := Z.to_nat (shift / 32)) in *. set (s := shift mod 32) in *.
  assert (0 <= s < 32) by (apply Z.mod_pos_bound; lia).
  assert (wf_limbs pn) as Hwf.
  { apply wf_limbs_from_nth. intros j Hj. rewrite Hn by lia. by apply shl_limb_wf. }
  split; [|done]. apply Z.bits_inj'. intros i Hi.
  rewrite testbit_uval by done.
  destruct (decide (i < nbits a)) as [Hlt|Hge].
  2:{ rewrite Z.mod_pow2_bits_high by (pose proof (nbits_nonneg a); lia).
      rewrite nth_overflow; [apply Z.testbit_0_l|].
      pose proof (nbits_limb i (length a) Hi). unfold nbits in *. lia. }
  rewrite Z.mod_pow2_bits_low, Z.mul_pow2_bits by done.
  pose proof (proj1 (nbits_limb i (length a) Hi) Hlt) as Hj. rewrite Hn by done.
  pose proof (Z.div_mod i 32 ltac:(lia)) as Ei. pose proof (Z.mod_pos_bound i 32 ltac:(lia)).
  pose proof (Z.div_mod shift 32 ltac:(lia)) as Es. fold s in Es.
  pose proof (Z.div_pos i 32 ltac:(lia) ltac:(lia)). pose proof (Z.div_pos shift 32 ltac:(lia) ltac:(lia)).
  set (j := i / 32) in *. set (b := i mod 32) in *. rewrite Z.lor_spec.
  assert (forall q r, 0 <= q -> 0 <= r < 32 -> i - shift = 32 * q + r ->
    Z.testbit (uval a) (i - shift) = Z.testbit (nth (Z.to_nat q) a 0) r) as Hbit.
  { intros q r Hq Hr E. rewrite testbit_uval by (done || lia).
    rewrite <- (Z.div_unique_pos (i - shift) 32 q r), <- (Z.mod_unique_pos (i - shift) 32 q r) by lia. done. }
  unfold shl_lo, shl_hi. unfold k in *. destruct (Z.leb_spec s b).
  - assert (Z.testbit (if s =? 0 then 0 else if decide (Z.to_nat (shift / 32) + 1 <= Z.to_nat j < Z.to_nat (shift / 32) + 1 + length a)%nat
       then Z.shiftr (nth (Z.to_nat j - Z.to_nat (shift / 32) - 1) a 0) (32 - s) else 0) b = false) as ->.
    { destruct (s =? 0); [apply Z.testbit_0_l|]. case_decide; [|apply Z.testbit_0_l].
      rewrite Z.shiftr_spec by lia. apply (testbit_small 32); [by apply wf_limbs_nth|lia]. }
    rewrite orb_false_r. case_decide as Hd.
    + unfold wrap. rewrite Z.mod_pow2_bits_low, Z.shiftl_spec by lia.
      rewrite (Hbit (j - shift / 32) (b - s)) by lia. do 2 f_equal. lia.
    + rewrite Z.testbit_0_l. symmetry. destruct (decide (i < shift)); [apply Z.testbit_neg_r; lia|lia].
  - assert (Z.testbit (if decide (Z.to_nat (shift / 32) <= Z.to_nat j < Z.to_nat (shift / 32) + length a)%nat
       then u32 (Z.shiftl (nth (Z.to_nat j - Z.to_nat (shift / 32)) a 0) s) else 0) b = false) as ->.
    { case_decide; [|apply Z.testbit_0_l]. unfold wrap.
      rewrite Z.mod_pow2_bits_low, Z.shiftl_spec by lia. apply Z.testbit_neg_r. lia. }
    rewrite orb_false_l, (proj2 (Z.eqb_neq s 0)) by lia. case_decide as Hd.
    + rewrite Z.shiftr_spec by lia. rewrite (Hbit (j - shift / 32 - 1) (b + (32 - s))) by lia.
      do 2 f_equal. lia.
    + rewrite Z.testbit_0_l. symmetry. destruct (decide (i < shift)); [apply Z.testbit_neg_r; lia|lia].
Qed.

Definition shr_lo (k : nat) (s : Z) (a : limbs) (m j : nat) : Z :=
  if decide (j + k < m)%nat then Z.shiftr (nth (j + k) a 0) s else 0.
Definition shr_hi (k : nat) (s : Z) (a : limbs) (m j : nat) : Z :=
  if s =? 0 then 0 else
  if decide (j + k + 1 < m)%nat then u32 (Z.shiftl (nth (j + k + 1) a 0) (32 - s)) else 0.

Lemma shr_loop_spec W k s a m :
  (m <= W)%nat ->
  let pn := foldl (shr_step k s a) (replicate W 0) (seq 0 m) in
  length pn = W /\ forall j, (j < W)%nat -> nth j pn 0 = Z.lor (shr_lo k s a m j) (shr_hi k s a m j).
Proof.
  intros Hm. induction m as [|m IH].
  - simpl. split; [apply length_replicate|]. intros j Hj. rewrite nth_replicate_0.
    unfold shr_lo, shr_hi. repeat case_decide; try lia. by destruct (s =? 0).
  - cbv zeta in *. destruct IH as [IHl IHn]; [lia|]. rewrite seq_S, foldl_app.
    simpl foldl at 1 3. set (pn := foldl _ _ _) in *. change (0 + m)%nat with m.
    assert (length (shr_step k s a pn m) = W) as Hl.
    { unfold shr_step. repeat case_decide; destruct (s =? 0); rewrite ?length_or_limb; done. }
    split; [done|]. intros j Hj. unfold shr_step.
    set (pn1 := if decide (k + 1 <= m)%nat then _ else pn).
    assert (length pn1 = W) as Hl1.
    { unfold pn1. case_decide; destruct (s =? 0); rewrite ?length_or_limb; done. }
    assert (nth j pn1 0 = if decide (j + k + 1 = m)%nat
                          then Z.lor (nth j pn 0) (shr_hi k s a (S m) j) else nth j pn 0) as H1.
    { unfold pn1, shr_hi. destruct (s =? 0).
      - repeat case_decide; by rewrite ?Z.lor_0_r.
      - repeat case_decide; rewrite ?nth_or_limb by lia; repeat case_decide; try lia; try done.
        do 4 f_equal. lia. }
    assert (shr_hi k s a (S m) j = if decide (j + k + 1 = m)%nat then shr_hi k s a (S m) j
                                   else shr_hi k s a m j) as H2.
    { unfold shr_hi. destruct (s =? 0); repeat case_decide; try lia; done. }
    assert ((j + k + 1 = m)%nat -> shr_hi k s a m j = 0) as H3.
    { intros ?. unfold shr_hi. rewrite decide_False by lia. by destruct (s =? 0). }
    assert ((j + k = m)%nat -> shr_lo k s a m j = 0) as H4
      by (intros ?; unfold shr_lo; by rewrite decide_False by lia).
    assert (shr_lo k s a (S m) j = if decide (j + k = m)%nat
                                   then Z.shiftr (nth m a 0) s else shr_lo k s a m j) as H5.
    { unfold shr_lo. repeat case_decide; try lia; try done. do 2 f_equal. lia. }
    rewrite H2, H5. rewrite (IHn j Hj) in H1. clear H2 H5 IHn.
    destruct (decide (k <= m)%nat); [rewrite nth_or_limb by lia|];
      destruct (decide (j + k + 1 = m)%nat), (decide (j + k = m)%nat); try lia;
      rewrite ?decide_False by lia; rewrite ?decide_True by lia; rewrite H1, ?H3, ?H4 by lia;
      rewrite ?Z.lor_0_l, ?Z.lor_0_r; try done. apply Z.lor_comm.
Qed.

Lemma shr_limb_wf k s a m j :
  wf_limbs a -> 0 <= s < 32 -> is_uint 32 (Z.lor (shr_lo k s a m j) (shr_hi k s a m j)).
Proof.
  intros Ha Hs. apply lor_is_uint; [lia|..].
  - unfold shr_lo. case_decide; [|done].
    pose proof (wf_limbs_nth a (j + k) Ha) as [H1 H2]. rewrite Z.shiftr_div_pow2 by lia.
    assert (0 < 2 ^ s) by (apply pow2_pos; lia).
    split; [apply Z.div_pos; lia|apply Z.div_lt_upper_bound; nia].
  - unfold shr_hi. destruct (s =? 0); [done|]. case_decide; [by apply wrap_range|done].
Qed.

Lemma uint_shr_spec a shift :
  wf_limbs a -> 0 <= shift ->
  uval (uint_shr a shift) = uval a / 2 ^ shift
  /\ wf_limbs (uint_shr a shift) /\ length (uint_shr a shift) = length a.
Proof.
  intros Ha Hs. unfold uint_shr.
  destruct (shr_loop_spec (length a) (Z.to_nat (shift / 32)) (shift mod 32) a (length a)) as [Hl Hn]; [done|].
  set (pn := foldl _ _ _) in *. set (s := shift mod 32) in *.
  assert (0 <= s < 32) by (apply Z.mod_pos_bound; lia).
  assert (wf_limbs pn) as Hwf.
  { apply wf_limbs_from_nth. intros j Hj. rewrite Hn by lia. by apply shr_limb_wf. }
  split; [|done]. rewrite <- Z.shiftr_div_pow2 by done. apply Z.bits_inj'. intros i Hi.
  rewrite Z.shiftr_spec, !testbit_uval by (done || lia).
  pose proof (Z.div_mod i 32 ltac:(lia)). pose proof (Z.mod_pos_bound i 32 ltac:(lia)).
  pose proof (Z.div_mod shift 32 ltac:(lia)) as Es. fold s in Es.
  pose proof (Z.div_pos i 32 ltac:(lia) ltac:(lia)). pose proof (Z.div_pos shift 32 ltac:(lia) ltac:(lia)).
  set (j := i / 32) in *. set (b := i mod 32) in *. set (k := shift / 32) in *.
  assert (forall q r, 0 <= r < 32 -> i + shift = 32 * q + r ->
    nth (Z.to_nat ((i + shift) / 32)) a 0 = nth (Z.to_nat q) a 0 /\ (i + shift) mod 32 = r) as Hq.
  { intros q r Hr E. rewrite <- (Z.div_unique_pos (i + shift) 32 q r), <- (Z.mod_unique_pos (i + shift) 32 q r) by lia.
    done. }
  assert (Z.testbit (nth (Z.to_nat j) pn 0) b
          = Z.testbit (Z.lor (shr_lo (Z.to_nat k) s a (length a) (Z.to_nat j))
                             (shr_hi (Z.to_nat k) s a (length a) (Z.to_nat j))) b) as ->.
  { destruct (decide (Z.to_nat j < length a)%nat); [by rewrite Hn|].
    rewrite nth_overflow by lia. unfold shr_lo, shr_hi. rewrite !decide_False by lia.
    by destruct (s =? 0). }
  rewrite Z.lor_spec. unfold shr_lo, shr_hi. destruct (Z.ltb_spec (b + s) 32).
  - destruct (Hq (j + k) (b + s)) as [-> ->]; [lia|lia|].
    match goal with |- _ || Z.testbit ?X b = _ => assert (Z.testbit X b = false) as -> end.
    { destruct (s =? 0); [apply Z.testbit_0_l|]. case_decide; [|apply Z.testbit_0_l].
      unfold wrap. rewrite Z.mod_pow2_bits_low, Z.shiftl_spec by lia. apply Z.testbit_neg_r. lia. }
    rewrite orb_false_r. replace (Z.to_nat (j + k)) with (Z.to_nat j + Z.to_nat k)%nat by lia.
    case_decide; [by rewrite Z.shiftr_spec by lia|]. rewrite nth_overflow by lia. by rewrite !Z.testbit_0_l.
  - destruct (Hq (j + k + 1) (b + s - 32)) as [-> ->]; [lia|lia|].
    match goal with |- Z.testbit ?X b || _ = _ => assert (Z.testbit X b = false) as -> end.
    { case_decide; [|apply Z.testbit_0_l]. rewrite Z.shiftr_spec by lia.
      apply (testbit_small 32); [by apply wf_limbs_nth|lia]. }
    rewrite orb_false_l, (proj2 (Z.eqb_neq s 0)) by lia.
    replace (Z.to_nat (j + k + 1)) with (Z.to_nat j + Z.to_nat k + 1)%nat by lia.
    case_decide.
    + unfold wrap. rewrite Z.mod_pow2_bits_low, Z.shiftl_spec by lia. f_equal. lia.
    + rewrite nth_overflow by lia. by rewrite !Z.testbit_0_l.
Qed.

(** * Division *)

Lemma uval_or_limb i v pn :
  wf_limbs pn -> is_uint 32 v -> (i < length pn)%nat ->
  uval (or_limb i v pn) = Z.lor (uval pn) (v * 2 ^ (32 * Z.of_nat i)) /\ wf_limbs (or_limb i v pn).
Proof.
  intros Hpn Hv. revert i. induction Hpn as [|x pn Hx Hpn IH]; intros i Hi; [simpl in Hi; lia|].
  destruct i as [|i].
  - change (or_limb 0 v (x :: pn)) with (Z.lor x v :: pn). cbn [uval].
    change (2 ^ (32 * Z.of_nat 0)) with 1. rewrite Z.mul_1_r, !(Z.mul_comm (2 ^ 32)).
    rewrite <- !lor_pow2_add by (try apply lor_is_uint; done || lia).
    split; [|constructor; [by apply lor_is_uint|done]].
    by rewrite <- !Z.lor_assoc, (Z.lor_comm v).
  - change (or_limb (S i) v (x :: pn)) with (x :: or_limb i v pn). cbn [uval].
    destruct (IH i) as [-> Hwf]; [simpl in Hi; lia|]. split; [|by constructor].
    rewrite !(Z.mul_comm (2 ^ 32)), <- !lor_pow2_add by (done || lia).
    rewrite <- !Z.shiftl_mul_pow2 by lia. rewrite Z.shiftl_lor, Z.shiftl_shiftl by lia.
    rewrite Z.lor_assoc. do 2 f_equal. lia.
Qed.

Lemma set_result_bit pn s :
  wf_limbs pn -> 0 <= s < nbits pn -> uval pn mod 2 ^ (s + 1) = 0 ->
  let pn' := or_limb (Z.to_nat (s / 32)) (Z.shiftl 1 (Z.land s 31)) pn in
  uval pn' = uval pn + 2 ^ s /\ wf_limbs pn' /\ length pn' = length pn.
Proof.
  intros Hpn Hs Hz. cbv zeta. change 31 with (2 ^ 5 - 1). rewrite land_mask by lia.
  change (2 ^ 5) with 32. rewrite Z.shiftl_1_l.
  pose proof (Z.div_mod s 32 ltac:(lia)). pose proof (Z.mod_pos_bound s 32 ltac:(lia)).
  pose proof (Z.div_pos s 32 ltac:(lia) ltac:(lia)).
  destruct (uval_or_limb (Z.to_nat (s / 32)) (2 ^ (s mod 32)) pn) as [-> Hwf]; [done|..].
  - split; [apply Z.pow_nonneg; lia|apply Z.pow_lt_mono_r; lia].
  - pose proof (nbits_limb s (length pn)). unfold nbits in Hs. lia.
  - split; [|split; [done|apply length_or_limb]].
    rewrite Z2Nat.id, <- Z.pow_add_r by lia. replace (s mod 32 + 32 * (s / 32)) with s by lia.
    apply Z.mod_divide in Hz as [q ->]; [|apply Z.pow_nonzero; lia].
    rewrite Z.lor_comm, lor_pow2_add; [lia|lia|].
    split; [apply Z.pow_nonneg; lia|apply Z.pow_lt_mono_r; lia].
Qed.

Lemma div_loop_spec fuel shift D num div pn :
  0 < D -> -1 <= shift < nbits pn -> Z.of_nat fuel = shift + 1 ->
  wf_limbs num -> wf_limbs div -> wf_limbs pn -> length num = length pn -> length div = length pn ->
  (0 <= shift -> uval div = D * 2 ^ shift) ->
  uval num < D * 2 ^ (shift + 1) -> uval pn mod 2 ^ (shift + 1) = 0 ->
  let r := div_loop fuel shift num div pn in
  uval r = uval pn + uval num / D /\ wf_limbs r /\ length r = length pn.
Proof.
  intros HD. revert shift num div pn.
  induction fuel as [|fuel IH]; intros shift num div pn Hs Hf Hnum Hdiv Hpn Hl1 Hl2 Ediv Hlt Hz.
  - assert (shift = -1) as -> by lia. change (-1 + 1) with 0 in Hlt. rewrite Z.mul_1_r in Hlt.
    pose proof (uval_bound num Hnum) as [??]. cbn. rewrite Z.div_small by lia. split; [lia|done].
  - cbn [div_loop]. rewrite (proj2 (Z.ltb_ge _ _)) by lia. rewrite uint_ge_spec by (done || congruence).
    specialize (Ediv ltac:(lia)). set (P := 2 ^ shift) in *.
    assert (0 < P) by (apply pow2_pos; lia).
    assert (2 ^ (shift + 1) = 2 * P) as EP by (rewrite Z.pow_add_r by lia; change (2 ^ 1) with 2; lia).
    destruct (uint_shr_spec div 1 Hdiv ltac:(lia)) as (Vs & Ws & Ls).
    assert (0 <= shift - 1 -> uval (uint_shr div 1) = D * 2 ^ (shift - 1)) as Ediv'.
    { intros ?. rewrite Vs, Ediv. unfold P. replace shift with (shift - 1 + 1) at 1 by lia.
      rewrite Z.pow_add_r, Z.mul_assoc, Z.div_mul by (lia || done). done. }
    pose proof (uval_bound num Hnum) as [? HB].
    destruct (uval div <=? uval num) eqn:E; bool_props.
    + destruct (uint_sub_spec num div) as (V1 & W1 & L1); [done..|congruence|].
      rewrite Z.mod_small in V1 by (pose proof (uval_bound div Hdiv) as [??]; lia).
      destruct (set_result_bit pn shift) as (V2 & W2 & L2); [done|lia|done|].
      destruct (IH (shift - 1) (uint_sub num div) (uint_shr div 1)
        (or_limb (Z.to_nat (shift / 32)) (Z.shiftl 1 (Z.land shift 31)) pn)) as (V & W & L);
        try done; try lia; try congruence.
      * rewrite (nbits_length _ _ L2). lia.
      * replace (shift - 1 + 1) with shift by lia. fold P. lia.
      * replace (shift - 1 + 1) with shift by lia. fold P. rewrite V2.
        apply Z.mod_divide in Hz as [q Hq]; [|lia]. rewrite Hq, EP.
        replace (q * (2 * P) + 2 ^ shift) with ((2 * q + 1) * P) by (fold P; lia). apply Z.mod_mul. lia.
      * split; [|split; [done|congruence]]. rewrite V, V1, V2, Ediv. fold P.
        replace (uval num - D * P) with (uval num + - P * D) by lia. rewrite Z.div_add by lia. lia.
    + destruct (IH (shift - 1) num (uint_shr div 1) pn) as (V & W & L);
        try done; try lia; try congruence.
      * replace (shift - 1 + 1) with shift by lia. fold P. lia.
      * replace (shift - 1 + 1) with shift by lia. fold P.
        apply Z.mod_divide in Hz as [q Hq]; [|lia]. rewrite Hq, EP, Z.mul_assoc. apply Z.mod_mul. lia.
Qed.

Lemma bitlen_bound v : 0 <= v -> 0 <= bitlen v /\ v < 2 ^ bitlen v /\ (0 < v -> 2 ^ (bitlen v - 1) <= v).
Proof.
  intros Hv. unfold bitlen. destruct (Z.eqb_spec v 0) as [->|Hne]; [simpl; lia|].
  pose proof (Z.log2_spec v) as [L1 L2]; [lia|]. pose proof (Z.log2_nonneg v).
  rewrite <- Z.add_1_r in L2. replace (Z.log2 v + 1 - 1) with (Z.log2 v) by lia. lia.
Qed.

Lemma bitlen_le v n : 0 <= n -> is_uint n v -> bitlen v <= n.
Proof.
  intros Hn [H1 H2]. unfold bitlen. destruct (Z.eqb_spec v 0); [done|].
  assert (Z.log2 v < n) by (apply Z.log2_lt_pow2; lia). lia.
Qed.

Lemma uint_div_spec a b :
  wf_limbs a -> wf_limbs b -> length a = length b ->
  uint_div a b = Err "Division by zero" /\ uval b = 0
  \/ exists q, uint_div a b = Ok q /\ uval b <> 0 /\ uval q = uval a / uval b
               /\ wf_limbs q /\ length q = length a.
Proof.
  intros Ha Hb Hlen. unfold uint_div. rewrite !bits_spec by done.
  pose proof (uval_bound a Ha) as Ba. pose proof (uval_bound b Hb) as Bb.
  destruct (bitlen_bound (uval a)) as (A1 & A2 & A3); [by destruct Ba|].
  destruct (bitlen_bound (uval b)) as (B1 & B2 & B3); [by destruct Bb|].
  unfold is_uint in Ba, Bb. destruct (Z.eqb_spec (bitlen (uval b)) 0) as [E|E].
  - left. split; [done|]. rewrite E in B2. simpl in B2. lia.
  - assert (uval b <> 0) by (intros E'; apply E; by rewrite E').
    right. destruct (Z.ltb_spec (bitlen (uval a)) (bitlen (uval b))).
    + eexists. split; [done|]. rewrite uval_replicate, length_replicate.
      split; [done|]. split; [|auto with btc]. rewrite Z.div_small; [done|].
      assert (2 ^ bitlen (uval a) <= 2 ^ (bitlen (uval b) - 1)) by (apply Z.pow_le_mono_r; lia). lia.
    + set (shift := bitlen (uval a) - bitlen (uval b)).
      assert (bitlen (uval a) <= nbits a) by (apply bitlen_le; [apply nbits_nonneg|done]).
      destruct (uint_shl_spec b shift) as (V & W & L); [done|lia|].
      assert (uval b * 2 ^ shift < 2 ^ bitlen (uval a)).
      { replace (bitlen (uval a)) with (bitlen (uval b) + shift) by lia.
        rewrite Z.pow_add_r by lia. apply Z.mul_lt_mono_pos_r; [apply pow2_pos; lia|done]. }
      assert (2 ^ bitlen (uval a) <= 2 ^ nbits a) by (apply Z.pow_le_mono_r; lia).
      assert (0 < 2 ^ shift) by (apply pow2_pos; lia).
      rewrite Z.mod_small in V by (rewrite (nbits_length b a) by done; nia).
      destruct (div_loop_spec (Z.to_nat (shift + 1)) shift (uval b) a (uint_shl b shift)
        (replicate (length a) 0)) as (V2 & W2 & L2); rewrite ?length_replicate; auto with btc; try lia.
      * rewrite (nbits_length _ a) by apply length_replicate. lia.
      * assert (2 ^ (bitlen (uval b) - 1) * 2 ^ (shift + 1) <= uval b * 2 ^ (shift + 1))
          by (apply Z.mul_le_mono_nonneg_r; [apply Z.pow_nonneg|]; lia).
        rewrite <- Z.pow_add_r in * by lia.
        replace (bitlen (uval b) - 1 + (shift + 1)) with (bitlen (uval a)) in * by lia. lia.
      * by rewrite uval_replicate.
      * rewrite uval_replicate, length_replicate in *. eexists. split; [done|]. done.
Qed.

(** * Compact form *)

Lemma arith_u64_spec b :
  is_uint 64 b -> uval (arith_u64 b) = b /\ wf_limbs (arith_u64 b) /\ length (arith_u64 b) = WIDTH256.
Proof.
  intros [H1 H2]. unfold arith_u64, of_u64, WIDTH256.
  cbn [take Nat.sub replicate uval length]. unfold wrap. rewrite Z.shiftr_div_pow2 by lia.
  assert (b / 2 ^ 32 < 2 ^ 32) by (apply Z.div_lt_upper_bound; lia).
  pose proof (Z.div_pos b (2 ^ 32) ltac:(lia) ltac:(lia)).
  rewrite (Z.mod_small (b / 2 ^ 32)) by lia. pose proof (Z.div_mod b (2 ^ 32) ltac:(lia)).
  split; [lia|]. split; [|done].
  repeat constructor; try done; try lia; apply Z.mod_pos_bound; lia.
Qed.

Lemma GetLow64_spec a :
  wf_limbs a -> (2 <= length a)%nat -> GetLow64 a = uval a mod 2 ^ 64.
Proof.
  intros Ha Hl. destruct Ha as [|x a Hx Ha]; [simpl in Hl; lia|].
  destruct Ha as [|y a Hy Ha]; [simpl in Hl; lia|]. unfold GetLow64. cbn [nth uval].
  rewrite lor_shiftl_add by (done || lia). unfold is_uint in *.
  apply (Z.mod_unique_pos _ _ (uval a)); lia.
Qed.

(** The number a compact word stands for, before it is cut to 256 bits. *)
Definition compact_word (nCompact : Z) : Z :=
  let nSize := nCompact / 2 ^ 24 in
  let nWord := nCompact mod 2 ^ 23 in
  if nSize <=? 3 then nWord / 2 ^ (8 * (3 - nSize)) else nWord.

Definition compact_exact (nCompact : Z) : Z :=
  let nSize := nCompact / 2 ^ 24 in
  if nSize <=? 3 then compact_word nCompact else compact_word nCompact * 2 ^ (8 * (nSize - 3)).

Lemma compact_word_bound c : 0 <= c -> 0 <= compact_word c < 2 ^ 23.
Proof.
  intros Hc. unfold compact_word. pose proof (Z.mod_pos_bound c (2 ^ 23) ltac:(lia)).
  destruct (Z.leb_spec (c / 2 ^ 24) 3); [|lia].
  assert (0 < 2 ^ (8 * (3 - c / 2 ^ 24))) by (apply pow2_pos; lia).
  split; [apply Z.div_pos; lia|]. apply Z.div_lt_upper_bound; nia.
Qed.

Lemma compact_overflow_iff word nSize :
  0 <= word < 2 ^ 23 -> 3 < nSize ->
  negb (word =? 0) && ((34 <? nSize) || ((0xff <? word) && (33 <? nSize)) || ((0xffff <? word) && (32 <? nSize)))
  = (2 ^ 256 <=? word * 2 ^ (8 * (nSize - 3))).
Proof.
  intros Hw Hs. symmetry.
  assert (forall k, 0 <= k -> (k <= nSize - 3 -> 2 ^ (8 * k) <= 2 ^ (8 * (nSize - 3)))
                             /\ (nSize - 3 <= k -> 2 ^ (8 * (nSize - 3)) <= 2 ^ (8 * k))) as Hm.
  { intros k Hk. split; intros; apply Z.pow_le_mono_r; lia. }
  destruct (Hm 32 ltac:(lia)) as [M32 _]. destruct (Hm 31 ltac:(lia)) as [M31 N31].
  destruct (Hm 30 ltac:(lia)) as [M30 N30]. destruct (Hm 29 ltac:(lia)) as [_ N29].
  change (2 ^ (8 * 32)) with (2 ^ 256) in *. change (2 ^ (8 * 31)) with (2 ^ 248) in *.
  change (2 ^ (8 * 30)) with (2 ^ 240) in *. change (2 ^ (8 * 29)) with (2 ^ 232) in *.
  assert (0 < 2 ^ (8 * (nSize - 3))) by (apply pow2_pos; lia).
  set (P := 2 ^ (8 * (nSize - 3))) in *.
  destruct (Z.eqb_spec word 0), (Z.ltb_spec 34 nSize), (Z.ltb_spec 33 nSize), (Z.ltb_spec 32 nSize),
    (Z.ltb_spec 0xff word), (Z.ltb_spec 0xffff word); simpl; try lia;
    first [apply Z.leb_le; nia | apply Z.leb_gt; nia].
Qed.

Lemma SetCompact_spec nCompact :
  is_uint 32 nCompact ->
  let '(v, fNegative, fOverflow) := SetCompact nCompact in
  wf_limbs v /\ length v = WIDTH256 /\ uval v = compact_exact nCompact mod 2 ^ 256
  /\ fOverflow = (2 ^ 256 <=? compact_exact nCompact)
  /\ fNegative = negb (compact_word nCompact =? 0) && Z.testbit nCompact 23.
Proof.
  intros [H0 H1]. unfold SetCompact.
  pose proof (compact_word_bound nCompact H0) as Hb. unfold compact_exact.
  rewrite Z.shiftr_div_pow2 by lia. change 0x007fffff with (2 ^ 23 - 1). rewrite land_mask by lia.
  change 0x00800000 with (2 ^ 23). rewrite land_pow2 by lia.
  assert ((Z.b2z (Z.testbit nCompact 23) * 2 ^ 23 =? 0) = negb (Z.testbit nCompact 23)) as ->
    by by destruct (Z.testbit nCompact 23).
  rewrite negb_involutive. unfold compact_word in *. cbv zeta in *.
  set (nSize := nCompact / 2 ^ 24) in *. set (w0 := nCompact mod 2 ^ 23) in *.
  assert (0 <= nSize) by (apply Z.div_pos; lia).
  destruct (nSize <=? 3) eqn:E; bool_props.
  - rewrite Z.shiftr_div_pow2 by lia. set (w := w0 / _) in *.
    destruct (arith_u64_spec w) as (V & W & L); [unfold is_uint; lia|].
    split; [done|]. split; [done|]. split; [|split; [|done]].
    + rewrite V, Z.mod_small; [done|]. split; [lia|]. apply Z.lt_trans with (2 ^ 23); [lia|done].
    + rewrite !(proj2 (Z.ltb_ge _ nSize)) by lia. rewrite !andb_false_r. symmetry.
      apply Z.leb_gt. apply Z.lt_trans with (2 ^ 23); [lia|done].
  - destruct (arith_u64_spec w0) as (V & W & L); [unfold is_uint; lia|].
    destruct (uint_shl_spec (arith_u64 w0) (8 * (nSize - 3))) as (V2 & W2 & L2); [done|lia|].
    split; [done|]. split; [congruence|]. split; [|split; [|done]].
    + rewrite V2, V. f_equal.
    + apply compact_overflow_iff; lia.
Qed.

Lemma pow8_add a b : 0 <= a -> 0 <= b -> 2 ^ (8 * (a + b)) = 2 ^ (8 * a) * 2 ^ (8 * b).
Proof. intros. rewrite <- Z.pow_add_r by lia. f_equal. lia. Qed.

(** The byte length [GetCompact] starts from. *)
Lemma byte_length_bound V B n :
  B = bitlen V -> 0 <= V -> n = (B + 7) / 8 ->
  0 <= n /\ V < 2 ^ (8 * n) /\ (0 < n -> 2 ^ (8 * (n - 1)) <= V).
Proof.
  intros -> HV ->. destruct (bitlen_bound V HV) as (H1 & H2 & H3).
  pose proof (Z.div_mod (bitlen V + 7) 8 ltac:(lia)). pose proof (Z.mod_pos_bound (bitlen V + 7) 8 ltac:(lia)).
  split; [apply Z.div_pos; lia|]. split.
  - eapply Z.lt_le_trans; [exact H2|]. apply Z.pow_le_mono_r; lia.
  - intros Hn. assert (V <> 0) by (intros ->; change (bitlen 0) with 0 in *; lia).
    eapply Z.le_trans; [|apply H3; lia]. apply Z.pow_le_mono_r; lia.
Qed.

Lemma high_mantissa_bit m : 0 <= m < 2 ^ 24 -> (Z.land m 0x00800000 =? 0) = (m <? 2 ^ 23).
Proof.
  intros Hm. change 0x00800000 with (2 ^ 23). rewrite land_pow2, testbit_top by (done || lia).
  rewrite Z.ltb_antisym. by destruct (2 ^ 23 <=? m).
Qed.

Lemma compact_parts_spec v :
  wf_limbs v -> length v = WIDTH256 ->
  let '(m, size) := compact_parts v in
  0 <= m < 2 ^ 23 /\ 0 <= size <= 33
  /\ (size <= 3 -> m / 2 ^ (8 * (3 - size)) = uval v)
  /\ (3 < size -> m = uval v / 2 ^ (8 * (size - 3)) /\ 2 ^ 23 <= uval v / 2 ^ (8 * (size - 4))).
Proof.
  intros Hv Hl. unfold compact_parts. rewrite bits_spec by done.
  pose proof (uval_bound v Hv) as Hb. unfold nbits in Hb. rewrite Hl in Hb.
  change (32 * Z.of_nat WIDTH256) with 256 in Hb. set (V := uval v) in *.
  destruct (byte_length_bound V (bitlen V) ((bitlen V + 7) / 8) eq_refl ltac:(apply Hb) eq_refl) as (Hn & Hlt & Hge).
  assert ((bitlen V + 7) / 8 <= 32) as Hn32.
  { apply (bitlen_le V 256) in Hb; [|lia]. apply Z.lt_succ_r, Z.div_lt_upper_bound; lia. }
  set (n := (bitlen V + 7) / 8) in *. unfold is_uint in Hb.
  destruct (Z.leb_spec n 3) as [Hn3|Hn3].
  - rewrite GetLow64_spec by (done || rewrite Hl; unfold WIDTH256; lia). fold V.
    set (P := 2 ^ (8 * (3 - n))). assert (0 < P) by (apply pow2_pos; lia).
    assert (2 ^ (8 * n) * P = 2 ^ 24) as EP by (unfold P; rewrite <- pow8_add by lia; f_equal; lia).
    assert (0 < 2 ^ (8 * n)) by (apply pow2_pos; lia).
    rewrite (Z.mod_small V) by nia.
    rewrite Z.shiftl_mul_pow2 by lia. fold P. rewrite wrap_small by (unfold is_uint; nia).
    rewrite high_mantissa_bit by nia. destruct (Z.ltb_spec (V * P) (2 ^ 23)).
    + split; [nia|]. split; [lia|]. split; [intros _; by apply Z.div_mul; lia|lia].
    + rewrite Z.shiftr_div_pow2 by lia. split.
      { split; [apply Z.div_pos; nia|apply Z.div_lt_upper_bound; nia]. }
      split; [lia|]. split.
      * intros Hs. rewrite Z.div_div by (try apply Z.pow_nonzero; try apply pow2_pos; lia).
        rewrite <- Z.pow_add_r by lia. replace (8 + 8 * (3 - (n + 1))) with (8 * (3 - n)) by lia.
        fold P. apply Z.div_mul. lia.
      * intros Hs. assert (n = 3) as -> by lia. unfold P in *. change (2 ^ (8 * (3 - 3))) with 1 in *.
        rewrite Z.mul_1_r in *. split; [done|]. change (2 ^ (8 * (3 + 1 - 4))) with 1. by rewrite Z.div_1_r.
  - destruct (uint_shr_spec v (8 * (n - 3))) as (V1 & W1 & L1); [done|lia|].
    rewrite GetLow64_spec by (done || rewrite L1, Hl; unfold WIDTH256; lia). rewrite V1. fold V.
    set (P := 2 ^ (8 * (n - 3))). assert (0 < P) by (apply pow2_pos; lia).
    assert (2 ^ (8 * n) = 2 ^ 24 * P) as EP.
    { unfold P. change 24 with (8 * 3). rewrite <- pow8_add by lia. f_equal. lia. }
    assert (0 <= V / P < 2 ^ 24) as HM by (split; [apply Z.div_pos; lia|apply Z.div_lt_upper_bound; lia]).
    rewrite (Z.mod_small (V / P)) by lia. rewrite wrap_small by (unfold is_uint; lia).
    rewrite high_mantissa_bit by done. destruct (Z.ltb_spec (V / P) (2 ^ 23)).
    + split; [lia|]. split; [lia|]. split; [lia|]. intros _. split; [done|].
      apply Z.div_le_lower_bound; [apply pow2_pos; lia|]. eapply Z.le_trans; [|apply Hge; lia].
      rewrite Z.mul_comm. change (2 ^ 23) with (2 ^ (23 * 1)). rewrite <- Z.pow_add_r by lia.
      apply Z.pow_le_mono_r; lia.
    + rewrite Z.shiftr_div_pow2 by lia. split.
      { split; [apply Z.div_pos; lia|apply Z.div_lt_upper_bound; lia]. }
      split; [lia|]. split; [lia|]. intros _. split.
      * unfold P. rewrite Z.div_div, <- Z.pow_add_r by (try apply Z.pow_nonzero; try apply pow2_pos; lia).
        do 2 f_equal. lia.
      * replace (n + 1 - 4) with (n - 3) by lia. by fold P.
Qed.

(** [r] is [v] cut to a 23-bit mantissa times a power of 256, with the smallest
    exponent [k] that allows it. *)
Definition compact_rounded (v k r : Z) : Prop :=
  0 <= k /\ r = v / 2 ^ (8 * k) * 2 ^ (8 * k) /\ v / 2 ^ (8 * k) < 2 ^ 23
  /\ (k = 0 \/ 1 <= k /\ 2 ^ 23 <= v / 2 ^ (8 * (k - 1))).

Lemma GetCompact_spec v :
  wf_limbs v -> length v = WIDTH256 ->
  exists c k, GetCompact v false = Some c /\ is_uint 32 c /\ Z.testbit c 23 = false
              /\ compact_rounded (uval v) k (compact_exact c).
Proof.
  intros Hv Hl. pose proof (compact_parts_spec v Hv Hl) as Hp. unfold GetCompact.
  pose proof (uval_bound v Hv) as [HV _]. destruct (compact_parts v) as [m size].
  destruct Hp as (Hm & Hs & Hlo & Hhi).
  change (not32 0x007fffff) with (0x1ff * 2 ^ 23). rewrite land_disjoint by (done || lia).
  rewrite (proj2 (Z.ltb_lt size 256)) by lia. cbn [andb negb orb Z.eqb].
  rewrite Z.lor_0_r, lor_shiftl_add by (unfold is_uint; lia).
  set (c := m + size * 2 ^ 24).
  assert (c / 2 ^ 24 = size) as Ed by (symmetry; apply (Z.div_unique_pos _ _ _ m); lia).
  assert (c mod 2 ^ 23 = m) as Em by (symmetry; apply (Z.mod_unique_pos _ _ (2 * size)); lia).
  exists c, (Z.max 0 (size - 3)). split; [done|]. split; [unfold is_uint; lia|]. split.
  { replace c with (m + (2 * size) * 2 ^ 23) by lia. rewrite <- lor_pow2_add by (unfold is_uint; lia).
    rewrite Z.lor_spec, Z.mul_pow2_bits, Z.sub_diag, (testbit_small 23) by (unfold is_uint; lia).
    apply (Z.testbit_even_0 size). }
  unfold compact_rounded, compact_exact, compact_word. rewrite Ed, Em.
  destruct (Z.leb_spec size 3) as [Hle|Hgt].
  - replace (Z.max 0 (size - 3)) with 0 by lia. change (2 ^ (8 * 0)) with 1.
    rewrite (Hlo Hle), Z.div_1_r, Z.mul_1_r. split; [lia|]. split; [done|]. split; [|by left].
    rewrite <- (Hlo Hle). assert (0 < 2 ^ (8 * (3 - size))) by (apply pow2_pos; lia).
    apply Z.div_lt_upper_bound; nia.
  - replace (Z.max 0 (size - 3)) with (size - 3) by lia. destruct (Hhi ltac:(lia)) as [<- Hmin].
    split; [lia|]. split; [done|]. split; [lia|]. right. split; [lia|].
    by replace (size - 3 - 1) with (size - 4) by lia.
Qed.

(** Every number a compact word denotes is a 23-bit mantissa times a power of 256. *)
Lemma compact_exact_representable c :
  0 <= c -> exists m e, 0 <= m < 2 ^ 23 /\ 0 <= e /\ compact_exact c = m * 2 ^ (8 * e).
Proof.
  intros Hc. unfold compact_exact. pose proof (compact_word_bound c Hc).
  destruct (Z.leb_spec (c / 2 ^ 24) 3).
  - exists (compact_word c), 0. change (2 ^ (8 * 0)) with 1. rewrite Z.mul_1_r. split_and!; done || lia.
  - exists (compact_word c), (c / 2 ^ 24 - 3). split_and!; done || lia.
Qed.

Lemma compact_rounded_le v k r : 0 <= v -> compact_rounded v k r -> 0 <= r <= v.
Proof.
  intros Hv (Hk & -> & _). assert (0 < 2 ^ (8 * k)) by (apply pow2_pos; lia).
  pose proof (Z.div_mod v (2 ^ (8 * k)) ltac:(lia)). pose proof (Z.mod_pos_bound v (2 ^ (8 * k)) ltac:(lia)).
  pose proof (Z.div_pos v (2 ^ (8 * k)) ltac:(lia) ltac:(lia)). nia.
Qed.

(** The rounded number is the greatest representable one below. *)
Lemma compact_rounded_max v k r m e :
  0 <= v -> compact_rounded v k r -> 0 <= m < 2 ^ 23 -> 0 <= e -> m * 2 ^ (8 * e) <= v ->
  m * 2 ^ (8 * e) <= r.
Proof.
  intros Hv (Hk & -> & Hlt & Hmin) Hm He Hle.
  assert (0 < 2 ^ (8 * k)) by (apply pow2_pos; lia). assert (0 < 2 ^ (8 * e)) by (apply pow2_pos; lia).
  destruct (Z.le_gt_cases k e) as [Hke|Hke].
  - replace e with (k + (e - k)) in * by lia. rewrite pow8_add in * by lia.
    assert (m * 2 ^ (8 * (e - k)) <= v / 2 ^ (8 * k)) by (apply Z.div_le_lower_bound; [done|nia]). nia.
  - destruct Hmin as [-> | [Hk1 Hmin]]; [lia|].
    assert (2 ^ (8 * e) <= 2 ^ (8 * (k - 1))) by (apply Z.pow_le_mono_r; lia).
    assert (2 ^ (8 * k) = 2 ^ (8 * (k - 1)) * 2 ^ 8) as E.
    { replace k with ((k - 1) + 1) at 1 by lia. by rewrite pow8_add by lia. }
    assert (0 < 2 ^ (8 * (k - 1))) by (apply pow2_pos; lia).
    assert (2 ^ 15 <= v / 2 ^ (8 * k)).
    { rewrite E, <- Z.div_div by lia. apply Z.div_le_lower_bound; [lia|]. lia. }
    nia.
Qed.

(** Targets as the code passes them around: a 256-bit number and its compact form. *)
Definition wf256 (v : limbs) : Prop := wf_limbs v /\ length v = WIDTH256.

Lemma wf256_bound v : wf256 v -> is_uint 256 (uval v).
Proof.
  intros [Hv Hl]. apply uval_bound in Hv. unfold nbits in Hv. by rewrite Hl in Hv.
Qed.

Lemma wf256_nbits v : wf256 v -> nbits v = 256.
Proof. intros [_ Hl]. unfold nbits. by rewrite Hl. Qed.

(** Encoding to compact form and decoding again. *)
Definition compact_round (v : limbs) : limbs :=
  match GetCompact v false with
  | Some c => (SetCompact c).1.1
  | None => v
  end.

Lemma compact_round_spec v :
  wf256 v ->
  exists c k, GetCompact v false = Some c /\ is_uint 32 c
    /\ SetCompact c = (compact_round v, false, false) /\ wf256 (compact_round v)
    /\ uval (compact_round v) = compact_exact c /\ compact_rounded (uval v) k (compact_exact c).
Proof.
  intros [Hv Hl]. destruct (GetCompact_spec v Hv Hl) as (c & k & Hc & Hu & Hb & Hr).
  pose proof (SetCompact_spec c Hu) as Hs. unfold compact_round. rewrite Hc.
  destruct (SetCompact c) as [[t fn] fo] eqn:ES. destruct Hs as (W & L & V & -> & ->). simpl.
  pose proof (wf256_bound v (conj Hv Hl)) as [HV1 HV2].
  pose proof (compact_rounded_le _ _ _ HV1 Hr).
  exists c, k. rewrite ES, Hb, andb_false_r, (proj2 (Z.leb_gt _ _)) by lia.
  rewrite Z.mod_small in V by lia. done.
Qed.

Lemma compact_round_le v : wf256 v -> uval (compact_round v) <= uval v.
Proof.
  intros Hv. destruct (compact_round_spec v Hv) as (c & k & _ & _ & _ & _ & -> & Hr).
  pose proof (wf256_bound v Hv) as [? ?]. by apply (compact_rounded_le _ _ _ ltac:(done) Hr).
Qed.

Lemma compact_round_max v c :
  wf256 v -> is_uint 32 c -> compact_exact c <= uval v -> compact_exact c <= uval (compact_round v).
Proof.
  intros Hv [Hc _] Hle. destruct (compact_round_spec v Hv) as (c' & k & _ & _ & _ & _ & -> & Hr).
  destruct (compact_exact_representable c Hc) as (m & e & Hm & He & E). rewrite E in *.
  pose proof (wf256_bound v Hv) as [? ?]. by apply (compact_rounded_max (uval v) k).
Qed.

Lemma compact_round_mono u v :
  wf256 u -> wf256 v -> uval u <= uval v -> uval (compact_round u) <= uval (compact_round v).
Proof.
  intros Hu Hv Hle. pose proof (compact_round_le u Hu).
  destruct (compact_round_spec u Hu) as (c & k & _ & Hc & _ & _ & E & _). rewrite E in *.
  apply compact_round_max; [done|done|lia].
Qed.

(** ** Conversions *)

Lemma read_limbs_spec n a :
  wf_bytes a -> length a = (4 * n)%nat ->
  uval (read_limbs n a) = le_val a /\ wf_limbs (read_limbs n a) /\ length (read_limbs n a) = n
  /\ flat_map (le_bytes 4) (read_limbs n a) = a.
Proof.
  revert a. induction n as [|n IH]; intros a Ha Hl.
  - destruct a; [|done]. repeat split; constructor.
  - cbn [read_limbs uval length flat_map]. pose proof (take_drop 4 a) as E.
    assert (length (take 4 a) = 4%nat) as Ht by (rewrite length_take; lia).
    assert (wf_bytes (take 4 a) /\ wf_bytes (drop 4 a)) as [H1 H2]
      by (apply wf_bytes_app; by rewrite E).
    destruct (IH (drop 4 a) H2) as (V & W & L & F); [rewrite length_drop; lia|].
    pose proof (le_bytes_val (take 4 a) H1) as Eb. rewrite Ht in Eb. rewrite V, L, F, Eb.
    split_and!; [|constructor; [|done]|done|done].
    + rewrite <- E at 3. rewrite le_val_app, Ht. done.
    + apply le_val_bound in H1. by rewrite Ht in H1.
Qed.

Lemma UintToArith256_spec h :
  wf_bytes h -> length h = 32%nat ->
  wf256 (UintToArith256 h) /\ uval (UintToArith256 h) = le_val h
  /\ ArithToUint256 (UintToArith256 h) = h.
Proof.
  intros Hh Hl. destruct (read_limbs_spec WIDTH256 h Hh Hl) as (V & W & L & F). done.
Qed.

(** * Properties *)

(** What arithmetic on [n]-bit numbers promises, as operations on integers. *)
Record arith_spec (a b : limbs) (shift : Z) : Prop := {
  spec_add : uval (uint_add a b) = (uval a + uval b) mod 2 ^ nbits a;
  spec_sub : uval (uint_sub a b) = (uval a - uval b) mod 2 ^ nbits a;
  spec_mul : uval (uint_mul a b) = (uval a * uval b) mod 2 ^ nbits a;
  spec_incr : uval (uint_incr a) = (uval a + 1) mod 2 ^ nbits a;
  spec_decr : uval (uint_decr a) = (uval a - 1) mod 2 ^ nbits a;
  spec_neg : uval (uint_neg a) = (- uval a) mod 2 ^ nbits a;
  spec_not : uval (uint_not a) = 2 ^ nbits a - 1 - uval a;
  spec_shl : uval (uint_shl a shift) = (uval a * 2 ^ shift) mod 2 ^ nbits a;
  spec_shr : uval (uint_shr a shift) = uval a / 2 ^ shift;
  spec_compare : CompareTo a b = match uval a ?= uval b with Lt => -1 | Eq => 0 | Gt => 1 end;
  spec_bits : bits a = if uval a =? 0 then 0 else Z.log2 (uval a) + 1;
  spec_div :
    match uint_div a b with
    | Err e => e = "Division by zero" /\ uval b = 0
    | Ok q => uval b <> 0 /\ uval q = uval a / uval b
    end;
}.

(** C38: Every limb algorithm of [base_uint] computes the integer operation
    modulo [2^BITS], for numbers of any width: addition, subtraction, schoolbook
    multiplication, increment, decrement, negation, complement, both shifts,
    comparison, bit length, and shift-subtract division, which throws exactly on
    a zero divisor. *)
Theorem base_uint_refines_integers a b shift :
  wf_limbs a -> wf_limbs b -> length a = length b -> 0 <= shift -> arith_spec a b shift.
Proof.
  intros Ha Hb Hl Hs. constructor.
  - by apply uint_add_spec.
  - by apply uint_sub_spec.
  - by apply uint_mul_spec.
  - by apply uint_incr_spec.
  - by apply uint_decr_spec.
  - by apply uint_neg_spec.
  - by apply uint_not_spec.
  - by apply uint_shl_spec.
  - by apply uint_shr_spec.
  - by apply CompareTo_spec.
  - by apply bits_spec.
  - destruct (uint_div_spec a b Ha Hb Hl) as [[-> ?]|(q & -> & ? & ? & _)]; done.
Qed.

Lemma base_uint_refines_integers_witness :
  uval (uint_mul [0xffffffff; 7; 1] [0xffffffff; 1; 0]) = 276701161062693601281
  /\ uval (uint_shr [0xffffffff; 7; 1] 33) = 0x80000003.
Proof.
  destruct (base_uint_refines_integers [0xffffffff; 7; 1] [0xffffffff; 1; 0] 33) as [].
  - repeat constructor; done.
  - repeat constructor; done.
  - reflexivity.
  - lia.
  - rewrite spec_mul0, spec_shr0. vm_compute. split; reflexivity.
Defined.

(** [SetCompact] decodes every 32-bit word to mantissa times a power of 256:
    the stored value is that number modulo [2^256], the overflow flag is raised
    exactly when the number does not fit in 256 bits, and the negative flag
    exactly when the sign bit is set on a non-zero mantissa. *)
Theorem SetCompact_decodes nCompact :
  is_uint 32 nCompact ->
  let '(v, fNegative, fOverflow) := SetCompact nCompact in
  wf256 v /\ uval v = compact_exact nCompact mod 2 ^ 256
  /\ (fOverflow = true <-> 2 ^ 256 <= compact_exact nCompact)
  /\ (fNegative = true <-> compact_word nCompact <> 0 /\ Z.testbit nCompact 23 = true).
Proof.
  intros Hc. pose proof (SetCompact_spec nCompact Hc) as H.
  destruct (SetCompact nCompact) as [[v fn] fo]. destruct H as (W & L & V & -> & ->).
  split; [done|]. split; [done|]. split; [apply Z.leb_le|].
  rewrite andb_true_iff, negb_true_iff, Z.eqb_neq. done.
Qed.

Lemma SetCompact_decodes_witness :
  uval (SetCompact 0x1d00ffff).1.1 = 0xffff * 2 ^ 208 /\ (SetCompact 0xff123456).2 = true.
Proof.
  pose proof (SetCompact_decodes 0x1d00ffff ltac:(split; done)) as H1.
  pose proof (SetCompact_decodes 0xff123456 ltac:(split; done)) as H2.
  destruct (SetCompact 0x1d00ffff) as [[v fn] fo]. destruct (SetCompact 0xff123456) as [[v2 fn2] fo2].
  destruct H1 as (_ & H1 & _). destruct H2 as (_ & _ & H2 & _). cbn [fst snd]. rewrite H1. split.
  - vm_compute. reflexivity.
  - apply H2. vm_compute. intros H. discriminate H.
Defined.

(** [GetCompact] never trips its assertions, and what it encodes decodes
    without flags to the greatest number with a compact form that is not above
    the original. *)
Theorem GetCompact_greatest_below v :
  wf256 v ->
  exists c t, GetCompact v false = Some c /\ is_uint 32 c /\ SetCompact c = (t, false, false)
    /\ wf256 t /\ uval t <= uval v
    /\ forall c', is_uint 32 c' -> compact_exact c' <= uval v -> compact_exact c' <= uval t.
Proof.
  intros Hv. destruct (compact_round_spec v Hv) as (c & k & H1 & H2 & H3 & H4 & _ & _).
  exists c, (compact_round v). split_and!; try done; [by apply compact_round_le|].
  intros c' Hc' Hle. by apply compact_round_max.
Qed.

Lemma GetCompact_greatest_below_witness :
  exists c t, GetCompact [0; 0; 0; 0; 0; 0; 0xffff0123; 0] false = Some c
    /\ SetCompact c = (t, false, false) /\ uval t <= uval [0; 0; 0; 0; 0; 0; 0xffff0123; 0].
Proof.
  destruct (GetCompact_greatest_below [0; 0; 0; 0; 0; 0; 0xffff0123; 0]) as (c & t & H1 & _ & H3 & _ & H5 & _).
  - split; [repeat constructor; done|reflexivity].
  - exists c, t. split; [exact H1|]. split; [exact H3|exact H5].
Defined.
