(* ===== verification/MerkleDamgard.v ===== *)
(** Streaming hashers.  [CSHA256], [CSHA512], [CSHA1] and [CRIPEMD160] under
    src/bitcoin/src/crypto/ share one buffering scheme: a partial block, a byte
    counter, [Write] that runs the compression function on every full block and
    [Finalize] that pads and emits the state.  The scheme is written here once
    over the interface [BlockHash]; the compression functions instantiate it. *)

From S2P Require Import Prelude.

(** What a hash algorithm supplies to the buffering scheme. *)
Class BlockHash := {
  md_state : Type;
  md_init : md_state;                         (* Initialize *)
  md_transform : md_state -> bytes -> md_state; (* Transform on one block *)
  md_block : Z;                               (* bytes per block *)
  md_sizedesc : Z -> bytes;                   (* the length field, from the bit count *)
  md_digest : md_state -> bytes;              (* the output words as bytes *)
}.

Section Hasher.
Context `{BH : BlockHash}.

(** The object: [s], [buf] and [bytes]. *)
Record hasher := Hasher { h_s : md_state; h_buf : bytes; h_bytes : Z }.

Definition hasher_new : hasher := Hasher md_init (replicate (Z.to_nat md_block) 0) 0.

(** [memcpy(buf + at, data, length data)]. *)
Definition memcpy_at (buf : bytes) (at_ : Z) (data : bytes) : bytes :=
  take (Z.to_nat at_) buf ++ data ++ drop (Z.to_nat at_ + length data) buf.

(** [Transform] on [blocks] consecutive blocks of [data]. *)
Fixpoint transform_blocks (blocks : nat) (s : md_state) (data : bytes) : md_state :=
  match blocks with
  | O => s
  | S blocks => transform_blocks blocks (md_transform s (take (Z.to_nat md_block) data))
                  (drop (Z.to_nat md_block) data)
  end.

(** The first part of [Write]: complete a partial block. *)
Definition fill_buffer (h : hasher) (data : bytes) : hasher * bytes * Z :=
  let bufsize := h_bytes h mod md_block in
  if negb (bufsize =? 0) && (md_block <=? bufsize + Z.of_nat (length data)) then
    let n := md_block - bufsize in
    let buf := memcpy_at (h_buf h) bufsize (take (Z.to_nat n) data) in
    (Hasher (md_transform (h_s h) buf) buf (u64 (h_bytes h + n)), drop (Z.to_nat n) data, 0)
  else (h, data, bufsize).

(** The second part: full blocks straight from the input. *)
Definition full_blocks (h : hasher) (data : bytes) : hasher * bytes :=
  if md_block <=? Z.of_nat (length data) then
    let blocks := Z.of_nat (length data) / md_block in
    (Hasher (transform_blocks (Z.to_nat blocks) (h_s h) data) (h_buf h)
            (u64 (h_bytes h + md_block * blocks)),
     drop (Z.to_nat (md_block * blocks)) data)
  else (h, data).

Definition hasher_write (h : hasher) (data : bytes) : hasher :=
  let '(h, data, bufsize) := fill_buffer h data in
  let '(h, data) := full_blocks h data in
  if 0 <? Z.of_nat (length data)
  then Hasher (h_s h) (memcpy_at (h_buf h) bufsize data) (u64 (h_bytes h + Z.of_nat (length data)))
  else h.

(** [pad] is [0x80] followed by zeros; [119 = 64 + 55] and [239 = 128 + 111]
    leave room for the length field. *)
Definition md_pad (bytes_ : Z) : bytes :=
  let fill := (2 * md_block - 1 - Z.of_nat (length (md_sizedesc 0)) - bytes_ mod md_block) mod md_block in
  take (Z.to_nat (1 + fill)) (0x80 :: replicate (Z.to_nat (md_block - 1)) 0).

(** The object is left in the state after the padding. *)
Definition hasher_finalize (h : hasher) : bytes * hasher :=
  let sizedesc := md_sizedesc (u64 (Z.shiftl (h_bytes h) 3)) in
  let h := hasher_write h (md_pad (h_bytes h)) in
  let h := hasher_write h sizedesc in
  (md_digest (h_s h), h).

Definition hasher_reset (h : hasher) : hasher := Hasher md_init (h_buf h) 0.

(** * The specification: one message, padded and compressed block by block *)

Definition md_padded (msg : bytes) : bytes :=
  msg ++ md_pad (Z.of_nat (length msg)) ++ md_sizedesc (u64 (8 * Z.of_nat (length msg))).

Definition md_hash (msg : bytes) : bytes :=
  let m := md_padded msg in
  md_digest (transform_blocks (Z.to_nat (Z.of_nat (length m) / md_block)) md_init m).

(** * Correctness of the buffering *)

(** The block size divides the counter's modulus, so the counter keeps track of
    the position in the block even when it wraps. *)
Class BlockHashOk : Prop := {
  md_block_pos : 16 < md_block;
  md_block_div : (md_block | 2 ^ 64);
  md_sizedesc_len : forall n, length (md_sizedesc n) = length (md_sizedesc 0);
  md_sizedesc_small : Z.of_nat (length (md_sizedesc 0)) < md_block;
}.
Context {OK : BlockHashOk}.

(** The state after the message [m]: all full blocks compressed, the rest in
    the buffer, the length in the counter. *)
Record hashed (h : hasher) (m : bytes) : Prop := {
  hashed_split : exists q m1 m2, m = m1 ++ m2
    /\ Z.of_nat (length m1) = md_block * Z.of_nat q
    /\ Z.of_nat (length m2) < md_block
    /\ h_s h = transform_blocks q md_init m1
    /\ take (length m2) (h_buf h) = m2;
  hashed_buf_len : Z.of_nat (length (h_buf h)) = md_block;
  hashed_bytes : h_bytes h = u64 (Z.of_nat (length m));
}.

Lemma transform_blocks_app n1 n2 s m1 m2 :
  Z.of_nat (length m1) = md_block * Z.of_nat n1 ->
  transform_blocks (n1 + n2) s (m1 ++ m2) = transform_blocks n2 (transform_blocks n1 s m1) m2.
Proof.
  pose proof md_block_pos as HB. revert s m1. induction n1 as [|n1 IH]; intros s m1 Hl.
  - destruct m1; [done|simpl in Hl; lia].
  - cbn [Nat.add transform_blocks]. rewrite take_app_le, drop_app_le by lia.
    apply IH. rewrite length_drop. lia.
Qed.

Lemma transform_blocks_prefix n s m1 m2 :
  md_block * Z.of_nat n <= Z.of_nat (length m1) ->
  transform_blocks n s (m1 ++ m2) = transform_blocks n s m1.
Proof.
  pose proof md_block_pos as HB. revert s m1. induction n as [|n IH]; intros s m1 Hl; [done|].
  cbn [transform_blocks]. rewrite take_app_le, drop_app_le by lia.
  apply IH. rewrite length_drop. lia.
Qed.

Lemma length_memcpy_at buf at_ data :
  0 <= at_ -> at_ + Z.of_nat (length data) <= Z.of_nat (length buf) ->
  length (memcpy_at buf at_ data) = length buf.
Proof.
  intros. unfold memcpy_at. rewrite !length_app, length_take, length_drop. lia.
Qed.

Lemma take_memcpy_at buf at_ data :
  0 <= at_ -> at_ + Z.of_nat (length data) <= Z.of_nat (length buf) ->
  take (Z.to_nat (at_ + Z.of_nat (length data))) (memcpy_at buf at_ data)
  = take (Z.to_nat at_) buf ++ data.
Proof.
  intros. unfold memcpy_at. rewrite app_assoc. apply take_app_exact.
  rewrite length_app, length_take. lia.
Qed.

Lemma u64_add_mod a b : u64 (u64 a + b) = u64 (a + b).
Proof. unfold wrap. rewrite Z.add_mod_idemp_l by lia. done. Qed.

Lemma u64_mod_block n : u64 n mod md_block = n mod md_block.
Proof.
  pose proof md_block_pos. unfold wrap. apply Z.mod_mod_divide, md_block_div.
Qed.

Lemma hashed_new : hashed hasher_new [].
Proof.
  pose proof md_block_pos. constructor; [|simpl; rewrite length_replicate; lia|done].
  exists 0%nat, [], []. simpl. repeat split; lia.
Qed.

(** Where the counter stands in the current block. *)
Lemma split_mod q (m1 m2 : bytes) :
  Z.of_nat (length m1) = md_block * Z.of_nat q -> Z.of_nat (length m2) < md_block ->
  Z.of_nat (length (m1 ++ m2)) mod md_block = Z.of_nat (length m2).
Proof.
  intros H1 H2. pose proof md_block_pos. rewrite length_app, Nat2Z.inj_add, H1.
  rewrite Z.add_comm, Z.mul_comm, Z.mod_add by lia. apply Z.mod_small. lia.
Qed.

Lemma hashed_bufsize h m : hashed h m ->
  h_bytes h mod md_block = Z.of_nat (length m) mod md_block.
Proof. intros H. rewrite (hashed_bytes _ _ H). apply u64_mod_block. Qed.

(** Completing the partial block. *)
Lemma hashed_fill h m data :
  hashed h m ->
  let bufsize := h_bytes h mod md_block in
  let n := md_block - bufsize in
  n <= Z.of_nat (length data) ->
  let buf := memcpy_at (h_buf h) bufsize (take (Z.to_nat n) data) in
  hashed (Hasher (md_transform (h_s h) buf) buf (u64 (h_bytes h + n)))
         (m ++ take (Z.to_nat n) data)
  /\ Z.of_nat (length (m ++ take (Z.to_nat n) data)) mod md_block = 0.
Proof.
  intros H bufsize n Hn buf. pose proof md_block_pos as HB.
  assert (Hbs : bufsize = Z.of_nat (length m) mod md_block) by (by apply hashed_bufsize).
  destruct H as [(q & m1 & m2 & -> & H1 & H2 & Hs & Hbuf) Hlen Hb].
  rewrite (split_mod q) in Hbs by done.
  set (d := take (Z.to_nat n) data) in *.
  assert (Hd : Z.of_nat (length d) = n) by (unfold d; rewrite length_take; lia).
  assert (Hall : buf = m2 ++ d).
  { rewrite <- (firstn_all buf). unfold buf at 1. rewrite length_memcpy_at by lia.
    replace (length (h_buf h)) with (Z.to_nat (bufsize + Z.of_nat (length d))) by lia.
    unfold buf. rewrite take_memcpy_at by lia. f_equal. by rewrite Hbs, Nat2Z.id. }
  assert (Hl : Z.of_nat (length (m1 ++ m2 ++ d)) = md_block * Z.of_nat (q + 1))
    by (rewrite !length_app; lia).
  rewrite <- app_assoc. split; [constructor; simpl|].
  - exists (q + 1)%nat, (m1 ++ m2 ++ d), []. rewrite app_nil_r. repeat split; [done|simpl; lia|].
    rewrite (transform_blocks_app q 1) by done. cbn [transform_blocks]. rewrite <- Hs. f_equal.
    rewrite firstn_all2 by (rewrite length_app; lia). done.
  - rewrite Hall, length_app. lia.
  - rewrite Hb, u64_add_mod, !length_app. f_equal. lia.
  - rewrite Hl, Z.mul_comm. apply Z.mod_mul. lia.
Qed.

(** Full blocks, from a block boundary. *)
Lemma hashed_full h m data :
  hashed h m -> Z.of_nat (length m) mod md_block = 0 ->
  let '(h', rest) := full_blocks h data in
  exists pre, data = pre ++ rest /\ hashed h' (m ++ pre)
    /\ Z.of_nat (length (m ++ pre)) mod md_block = 0 /\ Z.of_nat (length rest) < md_block.
Proof.
  intros H Hm. pose proof md_block_pos as HB. unfold full_blocks.
  destruct (md_block <=? Z.of_nat (length data)) eqn:E.
  2:{ exists []. apply Z.leb_gt in E. rewrite app_nil_r. done. }
  apply Z.leb_le in E.
  set (b := Z.of_nat (length data) / md_block).
  pose proof (Z.div_mod (Z.of_nat (length data)) (@md_block BH) ltac:(lia)) as Hdm. fold b in Hdm.
  pose proof (Z.mod_pos_bound (Z.of_nat (length data)) (@md_block BH) ltac:(lia)) as Hr.
  assert (0 <= b) by (apply Z.div_pos; lia).
  exists (take (Z.to_nat (md_block * b)) data). rewrite take_drop. split; [done|].
  destruct H as [(q & m1 & m2 & -> & H1 & H2 & Hs & Hbuf) Hlen Hb].
  rewrite (split_mod q) in Hm by done.
  destruct m2; [|simpl in Hm; lia]. rewrite app_nil_r in *.
  set (pre := take (Z.to_nat (md_block * b)) data) in *.
  assert (Hp : Z.of_nat (length pre) = md_block * b) by (unfold pre; rewrite length_take; nia).
  split_and!.
  - constructor; simpl; [|done|rewrite Hb, u64_add_mod, length_app; f_equal; lia].
    exists (q + Z.to_nat b)%nat, (m1 ++ pre), []. rewrite app_nil_r, length_app.
    repeat split; [lia|simpl; lia|]. rewrite transform_blocks_app by done.
    rewrite <- Hs. rewrite <- (take_drop (Z.to_nat (md_block * b)) data) at 1.
    apply transform_blocks_prefix. fold pre. lia.
  - rewrite length_app, Nat2Z.inj_add, H1, Hp, <- Z.mul_add_distr_l, Z.mul_comm.
    apply Z.mod_mul. lia.
  - rewrite length_drop. lia.
Qed.

(** The tail goes to the buffer. *)
Lemma hashed_tail h m data :
  hashed h m -> Z.of_nat (length m) mod md_block + Z.of_nat (length data) < md_block ->
  hashed (Hasher (h_s h) (memcpy_at (h_buf h) (Z.of_nat (length m) mod md_block) data)
                 (u64 (h_bytes h + Z.of_nat (length data)))) (m ++ data).
Proof.
  intros H. pose proof md_block_pos as HB.
  destruct H as [(q & m1 & m2 & -> & H1 & H2 & Hs & Hbuf) Hlen Hb].
  rewrite (split_mod q) by done. intros Hd. constructor; simpl.
  - exists q, m1, (m2 ++ data). rewrite app_assoc, length_app. repeat split; [done|lia|done|].
    rewrite <- Nat2Z.id with (n := (length m2 + length data)%nat), Nat2Z.inj_add.
    rewrite take_memcpy_at by lia. by rewrite Nat2Z.id, Hbuf.
  - rewrite length_memcpy_at by lia. done.
  - rewrite Hb, u64_add_mod, !length_app. f_equal. lia.
Qed.

Lemma hashed_write h m data : hashed h m -> hashed (hasher_write h data) (m ++ data).
Proof.
  intros H. pose proof md_block_pos as HB. pose proof (hashed_bufsize _ _ H) as Hbs.
  pose proof (Z.mod_pos_bound (Z.of_nat (length m)) (@md_block BH) ltac:(lia)) as Hr.
  unfold hasher_write, fill_buffer.
  destruct (negb _ && _) eqn:E.
  - apply andb_prop in E as [_ E]. apply Z.leb_le in E.
    set (n := md_block - h_bytes h mod md_block) in *.
    destruct (hashed_fill h m data H) as [Hf Hz]; [lia|]. fold n in Hf, Hz.
    pose proof (hashed_full _ _ (drop (Z.to_nat n) data) Hf Hz) as Hfull. clear Hf.
    replace (m ++ data) with ((m ++ take (Z.to_nat n) data) ++ drop (Z.to_nat n) data)
      by (by rewrite <- app_assoc, take_drop).
    destruct (full_blocks _ _) as [h' rest]. destruct Hfull as (pre & Hd & Hh & Hm & Hrest).
    rewrite Hd, !app_assoc. destruct (Z.ltb_spec 0 (Z.of_nat (length rest))).
    + rewrite <- Hm. apply hashed_tail; [done|lia].
    + destruct rest; [by rewrite app_nil_r|simpl in *; lia].
  - destruct (decide (Z.of_nat (length m) mod md_block = 0)) as [Hz|Hz].
    + pose proof (hashed_full h m data H Hz) as Hf. rewrite Hbs, Hz.
      destruct (full_blocks _ _) as [h' rest]. destruct Hf as (pre & -> & Hh & Hm & Hrest).
      rewrite app_assoc. destruct (Z.ltb_spec 0 (Z.of_nat (length rest))).
      * rewrite <- Hm. apply hashed_tail; [done|lia].
      * destruct rest; [by rewrite app_nil_r|simpl in *; lia].
    + rewrite Hbs in *. rewrite (proj2 (Z.eqb_neq _ _) Hz) in E. simpl in E. apply Z.leb_gt in E.
      unfold full_blocks. rewrite (proj2 (Z.leb_gt _ _)) by lia.
      destruct (Z.ltb_spec 0 (Z.of_nat (length data))).
      * apply hashed_tail; [done|lia].
      * destruct data; [by rewrite app_nil_r|simpl in *; lia].
Qed.

Lemma hashed_writes h m chunks :
  hashed h m -> hashed (foldl hasher_write h chunks) (m ++ concat chunks).
Proof.
  revert h m. induction chunks as [|c cs IH]; intros h m H; simpl; [by rewrite app_nil_r|].
  rewrite app_assoc. apply IH, hashed_write, H.
Qed.

Lemma length_md_pad n :
  Z.of_nat (length (md_pad n))
  = 1 + (2 * md_block - 1 - Z.of_nat (length (md_sizedesc 0)) - n mod md_block) mod md_block.
Proof.
  pose proof md_block_pos. unfold md_pad.
  set (f := (2 * md_block - 1 - _ - _) mod md_block).
  assert (0 <= f < md_block) by (apply Z.mod_pos_bound; lia).
  rewrite length_take. simpl length. rewrite length_replicate. lia.
Qed.

Lemma length_md_padded msg : Z.of_nat (length (md_padded msg)) mod md_block = 0.
Proof.
  pose proof md_block_pos as HB. unfold md_padded.
  rewrite !length_app, !Nat2Z.inj_add, length_md_pad, (md_sizedesc_len (u64 _)).
  set (l := Z.of_nat (length msg)). set (d := Z.of_nat (length (md_sizedesc 0))).
  replace (l + (1 + (2 * md_block - 1 - d - l mod md_block) mod md_block + d))
    with ((l + 1 + d) + (2 * md_block - 1 - d - l mod md_block) mod md_block) by lia.
  rewrite Z.add_mod_idemp_r by lia.
  replace (l + 1 + d + (2 * md_block - 1 - d - l mod md_block))
    with (l - l mod md_block + 2 * md_block) by lia.
  rewrite Z.mod_add by lia.
  pose proof (Z.div_mod l (@md_block BH) ltac:(lia)) as Hl.
  replace (l - l mod md_block) with ((l / md_block) * md_block) by lia.
  apply Z.mod_mul. lia.
Qed.

Lemma md_pad_mod n : md_pad (u64 n) = md_pad n.
Proof. unfold md_pad. by rewrite u64_mod_block. Qed.

(** [Finalize] after any sequence of [Write]s is the one-shot hash of the
    concatenation. *)
Lemma hasher_finalize_spec h m : hashed h m ->
  (hasher_finalize h).1 = md_hash m /\ hashed (hasher_finalize h).2 (md_padded m).
Proof.
  intros H. pose proof md_block_pos as HB. unfold hasher_finalize.
  rewrite (hashed_bytes _ _ H), md_pad_mod.
  assert (Hsz : u64 (Z.shiftl (u64 (Z.of_nat (length m))) 3) = u64 (8 * Z.of_nat (length m))).
  { rewrite Z.shiftl_mul_pow2 by lia. unfold wrap. rewrite Z.mul_mod_idemp_l by lia. f_equal. lia. }
  rewrite Hsz.
  pose proof (hashed_write _ _ (md_sizedesc (u64 (8 * Z.of_nat (length m))))
    (hashed_write _ _ (md_pad (Z.of_nat (length m))) H)) as Hf.
  rewrite <- app_assoc in Hf. fold (md_padded m) in Hf. split; [|exact Hf].
  unfold md_hash. cbn. f_equal.
  pose proof (length_md_padded m) as Hz.
  destruct Hf as [(q & m1 & m2 & Hm & H1 & H2 & Hs & _) _ _]. rewrite Hs, Hm.
  rewrite Hm, (split_mod q) in Hz by done. destruct m2; [|simpl in Hz; lia].
  rewrite app_nil_r, H1, Z.mul_comm, Z.div_mul, Nat2Z.id by lia. done.
Qed.

Lemma hasher_reset_spec h m : hashed h m -> hashed (hasher_reset h) [].
Proof.
  intros H. pose proof md_block_pos. constructor; [|apply H|done].
  exists 0%nat, [], []. simpl. repeat split; lia.
Qed.

Lemma hasher_stream chunks :
  (hasher_finalize (foldl hasher_write hasher_new chunks)).1 = md_hash (concat chunks).
Proof. apply hasher_finalize_spec, (hashed_writes _ []), hashed_new. Qed.

End Hasher.
