(* ===== verification/Sha2.v ===== *)
(** SHA-256 and SHA-512: the compression functions of
    src/bitcoin/src/crypto/sha256.cpp and sha512.cpp, the hasher classes as
    instances of the streaming interface, and the fast path [TransformD64] for
    the double hash of 64 bytes.

    The unrolled calls [Round(a,b,...,h,k)], [Round(h,a,...,g,k)], ... rotate
    the roles of the eight variables; here one [Round] returns the variables
    already rotated, and the 64 (80) calls are a fold over their last argument.
    The sixteen [w] variables, reused cyclically, are a sliding window. *)

From S2P Require Import Prelude MerkleDamgard.

(** [ReadBE32(chunk + 4 * i)] (or [ReadBE64(chunk + 8 * i)]) for [i < n]. *)
Fixpoint ReadBE (width n : nat) (chunk : bytes) : list Z :=
  match n with
  | O => []
  | S n => be_val (take width chunk) :: ReadBE width n (drop width chunk)
  end.

(** The eight state words [s[0..7]], or the variables [a..h]. *)
Definition words8 : Type := Z * Z * Z * Z * Z * Z * Z * Z.

Definition words8_list (s : words8) : list Z :=
  let '(a, b, c, d, e, f, g, h) := s in [a; b; c; d; e; f; g; h].

(** [s[i] += x[i]]. *)
Definition words8_add (w : Z) (s x : words8) : words8 :=
  let '(s0, s1, s2, s3, s4, s5, s6, s7) := s in
  let '(a, b, c, d, e, f, g, h) := x in
  (wrap w (s0 + a), wrap w (s1 + b), wrap w (s2 + c), wrap w (s3 + d),
   wrap w (s4 + e), wrap w (s5 + f), wrap w (s6 + g), wrap w (s7 + h)).

(** * SHA-256: namespace [sha256] *)

Definition sha256_Ch (x y z : Z) : Z := Z.lxor z (Z.land x (Z.lxor y z)).
Definition sha256_Maj (x y z : Z) : Z := Z.lor (Z.land x y) (Z.land z (Z.lor x y)).

(** [x >> n | x << (32 - n)]. *)
Definition sha256_rotr (x n : Z) : Z := Z.lor (Z.shiftr x n) (u32 (Z.shiftl x (32 - n))).

Definition sha256_Sigma0 (x : Z) : Z := Z.lxor (Z.lxor (sha256_rotr x 2) (sha256_rotr x 13)) (sha256_rotr x 22).
Definition sha256_Sigma1 (x : Z) : Z := Z.lxor (Z.lxor (sha256_rotr x 6) (sha256_rotr x 11)) (sha256_rotr x 25).
Definition sha256_sigma0 (x : Z) : Z := Z.lxor (Z.lxor (sha256_rotr x 7) (sha256_rotr x 18)) (Z.shiftr x 3).
Definition sha256_sigma1 (x : Z) : Z := Z.lxor (Z.lxor (sha256_rotr x 17) (sha256_rotr x 19)) (Z.shiftr x 10).

Definition sha256_Round (v : words8) (k : Z) : words8 :=
  let '(a, b, c, d, e, f, g, h) := v in
  let t1 := u32 (h + sha256_Sigma1 e + sha256_Ch e f g + k) in
  let t2 := u32 (sha256_Sigma0 a + sha256_Maj a b c) in
  let d := u32 (d + t1) in
  let h := u32 (t1 + t2) in
  (h, a, b, c, d, e, f, g).

Definition sha256_Initialize : words8 :=
  (0x6a09e667, 0xbb67ae85, 0x3c6ef372, 0xa54ff53a,
   0x510e527f, 0x9b05688c, 0x1f83d9ab, 0x5be0cd19).

(** The 64 calls of [sha256_Round]: the constant of the last argument and the number of
    the message register [w0 .. w15] it is added to. *)
Definition sha256_rounds : list (Z * Z) :=
  [(0x428a2f98, 0); (0x71374491, 1); (0xb5c0fbcf, 2); (0xe9b5dba5, 3);
   (0x3956c25b, 4); (0x59f111f1, 5); (0x923f82a4, 6); (0xab1c5ed5, 7);
   (0xd807aa98, 8); (0x12835b01, 9); (0x243185be, 10); (0x550c7dc3, 11);
   (0x72be5d74, 12); (0x80deb1fe, 13); (0x9bdc06a7, 14); (0xc19bf174, 15);
   (0xe49b69c1, 0); (0xefbe4786, 1); (0x0fc19dc6, 2); (0x240ca1cc, 3);
   (0x2de92c6f, 4); (0x4a7484aa, 5); (0x5cb0a9dc, 6); (0x76f988da, 7);
   (0x983e5152, 8); (0xa831c66d, 9); (0xb00327c8, 10); (0xbf597fc7, 11);
   (0xc6e00bf3, 12); (0xd5a79147, 13); (0x06ca6351, 14); (0x14292967, 15);
   (0x27b70a85, 0); (0x2e1b2138, 1); (0x4d2c6dfc, 2); (0x53380d13, 3);
   (0x650a7354, 4); (0x766a0abb, 5); (0x81c2c92e, 6); (0x92722c85, 7);
   (0xa2bfe8a1, 8); (0xa81a664b, 9); (0xc24b8b70, 10); (0xc76c51a3, 11);
   (0xd192e819, 12); (0xd6990624, 13); (0xf40e3585, 14); (0x106aa070, 15);
   (0x19a4c116, 0); (0x1e376c08, 1); (0x2748774c, 2); (0x34b0bcb5, 3);
   (0x391c0cb3, 4); (0x4ed8aa4a, 5); (0x5b9cca4f, 6); (0x682e6ff3, 7);
   (0x748f82ee, 8); (0x78a5636f, 9); (0x84c87814, 10); (0x8cc70208, 11);
   (0x90befffa, 12); (0xa4506ceb, 13); (0xbef9a3f7, 14); (0xc67178f2, 15)].

Definition sha256_K : list Z := sha256_rounds.*1.

(** The registers are used in order, four times around. *)
Lemma sha256_rounds_registers : sha256_rounds.*2 = Z.of_nat <$> concat (replicate 4 (seq 0 16)).
Proof. reflexivity. Qed.

(** [w0 += sha256_sigma1(w14) + w9 + sha256_sigma0(w1)] on the window [w0 .. w15]. *)
Definition sha256_next_w (w : list Z) : Z :=
  u32 (nth 0 w 0 + (sha256_sigma1 (nth 14 w 0) + nth 9 w 0 + sha256_sigma0 (nth 1 w 0))).

Fixpoint sha256_expand (n : nat) (w : list Z) : list Z :=
  match n with
  | O => []
  | S n => let x := sha256_next_w w in x :: sha256_expand n (tail w ++ [x])
  end.

(** The last arguments of the 64 calls of [sha256_Round]. *)
Definition sha256_round_args (w : list Z) : list Z :=
  zip_with (fun k x => u32 (k + x)) sha256_K (w ++ sha256_expand 48 w).

Definition sha256_Transform (s : words8) (chunk : bytes) : words8 :=
  words8_add 32 s (foldl sha256_Round s (sha256_round_args (ReadBE 4 16 chunk))).

(** ** [sha256_TransformD64] *)

(** sha256_Transform 2 works on the padding of a 64-byte message: its constants have
    the message schedule folded in. *)
Definition sha256_KW2 : list Z :=
  [0xc28a2f98; 0x71374491; 0xb5c0fbcf; 0xe9b5dba5; 0x3956c25b; 0x59f111f1; 0x923f82a4; 0xab1c5ed5;
   0xd807aa98; 0x12835b01; 0x243185be; 0x550c7dc3; 0x72be5d74; 0x80deb1fe; 0x9bdc06a7; 0xc19bf374;
   0x649b69c1; 0xf0fe4786; 0x0fe1edc6; 0x240cf254; 0x4fe9346f; 0x6cc984be; 0x61b9411e; 0x16f988fa;
   0xf2c65152; 0xa88e5a6d; 0xb019fc65; 0xb9d99ec7; 0x9a1231c3; 0xe70eeaa0; 0xfdb1232b; 0xc7353eb0;
   0x3069bad5; 0xcb976d5f; 0x5a0f118f; 0xdc1eeefd; 0x0a35b689; 0xde0b7a04; 0x58f4ca9d; 0xe15d5b16;
   0x007f3e86; 0x37088980; 0xa507ea32; 0x6fab9537; 0x17406110; 0x0d8cd6f1; 0xcdaa3b6d; 0xc0bbbe37;
   0x83613bda; 0xdb48a363; 0x0b02e931; 0x6fd15ca7; 0x521afaca; 0x31338431; 0x6ed41a95; 0x6d437890;
   0xc39c91f2; 0x9eccabbd; 0xb5c9a0e6; 0x532fb63c; 0xd2c741c6; 0x07237ea3; 0xa4954b68; 0x4c191d76].

(** sha256_Transform 3 works on a 32-byte message held in [w0 .. w7]: the constants of
    its rounds 8 to 15, with the padding folded in. *)
Definition sha256_K3 : list Z :=
  [0x5807aa98; 0x12835b01; 0x243185be; 0x550c7dc3; 0x72be5d74; 0x80deb1fe; 0x9bdc06a7; 0xc19bf274].

(** The words of rounds 16 to 31 of transform 3, the padding words
    [w8 .. w15] of the window being constants. *)
Definition sha256_schedule3 (w0 w1 w2 w3 w4 w5 w6 w7 : Z) : list Z :=
  let w0 := u32 (w0 + sha256_sigma0 w1) in
  let w1 := u32 (w1 + (0xa00000 + sha256_sigma0 w2)) in
  let w2 := u32 (w2 + (sha256_sigma1 w0 + sha256_sigma0 w3)) in
  let w3 := u32 (w3 + (sha256_sigma1 w1 + sha256_sigma0 w4)) in
  let w4 := u32 (w4 + (sha256_sigma1 w2 + sha256_sigma0 w5)) in
  let w5 := u32 (w5 + (sha256_sigma1 w3 + sha256_sigma0 w6)) in
  let w6 := u32 (w6 + (sha256_sigma1 w4 + 0x100 + sha256_sigma0 w7)) in
  let w7 := u32 (w7 + (sha256_sigma1 w5 + w0 + 0x11002000)) in
  let w8 := u32 (0x80000000 + sha256_sigma1 w6 + w1) in
  let w9 := u32 (sha256_sigma1 w7 + w2) in
  let w10 := u32 (sha256_sigma1 w8 + w3) in
  let w11 := u32 (sha256_sigma1 w9 + w4) in
  let w12 := u32 (sha256_sigma1 w10 + w5) in
  let w13 := u32 (sha256_sigma1 w11 + w6) in
  let w14 := u32 (sha256_sigma1 w12 + w7 + 0x400022) in
  let w15 := u32 (0x100 + sha256_sigma1 w13 + w8 + sha256_sigma0 w0) in
  [w0; w1; w2; w3; w4; w5; w6; w7; w8; w9; w10; w11; w12; w13; w14; w15].

Definition sha256_round_args3 (w : words8) : list Z :=
  let '(w0, w1, w2, w3, w4, w5, w6, w7) := w in
  let w16 := sha256_schedule3 w0 w1 w2 w3 w4 w5 w6 w7 in
  zip_with (fun k x => u32 (k + x)) (take 8 sha256_K) (words8_list w) ++ sha256_K3
  ++ zip_with (fun k x => u32 (k + x)) (drop 16 sha256_K) (w16 ++ sha256_expand 32 w16).

Definition sha256_digest (s : words8) : bytes := concat (be_bytes 4 <$> words8_list s).

Definition sha256_TransformD64 (input : bytes) : bytes :=
  (* sha256_Transform 1 *)
  let v := foldl sha256_Round sha256_Initialize (sha256_round_args (ReadBE 4 16 input)) in
  let t := words8_add 32 v sha256_Initialize in
  (* sha256_Transform 2 *)
  let v := foldl sha256_Round t sha256_KW2 in
  let w := words8_add 32 t v in
  (* sha256_Transform 3 *)
  let v := foldl sha256_Round sha256_Initialize (sha256_round_args3 w) in
  sha256_digest (words8_add 32 v sha256_Initialize).


(** ** The class [CSHA256] *)

Definition sha256_ops : BlockHash := {|
  md_state := words8;
  md_init := sha256_Initialize;
  md_transform := sha256_Transform;
  md_block := 64;
  md_sizedesc := be_bytes 8;
  md_digest := sha256_digest |}.

Definition CSHA256 : Type := @hasher sha256_ops.
Definition CSHA256_new : CSHA256 := @hasher_new sha256_ops.
Definition CSHA256_Write : CSHA256 -> bytes -> CSHA256 := @hasher_write sha256_ops.
Definition CSHA256_Finalize : CSHA256 -> bytes * CSHA256 := @hasher_finalize sha256_ops.
Definition CSHA256_Reset : CSHA256 -> CSHA256 := @hasher_reset sha256_ops.
Definition sha256_hash : bytes -> bytes := @md_hash sha256_ops.

(** [TransformD64Wrapper<tr>]: the double hash through any block transform. *)
Definition TransformD64Wrapper (tr : words8 -> bytes -> words8) (input : bytes) : bytes :=
  let padding1 := 0x80 :: replicate 61 0 ++ [2; 0] in
  let buffer2 := 0x80 :: replicate 29 0 ++ [1; 0] in
  let s := tr sha256_Initialize input in
  let s := tr s padding1 in
  let s := tr sha256_Initialize (sha256_digest s ++ buffer2) in
  sha256_digest s.

(** [SHA256D64]: [blocks] double hashes, through the widest available batch
    routine; a batch routine that the processor lacks is a null pointer. *)
Fixpoint d64_batches (fuel : nat) (n : nat) (way : option (bytes -> bytes))
    (out input : bytes) (blocks : nat) : bytes * bytes * nat :=
  match way, fuel with
  | Some f, S fuel =>
      if (n <=? blocks)%nat
      then d64_batches fuel n way (out ++ f (take (64 * n) input)) (drop (64 * n) input) (blocks - n)
      else (out, input, blocks)
  | _, _ => (out, input, blocks)
  end.

Definition SHA256D64 (way8 way4 way2 : option (bytes -> bytes)) (one : bytes -> bytes)
    (input : bytes) (blocks : nat) : bytes :=
  let '(out, input, blocks) := d64_batches blocks 8 way8 [] input blocks in
  let '(out, input, blocks) := d64_batches blocks 4 way4 out input blocks in
  let '(out, input, blocks) := d64_batches blocks 2 way2 out input blocks in
  let '(out, _, _) := d64_batches blocks 1 (Some one) out input blocks in
  out.

(** * SHA-512: namespace [sha512] *)

Definition sha512_Ch (x y z : Z) : Z := Z.lxor z (Z.land x (Z.lxor y z)).
Definition sha512_Maj (x y z : Z) : Z := Z.lor (Z.land x y) (Z.land z (Z.lor x y)).

(** [x >> n | x << (64 - n)]. *)
Definition sha512_rotr (x n : Z) : Z := Z.lor (Z.shiftr x n) (u64 (Z.shiftl x (64 - n))).

Definition sha512_Sigma0 (x : Z) : Z := Z.lxor (Z.lxor (sha512_rotr x 28) (sha512_rotr x 34)) (sha512_rotr x 39).
Definition sha512_Sigma1 (x : Z) : Z := Z.lxor (Z.lxor (sha512_rotr x 14) (sha512_rotr x 18)) (sha512_rotr x 41).
Definition sha512_sigma0 (x : Z) : Z := Z.lxor (Z.lxor (sha512_rotr x 1) (sha512_rotr x 8)) (Z.shiftr x 7).
Definition sha512_sigma1 (x : Z) : Z := Z.lxor (Z.lxor (sha512_rotr x 19) (sha512_rotr x 61)) (Z.shiftr x 6).

Definition sha512_Round (v : words8) (kw : Z * Z) : words8 :=
  let '(a, b, c, d, e, f, g, h) := v in
  let '(k, w) := kw in
  let t1 := u64 (h + sha512_Sigma1 e + sha512_Ch e f g + k + w) in
  let t2 := u64 (sha512_Sigma0 a + sha512_Maj a b c) in
  let d := u64 (d + t1) in
  let h := u64 (t1 + t2) in
  (h, a, b, c, d, e, f, g).

Definition sha512_Initialize : words8 :=
  (0x6a09e667f3bcc908, 0xbb67ae8584caa73b, 0x3c6ef372fe94f82b, 0xa54ff53a5f1d36f1,
   0x510e527fade682d1, 0x9b05688c2b3e6c1f, 0x1f83d9abfb41bd6b, 0x5be0cd19137e2179).

(** The constants of the 80 calls of [sha512_Round]. *)
Definition sha512_K : list Z :=
  [0x428a2f98d728ae22; 0x7137449123ef65cd; 0xb5c0fbcfec4d3b2f; 0xe9b5dba58189dbbc;
   0x3956c25bf348b538; 0x59f111f1b605d019; 0x923f82a4af194f9b; 0xab1c5ed5da6d8118;
   0xd807aa98a3030242; 0x12835b0145706fbe; 0x243185be4ee4b28c; 0x550c7dc3d5ffb4e2;
   0x72be5d74f27b896f; 0x80deb1fe3b1696b1; 0x9bdc06a725c71235; 0xc19bf174cf692694;
   0xe49b69c19ef14ad2; 0xefbe4786384f25e3; 0x0fc19dc68b8cd5b5; 0x240ca1cc77ac9c65;
   0x2de92c6f592b0275; 0x4a7484aa6ea6e483; 0x5cb0a9dcbd41fbd4; 0x76f988da831153b5;
   0x983e5152ee66dfab; 0xa831c66d2db43210; 0xb00327c898fb213f; 0xbf597fc7beef0ee4;
   0xc6e00bf33da88fc2; 0xd5a79147930aa725; 0x06ca6351e003826f; 0x142929670a0e6e70;
   0x27b70a8546d22ffc; 0x2e1b21385c26c926; 0x4d2c6dfc5ac42aed; 0x53380d139d95b3df;
   0x650a73548baf63de; 0x766a0abb3c77b2a8; 0x81c2c92e47edaee6; 0x92722c851482353b;
   0xa2bfe8a14cf10364; 0xa81a664bbc423001; 0xc24b8b70d0f89791; 0xc76c51a30654be30;
   0xd192e819d6ef5218; 0xd69906245565a910; 0xf40e35855771202a; 0x106aa07032bbd1b8;
   0x19a4c116b8d2d0c8; 0x1e376c085141ab53; 0x2748774cdf8eeb99; 0x34b0bcb5e19b48a8;
   0x391c0cb3c5c95a63; 0x4ed8aa4ae3418acb; 0x5b9cca4f7763e373; 0x682e6ff3d6b2b8a3;
   0x748f82ee5defb2fc; 0x78a5636f43172f60; 0x84c87814a1f0ab72; 0x8cc702081a6439ec;
   0x90befffa23631e28; 0xa4506cebde82bde9; 0xbef9a3f7b2c67915; 0xc67178f2e372532b;
   0xca273eceea26619c; 0xd186b8c721c0c207; 0xeada7dd6cde0eb1e; 0xf57d4f7fee6ed178;
   0x06f067aa72176fba; 0x0a637dc5a2c898a6; 0x113f9804bef90dae; 0x1b710b35131c471b;
   0x28db77f523047d84; 0x32caab7b40c72493; 0x3c9ebe0a15c9bebc; 0x431d67c49c100d4c;
   0x4cc5d4becb3e42b6; 0x597f299cfc657e2a; 0x5fcb6fab3ad6faec; 0x6c44198c4a475817].

Definition sha512_next_w (w : list Z) : Z :=
  u64 (nth 0 w 0 + (sha512_sigma1 (nth 14 w 0) + nth 9 w 0 + sha512_sigma0 (nth 1 w 0))).

Fixpoint sha512_expand (n : nat) (w : list Z) : list Z :=
  match n with
  | O => []
  | S n => let x := sha512_next_w w in x :: sha512_expand n (tail w ++ [x])
  end.

Definition sha512_Transform (s : words8) (chunk : bytes) : words8 :=
  let w := ReadBE 8 16 chunk in
  words8_add 64 s (foldl sha512_Round s (zip sha512_K (w ++ sha512_expand 64 w))).

Definition sha512_digest (s : words8) : bytes := concat (be_bytes 8 <$> words8_list s).


(** The length field has 16 bytes, of which the upper eight stay zero. *)
Definition sha512_ops : BlockHash := {|
  md_state := words8;
  md_init := sha512_Initialize;
  md_transform := sha512_Transform;
  md_block := 128;
  md_sizedesc := fun n => replicate 8 0 ++ be_bytes 8 n;
  md_digest := sha512_digest |}.

Definition CSHA512 : Type := @hasher sha512_ops.
Definition CSHA512_new : CSHA512 := @hasher_new sha512_ops.
Definition CSHA512_Write : CSHA512 -> bytes -> CSHA512 := @hasher_write sha512_ops.
Definition CSHA512_Finalize : CSHA512 -> bytes * CSHA512 := @hasher_finalize sha512_ops.
Definition CSHA512_Reset : CSHA512 -> CSHA512 := @hasher_reset sha512_ops.
Definition sha512_hash : bytes -> bytes := @md_hash sha512_ops.


(** * The hashers satisfy the streaming interface *)

#[export] Instance sha256_ok : @BlockHashOk sha256_ops.
Proof.
  constructor; cbn; [lia|by apply Z.mod_divide|done|lia].
Qed.

#[export] Instance sha512_ok : @BlockHashOk sha512_ops.
Proof.
  constructor; cbn; [lia|by apply Z.mod_divide|done|lia].
Qed.

Lemma length_sha256_hash m : length (sha256_hash m) = 32%nat.
Proof.
  unfold sha256_hash, md_hash. cbn. unfold sha256_digest.
  destruct (transform_blocks _ _ _) as [[[[[[[? ?] ?] ?] ?] ?] ?] ?]. done.
Qed.

Lemma be_bytes_wf n z : wf_bytes (be_bytes n z).
Proof. unfold be_bytes, wf_bytes. apply Forall_rev, le_bytes_wf. Qed.

Lemma digest_wf s : wf_bytes (sha256_digest s).
Proof.
  unfold sha256_digest. generalize (words8_list s). intros l. unfold wf_bytes.
  induction l; [constructor|].
  apply Forall_app. split; [apply be_bytes_wf|done].
Qed.

Lemma sha256_hash_wf m : wf_bytes (sha256_hash m).
Proof. apply digest_wf. Qed.

(** * The fast path for 64-byte messages *)

Lemma be_val_bytes n z : is_uint (8 * Z.of_nat n) z -> be_val (be_bytes n z) = z.
Proof. intros. unfold be_val, be_bytes. rewrite rev_involutive. by apply le_val_bytes. Qed.

Lemma length_be_bytes n z : length (be_bytes n z) = n.
Proof. unfold be_bytes. by rewrite length_rev, length_le_bytes. Qed.

Lemma ReadBE_app width m l rest :
  Forall (is_uint (8 * Z.of_nat width)) l ->
  ReadBE width (length l + m) (concat (be_bytes width <$> l) ++ rest) = l ++ ReadBE width m rest.
Proof.
  induction 1 as [|z l Hz Hl IH]; [done|]. cbn [length Nat.add ReadBE fmap list_fmap concat app].
  rewrite <- app_assoc, take_app_exact, drop_app_exact by (by rewrite length_be_bytes).
  rewrite be_val_bytes by done. f_equal. apply IH.
Qed.

Lemma words8_add_comm w s x : words8_add w s x = words8_add w x s.
Proof.
  destruct s as [[[[[[[? ?] ?] ?] ?] ?] ?] ?], x as [[[[[[[? ?] ?] ?] ?] ?] ?] ?].
  cbn. repeat (apply (f_equal2 pair); [|by rewrite Z.add_comm]). by rewrite Z.add_comm.
Qed.

Lemma words8_add_uint w s x : 0 <= w -> Forall (is_uint w) (words8_list (words8_add w s x)).
Proof.
  intros. destruct s as [[[[[[[? ?] ?] ?] ?] ?] ?] ?], x as [[[[[[[? ?] ?] ?] ?] ?] ?] ?].
  cbn. repeat constructor; apply wrap_range; lia.
Qed.

(** The schedule of the second padding block. *)
Lemma KW2_schedule : sha256_KW2 = sha256_round_args (ReadBE 4 16 (0x80 :: replicate 61 0 ++ [2; 0])).
Proof. by vm_compute. Qed.

Lemma expand_S n w :
  sha256_expand (S n) w = sha256_next_w w :: sha256_expand n (tail w ++ [sha256_next_w w]).
Proof. done. Qed.

Lemma expand_add n m w :
  length w = 16%nat ->
  sha256_expand (n + m) w = sha256_expand n w ++ sha256_expand m (drop n (w ++ sha256_expand n w)).
Proof.
  revert w. induction n as [|n IH]; intros w Hw.
  - cbn. by rewrite app_nil_r.
  - cbn [Nat.add]. rewrite !expand_S. cbn [app]. f_equal.
    destruct w as [|x w]; [done|]. cbn [tail app drop]. rewrite IH.
    + by rewrite <- app_assoc.
    + rewrite length_app. cbn in *. lia.
Qed.

Ltac next_word x :=
  rewrite expand_S; cbv beta iota delta [nth tail app sha256_next_w];
  match goal with |- context [?y :: sha256_expand _ _] =>
    replace y with x by
      (f_equal; repeat match goal with |- context [?f 0] => change (f 0) with 0 end;
       change (sha256_sigma1 256) with 0xa00000; change (sha256_sigma0 0x80000000) with 0x11002000;
       change (sha256_sigma0 256) with 0x400022; lia)
  end.

Ltac fold_word :=
  lazymatch goal with |- _ = (let w := ?x in @?b w) =>
    next_word x;
    lazymatch goal with |- ?l = _ => change (l = b x) end;
    generalize x; intros ?; cbv beta
  end.

(** The schedule of a padded 32-byte message, with the constants folded. *)
Lemma schedule3_expand w0 w1 w2 w3 w4 w5 w6 w7 :
  sha256_expand 16 ([w0; w1; w2; w3; w4; w5; w6; w7] ++ [0x80000000; 0; 0; 0; 0; 0; 0; 0x100])
  = sha256_schedule3 w0 w1 w2 w3 w4 w5 w6 w7.
Proof.
  cbn [app]. cbv beta delta [sha256_schedule3].
  do 16 fold_word. done.
Qed.

Lemma round_args3_schedule w :
  Forall (is_uint 32) (words8_list w) ->
  sha256_round_args3 w
  = sha256_round_args (ReadBE 4 16 (sha256_digest w ++ 0x80 :: replicate 29 0 ++ [1; 0])).
Proof.
  intros Hw. unfold sha256_digest.
  assert (length (words8_list w) = 8%nat) as Hl by (by destruct w as [[[[[[[? ?] ?] ?] ?] ?] ?] ?]).
  replace (ReadBE 4 16 _) with (words8_list w ++ [0x80000000; 0; 0; 0; 0; 0; 0; 0x100])
    by (change 16%nat with (8 + 8)%nat; rewrite <- Hl at 1; by rewrite (ReadBE_app 4 8)).
  destruct w as [[[[[[[w0 w1] w2] w3] w4] w5] w6] w7]. cbn [words8_list].
  unfold sha256_round_args, sha256_round_args3. cbv zeta.
  rewrite (expand_add 16 32) by done. rewrite schedule3_expand.
  rewrite drop_app_exact by done. cbn [words8_list].
  generalize (sha256_schedule3 w0 w1 w2 w3 w4 w5 w6 w7). intros l.
  generalize (sha256_expand 32 l). intros l'.
  cbn. by repeat f_equal.
Qed.

Lemma TransformD64_Wrapper input :
  sha256_TransformD64 input = TransformD64Wrapper sha256_Transform input.
Proof.
  unfold sha256_TransformD64, TransformD64Wrapper, sha256_Transform.
  rewrite KW2_schedule, !(words8_add_comm 32 _ sha256_Initialize).
  rewrite round_args3_schedule by (apply words8_add_uint; lia). done.
Qed.

Lemma sha256_hash_64 m : length m = 64%nat ->
  sha256_hash m
  = sha256_digest (sha256_Transform (sha256_Transform sha256_Initialize m)
                                    (0x80 :: replicate 61 0 ++ [2; 0])).
Proof.
  intros Hm. unfold sha256_hash, md_hash, md_padded. rewrite Hm. cbv zeta.
  assert (@md_pad sha256_ops (Z.of_nat 64) ++ @md_sizedesc sha256_ops (u64 (8 * Z.of_nat 64))
          = 0x80 :: replicate 61 0 ++ [2; 0]) as -> by (by vm_compute).
  rewrite length_app, Hm.
  change (Z.to_nat _) with 2%nat. cbn [transform_blocks].
  rewrite take_app_exact, drop_app_exact by (by rewrite Hm). done.
Qed.

Lemma sha256_hash_32 m : length m = 32%nat ->
  sha256_hash m
  = sha256_digest (sha256_Transform sha256_Initialize (m ++ 0x80 :: replicate 29 0 ++ [1; 0])).
Proof.
  intros Hm. unfold sha256_hash, md_hash, md_padded. rewrite Hm. cbv zeta.
  assert (@md_pad sha256_ops (Z.of_nat 32) ++ @md_sizedesc sha256_ops (u64 (8 * Z.of_nat 32))
          = 0x80 :: replicate 29 0 ++ [1; 0]) as -> by (by vm_compute).
  rewrite length_app, Hm.
  change (Z.to_nat _) with 1%nat. cbn [transform_blocks].
  rewrite firstn_all2; [done|]. rewrite length_app, Hm. cbn. lia.
Qed.

Lemma Wrapper_double_hash input : length input = 64%nat ->
  TransformD64Wrapper sha256_Transform input = sha256_hash (sha256_hash input).
Proof.
  intros H. rewrite (sha256_hash_32 (sha256_hash _)) by apply length_sha256_hash.
  by rewrite sha256_hash_64.
Qed.

Lemma TransformD64_double input : length input = 64%nat ->
  sha256_TransformD64 input = sha256_hash (sha256_hash input).
Proof. intros. rewrite TransformD64_Wrapper. by apply Wrapper_double_hash. Qed.

(** * Batches of double hashes *)

(** The double hashes of [n] consecutive 64-byte blocks. *)
Fixpoint double_hashes (n : nat) (input : bytes) : bytes :=
  match n with
  | O => []
  | S n => sha256_hash (sha256_hash (take 64 input)) ++ double_hashes n (drop 64 input)
  end.

(** A batch routine of width [n], where there is one, agrees with [n] double
    hashes; this is what the start-up self test of sha256.cpp checks. *)
Definition way_ok (n : nat) (way : option (bytes -> bytes)) : Prop :=
  match way with
  | None => True
  | Some f => forall input, length input = (64 * n)%nat -> f input = double_hashes n input
  end.

Lemma double_hashes_add n m input :
  double_hashes (n + m) input = double_hashes n input ++ double_hashes m (drop (64 * n) input).
Proof.
  revert input. induction n as [|n IH]; intros input; [done|].
  cbn [Nat.add double_hashes]. rewrite IH, <- app_assoc, drop_drop.
  by replace (64 * S n)%nat with (64 + 64 * n)%nat by lia.
Qed.

Lemma double_hashes_take n input :
  double_hashes n (take (64 * n) input) = double_hashes n input.
Proof.
  revert input. induction n as [|n IH]; intros input; [done|].
  cbn [double_hashes]. rewrite take_take, Nat.min_l by lia. f_equal.
  rewrite <- (IH (drop 64 input)). f_equal.
  replace (64 * S n)%nat with (64 + 64 * n)%nat by lia. by rewrite take_drop_commute.
Qed.

Lemma d64_batches_spec fuel n way out input blocks :
  (0 < n)%nat -> way_ok n way -> (64 * blocks <= length input)%nat ->
  exists done_,
    d64_batches fuel n way out input blocks
    = (out ++ double_hashes done_ input, drop (64 * done_) input, (blocks - done_)%nat)
    /\ (done_ <= blocks)%nat
    /\ (way <> None -> (blocks <= fuel)%nat -> (blocks - done_ < n)%nat).
Proof.
  intros Hn Hway. revert out input blocks.
  induction fuel as [|fuel IH]; intros out input blocks Hl; destruct way as [f|]; cbn [d64_batches].
  1, 2, 4: exists 0%nat; rewrite app_nil_r, drop_0, Nat.sub_0_r;
    split_and!; [done|lia|intros; first [lia|congruence]].
  destruct (Nat.leb_spec n blocks) as [Hle|Hgt].
  - edestruct (IH (out ++ f (take (64 * n) input)) (drop (64 * n) input) (blocks - n)%nat)
      as (d & -> & Hd & Hrest); [rewrite length_drop; lia|].
    exists (n + d)%nat. cbn in Hway. rewrite Hway by (rewrite length_take; lia).
    rewrite double_hashes_take, double_hashes_add, drop_drop, <- app_assoc.
    split_and!; [|lia|intros; specialize (Hrest ltac:(done)); lia].
    replace (64 * (n + d))%nat with (64 * n + 64 * d)%nat by lia.
    by replace (blocks - (n + d))%nat with (blocks - n - d)%nat by lia.
  - exists 0%nat. rewrite app_nil_r, drop_0, Nat.sub_0_r. split_and!; [done|lia|lia].
Qed.

Lemma SHA256D64_spec way8 way4 way2 one input blocks :
  way_ok 8 way8 -> way_ok 4 way4 -> way_ok 2 way2 -> way_ok 1 (Some one) ->
  (64 * blocks <= length input)%nat ->
  SHA256D64 way8 way4 way2 one input blocks = double_hashes blocks input.
Proof.
  intros H8 H4 H2 H1 Hl. unfold SHA256D64.
  edestruct (d64_batches_spec blocks 8 way8 [] input blocks) as (d8 & -> & ? & _); [lia|done|lia|].
  edestruct (d64_batches_spec (blocks - d8) 4 way4) as (d4 & -> & ? & _);
    [lia|exact H4|rewrite length_drop; lia|].
  edestruct (d64_batches_spec (blocks - d8 - d4) 2 way2) as (d2 & -> & ? & _);
    [lia|exact H2|rewrite !length_drop; lia|].
  edestruct (d64_batches_spec (blocks - d8 - d4 - d2) 1 (Some one)) as (d1 & -> & ? & Hd1);
    [lia|exact H1|rewrite !length_drop; lia|].
  specialize (Hd1 ltac:(done) ltac:(lia)).
  rewrite app_nil_l, <- (double_hashes_add d8 d4), drop_drop.
  replace (64 * d8 + 64 * d4)%nat with (64 * (d8 + d4))%nat by lia.
  rewrite <- double_hashes_add, drop_drop.
  replace (64 * (d8 + d4) + 64 * d2)%nat with (64 * (d8 + d4 + d2))%nat by lia.
  rewrite <- double_hashes_add. f_equal. lia.
Qed.
