(* ===== verification/Sha1Ripemd.v ===== *)
(** SHA-1 and RIPEMD-160: the compression functions of
    src/bitcoin/src/crypto/sha1.cpp and ripemd160.cpp and the classes [CSHA1]
    and [CRIPEMD160] as instances of the streaming interface.

    As for SHA-2, one [Round] returns the five variables with their roles
    already rotated, and the unrolled calls are folds. *)

From S2P Require Import Prelude MerkleDamgard Sha2.

(** The five state words, or the variables [a .. e]. *)
Definition words5 : Type := Z * Z * Z * Z * Z.

Definition words5_list (s : words5) : list Z :=
  let '(a, b, c, d, e) := s in [a; b; c; d; e].

(** [(x << i) | (x >> (32 - i))]. *)
Definition rol (x i : Z) : Z := Z.lor (u32 (Z.shiftl x i)) (Z.shiftr x (32 - i)).

(** * SHA-1: namespace [sha1] *)

Definition sha1_f1 (b c d : Z) : Z := Z.lxor d (Z.land b (Z.lxor c d)).
Definition sha1_f2 (b c d : Z) : Z := Z.lxor (Z.lxor b c) d.
Definition sha1_f3 (b c d : Z) : Z := Z.lor (Z.land b c) (Z.land d (Z.lor b c)).

Definition sha1_left (x : Z) : Z := rol x 1.

(** [sha1_Round(a, b, c, d, e, f(b, c, d), k, w)]. *)
Definition sha1_Round (f : Z -> Z -> Z -> Z) (k : Z) (v : words5) (w : Z) : words5 :=
  let '(a, b, c, d, e) := v in
  let e := u32 (e + (rol a 5 + f b c d + k + w)) in
  let b := rol b 30 in
  (e, a, b, c, d).

Definition sha1_Initialize : words5 := (0x67452301, 0xEFCDAB89, 0x98BADCFE, 0x10325476, 0xC3D2E1F0).

Definition sha1_k1 : Z := 0x5A827999.
Definition sha1_k2 : Z := 0x6ED9EBA1.
Definition sha1_k3 : Z := 0x8F1BBCDC.
Definition sha1_k4 : Z := 0xCA62C1D6.

(** [w0 = left(w0 ^ w13 ^ w8 ^ w2)] on the window [w0 .. w15]. *)
Definition sha1_next_w (w : list Z) : Z :=
  sha1_left (Z.lxor (Z.lxor (Z.lxor (nth 0 w 0) (nth 13 w 0)) (nth 8 w 0)) (nth 2 w 0)).

Fixpoint sha1_expand (n : nat) (w : list Z) : list Z :=
  match n with
  | O => []
  | S n => let x := sha1_next_w w in x :: sha1_expand n (tail w ++ [x])
  end.

Definition sha1_Transform (s : words5) (chunk : bytes) : words5 :=
  let w := ReadBE 4 16 chunk in
  let ws := w ++ sha1_expand 64 w in
  let v := foldl (sha1_Round sha1_f1 sha1_k1) s (take 20 ws) in
  let v := foldl (sha1_Round sha1_f2 sha1_k2) v (take 20 (drop 20 ws)) in
  let v := foldl (sha1_Round sha1_f3 sha1_k3) v (take 20 (drop 40 ws)) in
  let v := foldl (sha1_Round sha1_f2 sha1_k4) v (drop 60 ws) in
  let '(s0, s1, s2, s3, s4) := s in
  let '(a, b, c, d, e) := v in
  (u32 (s0 + a), u32 (s1 + b), u32 (s2 + c), u32 (s3 + d), u32 (s4 + e)).

Definition sha1_digest (s : words5) : bytes := concat (be_bytes 4 <$> words5_list s).


Definition sha1_ops : BlockHash := {|
  md_state := words5;
  md_init := sha1_Initialize;
  md_transform := sha1_Transform;
  md_block := 64;
  md_sizedesc := be_bytes 8;
  md_digest := sha1_digest |}.

Definition CSHA1 : Type := @hasher sha1_ops.
Definition CSHA1_new : CSHA1 := @hasher_new sha1_ops.
Definition CSHA1_Write : CSHA1 -> bytes -> CSHA1 := @hasher_write sha1_ops.
Definition CSHA1_Finalize : CSHA1 -> bytes * CSHA1 := @hasher_finalize sha1_ops.
Definition CSHA1_Reset : CSHA1 -> CSHA1 := @hasher_reset sha1_ops.
Definition sha1_hash : bytes -> bytes := @md_hash sha1_ops.

(** * RIPEMD-160: namespace [ripemd160] *)

(** [~x] on 32 bits. *)
Definition ripemd160_not32 (x : Z) : Z := Z.lxor x 0xFFFFFFFF.

Definition ripemd160_f1 (x y z : Z) : Z := Z.lxor (Z.lxor x y) z.
Definition ripemd160_f2 (x y z : Z) : Z := Z.lor (Z.land x y) (Z.land (ripemd160_not32 x) z).
Definition ripemd160_f3 (x y z : Z) : Z := Z.lxor (Z.lor x (ripemd160_not32 y)) z.
Definition ripemd160_f4 (x y z : Z) : Z := Z.lor (Z.land x z) (Z.land y (ripemd160_not32 z)).
Definition ripemd160_f5 (x y z : Z) : Z := Z.lxor x (Z.lor y (ripemd160_not32 z)).

Definition ripemd160_Initialize : words5 := (0x67452301, 0xEFCDAB89, 0x98BADCFE, 0x10325476, 0xC3D2E1F0).

(** [ripemd160_Round(a, b, c, d, e, f(b, c, d), x, k, r)]. *)
Definition ripemd160_Round (f : Z -> Z -> Z -> Z) (k : Z) (v : words5) (xr : Z * Z) : words5 :=
  let '(a, b, c, d, e) := v in
  let '(x, r) := xr in
  let a := u32 (rol (u32 (a + f b c d + x + k)) r + e) in
  let c := rol c 10 in
  (e, a, b, c, d).

Definition ripemd160_R11 := ripemd160_Round ripemd160_f1 0.
Definition ripemd160_R21 := ripemd160_Round ripemd160_f2 0x5A827999.
Definition ripemd160_R31 := ripemd160_Round ripemd160_f3 0x6ED9EBA1.
Definition ripemd160_R41 := ripemd160_Round ripemd160_f4 0x8F1BBCDC.
Definition ripemd160_R51 := ripemd160_Round ripemd160_f5 0xA953FD4E.

Definition ripemd160_R12 := ripemd160_Round ripemd160_f5 0x50A28BE6.
Definition ripemd160_R22 := ripemd160_Round ripemd160_f4 0x5C4DD124.
Definition ripemd160_R32 := ripemd160_Round ripemd160_f3 0x6D703EF3.
Definition ripemd160_R42 := ripemd160_Round ripemd160_f2 0x7A6D76E9.
Definition ripemd160_R52 := ripemd160_Round ripemd160_f1 0.

(** The message word and the rotation of each call, in the order of the source:
    the first line ([ripemd160_R11] .. [ripemd160_R51]) and the second ([ripemd160_R12] .. [ripemd160_R52]). *)
Definition ripemd160_line1 : list (list (nat * Z)) :=
  [[(0%nat, 11); (1%nat, 14); (2%nat, 15); (3%nat, 12); (4%nat, 5); (5%nat, 8); (6%nat, 7); (7%nat,
    9); (8%nat, 11); (9%nat, 13); (10%nat, 14); (11%nat, 15); (12%nat, 6); (13%nat, 7); (14%nat, 9);
    (15%nat, 8)];
   [(7%nat, 7); (4%nat, 6); (13%nat, 8); (1%nat, 13); (10%nat, 11); (6%nat, 9); (15%nat, 7); (3%nat,
    15); (12%nat, 7); (0%nat, 12); (9%nat, 15); (5%nat, 9); (2%nat, 11); (14%nat, 7); (11%nat, 13);
    (8%nat, 12)];
   [(3%nat, 11); (10%nat, 13); (14%nat, 6); (4%nat, 7); (9%nat, 14); (15%nat, 9); (8%nat, 13);
    (1%nat, 15); (2%nat, 14); (7%nat, 8); (0%nat, 13); (6%nat, 6); (13%nat, 5); (11%nat, 12);
    (5%nat, 7); (12%nat, 5)];
   [(1%nat, 11); (9%nat, 12); (11%nat, 14); (10%nat, 15); (0%nat, 14); (8%nat, 15); (12%nat, 9);
    (4%nat, 8); (13%nat, 9); (3%nat, 14); (7%nat, 5); (15%nat, 6); (14%nat, 8); (5%nat, 6); (6%nat,
    5); (2%nat, 12)];
   [(4%nat, 9); (0%nat, 15); (5%nat, 5); (9%nat, 11); (7%nat, 6); (12%nat, 8); (2%nat, 13); (10%nat,
    12); (14%nat, 5); (1%nat, 12); (3%nat, 13); (8%nat, 14); (11%nat, 11); (6%nat, 8); (15%nat, 5);
    (13%nat, 6)]].

Definition ripemd160_line2 : list (list (nat * Z)) :=
  [[(5%nat, 8); (14%nat, 9); (7%nat, 9); (0%nat, 11); (9%nat, 13); (2%nat, 15); (11%nat, 15);
    (4%nat, 5); (13%nat, 7); (6%nat, 7); (15%nat, 8); (8%nat, 11); (1%nat, 14); (10%nat, 14);
    (3%nat, 12); (12%nat, 6)];
   [(6%nat, 9); (11%nat, 13); (3%nat, 15); (7%nat, 7); (0%nat, 12); (13%nat, 8); (5%nat, 9);
    (10%nat, 11); (14%nat, 7); (15%nat, 7); (8%nat, 12); (12%nat, 7); (4%nat, 6); (9%nat, 15);
    (1%nat, 13); (2%nat, 11)];
   [(15%nat, 9); (5%nat, 7); (1%nat, 15); (3%nat, 11); (7%nat, 8); (14%nat, 6); (6%nat, 6); (9%nat,
    14); (11%nat, 12); (8%nat, 13); (12%nat, 5); (2%nat, 14); (10%nat, 13); (0%nat, 13); (4%nat, 7);
    (13%nat, 5)];
   [(8%nat, 15); (6%nat, 5); (4%nat, 8); (1%nat, 11); (3%nat, 14); (11%nat, 14); (15%nat, 6);
    (0%nat, 14); (5%nat, 6); (12%nat, 9); (2%nat, 12); (13%nat, 9); (9%nat, 12); (7%nat, 5);
    (10%nat, 15); (14%nat, 8)];
   [(12%nat, 8); (15%nat, 5); (10%nat, 12); (4%nat, 9); (1%nat, 12); (5%nat, 5); (8%nat, 14);
    (7%nat, 6); (6%nat, 8); (2%nat, 13); (13%nat, 6); (14%nat, 5); (0%nat, 15); (3%nat, 13); (9%nat,
    11); (11%nat, 11)]].

(** The calls of one line: five groups of sixteen. *)
Definition ripemd160_run_line (rounds : list (words5 -> Z * Z -> words5)) (line : list (list (nat * Z)))
    (w : list Z) (v : words5) : words5 :=
  foldl (fun v '(R, calls) => foldl (fun v '(i, r) => R v (nth i w 0, r)) v calls) v (zip rounds line).

(** [ReadLE32(chunk + 4 * i)] for [i < n]. *)
Fixpoint ripemd160_ReadLE32s (n : nat) (chunk : bytes) : list Z :=
  match n with
  | O => []
  | S n => le_val (take 4 chunk) :: ripemd160_ReadLE32s n (drop 4 chunk)
  end.

Definition ripemd160_Transform (s : words5) (chunk : bytes) : words5 :=
  let w := ripemd160_ReadLE32s 16 chunk in
  let '(a1, b1, c1, d1, e1) := ripemd160_run_line [ripemd160_R11; ripemd160_R21; ripemd160_R31; ripemd160_R41; ripemd160_R51] ripemd160_line1 w s in
  let '(a2, b2, c2, d2, e2) := ripemd160_run_line [ripemd160_R12; ripemd160_R22; ripemd160_R32; ripemd160_R42; ripemd160_R52] ripemd160_line2 w s in
  let '(s0, s1, s2, s3, s4) := s in
  (u32 (s1 + c1 + d2), u32 (s2 + d1 + e2), u32 (s3 + e1 + a2), u32 (s4 + a1 + b2), u32 (s0 + b1 + c2)).

Definition ripemd160_digest (s : words5) : bytes := concat (le_bytes 4 <$> words5_list s).


Definition ripemd160_ops : BlockHash := {|
  md_state := words5;
  md_init := ripemd160_Initialize;
  md_transform := ripemd160_Transform;
  md_block := 64;
  md_sizedesc := le_bytes 8;
  md_digest := ripemd160_digest |}.

Definition CRIPEMD160 : Type := @hasher ripemd160_ops.
Definition CRIPEMD160_new : CRIPEMD160 := @hasher_new ripemd160_ops.
Definition CRIPEMD160_Write : CRIPEMD160 -> bytes -> CRIPEMD160 := @hasher_write ripemd160_ops.
Definition CRIPEMD160_Finalize : CRIPEMD160 -> bytes * CRIPEMD160 := @hasher_finalize ripemd160_ops.
Definition CRIPEMD160_Reset : CRIPEMD160 -> CRIPEMD160 := @hasher_reset ripemd160_ops.
Definition ripemd160_hash : bytes -> bytes := @md_hash ripemd160_ops.

(** * The hashers satisfy the streaming interface *)

#[export] Instance sha1_ok : @BlockHashOk sha1_ops.
Proof.
  constructor; cbn; [lia|by apply Z.mod_divide|done|lia].
Qed.

#[export] Instance ripemd160_ok : @BlockHashOk ripemd160_ops.
Proof.
  constructor; cbn; [lia|by apply Z.mod_divide|done|lia].
Qed.

Lemma length_ripemd160_hash m : length (ripemd160_hash m) = 20%nat.
Proof.
  unfold ripemd160_hash, md_hash. cbn. unfold ripemd160_digest.
  by destruct (transform_blocks _ _ _) as [[[[? ?] ?] ?] ?].
Qed.

Lemma length_sha1_hash m : length (sha1_hash m) = 20%nat.
Proof.
  unfold sha1_hash, md_hash. cbn. unfold sha1_digest.
  by destruct (transform_blocks _ _ _) as [[[[? ?] ?] ?] ?].
Qed.

Lemma words_wf (f : Z -> bytes) (ws : list Z) : (forall w, wf_bytes (f w)) -> wf_bytes (concat (f <$> ws)).
Proof.
  intros Hf. unfold wf_bytes. induction ws; [constructor|]. simpl. apply Forall_app. split; [apply Hf|done].
Qed.

Lemma ripemd160_hash_wf m : wf_bytes (ripemd160_hash m).
Proof. apply words_wf. intros w. apply le_bytes_wf. Qed.

Lemma sha1_hash_wf m : wf_bytes (sha1_hash m).
Proof. apply words_wf. intros w. apply be_bytes_wf. Qed.

(** The published digests of the message [abc]. *)
Lemma digests_abc :
  sha256_hash [97; 98; 99] = be_bytes 32 0xba7816bf8f01cfea414140de5dae2223b00361a396177a9cb410ff61f20015ad
  /\ sha1_hash [97; 98; 99] = be_bytes 20 0xa9993e364706816aba3e25717850c26c9cd0d89d
  /\ ripemd160_hash [97; 98; 99] = be_bytes 20 0x8eb208f7e05d987a9b044a8e98c6b087f15a0bfc
  /\ sha512_hash [97; 98; 99] = be_bytes 64 0xddaf35a193617abacc417349ae20413112e6fa4e89a97ea20a9eeee64b55d39a2192992a274fc1a836ba3c23a3feebbd454d4423643ce80e2a9ac94fa54ca49f.
Proof. by vm_compute. Qed.
