(* ===== verification/Hash.v ===== *)
(** The hash objects of src/bitcoin/src/hash.h and hash.cpp ([CHash256],
    [CHash160], [HashWriter], [TaggedHash], [MurmurHash3]) and the keyed hashes
    of src/bitcoin/src/crypto/ (HMAC over SHA-256 and SHA-512, HKDF), all built
    on the streaming hashers. *)

From S2P Require Import Prelude MerkleDamgard Sha2 Sha1Ripemd.

(** * Double hashes *)

(** [CHash256], and the object inside [HashWriter]: a [CSHA256]. *)
Definition CHash256_Write (sha : CSHA256) (input : bytes) : CSHA256 := CSHA256_Write sha input.

Definition CHash256_Finalize (sha : CSHA256) : bytes :=
  let '(buf, sha) := CSHA256_Finalize sha in
  (CSHA256_Finalize (CSHA256_Write (CSHA256_Reset sha) buf)).1.

Definition CHash256_Reset (sha : CSHA256) : CSHA256 := CSHA256_Reset sha.

Definition CHash160_Write (sha : CSHA256) (input : bytes) : CSHA256 := CSHA256_Write sha input.

Definition CHash160_Finalize (sha : CSHA256) : bytes :=
  let '(buf, sha) := CSHA256_Finalize sha in
  (CRIPEMD160_Finalize (CRIPEMD160_Write CRIPEMD160_new buf)).1.

Definition Hash (in1 : bytes) : bytes := CHash256_Finalize (CHash256_Write CSHA256_new in1).

Definition Hash2 (in1 in2 : bytes) : bytes :=
  CHash256_Finalize (CHash256_Write (CHash256_Write CSHA256_new in1) in2).

Definition Hash160 (in1 : bytes) : bytes := CHash160_Finalize (CHash160_Write CSHA256_new in1).

Definition RIPEMD160 (data : bytes) : bytes :=
  (CRIPEMD160_Finalize (CRIPEMD160_Write CRIPEMD160_new data)).1.

Definition SHA256Uint256 (input : bytes) : bytes :=
  (CSHA256_Finalize (CSHA256_Write CSHA256_new input)).1.

(** * [HashWriter] *)

Definition HashWriter_write (ctx : CSHA256) (src : bytes) : CSHA256 := CSHA256_Write ctx src.

Definition HashWriter_GetHash (ctx : CSHA256) : bytes :=
  let '(result, ctx) := CSHA256_Finalize ctx in
  (CSHA256_Finalize (CSHA256_Write (CSHA256_Reset ctx) result)).1.

Definition HashWriter_GetSHA256 (ctx : CSHA256) : bytes := (CSHA256_Finalize ctx).1.

Definition HashWriter_GetCheapHash (ctx : CSHA256) : Z := le_val (take 8 (HashWriter_GetHash ctx)).

Definition TaggedHash (tag : bytes) : CSHA256 :=
  let taghash := (CSHA256_Finalize (CSHA256_Write CSHA256_new tag)).1 in
  HashWriter_write (HashWriter_write CSHA256_new taghash) taghash.

(** * HMAC, over any streaming hasher *)

Section Hmac.
Context {BH : BlockHash}.

Record hmac := Hmac { hmac_outer : @hasher BH; hmac_inner : @hasher BH }.

Definition hmac_rkey (key : bytes) : bytes :=
  let block := Z.to_nat md_block in
  if (length key <=? block)%nat then key ++ replicate (block - length key) 0
  else
    let d := (hasher_finalize (hasher_write hasher_new key)).1 in
    d ++ replicate (block - length d) 0.

Definition hmac_new (key : bytes) : hmac :=
  let rkey := hmac_rkey key in
  let rkey := (fun x => Z.lxor x 0x5c) <$> rkey in
  let outer := hasher_write hasher_new rkey in
  let rkey := (fun x => Z.lxor x (Z.lxor 0x5c 0x36)) <$> rkey in
  let inner := hasher_write hasher_new rkey in
  Hmac outer inner.

Definition hmac_write (h : hmac) (data : bytes) : hmac :=
  Hmac (hmac_outer h) (hasher_write (hmac_inner h) data).

Definition hmac_finalize (h : hmac) : bytes :=
  let temp := (hasher_finalize (hmac_inner h)).1 in
  (hasher_finalize (hasher_write (hmac_outer h) temp)).1.

(** RFC 2104. *)
Definition hmac_key (key : bytes) : bytes :=
  let block := Z.to_nat md_block in
  let k := if (length key <=? block)%nat then key else md_hash key in
  k ++ replicate (block - length k) 0.

Definition hmac_spec (key msg : bytes) : bytes :=
  md_hash (((fun x => Z.lxor x 0x5c) <$> hmac_key key)
           ++ md_hash (((fun x => Z.lxor x 0x36) <$> hmac_key key) ++ msg)).

Context {OK : @BlockHashOk BH}.

Lemma finalize_write_new m : (hasher_finalize (hasher_write hasher_new m)).1 = md_hash m.
Proof. pose proof (hasher_stream [m]) as H. cbn in H. by rewrite app_nil_r in H. Qed.

Lemma hmac_rkey_spec key : hmac_rkey key = hmac_key key.
Proof.
  unfold hmac_rkey, hmac_key. destruct (length key <=? _)%nat; [done|].
  by rewrite finalize_write_new.
Qed.

Lemma hmac_stream key chunks :
  hmac_finalize (foldl hmac_write (hmac_new key) chunks) = hmac_spec key (concat chunks).
Proof.
  set (k := hmac_key key).
  assert (Hk : (fun x => Z.lxor x (Z.lxor 0x5c 0x36)) <$> ((fun x => Z.lxor x 0x5c) <$> k)
               = (fun x => Z.lxor x 0x36) <$> k).
  { rewrite <- list_fmap_compose. apply list_fmap_ext. intros _ x _. cbn.
    rewrite Z.lxor_assoc, <- (Z.lxor_assoc 0x5c), Z.lxor_nilpotent. done. }
  assert (H : forall h, foldl hmac_write h chunks
                        = Hmac (hmac_outer h) (foldl hasher_write (hmac_inner h) chunks)).
  { induction chunks as [|c cs IH]; intros [o i]; cbn; [done|]. by rewrite IH. }
  rewrite H. unfold hmac_finalize, hmac_new. rewrite hmac_rkey_spec. fold k. rewrite Hk.
  cbn [hmac_outer hmac_inner].
  pose proof (hasher_stream (((fun x => Z.lxor x 0x36) <$> k) :: chunks)) as Hin.
  cbn [foldl concat] in Hin. rewrite Hin.
  pose proof (hasher_stream [(fun x => Z.lxor x 0x5c) <$> k;
    md_hash (((fun x => Z.lxor x 0x36) <$> k) ++ concat chunks)]) as Hout.
  cbn [foldl concat] in Hout. rewrite Hout, app_nil_r. done.
Qed.

End Hmac.

Definition CHMAC_SHA256_new : bytes -> hmac := @hmac_new sha256_ops.
Definition CHMAC_SHA256_Write : hmac -> bytes -> hmac := @hmac_write sha256_ops.
Definition CHMAC_SHA256_Finalize : hmac -> bytes := @hmac_finalize sha256_ops.

Definition CHMAC_SHA512_new : bytes -> hmac := @hmac_new sha512_ops.
Definition CHMAC_SHA512_Write : hmac -> bytes -> hmac := @hmac_write sha512_ops.
Definition CHMAC_SHA512_Finalize : hmac -> bytes := @hmac_finalize sha512_ops.

(** [CHKDF_HMAC_SHA256_L32]: the pseudorandom key, and one expansion;
    [None] is the failed assertion on the length of [info]. *)
Definition CHKDF_new (ikm salt : bytes) : bytes :=
  CHMAC_SHA256_Finalize (CHMAC_SHA256_Write (CHMAC_SHA256_new salt) ikm).

Definition CHKDF_Expand32 (prk info : bytes) : option bytes :=
  if (length info <=? 128)%nat
  then Some (CHMAC_SHA256_Finalize
               (CHMAC_SHA256_Write (CHMAC_SHA256_Write (CHMAC_SHA256_new prk) info) [1]))
  else None.

(** [BIP32Hash]: the 64-byte child key material. *)
Definition BIP32Hash (chainCode : bytes) (nChild header : Z) (data : bytes) : bytes :=
  CHMAC_SHA512_Finalize
    (CHMAC_SHA512_Write
      (CHMAC_SHA512_Write
        (CHMAC_SHA512_Write (CHMAC_SHA512_new chainCode) [header]) data) (be_bytes 4 nChild)).

(** * [MurmurHash3] *)

Definition murmur_mix (k1 : Z) : Z :=
  let k1 := u32 (k1 * 0xcc9e2d51) in
  let k1 := rol k1 15 in
  u32 (k1 * 0x1b873593).

Fixpoint murmur_body (n : nat) (h1 : Z) (data : bytes) : Z * bytes :=
  match n with
  | O => (h1, data)
  | S n =>
      let k1 := murmur_mix (le_val (take 4 data)) in
      let h1 := Z.lxor h1 k1 in
      let h1 := rol h1 13 in
      let h1 := u32 (h1 * 5 + 0xe6546b64) in
      murmur_body n h1 (drop 4 data)
  end.

(** The fall-through cases of the tail. *)
Definition murmur_tail (h1 : Z) (tail_ : bytes) : Z :=
  match tail_ with
  | [t0; t1; t2] =>
      Z.lxor h1 (murmur_mix (Z.lxor (Z.lxor (Z.lxor 0 (Z.shiftl t2 16)) (Z.shiftl t1 8)) t0))
  | [t0; t1] => Z.lxor h1 (murmur_mix (Z.lxor (Z.lxor 0 (Z.shiftl t1 8)) t0))
  | [t0] => Z.lxor h1 (murmur_mix (Z.lxor 0 t0))
  | _ => h1
  end.

Definition MurmurHash3 (nHashSeed : Z) (vDataToHash : bytes) : Z :=
  let nblocks := (length vDataToHash / 4)%nat in
  let '(h1, tail_) := murmur_body nblocks nHashSeed vDataToHash in
  let h1 := murmur_tail h1 tail_ in
  let h1 := Z.lxor h1 (u32 (Z.of_nat (length vDataToHash))) in
  let h1 := Z.lxor h1 (Z.shiftr h1 16) in
  let h1 := u32 (h1 * 0x85ebca6b) in
  let h1 := Z.lxor h1 (Z.shiftr h1 13) in
  let h1 := u32 (h1 * 0xc2b2ae35) in
  Z.lxor h1 (Z.shiftr h1 16).

(** * Lemmas *)

Lemma hash_finalize h m : @hashed sha256_ops h m ->
  CHash256_Finalize h = sha256_hash (sha256_hash m)
  /\ HashWriter_GetHash h = sha256_hash (sha256_hash m).
Proof.
  intros H. unfold CHash256_Finalize, HashWriter_GetHash, CSHA256_Finalize.
  destruct (hasher_finalize_spec h m H) as [H1 H2].
  destruct (hasher_finalize h) as [buf h']. cbn in H1, H2. subst buf.
  split; exact (proj1 (hasher_finalize_spec _ ([] ++ sha256_hash m)
    (hashed_write _ [] _ (hasher_reset_spec _ _ H2)))).
Qed.

Lemma Hash_spec m : Hash m = sha256_hash (sha256_hash m).
Proof. exact (proj1 (hash_finalize _ _ (hashed_write hasher_new [] m hashed_new))). Qed.

Lemma Hash2_spec a b : Hash2 a b = sha256_hash (sha256_hash (a ++ b)).
Proof.
  exact (proj1 (hash_finalize _ _ (hashed_write _ _ b (hashed_write hasher_new [] a hashed_new)))).
Qed.

Lemma Hash160_spec m : Hash160 m = ripemd160_hash (sha256_hash m).
Proof.
  unfold Hash160, CHash160_Finalize, CHash160_Write, CSHA256_Finalize.
  pose proof (@finalize_write_new sha256_ops _ m) as H. unfold CSHA256_Write, CSHA256_new.
  destruct (hasher_finalize _) as [buf h']. cbn in H. subst buf. apply finalize_write_new.
Qed.

Lemma length_Hash m : length (Hash m) = 32%nat.
Proof. rewrite Hash_spec. apply length_sha256_hash. Qed.

Lemma Hash_wf m : wf_bytes (Hash m).
Proof. rewrite Hash_spec. apply sha256_hash_wf. Qed.

Lemma hmac_sha256_one key m :
  CHMAC_SHA256_Finalize (CHMAC_SHA256_Write (CHMAC_SHA256_new key) m) = @hmac_spec sha256_ops key m.
Proof.
  rewrite <- (app_nil_r m) at 2. exact (@hmac_stream sha256_ops _ key [m]).
Qed.

(** * Properties *)


(** The derived hashes: [Hash] and [HashWriter] compute SHA-256 twice over
    everything written, [Hash160] is RIPEMD-160 of SHA-256, and [TaggedHash]
    followed by writes gives the BIP 340 tagged hash. *)
Theorem hash_objects_spec (a b tag : bytes) (chunks : list bytes) :
  Hash a = sha256_hash (sha256_hash a)
  /\ Hash2 a b = Hash (a ++ b)
  /\ Hash160 a = ripemd160_hash (sha256_hash a)
  /\ HashWriter_GetHash (foldl HashWriter_write CSHA256_new chunks) = Hash (concat chunks)
  /\ HashWriter_GetSHA256 (foldl HashWriter_write (TaggedHash tag) chunks)
     = sha256_hash (sha256_hash tag ++ sha256_hash tag ++ concat chunks).
Proof.
  split_and!.
  - apply Hash_spec.
  - by rewrite Hash2_spec, Hash_spec.
  - apply Hash160_spec.
  - rewrite (Hash_spec (concat chunks)).
    exact (proj2 (hash_finalize _ _ (hashed_writes _ [] chunks hashed_new))).
  - assert ((CSHA256_Finalize (CSHA256_Write CSHA256_new tag)).1 = sha256_hash tag) as E
      by exact (@finalize_write_new sha256_ops _ tag).
    unfold TaggedHash. rewrite E.
    exact (hasher_stream (sha256_hash tag :: sha256_hash tag :: chunks)).
Qed.

(** The keyed hashes: HMAC with SHA-256 and SHA-512 is RFC 2104 for keys of
    every length and every way of writing the message; the 32-byte HKDF is
    RFC 5869 extract and one expand step. *)
Theorem hmac_rfc2104 (key ikm info : bytes) (chunks : list bytes) :
  CHMAC_SHA256_Finalize (foldl CHMAC_SHA256_Write (CHMAC_SHA256_new key) chunks)
    = @hmac_spec sha256_ops key (concat chunks)
  /\ CHMAC_SHA512_Finalize (foldl CHMAC_SHA512_Write (CHMAC_SHA512_new key) chunks)
    = @hmac_spec sha512_ops key (concat chunks)
  /\ ((length info <= 128)%nat ->
      CHKDF_Expand32 (CHKDF_new ikm key) info
      = Some (@hmac_spec sha256_ops (@hmac_spec sha256_ops key ikm) (info ++ [1]))).
Proof.
  split_and!.
  1: exact (@hmac_stream sha256_ops _ key chunks).
  1: exact (@hmac_stream sha512_ops _ key chunks).
  intros Hi. unfold CHKDF_Expand32, CHKDF_new. rewrite hmac_sha256_one.
  rewrite (proj2 (Nat.leb_le _ _)) by done.
  by rewrite (@hmac_stream sha256_ops _ (hmac_spec key ikm) [info; [1]]
    : CHMAC_SHA256_Finalize (CHMAC_SHA256_Write (CHMAC_SHA256_Write _ info) [1]) = _).
Qed.

(** The fast paths for Merkle trees: [TransformD64], which folds the
    padding of both hashes into its constants, computes the double SHA-256 of
    its 64 bytes, and so does its generic version; [SHA256D64] does this for
    every block, whatever batch routines the processor offers. *)
Theorem TransformD64_correct way8 way4 way2 input blocks :
  way_ok 8 way8 -> way_ok 4 way4 -> way_ok 2 way2 ->
  (64 * blocks <= length input)%nat ->
  (forall block, length block = 64%nat ->
     sha256_TransformD64 block = Hash block
     /\ TransformD64Wrapper sha256_Transform block = Hash block)
  /\ SHA256D64 way8 way4 way2 sha256_TransformD64 input blocks = double_hashes blocks input.
Proof.
  intros H8 H4 H2 Hl. split.
  - intros block Hb. rewrite Hash_spec, TransformD64_double, Wrapper_double_hash by done. done.
  - apply SHA256D64_spec; try done. intros m Hm. cbn [double_hashes].
    rewrite TransformD64_double by (by rewrite Hm). by rewrite app_nil_r, firstn_all2 by (rewrite Hm; lia).
Qed.

Lemma TransformD64_correct_witness :
  SHA256D64 None None (Some (double_hashes 2)) sha256_TransformD64 (replicate 192 7) 3
  = double_hashes 3 (replicate 192 7).
Proof.
  refine (proj2 (TransformD64_correct None None (Some (double_hashes 2)) (replicate 192 7) 3 I I _ _)).
  - intros m Hm. reflexivity.
  - apply Nat.leb_le. reflexivity.
Defined.
