(* ===== verification/SipHash.v ===== *)
(** SipHash-2-4 (src/bitcoin/src/crypto/siphash.cpp): the incremental
    [CSipHasher], the specialised [SipHashUint256] and [SipHashUint256Extra],
    and the one-shot definition both refine. *)

From S2P Require Import Prelude.

Definition sip_state : Type := Z * Z * Z * Z.

(** [std::rotl] on 64 bits. *)
Definition rotl64 (x i : Z) : Z := Z.lor (u64 (Z.shiftl x i)) (Z.shiftr x (64 - i)).

Definition SIPROUND (v : sip_state) : sip_state :=
  let '(v0, v1, v2, v3) := v in
  let v0 := u64 (v0 + v1) in let v1 := rotl64 v1 13 in let v1 := Z.lxor v1 v0 in
  let v0 := rotl64 v0 32 in
  let v2 := u64 (v2 + v3) in let v3 := rotl64 v3 16 in let v3 := Z.lxor v3 v2 in
  let v0 := u64 (v0 + v3) in let v3 := rotl64 v3 21 in let v3 := Z.lxor v3 v0 in
  let v2 := u64 (v2 + v1) in let v1 := rotl64 v1 17 in let v1 := Z.lxor v1 v2 in
  let v2 := rotl64 v2 32 in
  (v0, v1, v2, v3).

(** [v3 ^= d; SIPROUND; SIPROUND; v0 ^= d], the step every routine repeats. *)
Definition sip_compress (v : sip_state) (d : Z) : sip_state :=
  let '(v0, v1, v2, v3) := v in
  let '(v0, v1, v2, v3) := SIPROUND (SIPROUND (v0, v1, v2, Z.lxor v3 d)) in
  (Z.lxor v0 d, v1, v2, v3).

(** [v2 ^= 0xFF], four rounds, and the four words combined. *)
Definition sip_finish (v : sip_state) : Z :=
  let '(v0, v1, v2, v3) := v in
  let '(v0, v1, v2, v3) := SIPROUND (SIPROUND (SIPROUND (SIPROUND (v0, v1, Z.lxor v2 0xFF, v3)))) in
  Z.lxor (Z.lxor (Z.lxor v0 v1) v2) v3.

Definition sip_init (k0 k1 : Z) : sip_state :=
  (Z.lxor 0x736f6d6570736575 k0, Z.lxor 0x646f72616e646f6d k1,
   Z.lxor 0x6c7967656e657261 k0, Z.lxor 0x7465646279746573 k1).

Record CSipHasher := SipHasher { sip_v : sip_state; sip_tmp : Z; sip_count : Z }.

Definition CSipHasher_new (k0 k1 : Z) : CSipHasher := SipHasher (sip_init k0 k1) 0 0.

(** [Write(uint64_t)]; [None] is the failed assertion. *)
Definition CSipHasher_Write64 (h : CSipHasher) (data : Z) : option CSipHasher :=
  if sip_count h mod 8 =? 0
  then Some (SipHasher (sip_compress (sip_v h) data) (sip_tmp h) (u8 (sip_count h + 8)))
  else None.

(** One iteration of the loop of [Write(Span)]. *)
Definition sip_byte (h : CSipHasher) (b : Z) : CSipHasher :=
  let t := Z.lor (sip_tmp h) (u64 (Z.shiftl b (8 * (sip_count h mod 8)))) in
  let c := u8 (sip_count h + 1) in
  if Z.land c 7 =? 0 then SipHasher (sip_compress (sip_v h) t) 0 c
  else SipHasher (sip_v h) t c.

Definition CSipHasher_Write (h : CSipHasher) (data : bytes) : CSipHasher := foldl sip_byte h data.

Definition CSipHasher_Finalize (h : CSipHasher) : Z :=
  let t := Z.lor (sip_tmp h) (u64 (Z.shiftl (sip_count h) 56)) in
  sip_finish (sip_compress (sip_v h) t).

(** [uint256::GetUint64(pos)]. *)
Definition GetUint64 (val : bytes) (pos : nat) : Z := le_val (take 8 (drop (8 * pos) val)).

(** The specialised routines.  The first word enters [v3] together with the
    key; the others go through the repeated step. *)
Definition sip_uint256_words (k0 k1 : Z) (val : bytes) : sip_state :=
  let d := GetUint64 val 0 in
  let v0 := Z.lxor 0x736f6d6570736575 k0 in
  let v1 := Z.lxor 0x646f72616e646f6d k1 in
  let v2 := Z.lxor 0x6c7967656e657261 k0 in
  let v3 := Z.lxor (Z.lxor 0x7465646279746573 k1) d in
  let '(v0, v1, v2, v3) := SIPROUND (SIPROUND (v0, v1, v2, v3)) in
  let v := (Z.lxor v0 d, v1, v2, v3) in
  let v := sip_compress v (GetUint64 val 1) in
  let v := sip_compress v (GetUint64 val 2) in
  sip_compress v (GetUint64 val 3).

Definition SipHashUint256 (k0 k1 : Z) (val : bytes) : Z :=
  sip_finish (sip_compress (sip_uint256_words k0 k1 val) (u64 (Z.shiftl 4 59))).

Definition SipHashUint256Extra (k0 k1 : Z) (val : bytes) (extra : Z) : Z :=
  let d := Z.lor (u64 (Z.shiftl 36 56)) extra in
  sip_finish (sip_compress (sip_uint256_words k0 k1 val) d).

(** * The one-shot specification *)

(** Full 8-byte words, and the bytes left over. *)
Fixpoint sip_words (n : nat) (v : sip_state) (m : bytes) : sip_state :=
  match n with
  | O => v
  | S n => sip_words n (sip_compress v (le_val (take 8 m))) (drop 8 m)
  end.

Definition siphash24 (k0 k1 : Z) (m : bytes) : Z :=
  let n := (length m / 8)%nat in
  let last := le_val (drop (8 * n) m) + 2 ^ 56 * (Z.of_nat (length m) mod 256) in
  sip_finish (sip_compress (sip_words n (sip_init k0 k1) m) last).

(** * The incremental hasher refines it *)

Record sip_inv (k0 k1 : Z) (h : CSipHasher) (m : bytes) : Prop := {
  sip_inv_split : exists n m1 m2, m = m1 ++ m2 /\ length m1 = (8 * n)%nat /\ (length m2 < 8)%nat
    /\ sip_v h = sip_words n (sip_init k0 k1) m1 /\ sip_tmp h = le_val m2 /\ wf_bytes m2;
  sip_inv_count : sip_count h = Z.of_nat (length m) mod 256;
}.

Lemma sip_words_app n v m1 m2 :
  length m1 = (8 * n)%nat ->
  sip_words (n + 1) v (m1 ++ m2) = sip_compress (sip_words n v m1) (le_val (take 8 m2)).
Proof.
  revert v m1. induction n as [|n IH]; intros v m1 Hl.
  - by destruct m1; [|simpl in Hl; lia].
  - cbn [Nat.add sip_words]. rewrite take_app_le, drop_app_le by lia.
    apply IH. rewrite length_drop. lia.
Qed.

Lemma sip_inv_new k0 k1 : sip_inv k0 k1 (CSipHasher_new k0 k1) [].
Proof.
  constructor; [|done]. exists 0%nat, [], [].
  split_and!; [done|done|simpl; lia|done|done|constructor].
Qed.

(** The position in the word, from the 8-bit counter. *)
Lemma sip_position n (m1 m2 : bytes) :
  length m1 = (8 * n)%nat -> (length m2 < 8)%nat ->
  (Z.of_nat (length (m1 ++ m2)) mod 256) mod 8 = Z.of_nat (length m2).
Proof.
  intros H1 H2. rewrite (Z.mod_mod_divide _ 256 8) by (by exists 32).
  rewrite length_app, H1. replace (Z.of_nat (8 * n + length m2)) with (Z.of_nat (length m2) + Z.of_nat n * 8) by lia.
  rewrite Z.mod_add by lia. apply Z.mod_small. lia.
Qed.

Lemma sip_byte_tmp m2 b :
  wf_bytes m2 -> is_uint 8 b -> (length m2 < 8)%nat ->
  Z.lor (le_val m2) (u64 (Z.shiftl b (8 * Z.of_nat (length m2)))) = le_val (m2 ++ [b]).
Proof.
  intros Hm Hb Hl. rewrite wrap_small.
  - rewrite lor_shiftl_add, le_val_app by (try lia; by apply le_val_bound). cbn. lia.
  - rewrite Z.shiftl_mul_pow2 by lia. destruct Hb as [Hb1 Hb2].
    assert (2 ^ (8 * Z.of_nat (length m2)) <= 2 ^ 56) by (apply Z.pow_le_mono_r; lia).
    assert (0 < 2 ^ (8 * Z.of_nat (length m2))) by (apply pow2_pos; lia).
    split; [nia|]. change (2 ^ 64) with (2 ^ 8 * 2 ^ 56). nia.
Qed.

Lemma sip_inv_byte k0 k1 h m b :
  sip_inv k0 k1 h m -> is_uint 8 b -> sip_inv k0 k1 (sip_byte h b) (m ++ [b]).
Proof.
  intros [(n & m1 & m2 & -> & H1 & H2 & Hv & Ht & Hwf) Hc] Hb. unfold sip_byte.
  rewrite Hc, (sip_position n) by done. rewrite Ht, sip_byte_tmp by done.
  assert (Hwf' : wf_bytes (m2 ++ [b])) by (apply wf_bytes_app; repeat constructor; apply Hwf || apply Hb).
  set (c := u8 _).
  assert (Hc' : c = Z.of_nat (length ((m1 ++ m2) ++ [b])) mod 256).
  { unfold c, wrap. change (2 ^ 8) with 256. rewrite Z.add_mod_idemp_l, (length_app _ [b]) by lia.
    cbn. f_equal. lia. }
  assert (Hpos : Z.land c 7 = Z.of_nat (length (m2 ++ [b])) mod 8).
  { change 7 with (2 ^ 3 - 1). rewrite land_mask by lia. change (2 ^ 3) with 8.
    rewrite Hc', (Z.mod_mod_divide _ 256 8) by (by exists 32). rewrite <- app_assoc, length_app, H1.
    replace (Z.of_nat (8 * n + length (m2 ++ [b]))) with (Z.of_nat (length (m2 ++ [b])) + Z.of_nat n * 8) by lia.
    apply Z.mod_add. lia. }
  rewrite Hpos, length_app. cbn [length].
  destruct (decide (length m2 = 7%nat)) as [E|E].
  - rewrite E. cbn. constructor; [|exact Hc'].
    exists (n + 1)%nat, (m1 ++ m2 ++ [b]), []. rewrite <- app_assoc, app_nil_r.
    split_and!; [done|rewrite !length_app; cbn; lia|cbn; lia| |done|constructor].
    cbn [sip_v]. rewrite sip_words_app by done.
    rewrite firstn_all2 by (rewrite length_app; cbn; lia). by rewrite Hv.
  - rewrite Z.mod_small by lia. rewrite (proj2 (Z.eqb_neq _ _)) by lia.
    constructor; [|exact Hc']. exists n, m1, (m2 ++ [b]). rewrite <- app_assoc.
    split_and!; [done|done|rewrite length_app; cbn; lia|done|done|done].
Qed.

Lemma sip_inv_write k0 k1 h m data :
  sip_inv k0 k1 h m -> wf_bytes data -> sip_inv k0 k1 (CSipHasher_Write h data) (m ++ data).
Proof.
  intros H Hd. revert h m H. induction Hd as [|b data Hb Hd IH]; intros h m H; cbn.
  - by rewrite app_nil_r.
  - rewrite (app_assoc m [b] data : m ++ b :: data = _). by apply IH, sip_inv_byte.
Qed.

Lemma sip_words_full n v m1 m2 :
  length m1 = (8 * n)%nat -> sip_words n v (m1 ++ m2) = sip_words n v m1.
Proof.
  revert v m1. induction n as [|n IH]; intros v m1 Hl; [done|].
  cbn [sip_words]. rewrite take_app_le, drop_app_le by lia.
  apply IH. rewrite length_drop. lia.
Qed.

Lemma sip_inv_finalize k0 k1 h m :
  sip_inv k0 k1 h m -> CSipHasher_Finalize h = siphash24 k0 k1 m.
Proof.
  intros [(n & m1 & m2 & -> & H1 & H2 & Hv & Ht & Hwf) Hc]. unfold CSipHasher_Finalize, siphash24.
  assert (length (m1 ++ m2) / 8 = n)%nat as ->.
  { rewrite length_app, H1. symmetry. apply (Nat.div_unique _ _ _ (length m2)); lia. }
  rewrite sip_words_full, drop_app_exact by (by rewrite ?H1). rewrite Hv, Ht, Hc.
  do 2 f_equal. set (c := Z.of_nat _ mod 256).
  assert (0 <= c < 256) by (apply Z.mod_pos_bound; lia).
  rewrite wrap_small.
  - rewrite lor_shiftl_add; [lia|lia|]. pose proof (le_val_bound m2 Hwf) as [Hb1 Hb2].
    split; [done|]. eapply Z.lt_le_trans; [exact Hb2|]. apply Z.pow_le_mono_r; lia.
  - rewrite Z.shiftl_mul_pow2 by lia. unfold is_uint. change (2 ^ 64) with (256 * 2 ^ 56). lia.
Qed.

(** A word write is a write of its eight bytes. *)
Lemma sip_inv_write64 k0 k1 h m data :
  sip_inv k0 k1 h m -> (length m mod 8 = 0)%nat -> is_uint 64 data ->
  exists h', CSipHasher_Write64 h data = Some h' /\ sip_inv k0 k1 h' (m ++ le_bytes 8 data).
Proof.
  intros [(n & m1 & m2 & -> & H1 & H2 & Hv & Ht & Hwf) Hc] Hm Hd. unfold CSipHasher_Write64.
  assert (length m2 = 0%nat) as E.
  { rewrite length_app, H1, Nat.add_comm, Nat.mul_comm, Nat.Div0.mod_add, Nat.mod_small in Hm; lia. }
  destruct m2; [|done]. rewrite Hc, (sip_position n) by (done || cbn; lia). cbn [length Z.of_nat].
  eexists. split; [done|]. constructor; cbn [sip_v sip_tmp sip_count].
  - exists (n + 1)%nat, (m1 ++ le_bytes 8 data), []. rewrite !app_nil_r.
    split_and!; [done|rewrite length_app, length_le_bytes; lia|cbn; lia| |done|constructor].
    rewrite sip_words_app by done. rewrite firstn_all2 by (rewrite length_le_bytes; lia).
    by rewrite le_val_bytes, Hv.
  - unfold wrap. change (2 ^ 8) with 256. rewrite Z.add_mod_idemp_l by lia.
    rewrite (length_app (m1 ++ [])), length_le_bytes. f_equal. lia.
Qed.

Lemma sip_uint256_words_spec k0 k1 val rest :
  length val = 32%nat ->
  sip_uint256_words k0 k1 val = sip_words 4 (sip_init k0 k1) (val ++ rest).
Proof.
  intros Hl. rewrite sip_words_full by (by rewrite Hl).
  cbn [sip_words]. rewrite !drop_drop.
  unfold sip_uint256_words, GetUint64. cbn [Nat.mul Nat.add]. rewrite drop_0.
  unfold sip_compress at 7, sip_init.
  by destruct (SIPROUND (SIPROUND _)) as [[[? ?] ?] ?].
Qed.

(** * Properties *)

(** SipHash: every sequence of byte writes, on a fresh hasher, finalizes to
    the SipHash-2-4 value of the concatenated bytes, although the hasher keeps
    only the low eight bits of the length; a 64-bit word written at a multiple
    of eight bytes counts as its eight little-endian bytes. *)
Theorem siphash_stream k0 k1 (chunks : list bytes) w rest :
  Forall wf_bytes chunks -> is_uint 64 w -> wf_bytes rest ->
  let h := foldl CSipHasher_Write (CSipHasher_new k0 k1) chunks in
  CSipHasher_Finalize h = siphash24 k0 k1 (concat chunks)
  /\ ((length (concat chunks) mod 8 = 0)%nat ->
      exists h', CSipHasher_Write64 h w = Some h'
        /\ CSipHasher_Finalize (CSipHasher_Write h' rest)
           = siphash24 k0 k1 (concat chunks ++ le_bytes 8 w ++ rest)).
Proof.
  intros Hc Hw Hr h.
  assert (Hinv : sip_inv k0 k1 h (concat chunks)).
  { unfold h. clear h. change (concat chunks) with ([] ++ concat chunks).
    generalize (sip_inv_new k0 k1). generalize (CSipHasher_new k0 k1), (@nil Z).
    induction Hc as [|c cs Hc Hcs IH]; intros h m H; cbn; [by rewrite app_nil_r|].
    rewrite app_assoc. by apply IH, sip_inv_write. }
  split; [by apply sip_inv_finalize|]. intros Hm.
  destruct (sip_inv_write64 _ _ _ _ _ Hinv Hm Hw) as (h' & -> & Hh').
  exists h'. split; [done|]. rewrite app_assoc. by apply sip_inv_finalize, sip_inv_write.
Qed.

Lemma siphash_stream_witness :
  CSipHasher_Finalize (foldl CSipHasher_Write (CSipHasher_new 1 2) [[1; 2; 3]; [4; 5; 6; 7; 8]])
  = siphash24 1 2 (concat [[1; 2; 3]; [4; 5; 6; 7; 8]]).
Proof.
  refine (proj1 (siphash_stream 1 2 [[1; 2; 3]; [4; 5; 6; 7; 8]] 99 [7] _ _ _)); by_decide.
Defined.

(** The specialised SipHash routines, used to key the transaction and coin
    tables, equal the generic hasher on the 32 bytes of the hash (and the four
    bytes of the extra word). *)
Theorem siphash_uint256_equiv k0 k1 val extra :
  length val = 32%nat -> wf_bytes val -> is_uint 32 extra ->
  SipHashUint256 k0 k1 val
    = CSipHasher_Finalize (CSipHasher_Write (CSipHasher_new k0 k1) val)
  /\ SipHashUint256Extra k0 k1 val extra
    = CSipHasher_Finalize
        (CSipHasher_Write (CSipHasher_Write (CSipHasher_new k0 k1) val) (le_bytes 4 extra)).
Proof.
  intros Hl Hwf He.
  assert (H := sip_inv_write k0 k1 _ [] val (sip_inv_new k0 k1) Hwf).
  pose proof (sip_inv_write _ _ _ _ (le_bytes 4 extra) H (le_bytes_wf 4 extra)) as H'.
  rewrite (sip_inv_finalize _ _ _ _ H), (sip_inv_finalize _ _ _ _ H'). cbn [app].
  unfold SipHashUint256, SipHashUint256Extra, siphash24.
  rewrite length_app, Hl, length_le_bytes. change (32 / 8)%nat with 4%nat.
  change ((32 + 4) / 8)%nat with 4%nat.
  rewrite (sip_uint256_words_spec k0 k1 val []), app_nil_r by done. split.
  - rewrite (drop_ge val) by (rewrite Hl; lia). by do 2 f_equal.
  - rewrite sip_words_full by (by rewrite Hl). rewrite drop_app_exact by (by rewrite Hl).
    rewrite (le_val_bytes 4 extra He).
    assert (Z.lor (u64 (Z.shiftl 36 56)) extra = extra + 2 ^ 56 * (Z.of_nat (32 + 4) mod 256)) as ->;
      [|reflexivity].
    rewrite Z.lor_comm. change (u64 (Z.shiftl 36 56)) with (36 * 2 ^ 56).
    rewrite lor_pow2_add; [done|done|]. destruct He. split; [done|].
    by eapply Z.lt_trans; [eassumption|].
Qed.

Lemma siphash_uint256_equiv_witness :
  SipHashUint256 1 2 (replicate 32 5)
    = CSipHasher_Finalize (CSipHasher_Write (CSipHasher_new 1 2) (replicate 32 5))
  /\ SipHashUint256Extra 1 2 (replicate 32 5) 7
    = CSipHasher_Finalize
        (CSipHasher_Write (CSipHasher_Write (CSipHasher_new 1 2) (replicate 32 5)) (le_bytes 4 7)).
Proof.
  apply (siphash_uint256_equiv 1 2 (replicate 32 5) 7); by_decide.
Defined.
