(* ===== verification/Transaction.v ===== *)
(** Transactions (src/bitcoin/src/primitives/transaction.h and transaction.cpp),
    their two serialization formats, the context-free checks of
    src/bitcoin/src/consensus/tx_check.cpp, and block headers
    (src/bitcoin/src/primitives/block.h, block.cpp). *)

From S2P Require Import Prelude Serialize MerkleDamgard Sha2 Hash.

(** * Data *)

Record COutPoint := OutPoint { op_hash : bytes; op_n : Z }.

#[export] Instance COutPoint_eq_dec : EqDecision COutPoint.
Proof. solve_decision. Defined.
#[export] Instance COutPoint_countable : Countable COutPoint.
Proof.
  refine (inj_countable' (fun o => (op_hash o, op_n o)) (fun p => OutPoint p.1 p.2) _).
  by intros [].
Defined.

Definition NULL_INDEX : Z := 0xffffffff.
Definition uint256_null : bytes := replicate 32 0.

Definition COutPoint_IsNull (o : COutPoint) : bool :=
  bool_decide (op_hash o = uint256_null) && (op_n o =? NULL_INDEX).

(** [CScriptWitness] is its stack. *)
Record CTxIn := TxIn {
  prevout : COutPoint;
  scriptSig : bytes;
  nSequence : Z;
  scriptWitness : list bytes;
}.

Definition SEQUENCE_FINAL : Z := 0xffffffff.
Definition SEQUENCE_LOCKTIME_DISABLE_FLAG : Z := 2 ^ 31.
Definition SEQUENCE_LOCKTIME_TYPE_FLAG : Z := 2 ^ 22.
Definition SEQUENCE_LOCKTIME_MASK : Z := 0x0000ffff.
Definition SEQUENCE_LOCKTIME_GRANULARITY : Z := 9.

Record CTxOut := TxOut { nValue : Z; scriptPubKey : bytes }.

#[export] Instance CTxOut_eq_dec : EqDecision CTxOut.
Proof. solve_decision. Defined.
#[export] Instance CTxIn_eq_dec : EqDecision CTxIn.
Proof. solve_decision. Defined.

Definition CTxOut_null : CTxOut := TxOut (-1) [].
Definition CTxOut_IsNull (o : CTxOut) : bool := nValue o =? -1.

(** [CTransaction] and [CMutableTransaction] have the same contents; the hash
    members of the former are the functions below. *)
Record CTransaction := Tx {
  vin : list CTxIn;
  vout : list CTxOut;
  version : Z;
  nLockTime : Z;
}.

#[export] Instance CTransaction_eq_dec : EqDecision CTransaction.
Proof. solve_decision. Defined.

Definition HasWitness (tx : CTransaction) : bool :=
  existsb (fun i => negb (bool_decide (scriptWitness i = []))) (vin tx).

Definition IsCoinBase (tx : CTransaction) : bool :=
  match vin tx with
  | [i] => COutPoint_IsNull (prevout i)
  | _ => false
  end.

(** * Serialization *)

(** The sizes of the element types on a 64-bit target; they only set how many
    elements a vector read reserves at a time. *)
Definition sizeof_CTxIn : Z := 104.
Definition sizeof_CTxOut : Z := 40.
Definition sizeof_vector : Z := 24.

(** A [uint256] is written as its 32 bytes. *)
Definition ser_hash (h : bytes) : bytes := h.

Definition ser_outpoint (o : COutPoint) : bytes := ser_hash (op_hash o) ++ ser_writedata32 (op_n o).
Definition unser_outpoint : reader COutPoint :=
  h ← stream_read 32; n ← ser_readdata32; mret (OutPoint h n).

Definition ser_txin (i : CTxIn) : bytes :=
  ser_outpoint (prevout i) ++ ser_byte_vector (scriptSig i) ++ ser_writedata32 (nSequence i).
Definition unser_txin : reader CTxIn :=
  p ← unser_outpoint; s ← unser_byte_vector; q ← ser_readdata32; mret (TxIn p s q []).

Definition ser_txout (o : CTxOut) : bytes := ser_int64 (nValue o) ++ ser_byte_vector (scriptPubKey o).
Definition unser_txout : reader CTxOut :=
  v ← unser_int64; s ← unser_byte_vector; mret (TxOut v s).

Definition ser_vin : list CTxIn -> bytes := VectorFormatter_Ser ser_txin.
Definition unser_vin : reader (list CTxIn) := VectorFormatter_Unser unser_txin sizeof_CTxIn.
Definition ser_vout : list CTxOut -> bytes := VectorFormatter_Ser ser_txout.
Definition unser_vout : reader (list CTxOut) := VectorFormatter_Unser unser_txout sizeof_CTxOut.
Definition ser_stack : list bytes -> bytes := VectorFormatter_Ser ser_byte_vector.
Definition unser_stack : reader (list bytes) := VectorFormatter_Unser unser_byte_vector sizeof_vector.

Definition SerializeTransaction (allow_witness : bool) (tx : CTransaction) : bytes :=
  let flags := if allow_witness && HasWitness tx then 1 else 0 in
  ser_writedata32 (version tx)
  ++ (if flags =? 0 then [] else ser_vin [] ++ ser_writedata8 flags)
  ++ ser_vin (vin tx)
  ++ ser_vout (vout tx)
  ++ (if Z.land flags 1 =? 0 then [] else flat_map (fun i => ser_stack (scriptWitness i)) (vin tx))
  ++ ser_writedata32 (nLockTime tx).

(** The witness stacks, read into the inputs one after the other. *)
Fixpoint unser_witnesses (ins : list CTxIn) : reader (list CTxIn) :=
  match ins with
  | [] => mret []
  | i :: ins =>
      w ← unser_stack;
      rest ← unser_witnesses ins;
      mret (TxIn (prevout i) (scriptSig i) (nSequence i) w :: rest)
  end.

(** [vin], [vout] and [flags] after the part that looks for the dummy. *)
Definition unser_in_out (allow_witness : bool) : reader (list CTxIn * list CTxOut * Z) :=
  ins ← unser_vin;
  if bool_decide (ins = []) && allow_witness then
    flags ← ser_readdata8;
    if negb (flags =? 0) then
      ins ← unser_vin; outs ← unser_vout; mret (ins, outs, flags)
    else mret (ins, [], flags)
  else outs ← unser_vout; mret (ins, outs, 0).

Definition UnserializeTransaction (allow_witness : bool) : reader CTransaction :=
  ver ← ser_readdata32;
  r ← unser_in_out allow_witness;
  let '(ins, outs, flags) := r in
  r ← (if negb (Z.land flags 1 =? 0) && allow_witness then
         ins ← unser_witnesses ins;
         if HasWitness (Tx ins outs ver 0) then mret (ins, Z.lxor flags 1)
         else fail_read "Superfluous witness record"
       else mret (ins, flags));
  let '(ins, flags) := r in
  if negb (flags =? 0) then fail_read "Unknown transaction optional data"
  else lock ← ser_readdata32; mret (Tx ins outs ver lock).

(** [GetHash()], [GetWitnessHash()], [GetTotalSize()]. *)
Definition ComputeHash (tx : CTransaction) : bytes :=
  HashWriter_GetHash (HashWriter_write CSHA256_new (SerializeTransaction false tx)).

Definition ComputeWitnessHash (tx : CTransaction) : bytes :=
  if negb (HasWitness tx) then ComputeHash tx
  else HashWriter_GetHash (HashWriter_write CSHA256_new (SerializeTransaction true tx)).

Definition GetTotalSize (tx : CTransaction) : Z := Z.of_nat (length (SerializeTransaction true tx)).

(** * Amounts *)

Definition COIN : Z := 100000000.
Definition MAX_MONEY : Z := 21000000 * COIN.
Definition MoneyRange (v : Z) : bool := (0 <=? v) && (v <=? MAX_MONEY).

(** [GetValueOut]; an exception is [Err] of its message. *)
Fixpoint GetValueOut_loop (nValueOut : Z) (outs : list CTxOut) : result string Z :=
  match outs with
  | [] => Ok nValueOut
  | o :: outs =>
      if negb (MoneyRange (nValue o)) || negb (MoneyRange (i64 (nValueOut + nValue o)))
      then Err "GetValueOut: value out of range"
      else GetValueOut_loop (i64 (nValueOut + nValue o)) outs
  end.

Definition GetValueOut (tx : CTransaction) : result string Z := GetValueOut_loop 0 (vout tx).

(** * [CheckTransaction] *)

Inductive TxValidationResult :=
| TX_RESULT_UNSET
| TX_CONSENSUS
| TX_INPUTS_NOT_STANDARD
| TX_NOT_STANDARD
| TX_MISSING_INPUTS
| TX_PREMATURE_SPEND
| TX_WITNESS_MUTATED
| TX_WITNESS_STRIPPED
| TX_CONFLICT
| TX_MEMPOOL_POLICY
| TX_NO_MEMPOOL
| TX_RECONSIDERABLE
| TX_UNKNOWN.

#[export] Instance TxValidationResult_eq_dec : EqDecision TxValidationResult.
Proof. solve_decision. Defined.

(** An invalid state: the result and the reject reason. *)
Definition tx_check : Type := result (TxValidationResult * string) ().

Definition MAX_BLOCK_WEIGHT : Z := 4000000.
Definition WITNESS_SCALE_FACTOR : Z := 4.

Fixpoint check_outputs (nValueOut : Z) (outs : list CTxOut) : tx_check :=
  match outs with
  | [] => Ok ()
  | o :: outs =>
      if nValue o <? 0 then Err (TX_CONSENSUS, "bad-txns-vout-negative")
      else if MAX_MONEY <? nValue o then Err (TX_CONSENSUS, "bad-txns-vout-toolarge")
      else
        let nValueOut := i64 (nValueOut + nValue o) in
        if negb (MoneyRange nValueOut) then Err (TX_CONSENSUS, "bad-txns-txouttotal-toolarge")
        else check_outputs nValueOut outs
  end.

(** The set of outpoints seen so far, and the insertion that fails on a duplicate. *)
Fixpoint check_duplicates (vInOutPoints : gset COutPoint) (ins : list CTxIn) : tx_check :=
  match ins with
  | [] => Ok ()
  | i :: ins =>
      if decide (prevout i ∈ vInOutPoints) then Err (TX_CONSENSUS, "bad-txns-inputs-duplicate")
      else check_duplicates ({[prevout i]} ∪ vInOutPoints) ins
  end.

Definition check_prevouts (tx : CTransaction) : tx_check :=
  if IsCoinBase tx then
    match vin tx with
    | i :: _ =>
        let size := Z.of_nat (length (scriptSig i)) in
        if (size <? 2) || (100 <? size) then Err (TX_CONSENSUS, "bad-cb-length") else Ok ()
    | [] => Ok ()
    end
  else if existsb (fun i => COutPoint_IsNull (prevout i)) (vin tx)
  then Err (TX_CONSENSUS, "bad-txns-prevout-null")
  else Ok ().

Definition CheckTransaction (tx : CTransaction) : tx_check :=
  if bool_decide (vin tx = []) then Err (TX_CONSENSUS, "bad-txns-vin-empty")
  else if bool_decide (vout tx = []) then Err (TX_CONSENSUS, "bad-txns-vout-empty")
  else if MAX_BLOCK_WEIGHT <? Z.of_nat (length (SerializeTransaction false tx)) * WITNESS_SCALE_FACTOR
  then Err (TX_CONSENSUS, "bad-txns-oversize")
  else
    _ ← check_outputs 0 (vout tx);
    _ ← check_duplicates ∅ (vin tx);
    check_prevouts tx.

(** * Block headers *)

Record CBlockHeader := BlockHeader {
  nVersion : Z;
  hashPrevBlock : bytes;
  hashMerkleRoot : bytes;
  nTime : Z;
  nBits : Z;
  nNonce : Z;
}.

#[export] Instance CBlockHeader_eq_dec : EqDecision CBlockHeader.
Proof. solve_decision. Defined.

Definition ser_header (h : CBlockHeader) : bytes :=
  ser_int32 (nVersion h) ++ ser_hash (hashPrevBlock h) ++ ser_hash (hashMerkleRoot h)
  ++ ser_writedata32 (nTime h) ++ ser_writedata32 (nBits h) ++ ser_writedata32 (nNonce h).

Definition unser_header : reader CBlockHeader :=
  v ← unser_int32; p ← stream_read 32; m ← stream_read 32;
  t ← ser_readdata32; b ← ser_readdata32; n ← ser_readdata32;
  mret (BlockHeader v p m t b n).

Definition CBlockHeader_GetHash (h : CBlockHeader) : bytes :=
  HashWriter_GetHash (HashWriter_write CSHA256_new (ser_header h)).

Record CBlock := Block { block_header : CBlockHeader; vtx : list CTransaction }.

(** A vector of shared pointers: [sizeof(CTransactionRef)]. *)
Definition sizeof_ref : Z := 16.

Definition ser_block (allow_witness : bool) (b : CBlock) : bytes :=
  ser_header (block_header b) ++ VectorFormatter_Ser (SerializeTransaction allow_witness) (vtx b).

Definition unser_block (allow_witness : bool) : reader CBlock :=
  h ← unser_header;
  txs ← VectorFormatter_Unser (UnserializeTransaction allow_witness) sizeof_ref;
  mret (Block h txs).

(** * Codecs *)

Definition outpoint_ok (o : COutPoint) : Prop := blob 32 (op_hash o) /\ is_uint 32 (op_n o).
Definition txin_ok (i : CTxIn) : Prop :=
  outpoint_ok (prevout i) /\ byte_vector (scriptSig i) /\ is_uint 32 (nSequence i).
Definition txout_ok (o : CTxOut) : Prop := is_sint 64 (nValue o) /\ byte_vector (scriptPubKey o).
Definition stack_ok (w : list bytes) : Prop := vector_of (P := byte_vector) w.

#[export] Instance outpoint_ok_dec o : Decision (outpoint_ok o).
Proof. unfold outpoint_ok. apply _. Defined.
#[export] Instance txin_ok_dec i : Decision (txin_ok i).
Proof. unfold txin_ok. apply _. Defined.
#[export] Instance txout_ok_dec o : Decision (txout_ok o).
Proof. unfold txout_ok. apply _. Defined.
#[export] Instance stack_ok_dec w : Decision (stack_ok w).
Proof. unfold stack_ok, vector_of. apply _. Defined.

#[export] Instance codec_hash : Codec (blob 32) ser_hash (stream_read 32).
Proof. by apply codec_blob. Qed.

#[export] Instance codec_outpoint : Codec outpoint_ok ser_outpoint unser_outpoint.
Proof.
  constructor.
  - intros [h n] rest [Hh Hn]. unfold unser_outpoint, ser_outpoint.
    cbn [op_hash op_n] in *. by do 2 codec_write.
  - intros s o rest Hs H. codec_read H h Hh. codec_read H n Hn.
    unfold mret, reader_ret in H. simplify_eq. unfold ser_outpoint. cbn [op_hash op_n]. by rewrite <- app_assoc.
Qed.

Lemma txin_read i rest :
  txin_ok i ->
  unser_txin (ser_txin i ++ rest) = Ok (TxIn (prevout i) (scriptSig i) (nSequence i) [], rest).
Proof. intros (Hp & Hs & Hq). unfold unser_txin, ser_txin. by do 3 codec_write. Qed.

#[export] Instance codec_txin :
  Codec (fun i => txin_ok i /\ scriptWitness i = []) ser_txin unser_txin.
Proof.
  constructor.
  - intros [p s q w] rest [Hok Hw]. cbn in Hw. subst w. by rewrite txin_read.
  - intros s i rest Hs H. codec_read H p Hp. codec_read H sg Hsg. codec_read H q Hq.
    unfold mret, reader_ret in H. simplify_eq. unfold ser_txin. cbn [prevout scriptSig nSequence]. by rewrite <- !app_assoc.
Qed.

#[export] Instance codec_txout : Codec txout_ok ser_txout unser_txout.
Proof.
  constructor.
  - intros [v s] rest [Hv Hs]. unfold unser_txout, ser_txout.
    cbn [nValue scriptPubKey] in *. by do 2 codec_write.
  - intros s o rest Hs H. codec_read H v Hv. codec_read H sp Hsp.
    unfold mret, reader_ret in H. simplify_eq. unfold ser_txout. cbn [nValue scriptPubKey]. by rewrite <- app_assoc.
Qed.

#[export] Instance codec_vin :
  Codec (vector_of (P := fun i => txin_ok i /\ scriptWitness i = [])) ser_vin unser_vin.
Proof. by apply codec_vector. Qed.
#[export] Instance codec_vout : Codec (vector_of (P := txout_ok)) ser_vout unser_vout.
Proof. by apply codec_vector. Qed.
#[export] Instance codec_stack : Codec stack_ok ser_stack unser_stack.
Proof. by apply codec_vector. Qed.

(** An input, a transaction without its witness. *)
Definition strip_txin (i : CTxIn) : CTxIn := TxIn (prevout i) (scriptSig i) (nSequence i) [].
Definition strip (tx : CTransaction) : CTransaction :=
  Tx (strip_txin <$> vin tx) (vout tx) (version tx) (nLockTime tx).

Record tx_ok (tx : CTransaction) : Prop := {
  tx_ok_version : is_uint 32 (version tx);
  tx_ok_lock : is_uint 32 (nLockTime tx);
  tx_ok_vin : vector_of (P := txin_ok) (vin tx);
  tx_ok_witness : Forall (fun i => stack_ok (scriptWitness i)) (vin tx);
  tx_ok_vout : vector_of (P := txout_ok) (vout tx);
}.

Lemma ser_vin_strip ins : ser_vin (strip_txin <$> ins) = ser_vin ins.
Proof.
  unfold ser_vin, VectorFormatter_Ser. rewrite length_fmap. f_equal.
  induction ins as [|i ins IH]; cbn; [done|]. by rewrite IH.
Qed.

Lemma strip_vin_ok ins :
  vector_of (P := txin_ok) ins ->
  vector_of (P := fun i => txin_ok i /\ scriptWitness i = []) (strip_txin <$> ins).
Proof.
  intros [H Hl]. split; [|by rewrite length_fmap]. apply Forall_fmap.
  clear Hl. induction H as [|i l Hi _ IH]; [constructor|by constructor].
Qed.

Lemma HasWitness_strip tx : HasWitness (strip tx) = false.
Proof.
  unfold HasWitness, strip. cbn. induction (vin tx) as [|i ins IH]; cbn; [done|].
  exact IH.
Qed.

Lemma HasWitness_false tx : HasWitness tx = false -> strip tx = tx.
Proof.
  destruct tx as [ins outs v l]. unfold HasWitness, strip. cbn. intros H. f_equal.
  induction ins as [|[p s q w] ins IH]; cbn in *; [done|].
  apply orb_false_elim in H as [H1 H2]. rewrite IH by done. f_equal.
  unfold strip_txin. cbn. apply negb_false_iff, bool_decide_eq_true in H1. by subst w.
Qed.

Lemma witnesses_read ins rest :
  Forall (fun i => stack_ok (scriptWitness i)) ins ->
  unser_witnesses (strip_txin <$> ins) (flat_map (fun i => ser_stack (scriptWitness i)) ins ++ rest)
  = Ok (ins, rest).
Proof.
  induction 1 as [|i ins Hi Hins IH]; cbn; [done|]. rewrite <- app_assoc.
  erewrite reader_bind_ok by (by apply codec_app). erewrite reader_bind_ok by apply IH.
  by destruct i.
Qed.

Lemma witnesses_inv ins s ins' rest :
  wf_bytes s -> unser_witnesses ins s = Ok (ins', rest) ->
  s = flat_map (fun i => ser_stack (scriptWitness i)) ins' ++ rest
  /\ strip_txin <$> ins' = strip_txin <$> ins /\ Forall (fun i => stack_ok (scriptWitness i)) ins'.
Proof.
  revert s ins' rest. induction ins as [|i ins IH]; intros s ins' rest Hs H; cbn in H.
  - unfold mret, reader_ret in H. by simplify_eq.
  - codec_read H w Hw. apply reader_bind_inv in H as (ws & s2 & Hws & H).
    apply IH in Hws as (-> & Hst & Hok); [|done]. unfold mret, reader_ret in H. simplify_eq.
    cbn. rewrite <- app_assoc, Hst. auto.
Qed.

(** Reading after the version: the plain format, and the extended one. *)
Lemma in_out_plain aw ins outs rest :
  vector_of (P := txin_ok) ins -> vector_of (P := txout_ok) outs ->
  (aw = true -> ins = [] -> outs = []) ->
  unser_in_out aw (ser_vin ins ++ ser_vout outs ++ rest) = Ok (strip_txin <$> ins, outs, 0, rest).
Proof.
  intros Hi Ho Hne. unfold unser_in_out. rewrite <- ser_vin_strip.
  erewrite reader_bind_ok by (by apply codec_app, strip_vin_ok).
  destruct (bool_decide (strip_txin <$> ins = []) && aw) eqn:E.
  - apply andb_prop in E as [E ->]. apply bool_decide_eq_true, fmap_nil_inv in E as ->.
    rewrite Hne by done. change (ser_vout []) with (ser_writedata8 0).
    by erewrite reader_bind_ok by (by apply codec_app).
  - by erewrite reader_bind_ok by (by apply codec_app).
Qed.

Lemma in_out_extended ins outs rest :
  vector_of (P := txin_ok) ins -> vector_of (P := txout_ok) outs ->
  unser_in_out true (ser_vin [] ++ ser_writedata8 1 ++ ser_vin ins ++ ser_vout outs ++ rest)
  = Ok (strip_txin <$> ins, outs, 1, rest).
Proof.
  intros Hi Ho. unfold unser_in_out.
  erewrite reader_bind_ok by (apply codec_app; by split).
  cbn [bool_decide decide_rel andb]. rewrite bool_decide_true by done. cbn [andb].
  erewrite reader_bind_ok by (by apply codec_app). cbn [negb Z.eqb].
  rewrite <- ser_vin_strip. erewrite reader_bind_ok by (by apply codec_app, strip_vin_ok).
  by erewrite reader_bind_ok by (by apply codec_app).
Qed.

Lemma in_out_inv aw s ins outs flags rest :
  wf_bytes s -> unser_in_out aw s = Ok (ins, outs, flags, rest) ->
  (vector_of (P := fun i => txin_ok i /\ scriptWitness i = []) ins)
  /\ vector_of (P := txout_ok) outs /\ is_uint 8 flags
  /\ s = (if flags =? 0 then [] else ser_vin [] ++ ser_writedata8 flags)
         ++ ser_vin ins ++ ser_vout outs ++ rest
  /\ (flags <> 0 -> aw = true) /\ (flags = 0 -> aw = true -> ins = [] -> outs = []).
Proof.
  intros Hs H. unfold unser_in_out in H. codec_read H i1 Hi1.
  destruct (bool_decide (i1 = []) && aw) eqn:E.
  - apply andb_prop in E as [E ->]. apply bool_decide_eq_true in E as ->.
    codec_read H f Hf. destruct (f =? 0) eqn:Ef; cbn [negb] in H.
    + unfold mret, reader_ret in H. simplify_eq. rewrite Ef. bool_props. subst flags.
      split_and!; [done|by split|done|done|done|done].
    + codec_read H i2 Hi2. codec_read H o2 Ho2. unfold mret, reader_ret in H. simplify_eq.
      rewrite Ef, <- app_assoc. bool_props. split_and!; done.
  - codec_read H o2 Ho2. unfold mret, reader_ret in H. simplify_eq. split_and!; try done.
    intros _ -> ->. by rewrite bool_decide_true in E.
Qed.

Lemma tx_read_back aw tx rest :
  tx_ok tx -> (aw = true -> vin tx = [] -> vout tx = []) ->
  UnserializeTransaction aw (SerializeTransaction aw tx ++ rest)
  = Ok (if aw then tx else strip tx, rest).
Proof.
  intros [Hv Hl Hi Hw Ho] Hne. unfold UnserializeTransaction, SerializeTransaction.
  rewrite <- app_assoc. erewrite reader_bind_ok by (by apply codec_app).
  destruct (aw && HasWitness tx) eqn:E; rewrite <- !app_assoc;
    [change (Z.land 1 1 =? 0) with false|change (Z.land 0 1 =? 0) with true]; cbn [Z.eqb].
  - apply andb_prop in E as [-> E]. erewrite reader_bind_ok by (by apply in_out_extended).
    cbv beta iota. change (Z.land 1 1 =? 0) with false. cbn [negb andb].
    rewrite (reader_bind_ok _ _ _ (vin tx, 0) (ser_writedata32 (nLockTime tx) ++ rest)).
    2:{ erewrite reader_bind_ok by (by apply witnesses_read).
        replace (HasWitness (Tx (vin tx) (vout tx) (version tx) 0)) with (HasWitness tx) by done.
        by rewrite E. }
    cbn [Z.eqb negb]. erewrite reader_bind_ok by (by apply codec_app). by destruct tx.
  - cbn [app]. erewrite reader_bind_ok by (by apply in_out_plain).
    cbv beta iota. change (Z.land 0 1 =? 0) with true. cbn [negb andb].
    erewrite reader_bind_ok by done. cbn [Z.eqb negb].
    erewrite reader_bind_ok by (by apply codec_app).
    destruct aw; [|done]. cbn in E. change (Tx (strip_txin <$> vin tx) _ _ _) with (strip tx).
    by rewrite HasWitness_false.
Qed.

Lemma stack_ok_nil : stack_ok [].
Proof. split; [constructor|done]. Qed.

(** A transaction that was read. *)
Lemma read_tx_ok ins outs ver lock ins0 :
  is_uint 32 ver -> is_uint 32 lock ->
  vector_of (P := fun i => txin_ok i /\ scriptWitness i = []) ins0 ->
  strip_txin <$> ins = strip_txin <$> ins0 ->
  Forall (fun i => stack_ok (scriptWitness i)) ins -> vector_of (P := txout_ok) outs ->
  tx_ok (Tx ins outs ver lock).
Proof.
  intros Hv Hl [Hi Hlen] Hst Hw Ho. constructor; try done. cbn.
  assert (length ins = length ins0) as El.
  { apply (f_equal length) in Hst. by rewrite !length_fmap in Hst. }
  split; [|by rewrite El]. clear Hlen El Hw.
  revert ins0 Hi Hst. induction ins as [|i ins IH]; intros [|i0 ins0] Hi Hst; try done.
  injection Hst as Hp Hs Hq Hst. inversion Hi as [|?? [Hi0 _] Hi']; subst.
  constructor; [|by apply (IH ins0)]. unfold txin_ok in *. by rewrite Hp, Hs, Hq.
Qed.

Lemma strip_of_read ins :
  vector_of (P := fun i => txin_ok i /\ scriptWitness i = []) ins -> strip_txin <$> ins = ins.
Proof.
  intros [H _]. induction H as [|[p s q w] ins [_ Hw] _ IH]; [done|].
  cbn in *. rewrite IH. unfold strip_txin. cbn. by subst w.
Qed.

Lemma stripped_no_witness ins outs ver lock :
  vector_of (P := fun i => txin_ok i /\ scriptWitness i = []) ins ->
  HasWitness (Tx ins outs ver lock) = false
  /\ Forall (fun i => stack_ok (scriptWitness i)) ins.
Proof.
  intros H. rewrite <- (strip_of_read ins H). split.
  - apply (HasWitness_strip (Tx ins outs ver lock)).
  - apply Forall_fmap, Forall_forall. intros i _. apply stack_ok_nil.
Qed.

Lemma tx_read_canonical aw s tx rest :
  wf_bytes s -> UnserializeTransaction aw s = Ok (tx, rest) ->
  s = SerializeTransaction aw tx ++ rest
  /\ tx_ok tx /\ (aw = true -> vin tx = [] -> vout tx = []) /\ (aw = false -> HasWitness tx = false).
Proof.
  intros Hs H. unfold UnserializeTransaction in H. codec_read H ver Hver.
  apply reader_bind_inv in H as ([[ins outs] flags] & s1 & Hio & H).
  apply in_out_inv in Hio as (Hi & Ho & Hf & -> & Haw & Hnil); [|done].
  rewrite !app_assoc in Hs. apply wf_bytes_app in Hs as [_ Hs].
  unfold SerializeTransaction.
  destruct (negb (Z.land flags 1 =? 0) && aw) eqn:E.
  - apply andb_prop in E as [E ->]. apply negb_true_iff, Z.eqb_neq in E.
    apply reader_bind_inv in H as ([ins' fl] & s2 & Hw & H).
    apply reader_bind_inv in Hw as (ins'' & s3 & Hwi & Hw).
    apply witnesses_inv in Hwi as (-> & Hst & Hok); [|done].
    destruct (HasWitness (Tx ins'' outs ver 0)) eqn:Ehw; [|done].
    unfold mret, reader_ret in Hw. simplify_eq.
    destruct (Z.lxor flags 1 =? 0) eqn:Ef; cbn [negb] in H; [|done].
    apply Z.eqb_eq, Z.lxor_eq in Ef as ->. apply wf_bytes_app in Hs as [_ Hs].
    codec_read H lock Hlock. unfold mret, reader_ret in H. simplify_eq.
    change (HasWitness (Tx ins' outs ver lock)) with (HasWitness (Tx ins' outs ver 0)). rewrite Ehw.
    cbn [vin vout version nLockTime andb]. change (Z.land 1 1 =? 0) with false. cbn [Z.eqb].
    rewrite <- (ser_vin_strip ins'), Hst, ser_vin_strip, <- !app_assoc.
    split_and!; [done|by apply (read_tx_ok _ _ _ _ ins)| |done].
    intros _ ->. discriminate Ehw.
  - apply reader_bind_inv in H as ([ins' fl] & s2 & Hw & H).
    unfold mret, reader_ret in Hw. simplify_eq.
    destruct (fl =? 0) eqn:Ef; cbn [negb] in H; [|done]. apply Z.eqb_eq in Ef as ->.
    codec_read H lock Hlock. unfold mret, reader_ret in H. simplify_eq.
    destruct (stripped_no_witness ins' outs ver lock Hi) as [Hnw Hok].
    rewrite Hnw, andb_false_r. change (Z.land 0 1 =? 0) with true. cbn [Z.eqb vin vout version nLockTime].
    rewrite <- !app_assoc. split_and!; [done|by apply (read_tx_ok _ _ _ _ ins')|auto|done].
Qed.

#[export] Instance codec_tx aw :
  Codec (fun tx => tx_ok tx /\ (aw = true -> vin tx = [] -> vout tx = [])
                   /\ (aw = false -> HasWitness tx = false))
        (SerializeTransaction aw) (UnserializeTransaction aw).
Proof.
  constructor.
  - intros tx rest (Hok & Hne & Hw). rewrite tx_read_back by done.
    destruct aw; [done|]. by rewrite HasWitness_false by auto.
  - intros s tx rest Hs H. by apply tx_read_canonical.
Qed.

(** ** Headers and blocks *)

Record header_ok (h : CBlockHeader) : Prop := {
  header_ok_version : is_sint 32 (nVersion h);
  header_ok_prev : blob 32 (hashPrevBlock h);
  header_ok_root : blob 32 (hashMerkleRoot h);
  header_ok_time : is_uint 32 (nTime h);
  header_ok_bits : is_uint 32 (nBits h);
  header_ok_nonce : is_uint 32 (nNonce h);
}.

#[export] Instance codec_header : Codec header_ok ser_header unser_header.
Proof.
  constructor.
  - intros [v p m t b n] rest [Hv Hp Hm Ht Hb Hn]. unfold unser_header, ser_header.
    cbn [nVersion hashPrevBlock hashMerkleRoot nTime nBits nNonce] in *. by do 6 codec_write.
  - intros s h rest Hs H. codec_read H v Hv. codec_read H p Hp. codec_read H m Hm.
    codec_read H t Ht. codec_read H b Hb. codec_read H n Hn.
    unfold mret, reader_ret in H. simplify_eq. unfold ser_header.
    cbn [nVersion hashPrevBlock hashMerkleRoot nTime nBits nNonce]. by rewrite <- !app_assoc.
Qed.

Definition block_ok (aw : bool) (b : CBlock) : Prop :=
  header_ok (block_header b)
  /\ vector_of (P := fun tx => tx_ok tx /\ (aw = true -> vin tx = [] -> vout tx = [])
                               /\ (aw = false -> HasWitness tx = false)) (vtx b).

#[export] Instance codec_vtx aw :
  Codec (vector_of (P := fun tx => tx_ok tx /\ (aw = true -> vin tx = [] -> vout tx = [])
                                  /\ (aw = false -> HasWitness tx = false)))
        (VectorFormatter_Ser (SerializeTransaction aw))
        (VectorFormatter_Unser (UnserializeTransaction aw) sizeof_ref).
Proof. by apply codec_vector. Qed.

#[export] Instance codec_block aw : Codec (block_ok aw) (ser_block aw) (unser_block aw).
Proof.
  constructor.
  - intros [h txs] rest [Hh Ht]. unfold unser_block, ser_block.
    cbn [block_header vtx] in *. by do 2 codec_write.
  - intros s b rest Hs H. codec_read H h Hh. codec_read H txs Ht.
    unfold mret, reader_ret in H. simplify_eq. unfold ser_block. cbn [block_header vtx].
    by rewrite <- app_assoc.
Qed.

Lemma length_ser_header h : header_ok h -> length (ser_header h) = 80%nat.
Proof.
  intros [_ [Hp _] [Hm _] _ _ _]. unfold ser_header, ser_hash, ser_int32, ser_writedata32.
  rewrite !length_app, !length_le_bytes. lia.
Qed.

(** ** Hashes *)

Lemma write_GetHash m : HashWriter_GetHash (HashWriter_write CSHA256_new m) = Hash m.
Proof.
  rewrite Hash_spec. exact (proj2 (hash_finalize _ _ (hashed_write hasher_new [] m hashed_new))).
Qed.

Lemma ComputeHash_spec tx : ComputeHash tx = Hash (SerializeTransaction false tx).
Proof. apply write_GetHash. Qed.

Lemma CBlockHeader_GetHash_spec h : CBlockHeader_GetHash h = Hash (ser_header h).
Proof. apply write_GetHash. Qed.

Lemma ComputeHash_blob tx : blob 32 (ComputeHash tx).
Proof. rewrite ComputeHash_spec. split; [by rewrite length_Hash|apply Hash_wf]. Qed.

Lemma SerializeTransaction_strip tx : SerializeTransaction false (strip tx) = SerializeTransaction false tx.
Proof. unfold SerializeTransaction. cbn. by rewrite ser_vin_strip. Qed.

(** * Properties of the formats *)

(** C36: the transaction formats are bijective.  Reading the serialization of a
    transaction gives it back (without its witness in the format that omits
    it), the single exception being a transaction with outputs and no inputs in
    the witness format; and a byte string that is read successfully is the one
    serialization of the transaction it gives, so no transaction has two
    encodings. *)
Theorem transaction_encoding aw tx s rest :
  wf_bytes s ->
  (tx_ok tx -> (aw = true -> vin tx = [] -> vout tx = []) ->
     UnserializeTransaction aw (SerializeTransaction aw tx ++ rest)
     = Ok (if aw then tx else strip tx, rest))
  /\ (UnserializeTransaction aw s = Ok (tx, rest) ->
     s = SerializeTransaction aw tx ++ rest
     /\ tx_ok tx /\ (aw = true -> vin tx = [] -> vout tx = [])
     /\ (aw = false -> HasWitness tx = false)).
Proof. intros Hs. split; [apply tx_read_back|by apply tx_read_canonical]. Qed.

Lemma transaction_encoding_witness :
  let tx := Tx [TxIn (OutPoint (replicate 32 7) 1) [81] 5 [[1; 2]]] [TxOut 50 [82]] 2 0 in
  UnserializeTransaction true (SerializeTransaction true tx ++ [9]) = Ok (tx, [9]).
Proof.
  refine (proj1 (transaction_encoding true
    (Tx [TxIn (OutPoint (replicate 32 7) 1) [81] 5 [[1; 2]]] [TxOut 50 [82]] 2 0) [] [9] _) _ _).
  - by_decide.
  - constructor; by_decide.
  - discriminate.
Defined.

(** Block headers and blocks are encoded bijectively as well: a header has
    80 bytes and reads back, whatever is read is the encoding of the result. *)
Theorem block_encoding aw h b s rest :
  wf_bytes s ->
  (header_ok h -> unser_header (ser_header h ++ rest) = Ok (h, rest) /\ length (ser_header h) = 80%nat)
  /\ (unser_header s = Ok (h, rest) -> s = ser_header h ++ rest /\ header_ok h)
  /\ (block_ok aw b -> unser_block aw (ser_block aw b ++ rest) = Ok (b, rest))
  /\ (unser_block aw s = Ok (b, rest) -> s = ser_block aw b ++ rest /\ block_ok aw b).
Proof.
  intros Hs. split_and!.
  - intros Hh. split; [by apply codec_app|by apply length_ser_header].
  - by apply codec_inv.
  - apply codec_app.
  - by apply codec_inv.
Qed.

Lemma block_encoding_witness :
  let h := BlockHeader 1 (replicate 32 0) (replicate 32 9) 1231006505 0x1d00ffff 2083236893 in
  unser_header (ser_header h ++ [4]) = Ok (h, [4]) /\ length (ser_header h) = 80%nat.
Proof.
  refine (proj1 (block_encoding true
    (BlockHeader 1 (replicate 32 0) (replicate 32 9) 1231006505 0x1d00ffff 2083236893)
    (Block (BlockHeader 1 [] [] 0 0 0) []) [] [4] _) _).
  - by_decide.
  - constructor; by_decide.
Defined.

(** The txid does not depend on the witness, and it is the double SHA-256 of
    the stripped serialization; the witness hash is the txid exactly of the
    transaction without witness and otherwise covers the extended
    serialization.  Equal preimages force equal transactions. *)
Theorem txid_commits (tx tx' : CTransaction) :
  ComputeHash (strip tx) = ComputeHash tx
  /\ ComputeHash tx = Hash (SerializeTransaction false tx)
  /\ ComputeWitnessHash tx
     = Hash (SerializeTransaction (HasWitness tx) tx)
  /\ (tx_ok tx -> tx_ok tx' ->
      SerializeTransaction false tx = SerializeTransaction false tx' -> strip tx = strip tx').
Proof.
  split_and!.
  - by rewrite !ComputeHash_spec, SerializeTransaction_strip.
  - apply ComputeHash_spec.
  - unfold ComputeWitnessHash. destruct (HasWitness tx); [apply write_GetHash|apply ComputeHash_spec].
  - intros Ht Ht' E.
    pose proof (tx_read_back false tx [] Ht ltac:(done)) as H1.
    pose proof (tx_read_back false tx' [] Ht' ltac:(done)) as H2.
    rewrite E, H2 in H1. cbv iota in H1. congruence.
Qed.

Definition spend_with (w : list bytes) : CTransaction :=
  Tx [TxIn (OutPoint (replicate 32 7) 1) [81] 5 w] [TxOut 50 [82]] 2 0.

Lemma txid_commits_witness : strip (spend_with [[1; 2]]) = strip (spend_with [[3]]).
Proof.
  refine (proj2 (proj2 (proj2 (txid_commits (spend_with [[1; 2]]) (spend_with [[3]])))) _ _ _);
    [constructor; by_decide|constructor; by_decide|vm_compute; reflexivity].
Defined.

(** * [CheckTransaction] *)

Definition total_out (outs : list CTxOut) : Z := foldr (fun o acc => nValue o + acc) 0 outs.

Definition outputs_in_range (outs : list CTxOut) : Prop :=
  Forall (fun o => 0 <= nValue o <= MAX_MONEY) outs.

Lemma MoneyRange_spec v : MoneyRange v = true <-> 0 <= v <= MAX_MONEY.
Proof. unfold MoneyRange. rewrite andb_true_iff, Z.leb_le, Z.leb_le. done. Qed.

Lemma i64_money a b : 0 <= a <= MAX_MONEY -> 0 <= b <= MAX_MONEY -> i64 (a + b) = a + b.
Proof. intros. apply swrap_small; [lia|]. unfold is_sint, MAX_MONEY, COIN in *. lia. Qed.

Lemma total_out_nonneg outs : outputs_in_range outs -> 0 <= total_out outs.
Proof. unfold total_out. induction 1 as [|o l Ho _ IH]; cbn in *; lia. Qed.

Lemma check_outputs_spec acc outs :
  0 <= acc <= MAX_MONEY ->
  check_outputs acc outs = Ok () <-> outputs_in_range outs /\ acc + total_out outs <= MAX_MONEY.
Proof.
  revert acc. induction outs as [|o outs IH]; intros acc Hacc; cbn [check_outputs total_out foldr].
  - split; [|done]. intros _. split; [constructor|lia].
  - fold (total_out outs). unfold outputs_in_range. rewrite Forall_cons_iff. fold (outputs_in_range outs).
    destruct (Z.ltb_spec (nValue o) 0); [split; [done|lia]|].
    destruct (Z.ltb_spec MAX_MONEY (nValue o)); [split; [done|lia]|].
    rewrite i64_money by lia. destruct (MoneyRange (acc + nValue o)) eqn:E; cbn [negb].
    + apply MoneyRange_spec in E. rewrite IH by lia. rewrite Z.add_assoc. intuition lia.
    + split; [done|]. intros [[_ Hr] Hs]. pose proof (total_out_nonneg _ Hr).
      assert (MoneyRange (acc + nValue o) = true) by (apply MoneyRange_spec; lia). congruence.
Qed.

Lemma GetValueOut_loop_spec acc outs :
  0 <= acc <= MAX_MONEY -> outputs_in_range outs -> acc + total_out outs <= MAX_MONEY ->
  GetValueOut_loop acc outs = Ok (acc + total_out outs).
Proof.
  revert acc. induction outs as [|o outs IH]; intros acc Hacc Hr Hs; cbn in *.
  - by rewrite Z.add_0_r.
  - inversion Hr as [|?? Ho Hr']; subst. pose proof (total_out_nonneg _ Hr').
    unfold total_out in *. rewrite i64_money by lia.
    rewrite (proj2 (MoneyRange_spec (nValue o))), (proj2 (MoneyRange_spec (acc + nValue o))) by lia.
    cbn. rewrite IH by (done || lia). f_equal. lia.
Qed.

Lemma check_duplicates_spec seen ins :
  check_duplicates seen ins = Ok ()
  <-> NoDup (prevout <$> ins) /\ (forall i, i ∈ ins -> prevout i ∉ seen).
Proof.
  revert seen. induction ins as [|i ins IH]; intros seen; cbn [check_duplicates fmap list_fmap].
  - split; [|done]. intros _. split; [constructor|]. intros i Hi. by apply not_elem_of_nil in Hi.
  - rewrite list.NoDup_cons. destruct (decide (prevout i ∈ seen)) as [Hin|Hin].
    + split; [done|]. intros [_ H]. exfalso. apply (H i); [apply list_elem_of_here|done].
    + rewrite IH. rewrite list_elem_of_fmap. setoid_rewrite elem_of_cons. split.
      * intros [Hnd H]. split_and!; [|done|].
        -- intros (j & Hj & Hjin). apply (H j Hjin). rewrite <- Hj. set_solver.
        -- intros j [->|Hj]; [done|]. specialize (H j Hj). set_solver.
      * intros [[Hni Hnd] H]. split; [done|]. intros j Hj Hjin.
        apply elem_of_union in Hjin as [Hjin|Hjin]; [|by apply (H j); auto].
        apply elem_of_singleton in Hjin. apply Hni. eauto.
Qed.

(** The inputs, as the last part of the check wants them. *)
Definition prevouts_ok (tx : CTransaction) : Prop :=
  if IsCoinBase tx
  then exists i, vin tx = [i] /\ 2 <= Z.of_nat (length (scriptSig i)) <= 100
  else Forall (fun i => COutPoint_IsNull (prevout i) = false) (vin tx).

Lemma check_prevouts_spec tx : check_prevouts tx = Ok () <-> prevouts_ok tx.
Proof.
  unfold check_prevouts, prevouts_ok. destruct (IsCoinBase tx) eqn:E.
  - unfold IsCoinBase in E. destruct (vin tx) as [|i [|]]; try done.
    bool_cases; cbn; (split; [intros H'|intros (j & Hj & Hl)]); simplify_eq; try done; try lia.
    exists i. split; [done|lia].
  - destruct (existsb _ _) eqn:Ex.
    + split; [done|]. intros H. apply existsb_exists in Ex as (i & Hi & Hn).
      rewrite Forall_forall in H. specialize (H i Hi). congruence.
    + split; [|done]. intros _. apply Forall_forall. intros i Hi.
      destruct (COutPoint_IsNull (prevout i)) eqn:En; [|done].
      assert (existsb (fun i => COutPoint_IsNull (prevout i)) (vin tx) = true); [|congruence].
      apply existsb_exists. eauto.
Qed.

(** [CheckTransaction] accepts exactly the transactions with inputs and
    outputs, within the size limit, whose outputs and their running sums stay
    in the money range (no 64-bit overflow can hide), that spend no outpoint
    twice, and whose inputs are either one coinbase input with a script of 2 to
    100 bytes or none null; and then [GetValueOut] returns the exact sum. *)
Theorem CheckTransaction_exact (tx : CTransaction) :
  (CheckTransaction tx = Ok ()
   <-> vin tx <> [] /\ vout tx <> []
       /\ Z.of_nat (length (SerializeTransaction false tx)) * 4 <= 4000000
       /\ outputs_in_range (vout tx) /\ total_out (vout tx) <= MAX_MONEY
       /\ NoDup (prevout <$> vin tx) /\ prevouts_ok tx)
  /\ (CheckTransaction tx = Ok () -> GetValueOut tx = Ok (total_out (vout tx))).
Proof.
  assert (Hiff : CheckTransaction tx = Ok ()
   <-> vin tx <> [] /\ vout tx <> []
       /\ Z.of_nat (length (SerializeTransaction false tx)) * 4 <= 4000000
       /\ outputs_in_range (vout tx) /\ total_out (vout tx) <= MAX_MONEY
       /\ NoDup (prevout <$> vin tx) /\ prevouts_ok tx).
  { unfold CheckTransaction, MAX_BLOCK_WEIGHT, WITNESS_SCALE_FACTOR.
    case_bool_decide; [split; [discriminate|tauto]|]. case_bool_decide; [split; [discriminate|tauto]|].
    destruct (Z.ltb_spec 4000000 (Z.of_nat (length (SerializeTransaction false tx)) * 4));
      [split; [discriminate|intros (_ & _ & Hsz & _); lia]|].
    pose proof (check_outputs_spec 0 (vout tx)) as Ho. rewrite Z.add_0_l in Ho.
    pose proof (check_duplicates_spec ∅ (vin tx)) as Hd. pose proof (check_prevouts_spec tx) as Hp.
    destruct (check_outputs 0 (vout tx)) as [[]|e1]; cbn.
    2:{ split; [done|]. intros (_ & _ & _ & Hr & Hs & _).
        discriminate (proj2 (Ho ltac:(unfold MAX_MONEY, COIN; lia)) (conj Hr Hs)). }
    destruct (check_duplicates ∅ (vin tx)) as [[]|e2]; cbn.
    2:{ split; [done|]. intros (_ & _ & _ & _ & _ & Hnd & _).
        discriminate (proj2 Hd (conj Hnd (fun i _ => not_elem_of_empty (prevout i)))). }
    rewrite Hp. apply proj1 in Hd. specialize (Hd eq_refl) as [Hd _].
    apply proj1 in Ho; [|unfold MAX_MONEY, COIN; lia]. specialize (Ho eq_refl) as [? ?]. tauto. }
  split; [done|]. intros H. apply Hiff in H as (_ & _ & _ & Hr & Hs & _).
  apply (GetValueOut_loop_spec 0); [unfold MAX_MONEY, COIN; lia|done|done].
Qed.

Lemma CheckTransaction_exact_witness :
  let tx := Tx [TxIn (OutPoint (replicate 32 7) 1) [81] 5 []] [TxOut 50 [82]] 2 0 in
  CheckTransaction tx = Ok () /\ GetValueOut tx = Ok 50.
Proof.
  split; [by vm_compute|].
  apply (proj2 (CheckTransaction_exact
    (Tx [TxIn (OutPoint (replicate 32 7) 1) [81] 5 []] [TxOut 50 [82]] 2 0))). by vm_compute.
Defined.
