(* ===== verification/Merkle.v ===== *)
(** Merkle trees (src/bitcoin/src/consensus/merkle.cpp): the root by levels, with
    the detection of duplicated transactions, and the constant-space calculator of
    roots and branches.  [Hash2] is the double SHA-256 of two concatenated hashes. *)

From S2P Require Import Prelude Serialize MerkleDamgard Sha2 Hash Transaction.

(** * The root, level by level *)

Section Root.
(** The batch routines that the processor has. *)
Context (way8 way4 way2 : option (bytes -> bytes)).

Fixpoint split32 (n : nat) (bs : bytes) : list bytes :=
  match n with
  | O => []
  | S n => take 32 bs :: split32 n (drop 32 bs)
  end.

(** The loop over [pos]: two equal hashes at an even position. *)
Fixpoint equal_pair (hashes : list bytes) : bool :=
  match hashes with
  | a :: b :: hashes => bool_decide (a = b) || equal_pair hashes
  | _ => false
  end.

(** [if (hashes.size() & 1) hashes.push_back(hashes.back())] *)
Definition push_last (hashes : list bytes) : list bytes :=
  if Nat.odd (length hashes) then hashes ++ [last hashes []] else hashes.

(** The hashes in place: [SHA256D64] on their memory, cut back to half. *)
Definition merkle_level (hashes : list bytes) : list bytes :=
  let hashes := push_last hashes in
  let n := (length hashes / 2)%nat in
  split32 n (SHA256D64 way8 way4 way2 sha256_TransformD64 (concat hashes) n).

(** The loop; it halves the number of hashes, so that their number is enough fuel. *)
Fixpoint merkle_loop (fuel : nat) (hashes : list bytes) (mutation : bool) : list bytes * bool :=
  match fuel with
  | O => (hashes, mutation)
  | S fuel =>
      if (length hashes <=? 1)%nat then (hashes, mutation)
      else merkle_loop fuel (merkle_level hashes) (mutation || equal_pair hashes)
  end.

Definition ComputeMerkleRoot (hashes : list bytes) : bytes * bool :=
  let '(hashes, mutation) := merkle_loop (length hashes) hashes false in
  (default uint256_null (head hashes), mutation).

Definition BlockMerkleRoot (block : CBlock) : bytes * bool := ComputeMerkleRoot (ComputeHash <$> vtx block).

(** [leaves[0]] of an empty block does not exist. *)
Definition BlockWitnessMerkleRoot (block : CBlock) : result string (bytes * bool) :=
  match vtx block with
  | [] => Err "leaves[0]"
  | _ :: txs => Ok (ComputeMerkleRoot (uint256_null :: (ComputeWitnessHash <$> txs)))
  end.

End Root.

(** * The constant-space calculator *)

(** [inner], [matchlevel], [mutated] and [path]. *)
Record computation := Computation {
  inner : list bytes;
  matchlevel : Z;
  mutated : bool;
  path : list bytes
}.

Definition inner_at (c : computation) (level : nat) : bytes := nth level (inner c) [].

(** [!(count & (uint32_t{1} << level))] *)
Definition bit_clear (count : Z) (level : nat) : bool := Z.land count (u32 (Z.shiftl 1 (Z.of_nat level))) =? 0.

(** What both loops do to the branch when [inner[level]] and [h] are joined. *)
Definition path_step (c : computation) (level : nat) (h : bytes) (matchh : bool) : list bytes * bool :=
  if matchh then (path c ++ [inner_at c level], true)
  else if matchlevel c =? Z.of_nat level then (path c ++ [h], true)
  else (path c, false).

(** The loop over the levels below the lowest set bit of [count]. *)
Fixpoint join_levels (fuel : nat) (count : Z) (level : nat) (h : bytes) (matchh : bool) (c : computation)
    : nat * bytes * bool * computation :=
  match fuel with
  | O => (level, h, matchh, c)
  | S fuel =>
      if negb (bit_clear count level) then (level, h, matchh, c)
      else
        let '(p, matchh) := path_step c level h matchh in
        join_levels fuel count (S level) (Hash2 (inner_at c level) h) matchh
          (Computation (inner c) (matchlevel c) (mutated c || bool_decide (inner_at c level = h)) p)
  end.

(** One leaf. *)
Definition add_leaf (leaf_pos : Z) (st : Z * computation) (leaf : bytes) : Z * computation :=
  let '(count, c) := st in
  let matchh := count =? leaf_pos in
  let count := u32 (count + 1) in
  let '(level, h, matchh, c) := join_levels 32 count 0 leaf matchh c in
  (count, Computation (<[level := h]> (inner c)) (if matchh then Z.of_nat level else matchlevel c) (mutated c) (path c)).

(** [while (!(count & (uint32_t{1} << level))) level++] *)
Fixpoint lowest_level (fuel : nat) (count : Z) (level : nat) : nat :=
  match fuel with
  | O => level
  | S fuel => if bit_clear count level then lowest_level fuel count (S level) else level
  end.

(** The inner loop of the sweep. *)
Fixpoint sweep_up (fuel : nat) (count : Z) (level : nat) (h : bytes) (matchh : bool) (c : computation)
    : nat * bytes * bool * computation :=
  match fuel with
  | O => (level, h, matchh, c)
  | S fuel =>
      if bit_clear count level then
        let '(p, matchh) := path_step c level h matchh in
        sweep_up fuel count (S level) (Hash2 (inner_at c level) h) matchh
          (Computation (inner c) (matchlevel c) (mutated c) p)
      else (level, h, matchh, c)
  end.

(** The final sweep over the rightmost branch. *)
Fixpoint sweep (fuel : nat) (count : Z) (level : nat) (h : bytes) (matchh : bool) (c : computation) : bytes * computation :=
  match fuel with
  | O => (h, c)
  | S fuel =>
      if count =? u32 (Z.shiftl 1 (Z.of_nat level)) then (h, c)
      else
        let c := if matchh then Computation (inner c) (matchlevel c) (mutated c) (path c ++ [h]) else c in
        let h := Hash2 h h in
        let count := u32 (count + u32 (Z.shiftl 1 (Z.of_nat level))) in
        let '(level, h, matchh, c) := sweep_up 32 count (S level) h matchh c in
        sweep fuel count level h matchh c
  end.

(** The root, whether the leaves are mutated, and the branch of [leaf_pos]. *)
Definition MerkleComputation (leaves : list bytes) (leaf_pos : Z) : bytes * bool * list bytes :=
  match leaves with
  | [] => (uint256_null, false, [])
  | _ =>
      let '(count, c) := foldl (add_leaf leaf_pos) (0, Computation (replicate 32 uint256_null) (-1) false []) leaves in
      let level := lowest_level 32 count 0 in
      let '(h, c) := sweep 32 count level (inner_at c level) (matchlevel c =? Z.of_nat level) c in
      (h, mutated c, path c)
  end.

Definition ComputeMerklePath (leaves : list bytes) (position : Z) : list bytes := (MerkleComputation leaves position).2.

Definition TransactionMerklePath (block : CBlock) (position : Z) : list bytes :=
  ComputeMerklePath (ComputeHash <$> vtx block) position.

(** [ComputeMerkleRootFromBranch] of the unit tests: what a branch proves. *)
Definition ComputeMerkleRootFromBranch (leaf : bytes) (vMerkleBranch : list bytes) (nIndex : Z) : bytes :=
  (foldl (fun '(hash, nIndex) it =>
            (if negb (Z.land nIndex 1 =? 0) then Hash2 it hash else Hash2 hash it, Z.shiftr nIndex 1))
         (leaf, nIndex) vMerkleBranch).1.

(** * The tree *)

(** The reference: the nodes of a level are the double hashes of pairs of nodes of
    the level below, the last one being paired with itself where it has no sibling. *)
Fixpoint pairs (l : list bytes) : list bytes :=
  match l with
  | a :: b :: l => Hash2 a b :: pairs l
  | [a] => [Hash2 a a]
  | [] => []
  end.

Fixpoint tree (leaves : list bytes) (k : nat) : list bytes :=
  match k with O => leaves | S k => pairs (tree leaves k) end.

Definition node (leaves : list bytes) (k : nat) (p : Z) : bytes := nth (Z.to_nat p) (tree leaves k) [].

Definition width (leaves : list bytes) (k : nat) : Z := zlen (tree leaves k).

(** [d] is the level of the root. *)
Definition depth (leaves : list bytes) (d : nat) : Prop :=
  width leaves d = 1 /\ forall j, (j < d)%nat -> 2 <= width leaves j.

Ltac div_lia := Z.to_euclidean_division_equations; lia.

(** Induction by twos. *)
Lemma list_pair_ind (P : list bytes -> Prop) :
  P [] -> (forall a, P [a]) -> (forall a b l, P l -> P (a :: b :: l)) -> forall l, P l.
Proof.
  intros H0 H1 H2 l. cut (P l /\ forall a, P (a :: l)); [tauto|].
  induction l as [|b l [IH1 IH2]]; [by eauto|]. split; [apply IH2|]. intros a. by apply H2.
Qed.

Lemma length_pairs l : length (pairs l) = (S (length l) / 2)%nat.
Proof.
  induction l as [| |a b l IH] using list_pair_ind; [done..|]. cbn [pairs length]. rewrite IH.
  replace (S (S (S (length l)))) with (S (length l) + 1 * 2)%nat by lia. rewrite Nat.div_add by done. lia.
Qed.

Lemma pairs_nth l p : (2 * p < length l)%nat ->
  nth p (pairs l) [] = Hash2 (nth (2 * p) l []) (nth (Nat.min (2 * p + 1) (length l - 1)) l []).
Proof.
  revert p. induction l as [|a|a b l IH] using list_pair_ind; intros p Hp; cbn [length] in Hp; [lia|..].
  - by replace p with O by lia.
  - destruct p as [|p].
    + cbn [pairs length]. replace (Nat.min _ _) with 1%nat by lia. done.
    + cbn [pairs nth]. rewrite IH by lia.
      replace (2 * S p)%nat with (S (S (2 * p))) by lia. cbn [length].
      by replace (Nat.min (S (S (2 * p)) + 1) (S (S (length l)) - 1))
        with (S (S (Nat.min (2 * p + 1) (length l - 1)))) by lia.
Qed.

Lemma Hash2_length a b : length (Hash2 a b) = 32%nat.
Proof. rewrite Hash2_spec, <- Hash_spec. apply length_Hash. Qed.

Lemma pairs_wf l : Forall (fun h => length h = 32%nat) (pairs l).
Proof. induction l using list_pair_ind; cbn [pairs]; repeat constructor; try done; apply Hash2_length. Qed.

Section Tree.
Context (leaves : list bytes).

Lemma width_S k : width leaves (S k) = (width leaves k + 1) / 2.
Proof.
  unfold width, zlen. cbn [tree]. rewrite length_pairs, Nat2Z.inj_div. f_equal. lia.
Qed.

Lemma width_pos k : leaves <> [] -> 1 <= width leaves k.
Proof.
  intros Hl. induction k as [|k IH]; [|rewrite width_S; div_lia].
  unfold width, zlen. cbn. destruct leaves; [done|cbn; lia].
Qed.

Lemma width_le k : leaves <> [] -> width leaves (S k) <= width leaves k.
Proof. intros Hl. pose proof (width_pos k Hl). rewrite width_S. div_lia. Qed.

(** A node with its sibling. *)
Lemma node_S k p : 0 <= 2 * p < width leaves k ->
  node leaves (S k) p = Hash2 (node leaves k (2 * p)) (node leaves k (Z.min (2 * p + 1) (width leaves k - 1))).
Proof.
  unfold node, width, zlen. intros Hp. cbn [tree]. rewrite pairs_nth by lia.
  f_equal; f_equal; lia.
Qed.

(** The width in terms of the number of leaves. *)
Lemma width_div k :
  width leaves k = zlen leaves / 2 ^ Z.of_nat k + (if zlen leaves mod 2 ^ Z.of_nat k =? 0 then 0 else 1).
Proof.
  induction k as [|k IH].
  - cbn. rewrite Z.div_1_r, Z.mod_1_r. cbn. unfold width. cbn. lia.
  - rewrite width_S, IH, Nat2Z.inj_succ, Z.pow_succ_r, (Z.mul_comm 2) by lia.
    assert (0 < 2 ^ Z.of_nat k) by lia.
    rewrite <- Z.div_div, Z.rem_mul_r by lia.
    set (q := zlen leaves / 2 ^ Z.of_nat k). set (r := zlen leaves mod 2 ^ Z.of_nat k).
    assert (0 <= r) by (apply Z.mod_pos_bound; lia).
    assert (q mod 2 = 0 \/ q mod 2 = 1) as [E|E] by div_lia; rewrite E, ?Z.mul_0_r, ?Z.mul_1_r, ?Z.add_0_r.
    + destruct (r =? 0); div_lia.
    + destruct (Z.eqb_spec (r + 2 ^ Z.of_nat k) 0); [lia|]. destruct (r =? 0); div_lia.
Qed.

Lemma depth_unique d d' : depth leaves d -> depth leaves d' -> d = d'.
Proof.
  intros [H1 H2] [H1' H2']. destruct (Nat.lt_trichotomy d d') as [H|[H|H]]; [|done|].
  - specialize (H2' _ H). lia.
  - specialize (H2 _ H). lia.
Qed.

End Tree.

(** * The root by levels is the root of the tree *)

Lemma split32_pairs l n : Forall (fun h => length h = 32%nat) l -> length l = (2 * n)%nat ->
  split32 n (double_hashes n (concat l)) = pairs l.
Proof.
  intros Hl. revert n. induction l as [|a|a b l IH] using list_pair_ind; intros n Hn; cbn [length] in Hn.
  - by replace n with O by lia.
  - lia.
  - destruct n as [|n]; [lia|].
    apply Forall_cons_iff in Hl as [Ha [Hb Hl]%Forall_cons_iff].
    assert (length (a ++ b) = 64%nat) as Hab by (rewrite length_app; lia).
    cbn [double_hashes split32 pairs concat]. rewrite (app_assoc a b).
    rewrite (take_app_length' (a ++ b)), (drop_app_length' (a ++ b)) by done.
    rewrite <- Hash2_spec. pose proof (Hash2_length a b).
    rewrite take_app_length', drop_app_length' by done. f_equal. apply IH; [done|lia].
Qed.

Lemma pairs_push_last l : pairs (push_last l) = pairs l.
Proof.
  unfold push_last. destruct (Nat.odd (length l)) eqn:E; [|done].
  induction l as [|a|a b l IH] using list_pair_ind; [done|done|].
  cbn [length] in E. rewrite Nat.odd_succ_succ in E. cbn [app pairs]. f_equal. rewrite <- IH by done.
  destruct l; done.
Qed.

Lemma push_last_wf l : Forall (fun h => length h = 32%nat) l ->
  Forall (fun h => length h = 32%nat) (push_last l) /\ Nat.even (length (push_last l)) = true.
Proof.
  intros Hl. unfold push_last. destruct (Nat.odd (length l)) eqn:E.
  - split.
    + apply Forall_app. split; [done|]. constructor; [|done]. destruct (exists_last (l := l)) as (l' & x & ->); [by intros ->|].
      rewrite last_last. decompose_Forall_hyps. done.
    + rewrite length_app, Nat.add_comm. cbn [length Nat.add]. by rewrite Nat.even_succ.
  - split; [done|]. by rewrite <- Nat.negb_odd, E.
Qed.

Section Levels.
Context (way8 way4 way2 : option (bytes -> bytes)).
Context (H8 : way_ok 8 way8) (H4 : way_ok 4 way4) (H2 : way_ok 2 way2).

Lemma merkle_level_pairs l : Forall (fun h => length h = 32%nat) l -> merkle_level way8 way4 way2 l = pairs l.
Proof.
  intros Hl. destruct (push_last_wf l Hl) as [Hl' He]. unfold merkle_level.
  apply Nat.even_spec in He as [n He]. rewrite He, (Nat.mul_comm 2), Nat.div_mul by done.
  rewrite SHA256D64_spec; [by rewrite split32_pairs, pairs_push_last|done..| |].
  - intros m Hm. cbn [double_hashes]. rewrite TransformD64_double by done.
    by rewrite app_nil_r, firstn_all2 by (rewrite Hm; lia).
  - replace (length (concat (push_last l))) with (32 * length (push_last l))%nat; [lia|].
    clear He. induction Hl'; [done|]. cbn [concat length]. rewrite length_app. lia.
Qed.

Lemma tree_wf leaves k : Forall (fun h => length h = 32%nat) leaves -> Forall (fun h => length h = 32%nat) (tree leaves k).
Proof. intros. destruct k; [done|]. apply pairs_wf. Qed.

(** The loop stops at the root. *)
Lemma merkle_loop_spec leaves fuel k m : leaves <> [] -> Forall (fun h => length h = 32%nat) leaves ->
  width leaves k <= Z.of_nat fuel + 1 -> (forall j, (j < k)%nat -> 2 <= width leaves j) ->
  exists d, depth leaves d /\ (k <= d)%nat
    /\ merkle_loop way8 way4 way2 fuel (tree leaves k) m
       = (tree leaves d, m || existsb (fun j => equal_pair (tree leaves j)) (seq k (d - k))).
Proof.
  intros Hne Hwf. revert k m. induction fuel as [|fuel IH]; intros k m Hf Hk; pose proof (width_pos leaves k Hne).
  - exists k. split; [split; [lia|done]|]. split; [lia|]. cbn. by rewrite Nat.sub_diag, orb_false_r.
  - cbn [merkle_loop]. destruct (Nat.leb_spec (length (tree leaves k)) 1) as [Hl|Hl].
    + exists k. unfold width, zlen in *. split; [split; [unfold width, zlen; lia|done]|]. split; [lia|].
      by rewrite Nat.sub_diag, orb_false_r.
    + assert (2 <= width leaves k) by (unfold width, zlen; lia).
      destruct (IH (S k) (m || equal_pair (tree leaves k))) as (d & Hd & Hkd & E).
      * rewrite width_S. div_lia.
      * intros j Hj. destruct (decide (j = k)) as [->|]; [done|]. apply Hk. lia.
      * exists d. split; [done|]. split; [lia|]. rewrite merkle_level_pairs by by apply tree_wf.
        cbn [tree] in E. rewrite E. replace (d - k)%nat with (S (d - S k)) by lia. cbn [seq existsb]. by rewrite orb_assoc.
Qed.

Lemma ComputeMerkleRoot_spec leaves : leaves <> [] -> Forall (fun h => length h = 32%nat) leaves ->
  exists d, depth leaves d
    /\ ComputeMerkleRoot way8 way4 way2 leaves
       = (node leaves d 0, existsb (fun j => equal_pair (tree leaves j)) (seq 0 d)).
Proof.
  intros Hne Hwf. destruct (merkle_loop_spec leaves (length leaves) 0 false Hne Hwf) as (d & Hd & _ & E).
  - unfold width, zlen. cbn [tree]. lia.
  - lia.
  - exists d. split; [done|]. unfold ComputeMerkleRoot. cbn [tree] in E. rewrite E, Nat.sub_0_r. f_equal.
    destruct Hd as [Hd _]. unfold width, node, zlen in *. by destruct (tree leaves d).
Qed.

Lemma root_tree leaves d : Forall (fun h => length h = 32%nat) leaves -> depth leaves d ->
  exists h, tree leaves d = [h]
    /\ ComputeMerkleRoot way8 way4 way2 leaves = (h, existsb (fun j => equal_pair (tree leaves j)) (seq 0 d)).
Proof.
  intros Hl Hd. assert (leaves <> []) as Hne.
  { intros ->. destruct Hd as [Hd Hj]. destruct d as [|d]; [done|]. specialize (Hj O ltac:(lia)). done. }
  destruct (ComputeMerkleRoot_spec leaves Hne Hl) as (d' & Hd' & ->).
  rewrite <- (depth_unique leaves d d' Hd Hd'). destruct Hd as [Hd _]. unfold width, node, zlen in *.
  destruct (tree leaves d) as [|h [|]]; cbn [length] in Hd; try lia. by exists h.
Qed.

End Levels.

(** * The constant-space calculator *)

(** [c] without its [k] lowest bits. *)
Definition high (c : Z) (k : nat) : Z := c / 2 ^ Z.of_nat k.

Lemma high_0 c : high c 0 = c.
Proof. apply Z.div_1_r. Qed.

Lemma high_S c k : high c (S k) = high c k / 2.
Proof. unfold high. rewrite Nat2Z.inj_succ, Z.pow_succ_r, Z.mul_comm, Z.div_div by lia. done. Qed.

Lemma high_nonneg c k : 0 <= c -> 0 <= high c k.
Proof. intros. apply Z.div_pos; lia. Qed.

Lemma high_mul a k : high (2 ^ Z.of_nat k * a) k = a.
Proof. unfold high. rewrite Z.mul_comm. apply Z.div_mul. lia. Qed.

Lemma u32_pow2 k : (k < 32)%nat -> u32 (Z.shiftl 1 (Z.of_nat k)) = 2 ^ Z.of_nat k.
Proof.
  intros Hk. rewrite Z.shiftl_1_l. apply wrap_small. split; [lia|]. apply Z.pow_lt_mono_r; lia.
Qed.

Lemma bit_clear_spec c k : (k < 32)%nat -> bit_clear c k = Z.even (high c k).
Proof.
  intros Hk. unfold bit_clear, high. rewrite u32_pow2, land_pow2 by lia.
  rewrite <- Z.shiftr_div_pow2, <- Z.negb_odd by lia. rewrite <- Z.bit0_odd, Z.shiftr_spec, Z.add_0_l by lia.
  destruct (Z.testbit c (Z.of_nat k)); [|done]. apply Z.eqb_neq. cbn [Z.b2z]. lia.
Qed.

(** A count and its successor: the bits at and above the lowest set one. *)
Lemma high_succ c k : 0 <= c -> (c + 1) mod 2 ^ Z.of_nat k = 0 -> high c k = high (c + 1) k - 1.
Proof.
  intros Hc Hm. unfold high. assert (0 < 2 ^ Z.of_nat k) by lia.
  pose proof (Z.div_mod (c + 1) (2 ^ Z.of_nat k) ltac:(lia)) as E. rewrite Hm, Z.add_0_r in E.
  symmetry. apply (Z.div_unique _ _ _ (2 ^ Z.of_nat k - 1)); [lia|]. nia.
Qed.

Lemma high_succ_above c l k : 0 <= c -> (c + 1) mod 2 ^ Z.of_nat l = 0 -> Z.odd (high (c + 1) l) = true ->
  (l < k)%nat -> high c k = high (c + 1) k.
Proof.
  intros Hc Hm Ho Hk. induction Hk as [|k Hk IH].
  - rewrite !high_S, high_succ by done. rewrite Zodd_mod in Ho. apply Z.eqb_eq in Ho. div_lia.
  - by rewrite !high_S, IH.
Qed.

Lemma mod_pow2_S c k : c mod 2 ^ Z.of_nat (S k) = 0 <-> c mod 2 ^ Z.of_nat k = 0 /\ Z.even (high c k) = true.
Proof.
  rewrite Nat2Z.inj_succ, Z.pow_succ_r, (Z.mul_comm 2), Z.rem_mul_r by lia. fold (high c k).
  assert (0 < 2 ^ Z.of_nat k) by lia. pose proof (Z.mod_pos_bound c (2 ^ Z.of_nat k) ltac:(lia)).
  rewrite Zeven_mod. assert (high c k mod 2 = 0 \/ high c k mod 2 = 1) as [E|E] by div_lia; rewrite E; cbn; lia.
Qed.

Lemma mod_below c l k : c mod 2 ^ Z.of_nat l = 0 -> (k < l)%nat -> Z.even (high c k) = true.
Proof.
  intros Hm Hk. induction l as [|l IH]; [lia|]. apply mod_pow2_S in Hm as [Hm He].
  destruct (decide (k = l)) as [->|]; [done|]. apply IH; [done|lia].
Qed.

Lemma mod_down c l k : c mod 2 ^ Z.of_nat l = 0 -> (k <= l)%nat -> c mod 2 ^ Z.of_nat k = 0.
Proof. intros Hm Hk. induction Hk as [|l Hk IH]; [done|]. apply mod_pow2_S in Hm as [Hm _]. auto. Qed.

Section Computation.
Context (leaves : list bytes) (i : Z).
Local Notation n := (zlen leaves).
Local Notation wd := (width leaves).
Local Notation nd := (node leaves).
Context (Hn : 0 < n <= 2 ^ 31) (Hi : 0 <= i).

Lemma leaves_ne : leaves <> [].
Proof. intros E. rewrite E in Hn. unfold zlen in Hn. cbn in Hn. lia. Qed.

Lemma high_width c k : 0 <= c <= n -> high c k <= wd k.
Proof.
  intros Hc. rewrite width_div. unfold high.
  pose proof (Z.div_le_mono c n (2 ^ Z.of_nat k) ltac:(lia) ltac:(lia)). destruct (_ =? 0); lia.
Qed.

(** The sibling of the ancestor of leaf [i] at level [k], and the branch below [d]. *)
Definition sibling (k : nat) : Z :=
  if Z.odd (high i k) then high i k - 1 else Z.min (high i k + 1) (wd k - 1).

Definition branch (d : nat) : list bytes := (fun k => nd k (sibling k)) <$> seq 0 d.

Lemma branch_S d : branch (S d) = branch d ++ [nd d (sibling d)].
Proof. unfold branch. by rewrite seq_S, fmap_app. Qed.

(** The entries of [inner] at the set bits of [c]. *)
Definition inner_ok (c : Z) (inn : list bytes) : Prop :=
  length inn = 32%nat
  /\ forall k, (k < 32)%nat -> Z.odd (high c k) = true -> nth k inn [] = nd k (high c k - 1).

(** Leaf [i] is not before [b], or it is below the entry of [inner] at a set bit of
    [c], at or above [level]. *)
Definition waiting (b c : Z) (level : nat) (ml : Z) (p : list bytes) : Prop :=
  (b <= i /\ ml = -1 /\ p = [])
  \/ exists m, (level <= m)%nat /\ ml = Z.of_nat m /\ Z.odd (high c m) = true
       /\ high i m = high c m - 1 /\ p = branch m.

(** The state of a loop that carries a node at position [q] of [level]. *)
Definition carried (b c : Z) (level : nat) (q : Z) (matchh : bool) (ml : Z) (p : list bytes) : Prop :=
  if matchh then high i level = q /\ p = branch level else waiting b c level ml p.

(** Joining the carried node at the odd position [q] with the entry of [inner]. *)
Lemma join_node c level q matchh (st : computation) : (level < 32)%nat -> 0 <= q < wd level ->
  Z.odd q = true -> inner_ok c (inner st) -> high c level = q ->
  Hash2 (inner_at st level) (nd level q) = nd (S level) (q / 2)
  /\ forall b, carried b c level q matchh (matchlevel st) (path st) ->
       let '(p, matchh) := path_step st level (nd level q) matchh in
       carried b c (S level) (q / 2) matchh (matchlevel st) p.
Proof.
  intros Hl Hq Ho [_ Hin] Hc. unfold inner_at.
  pose proof Ho as Hm. rewrite Zodd_mod in Hm. apply Z.eqb_eq in Hm.
  rewrite (Hin level Hl) by (by rewrite Hc). rewrite Hc. split.
  - rewrite node_S by div_lia. f_equal; f_equal; div_lia.
  - intros b. unfold path_step, carried, inner_at. destruct matchh.
    + intros [Hp ->]. rewrite high_S, Hp, branch_S, (Hin level Hl) by (by rewrite Hc).
      unfold sibling. rewrite Hp, Ho, Hc. done.
    + intros [(Hb & -> & ->)|(m & Hm1 & -> & Hm2 & Hm3 & ->)].
      * rewrite (proj2 (Z.eqb_neq _ _)) by lia. by left.
      * destruct (Z.eqb_spec (Z.of_nat m) (Z.of_nat level)) as [E|E].
        -- apply Nat2Z.inj in E as ->. rewrite high_S, branch_S, Hm3, Hc. split; [div_lia|].
           unfold sibling. rewrite Hm3, Hc. replace (Z.odd (q - 1)) with false.
           ++ do 3 f_equal. lia.
           ++ rewrite Z.odd_sub, Ho. done.
        -- right. exists m. split_and!; [lia|done..].
Qed.

Lemma mod_level c k : 0 < c <= 2 ^ 31 -> c mod 2 ^ Z.of_nat k = 0 -> (k < 32)%nat.
Proof.
  intros Hc Hm. apply Nat.lt_nge. intros Hk.
  assert (2 ^ 32 <= 2 ^ Z.of_nat k) by (apply Z.pow_le_mono_r; lia). rewrite Z.mod_small in Hm by lia. lia.
Qed.

Lemma join_levels_spec fuel c level matchh st : (level + fuel = 32)%nat -> 0 <= c < n ->
  (c + 1) mod 2 ^ Z.of_nat level = 0 -> inner_ok c (inner st) ->
  carried (c + 1) c level (high (c + 1) level - 1) matchh (matchlevel st) (path st) ->
  exists l matchh' st',
    join_levels fuel (c + 1) level (nd level (high (c + 1) level - 1)) matchh st
    = (l, nd l (high (c + 1) l - 1), matchh', st')
    /\ (l < 32)%nat /\ (c + 1) mod 2 ^ Z.of_nat l = 0 /\ Z.odd (high (c + 1) l) = true
    /\ inner st' = inner st /\ matchlevel st' = matchlevel st
    /\ carried (c + 1) c l (high (c + 1) l - 1) matchh' (matchlevel st) (path st').
Proof.
  revert level matchh st. induction fuel as [|fuel IH]; intros level matchh st Hf Hc Hm Hin Hca;
    pose proof (mod_level (c + 1) level ltac:(lia) Hm) as Hl; [lia|].
  cbn [join_levels]. rewrite bit_clear_spec by done. destruct (Z.even (high (c + 1) level)) eqn:Ev; cbn [negb].
  - pose proof (high_succ c level ltac:(lia) Hm) as Hp.
    pose proof (high_nonneg c level ltac:(lia)). pose proof (high_width (c + 1) level ltac:(lia)).
    assert (high (c + 1) (S level) - 1 = (high (c + 1) level - 1) / 2) as Hq
      by (rewrite high_S; rewrite Zeven_mod in Ev; apply Z.eqb_eq in Ev; div_lia).
    destruct (join_node c level (high (c + 1) level - 1) matchh st) as [Hh Hpath]; [done|lia| |done|done|].
    { rewrite Z.odd_sub, <- Z.negb_even, Ev. done. }
    specialize (Hpath _ Hca). destruct (path_step _ _ _ _) as [p matchh1].
    rewrite Hh, <- Hq. rewrite <- Hq in Hpath.
    apply (IH (S level) matchh1 (Computation _ _ _ p)); [lia|done| |done|done].
    by apply mod_pow2_S.
  - exists level, matchh, st. split_and!; try done. by rewrite <- Z.negb_even, Ev.
Qed.

(** What holds after the first [c] leaves. *)
Definition leaf_inv (c : Z) (st : computation) : Prop :=
  inner_ok c (inner st) /\ waiting c c 0 (matchlevel st) (path st).

Lemma add_leaf_spec c st : 0 <= c < n -> leaf_inv c st ->
  exists st', add_leaf i (c, st) (nd 0 c) = (c + 1, st') /\ leaf_inv (c + 1) st'.
Proof.
  intros Hc [Hin Hw]. unfold add_leaf. rewrite (wrap_small 32 (c + 1)) by (unfold is_uint; lia).
  destruct (join_levels_spec 32 c 0 (c =? i) st) as (l & matchh & st' & E & Hl & Hm & Ho & Hin' & Hml & Hca);
    [done|done|apply Z.mod_1_r|done| |].
  { destruct (Z.eqb_spec c i) as [->|Hne]; cbn [carried].
    - rewrite !high_0. split; [lia|].
      destruct Hw as [(? & ? & ->)|(m & ? & ? & ? & ? & ?)]; [done|lia].
    - destruct Hw as [(? & ? & ?)|Hw]; [left; split_and!; [lia|done..]|by right]. }
  rewrite high_0 in E. replace (c + 1 - 1) with c in E by lia. rewrite E.
  eexists. split; [done|]. split; cbn [inner matchlevel path].
  - destruct Hin as [Hlen Hin]. rewrite Hin'. split; [by rewrite length_insert|]. intros k Hk Hok.
    destruct (decide (k = l)) as [->|Hne].
    + rewrite nth_lookup, list_lookup_insert_eq by lia. done.
    + rewrite nth_lookup, list_lookup_insert_ne, <- nth_lookup by done. destruct (decide (k < l)%nat) as [Hkl|Hkl].
      * by rewrite <- Z.negb_even, (mod_below _ _ _ Hm Hkl) in Hok.
      * pose proof (high_succ_above c l k ltac:(lia) Hm Ho ltac:(lia)) as Ea. rewrite <- Ea. apply Hin; [done|]. by rewrite Ea.
  - destruct matchh.
    + right. exists l. destruct Hca as [? ?]. split_and!; [lia|done..].
    + rewrite Hml. destruct Hca as [Hca|(m & Hm1 & Hm2 & Hm3 & Hm4 & Hm5)]; [by left|]. right. exists m.
      destruct (decide (m = l)) as [->|Hne].
      * rewrite (high_succ c l), Z.odd_sub, Ho in Hm3 by (done || lia). done.
      * pose proof (high_succ_above c l m ltac:(lia) Hm Ho ltac:(lia)) as Ea. rewrite <- Ea. split_and!; [lia|done..].
Qed.

Lemma add_leaves_spec done_ rest st : leaves = done_ ++ rest -> leaf_inv (zlen done_) st ->
  exists st', foldl (add_leaf i) (zlen done_, st) rest = (n, st') /\ leaf_inv n st'.
Proof.
  revert done_ st. induction rest as [|leaf rest IH]; intros done_ st E Hinv.
  - rewrite app_nil_r in E. exists st. by rewrite E.
  - assert (nd 0 (zlen done_) = leaf) as Hleaf.
    { unfold node, zlen. cbn [tree]. rewrite E, Nat2Z.id, nth_lookup, lookup_app_r, Nat.sub_diag by lia. done. }
    assert (n = zlen done_ + 1 + zlen rest) as Hlen by (rewrite E; unfold zlen; rewrite length_app; cbn [length]; lia).
    destruct (add_leaf_spec (zlen done_) st) as (st' & E' & Hinv'); [unfold zlen in *; lia|done|].
    cbn [foldl]. rewrite <- Hleaf, E'. replace (zlen done_ + 1) with (zlen (done_ ++ [leaf])) in *
      by (unfold zlen; rewrite length_app; cbn [length]; lia).
    apply IH; [|done]. by rewrite <- app_assoc.
Qed.

Lemma lowest_level_spec fuel level : (level + fuel = 32)%nat -> n mod 2 ^ Z.of_nat level = 0 ->
  exists l, lowest_level fuel n level = l /\ (l < 32)%nat /\ n mod 2 ^ Z.of_nat l = 0 /\ Z.odd (high n l) = true.
Proof.
  revert level. induction fuel as [|fuel IH]; intros level Hf Hm; pose proof (mod_level n level Hn Hm) as Hl; [lia|].
  cbn [lowest_level]. rewrite bit_clear_spec by done. destruct (Z.even (high n level)) eqn:Ev.
  - apply IH; [lia|]. by apply mod_pow2_S.
  - exists level. split_and!; [done..|]. by rewrite <- Z.negb_even, Ev.
Qed.

Lemma width_bound k : (k <= 31)%nat -> 2 ^ Z.of_nat k * wd k <= 2 ^ 31.
Proof.
  intros Hk. assert (wd k <= 2 ^ (31 - Z.of_nat k)) as H.
  - induction k as [|k IH]; [apply Hn|]. specialize (IH ltac:(lia)). rewrite width_S.
    replace (31 - Z.of_nat k) with (Z.succ (31 - Z.of_nat (S k))) in IH by lia.
    rewrite Z.pow_succ_r in IH by lia. div_lia.
  - replace (2 ^ 31) with (2 ^ Z.of_nat k * 2 ^ (31 - Z.of_nat k)) by (rewrite <- Z.pow_add_r by lia; f_equal; lia).
    apply Z.mul_le_mono_nonneg_l; lia.
Qed.

Lemma width_above k : n mod 2 ^ Z.of_nat k <> 0 -> wd k = high n k + 1.
Proof. intros H. rewrite width_div. by rewrite (proj2 (Z.eqb_neq _ _) H). Qed.

(** The inner loop of the sweep stops at the next odd level. *)
Lemma sweep_up_spec fuel level matchh st : (32 <= level + fuel)%nat -> n mod 2 ^ Z.of_nat level <> 0 ->
  2 ^ Z.of_nat level * wd level <= 2 ^ 31 -> inner_ok n (inner st) -> (forall j, (j < level)%nat -> 2 <= wd j) ->
  carried n n level (wd level - 1) matchh (matchlevel st) (path st) ->
  exists l matchh' st',
    sweep_up fuel (2 ^ Z.of_nat level * wd level) level (nd level (wd level - 1)) matchh st
    = (l, nd l (wd l - 1), matchh', st')
    /\ (level <= l < 32)%nat /\ n mod 2 ^ Z.of_nat l <> 0 /\ Z.odd (wd l) = true
    /\ 2 ^ Z.of_nat level * wd level = 2 ^ Z.of_nat l * wd l
    /\ inner st' = inner st /\ matchlevel st' = matchlevel st
    /\ (forall j, (j < l)%nat -> 2 <= wd j)
    /\ carried n n l (wd l - 1) matchh' (matchlevel st) (path st').
Proof.
  revert level matchh st. induction fuel as [|fuel IH]; intros level matchh st Hf Hm Hb Hin Hj Hca;
    pose proof (width_pos leaves level leaves_ne) as Hw.
  { pose proof (Z.pow_le_mono_r 2 32 (Z.of_nat level)). nia. }
  assert (level < 32)%nat as Hl.
  { apply Nat.lt_nge. intros Hl. pose proof (Z.pow_le_mono_r 2 32 (Z.of_nat level)). nia. }
  cbn [sweep_up]. rewrite bit_clear_spec, high_mul by lia. destruct (Z.even (wd level)) eqn:Ev.
  - pose proof Ev as Ev'. rewrite Zeven_mod in Ev'. apply Z.eqb_eq in Ev'.
    assert (wd (S level) - 1 = (wd level - 1) / 2) as Hq by (rewrite width_S; div_lia).
    destruct (join_node n level (wd level - 1) matchh st) as [Hh Hpath]; [lia|lia| |done|rewrite (width_above level Hm); lia|].
    { rewrite Z.odd_sub, <- Z.negb_even, Ev. done. }
    specialize (Hpath _ Hca). destruct (path_step _ _ _ _) as [p matchh1]. rewrite Hh, <- Hq. rewrite <- Hq in Hpath.
    replace (2 ^ Z.of_nat level * wd level) with (2 ^ Z.of_nat (S level) * wd (S level)) in *
      by (rewrite width_S, Nat2Z.inj_succ, Z.pow_succ_r by lia; assert ((wd level + 1) / 2 * 2 = wd level) by div_lia; nia).
    destruct (IH (S level) matchh1 (Computation (inner st) (matchlevel st) (mutated st) p))
      as (l & m' & st' & E & ? & ? & ? & ? & ? & ? & ? & ?); [lia| |done|done| |done|].
    + intros H%mod_pow2_S. tauto.
    + intros j Hjl. destruct (decide (j = level)) as [->|]; [div_lia|]. apply Hj. lia.
    + exists l, m', st'. split_and!; try done; lia.
  - exists level, matchh, st. split_and!; try done; [lia..|]. by rewrite <- Z.negb_even, Ev.
Qed.

Lemma high_zero k m : high n k <= 1 -> (k < m)%nat -> high n m = 0.
Proof.
  intros Hk Hm. pose proof (high_nonneg n k ltac:(lia)). induction Hm as [|m Hm IH]; rewrite high_S; [div_lia|].
  by rewrite IH.
Qed.

(** An odd level is left upwards: nothing waits at it. *)
Lemma waiting_above level ml p : n mod 2 ^ Z.of_nat level <> 0 -> Z.odd (wd level) = true ->
  waiting n n level ml p -> waiting n n (S level) ml p.
Proof.
  intros Hm Ho [H|(m & H1 & H2 & H3 & H4 & H5)]; [by left|]. right. exists m. split_and!; try done.
  destruct (decide (m = level)) as [->|]; [|lia]. rewrite (width_above level Hm), Z.odd_add, H3 in Ho. done.
Qed.

(** The carried node joined with itself. *)
Lemma double_node level matchh st : Z.odd (wd level) = true ->
  carried n n level (wd level - 1) matchh (matchlevel st) (path st) ->
  (matchh = false -> waiting n n (S level) (matchlevel st) (path st)) ->
  Hash2 (nd level (wd level - 1)) (nd level (wd level - 1)) = nd (S level) (wd (S level) - 1)
  /\ carried n n (S level) (wd (S level) - 1) matchh (matchlevel st)
       (if matchh then path st ++ [nd level (wd level - 1)] else path st).
Proof.
  intros Ho Hca Hw. pose proof (width_pos leaves level leaves_ne).
  pose proof Ho as Ho'. rewrite Zodd_mod in Ho'. apply Z.eqb_eq in Ho'. rewrite width_S. split.
  - rewrite node_S by div_lia. f_equal; f_equal; div_lia.
  - destruct matchh; [|by apply Hw]. destruct Hca as [Hp ->]. split; [rewrite high_S, Hp; div_lia|].
    rewrite branch_S. unfold sibling. rewrite Hp. replace (Z.odd (wd level - 1)) with false by (by rewrite Z.odd_sub, Ho).
    do 3 f_equal. lia.
Qed.

Lemma sweep_spec fuel level matchh st : (32 <= level + fuel)%nat -> (level < 32)%nat ->
  n mod 2 ^ Z.of_nat (S level) <> 0 -> Z.odd (wd level) = true -> inner_ok n (inner st) ->
  (forall j, (j < level)%nat -> 2 <= wd j) ->
  carried n n level (wd level - 1) matchh (matchlevel st) (path st) ->
  (matchh = false -> waiting n n (S level) (matchlevel st) (path st)) ->
  exists d st', sweep fuel (2 ^ Z.of_nat level * wd level) level (nd level (wd level - 1)) matchh st = (nd d 0, st')
    /\ depth leaves d /\ (d <= 31)%nat /\ (i < n -> path st' = branch d).
Proof.
  revert level matchh st. induction fuel as [|fuel IH]; intros level matchh st Hf Hl Hm Ho Hin Hj Hca Hw; [lia|].
  pose proof (width_pos leaves level leaves_ne) as Hpos. pose proof (width_bound level ltac:(lia)) as Hb.
  cbn [sweep]. rewrite u32_pow2 by done. destruct (Z.eqb_spec (2 ^ Z.of_nat level * wd level) (2 ^ Z.of_nat level)) as [E|E].
  - assert (wd level = 1) as Hw1 by nia. exists level, st. rewrite Hw1. split_and!; [done| |lia|].
    { by split. }
    intros Hin'. destruct matchh; [apply Hca|]. exfalso.
    destruct (Hw eq_refl) as [(? & _)|(m & Hm1 & _ & Hm3 & _)]; [lia|].
    rewrite (high_zero level m) in Hm3; [done| |lia]. rewrite <- Hw1. apply high_width. lia.
  - assert (wd level <> 1) by (intros E1; apply E; rewrite E1; lia).
    assert (3 <= wd level) as H3 by (rewrite Zodd_mod in Ho; apply Z.eqb_eq in Ho; div_lia).
    assert (level < 31)%nat as Hl31.
    { apply Nat.lt_nge. intros H31. replace (Z.of_nat level) with 31 in Hb by lia. lia. }
    destruct (double_node level matchh st Ho Hca Hw) as [Hh Hca'].
    assert (2 ^ Z.of_nat level * wd level + 2 ^ Z.of_nat level = 2 ^ Z.of_nat (S level) * wd (S level)) as Hc.
    { rewrite width_S, Nat2Z.inj_succ, Z.pow_succ_r by lia. rewrite Zodd_mod in Ho. apply Z.eqb_eq in Ho.
      assert (2 * ((wd level + 1) / 2) = wd level + 1) by div_lia. nia. }
    pose proof (width_bound (S level) ltac:(lia)) as Hb'. pose proof (width_pos leaves (S level) leaves_ne).
    rewrite wrap_small by (unfold is_uint; split; [|rewrite Hc]; nia). rewrite Hc, Hh.
    set (p := if matchh then path st ++ [nd level (wd level - 1)] else path st) in Hca'.
    replace (if matchh then _ else st) with (Computation (inner st) (matchlevel st) (mutated st) p)
      by (unfold p; destruct matchh, st; done).
    destruct (sweep_up_spec 32 (S level) matchh (Computation (inner st) (matchlevel st) (mutated st) p))
      as (l & m' & st' & E' & Hll & Hml & Hol & Hcl & Hil & Hmm & Hjl & Hcal); [lia|done|done|done| |done|].
    { intros j Hjs. destruct (decide (j = level)) as [->|]; [lia|]. apply Hj. lia. }
    rewrite E', Hcl. cbn [inner matchlevel] in Hil, Hmm, Hcal. apply IH; try done; [lia|lia| |..].
    + intros Hz%mod_pow2_S. tauto.
    + by rewrite Hil.
    + by rewrite Hmm.
    + intros ->. rewrite Hmm. by apply waiting_above.
Qed.

Lemma leaf_inv_init : leaf_inv 0 (Computation (replicate 32 uint256_null) (-1) false []).
Proof.
  split; [|by left]. split; [done|]. intros k _ Ho. unfold high in Ho. by rewrite Z.div_0_l in Ho by lia.
Qed.

(** Below the lowest set bit the levels have an even number of nodes. *)
Lemma width_low l j : n mod 2 ^ Z.of_nat l = 0 -> (j < l)%nat -> 2 <= wd j.
Proof.
  intros Hm Hj. pose proof (mod_below n l j Hm Hj) as He. pose proof (width_pos leaves j leaves_ne) as Hp.
  rewrite width_div, (mod_down n l j), Z.eqb_refl in * by (done || lia). fold (high n j) in *.
  rewrite Zeven_mod in He. apply Z.eqb_eq in He. div_lia.
Qed.

(** The sweep starts from the entry of [inner] at the lowest set bit. *)
Lemma waiting_lowest l ml p : n mod 2 ^ Z.of_nat l = 0 -> waiting n n 0 ml p ->
  carried n n l (high n l - 1) (ml =? Z.of_nat l) ml p
  /\ ((ml =? Z.of_nat l) = false -> waiting n n (S l) ml p).
Proof.
  intros Hm [(? & -> & ?)|(m & ? & -> & Hom & ? & ?)].
  - rewrite (proj2 (Z.eqb_neq _ _)) by lia. by split; [left|left].
  - destruct (Z.eqb_spec (Z.of_nat m) (Z.of_nat l)) as [->%Nat2Z.inj|Hne]; [by split|].
    assert (l < m)%nat.
    { apply Nat.lt_nge. intros Hml. by rewrite <- Z.negb_even, (mod_below n l m) in Hom by (done || lia). }
    split; [|intros _]; right; exists m; split_and!; try done; lia.
Qed.

Lemma MerkleComputation_spec : exists d mutated p,
  MerkleComputation leaves i = (nd d 0, mutated, p) /\ depth leaves d /\ (d <= 31)%nat /\ (i < n -> p = branch d).
Proof.
  destruct (add_leaves_spec [] leaves _ eq_refl leaf_inv_init) as (st & E & Hin & Hw). change (zlen []) with 0 in E.
  destruct (lowest_level_spec 32 0) as (l & El & Hl & Hm & Ho); [done|apply Z.mod_1_r|].
  assert (wd l = high n l) as Ewd by (rewrite width_div, Hm, Z.eqb_refl; unfold high; lia).
  assert (n = 2 ^ Z.of_nat l * wd l) as En.
  { rewrite Ewd. pose proof (Z.div_mod n (2 ^ Z.of_nat l) ltac:(lia)) as D. rewrite Hm, Z.add_0_r in D. exact D. }
  assert (inner_at st l = nd l (wd l - 1)) as Eh by (rewrite Ewd; by apply Hin).
  destruct (waiting_lowest l _ _ Hm Hw) as [Hca Hwa]. rewrite <- Ewd in Hca, Ho.
  destruct (sweep_spec 32 l (matchlevel st =? Z.of_nat l) st) as (d & st' & Es & Hd & Hd31 & Hp); try done; [lia|..].
  - intros [_ H]%mod_pow2_S. by rewrite <- Z.negb_odd, <- Ewd, Ho in H.
  - intros j Hj. by apply (width_low l).
  - exists d, (mutated st'), (path st'). split_and!; try done. unfold MerkleComputation.
    pose proof leaves_ne as Hne. destruct leaves eqn:El'; [done|]. rewrite <- El' in *.
    rewrite E, El, Eh. rewrite <- En in Es. by rewrite Es.
Qed.

Lemma high_lt k : i < n -> high i k < wd k.
Proof.
  intros Hin. induction k as [|k IH]; [rewrite high_0; exact Hin|].
  rewrite high_S, width_S. pose proof (high_nonneg i k Hi). div_lia.
Qed.

(** Folding the branch walks up the ancestors of the leaf. *)
Lemma fold_branch d : i < n ->
  foldl (fun '(hash, nIndex) it =>
           (if negb (Z.land nIndex 1 =? 0) then Hash2 it hash else Hash2 hash it, Z.shiftr nIndex 1))
        (nd 0 i, i) (branch d) = (nd d (high i d), high i d).
Proof.
  intros Hin. induction d as [|d IH]; [by rewrite high_0|].
  pose proof (high_nonneg i d Hi) as Hp. pose proof (high_lt d Hin) as Hlt.
  rewrite branch_S, foldl_app, IH. cbn [foldl]. rewrite high_S, Z.shiftr_div_pow2 by lia. change (2 ^ 1) with 2. f_equal.
  change 1 with (2 ^ 1 - 1) at 1. rewrite land_mask by lia. change (2 ^ 1) with 2. rewrite <- Zeven_mod, Z.negb_even.
  unfold sibling. destruct (Z.odd (high i d)) eqn:Ho; rewrite Zodd_mod in Ho; [apply Z.eqb_eq in Ho|apply Z.eqb_neq in Ho];
    rewrite node_S by div_lia; f_equal; f_equal; div_lia.
Qed.

Lemma branch_proves d : i < n -> depth leaves d ->
  ComputeMerkleRootFromBranch (nd 0 i) (branch d) i = nd d 0.
Proof.
  intros Hin [Hd _]. unfold ComputeMerkleRootFromBranch. rewrite fold_branch by done. cbn [fst]. f_equal.
  pose proof (high_lt d Hin). pose proof (high_nonneg i d Hi). lia.
Qed.

End Computation.

(** * What a branch proves *)

Lemma width_pow2 leaves k : zlen leaves <= 2 ^ Z.of_nat k -> width leaves k <= 1.
Proof.
  intros Hk. rewrite width_div. assert (0 < 2 ^ Z.of_nat k) by lia.
  assert (0 <= zlen leaves) by (unfold zlen; lia).
  destruct (Z.eqb_spec (zlen leaves mod 2 ^ Z.of_nat k) 0) as [E|E].
  - rewrite Z.add_0_r. apply Z.div_le_upper_bound; lia.
  - rewrite Z.div_small; [lia|]. split; [lia|]. apply Z.le_neq. split; [done|].
    intros Eq. rewrite Eq, Z.mod_same in E by lia. done.
Qed.

Lemma width_one leaves k : width leaves k <= 1 -> zlen leaves <= 2 ^ Z.of_nat k.
Proof.
  intros H1. rewrite width_div in H1. assert (0 < 2 ^ Z.of_nat k) by lia.
  pose proof (Z.div_mod (zlen leaves) (2 ^ Z.of_nat k) ltac:(lia)).
  pose proof (Z.mod_pos_bound (zlen leaves) (2 ^ Z.of_nat k) ltac:(lia)).
  destruct (Z.eqb_spec (zlen leaves mod 2 ^ Z.of_nat k) 0); nia.
Qed.

Lemma depth_bounds leaves d : depth leaves d -> zlen leaves <= 2 ^ Z.of_nat d /\ (d = 0%nat \/ 2 ^ (Z.of_nat d - 1) < zlen leaves).
Proof.
  intros [H1 H2]. split.
  - apply width_one. lia.
  - destruct d as [|d]; [by left|]. right. specialize (H2 d ltac:(lia)). replace (Z.of_nat (S d) - 1) with (Z.of_nat d) by lia.
    apply Z.lt_nge. intros H%width_pow2. lia.
Qed.

(** C16: The branch of a transaction proves it. For up to 2^31 leaves, the
    constant-space calculator finds the root that [ComputeMerkleRoot] finds level by
    level through the batched hash, and folding the branch it returns for a position,
    from the leaf there, gives that root; the branch is as long as the tree is deep. *)
Theorem merkle_branch_proves way8 way4 way2 leaves (i : Z) :
  way_ok 8 way8 -> way_ok 4 way4 -> way_ok 2 way2 ->
  Forall (fun h => length h = 32%nat) leaves -> 0 <= i < zlen leaves -> zlen leaves <= 2 ^ 31 ->
  (MerkleComputation leaves i).1.1 = (ComputeMerkleRoot way8 way4 way2 leaves).1
  /\ ComputeMerkleRootFromBranch (nth (Z.to_nat i) leaves []) (ComputeMerklePath leaves i) i
     = (ComputeMerkleRoot way8 way4 way2 leaves).1
  /\ (let d := zlen (ComputeMerklePath leaves i) in
      zlen leaves <= 2 ^ d /\ (d = 0 \/ 2 ^ (d - 1) < zlen leaves)).
Proof.
  intros H8 H4 H2 Hwf Hi Hn.
  destruct (MerkleComputation_spec leaves i ltac:(lia) ltac:(lia)) as (d & m & p & E & Hd & _ & Hp).
  rewrite (Hp ltac:(lia)) in E. unfold ComputeMerklePath. rewrite E. cbn [fst snd].
  assert (leaves <> []) as Hne by (intros ->; unfold zlen in Hi; cbn in Hi; lia).
  destruct (ComputeMerkleRoot_spec way8 way4 way2 H8 H4 H2 leaves Hne Hwf) as (d' & Hd' & ->).
  rewrite <- (depth_unique leaves d d' Hd Hd'). cbn [fst]. split; [done|]. split.
  - apply (branch_proves leaves i); [lia..|done].
  - cbv zeta. replace (zlen (branch leaves i d)) with (Z.of_nat d)
      by (unfold branch, zlen; by rewrite length_fmap, length_seq).
    destruct (depth_bounds leaves d Hd) as [? [->|?]]; [by split; [|left]|by split; [|right]].
Qed.

Lemma merkle_branch_proves_witness :
  let leaves := [replicate 32 1; replicate 32 2; replicate 32 3] in
  ComputeMerkleRootFromBranch (replicate 32 3) (ComputeMerklePath leaves 2) 2
  = (ComputeMerkleRoot None None None leaves).1.
Proof.
  refine (proj1 (proj2 (merkle_branch_proves None None None
    [replicate 32 1; replicate 32 2; replicate 32 3] 2 I I I _ _ _))).
  - repeat constructor.
  - unfold zlen. cbn [length]. lia.
  - unfold zlen. cbn [length]. lia.
Defined.

(** * What the root commits to *)

(** The blocks that are hashed for a level, and for the levels below [d]. *)
Fixpoint pair_blocks (l : list bytes) : list bytes :=
  match l with
  | a :: b :: l => (a ++ b) :: pair_blocks l
  | [a] => [a ++ a]
  | [] => []
  end.

Definition merkle_blocks (leaves : list bytes) (d : nat) : list bytes := concat (map (fun k => pair_blocks (tree leaves k)) (seq 0 d)).

(** The double hash has no collision among these inputs. *)
Definition no_collision (inputs : list bytes) : Prop :=
  forall x y, In x inputs -> In y inputs -> Hash x = Hash y -> x = y.

Definition collision_free (inputs : list bytes) : bool :=
  let hs := map (fun x => (x, Hash x)) inputs in
  forallb (fun a => forallb (fun b => bool_decide (a.1 = b.1) || negb (bool_decide (a.2 = b.2))) hs) hs.

#[local] Opaque Hash Hash2.

Lemma collision_free_spec inputs : collision_free inputs = true -> no_collision inputs.
Proof.
  intros H x y Hx Hy E. unfold collision_free in H.
  apply (in_map (fun x => (x, Hash x))) in Hx, Hy.
  pose proof (proj1 (forallb_forall _ _) (proj1 (forallb_forall _ _) H _ Hx) _ Hy) as Hb. cbn [fst snd] in Hb.
  rewrite E, (bool_decide_eq_true_2 (Hash y = Hash y)) in Hb by done. apply orb_true_iff in Hb as [Hb|Hb]; [|done].
  exact (bool_decide_eq_true_1 _ Hb).
Qed.

Lemma Hash2_Hash a b : Hash2 a b = Hash (a ++ b).
Proof. by rewrite Hash2_spec, Hash_spec. Qed.

(** Two levels with the same level above are equal, if they are equally long or no
    pair is repeated in either. *)
Lemma pairs_inj l l' : Forall (fun h => length h = 32%nat) l -> Forall (fun h => length h = 32%nat) l' ->
  no_collision (pair_blocks l ++ pair_blocks l') ->
  (equal_pair l = false /\ equal_pair l' = false) \/ length l = length l' ->
  pairs l = pairs l' -> l = l'.
Proof.
  intros Hl. revert l'. induction l as [|a|a b l IH] using list_pair_ind; intros l' Hl' Hc He E;
    destruct l' as [|a' [|b' l']]; cbn [pairs equal_pair length] in *; try done.
  - simplify_eq E. rewrite !Hash2_Hash. intros EH. decompose_Forall_hyps.
    apply Hc in EH; [|cbn; tauto..]. by apply app_inj_1 in EH as [-> _]; [|congruence].
  - simplify_eq E. rewrite !Hash2_Hash. intros EH _. destruct He as [[_ He]|He]; [|done]. decompose_Forall_hyps.
    apply Hc in EH; [|cbn; tauto..]. apply app_inj_1 in EH as [<- <-]; [|congruence].
    rewrite bool_decide_eq_true_2 in He by done. done.
  - simplify_eq E. rewrite !Hash2_Hash. intros EH _. destruct He as [[He _]|He]; [|done]. decompose_Forall_hyps.
    apply Hc in EH; [|cbn; rewrite in_app_iff; cbn; tauto..]. apply app_inj_1 in EH as [<- ->]; [|congruence].
    rewrite bool_decide_eq_true_2 in He by done. done.
  - simplify_eq E. rewrite !Hash2_Hash. intros EH Et. decompose_Forall_hyps.
    apply Hc in EH; [|cbn; rewrite in_app_iff; cbn; tauto..]. apply app_inj_1 in EH as [-> ->]; [|congruence].
    do 2 f_equal. apply IH; try done.
    + intros x y Hx%in_app_iff Hy%in_app_iff. apply Hc; cbn [In]; rewrite in_app_iff; cbn [In]; tauto.
    + rewrite !orb_false_iff in He. destruct He as [[[_ ?] [_ ?]]|?]; [by left|right; lia].
Qed.

Lemma no_collision_sub xs ys : (forall x, In x xs -> In x ys) -> no_collision ys -> no_collision xs.
Proof. intros Hs Hc x y Hx Hy. apply Hc; auto. Qed.

Lemma level_blocks leaves d k x : (k < d)%nat -> In x (pair_blocks (tree leaves k)) -> In x (merkle_blocks leaves d).
Proof.
  intros Hk Hx. unfold merkle_blocks. apply in_concat. eexists. split; [|exact Hx].
  apply (in_map (fun k => pair_blocks (tree leaves k))). apply in_seq. lia.
Qed.

Lemma length_tree l l' k : length l = length l' -> length (tree l k) = length (tree l' k).
Proof. intros E. induction k as [|k IH]; [done|]. cbn [tree]. by rewrite !length_pairs, IH. Qed.

(** From equal levels downwards, as far as both trees go. *)
Lemma tree_down l l' d d' k : Forall (fun h => length h = 32%nat) l -> Forall (fun h => length h = 32%nat) l' ->
  no_collision (merkle_blocks l d ++ merkle_blocks l' d') ->
  (existsb (fun j => equal_pair (tree l j)) (seq 0 d) = false
   /\ existsb (fun j => equal_pair (tree l' j)) (seq 0 d') = false) \/ (d = d' /\ length l = length l') ->
  tree l d = tree l' d' -> (k <= d)%nat -> (k <= d')%nat -> tree l (d - k) = tree l' (d' - k).
Proof.
  intros Hl Hl' Hc He E. induction k as [|k IH]; intros Hk Hk'; [by rewrite !Nat.sub_0_r|].
  specialize (IH ltac:(lia) ltac:(lia)).
  replace (d - k)%nat with (S (d - S k)) in IH by lia. replace (d' - k)%nat with (S (d' - S k)) in IH by lia.
  cbn [tree] in IH. apply pairs_inj; [by apply tree_wf..| | |done].
  - eapply no_collision_sub; [|exact Hc]. intros x [Hx|Hx]%in_app_iff; apply in_app_iff;
      [left|right]; eapply level_blocks; [|exact Hx| |exact Hx]; lia.
  - destruct He as [[He He']|[-> He]]; [left|right; by apply length_tree].
    split; [destruct (equal_pair (tree l (d - S k))) eqn:Ee|destruct (equal_pair (tree l' (d' - S k))) eqn:Ee]; try done;
      [assert (existsb (fun j => equal_pair (tree l j)) (seq 0 d) = true); [|congruence]
      |assert (existsb (fun j => equal_pair (tree l' j)) (seq 0 d') = true); [|congruence]];
      apply existsb_exists; eexists; (split; [|exact Ee]); apply in_seq; lia.
Qed.

(** The level of the root. *)
Definition levels (leaves : list bytes) : nat := Nat.log2_up (length leaves).

Lemma levels_depth leaves : leaves <> [] -> depth leaves (levels leaves).
Proof.
  intros Hne. assert (0 < length leaves)%nat as Hp by (destruct leaves; [done|cbn; lia]). unfold levels. split.
  - apply Z.le_antisymm; [|by apply width_pos]. apply width_pow2. unfold zlen.
    pose proof (Nat.log2_log2_up_spec (length leaves) Hp) as [_ H].
    apply Nat2Z.inj_le in H. rewrite Nat2Z.inj_pow in H. exact H.
  - intros j Hj. destruct (Z.lt_ge_cases (width leaves j) 2) as [Hw|]; [|done]. exfalso.
    pose proof (width_one leaves j ltac:(lia)) as H. unfold zlen in H. rewrite <- (Nat2Z.inj_pow 2) in H.
    apply Nat2Z.inj_le, Nat.log2_up_le_pow2 in H; lia.
Qed.
