(* ===== verification/MerkleBlock.v ===== *)
(** Partial Merkle trees (src/bitcoin/src/merkleblock.h and merkleblock.cpp): the proof
    that some transactions are in a block, as bits and hashes in depth-first order.
    What is built for a set of transactions proves exactly that set, also after it was
    sent; and no partial tree proves a transaction that is not in the block. *)

From S2P Require Import Prelude Serialize MerkleDamgard Sha2 Hash Transaction Merkle.

(** * The code *)

Definition MIN_TRANSACTION_WEIGHT : Z := WITNESS_SCALE_FACTOR * 60.

(** One step of the loop: [ret[p / 8] |= bits[p] << (p % 8)]. *)
Definition set_bit (ret : bytes) (pb : nat * bool) : bytes :=
  let '(p, b) := pb in
  alter (fun x => u8 (Z.lor x (Z.shiftl (Z.b2z b) (Z.of_nat (p mod 8))))) (p / 8)%nat ret.

Definition BitsToBytes (bits : list bool) : bytes :=
  foldl set_bit (replicate ((length bits + 7) / 8) 0) (zip (seq 0 (length bits)) bits).

Definition BytesToBits (bs : bytes) : list bool :=
  (fun p => negb (Z.land (nth (p / 8) bs 0) (Z.shiftl 1 (Z.of_nat (p mod 8))) =? 0)) <$> seq 0 (length bs * 8).

Record CPartialMerkleTree := PartialMerkleTree {
  nTransactions : Z;
  vBits : list bool;
  vHash : list bytes;
  fBad : bool;
}.

Definition CalcTreeWidth (nTransactions : Z) (height : nat) : Z :=
  Z.shiftr (u32 (nTransactions + Z.shiftl 1 (Z.of_nat height) - 1)) (Z.of_nat height).

(** [while (CalcTreeWidth(nHeight) > 1) nHeight++]; a shift by 31 bits or more does not
    occur for the numbers of transactions of a block. *)
Fixpoint tree_height (fuel : nat) (nTransactions : Z) (nHeight : nat) : nat :=
  match fuel with
  | O => nHeight
  | S fuel => if 1 <? CalcTreeWidth nTransactions nHeight then tree_height fuel nTransactions (S nHeight) else nHeight
  end.

Section Build.
Context (n : Z) (vTxid : list bytes) (vMatch : list bool).

Fixpoint CalcHash (height : nat) (pos : Z) : result string bytes :=
  match vTxid with
  | [] => Err "assert(vTxid.size() != 0)"
  | _ =>
      match height with
      | O => match vTxid !! Z.to_nat pos with Some h => Ok h | None => Err "vTxid[pos]" end
      | S height =>
          hl ← CalcHash height (u32 (pos * 2));
          hr ← (if u32 (pos * 2 + 1) <? CalcTreeWidth n height then CalcHash height (u32 (pos * 2 + 1)) else Ok hl);
          Ok (Hash2 hl hr)
      end
  end.

(** The loop over the matches from [p] on, [k] times. *)
Fixpoint parent_of_match (k : nat) (p : Z) (fParentOfMatch : bool) : result string bool :=
  match k with
  | O => Ok fParentOfMatch
  | S k =>
      match vMatch !! Z.to_nat p with
      | Some b => parent_of_match k (p + 1) (fParentOfMatch || b)
      | None => Err "vMatch[p]"
      end
  end.

(** What is pushed on [vBits] and [vHash]. *)
Fixpoint TraverseAndBuild (height : nat) (pos : Z) (bits : list bool) (hashes : list bytes) : result string (list bool * list bytes) :=
  let first := u32 (Z.shiftl pos (Z.of_nat height)) in
  let last := Z.min (u32 (Z.shiftl (pos + 1) (Z.of_nat height))) n in
  fParentOfMatch ← parent_of_match (Z.to_nat (last - first)) first false;
  let bits := bits ++ [fParentOfMatch] in
  match height, fParentOfMatch with
  | S height, true =>
      '(bits, hashes) ← TraverseAndBuild height (u32 (pos * 2)) bits hashes;
      if u32 (pos * 2 + 1) <? CalcTreeWidth n height then TraverseAndBuild height (u32 (pos * 2 + 1)) bits hashes
      else Ok (bits, hashes)
  | _, _ => h ← CalcHash height pos; Ok (bits, hashes ++ [h])
  end.

End Build.

Definition CPartialMerkleTree_new (vTxid : list bytes) (vMatch : list bool) : result string CPartialMerkleTree :=
  let n := u32 (zlen vTxid) in
  '(bits, hashes) ← TraverseAndBuild n vTxid vMatch (tree_height 32 n 0) 0 [] [];
  Ok (PartialMerkleTree n bits hashes false).

(** The variables of the extraction. *)
Record extraction := Extraction {
  nBitsUsed : nat;
  nHashUsed : nat;
  x_vMatch : list bytes;
  x_vnIndex : list Z;
  x_fBad : bool;
}.

Definition bad (st : extraction) : extraction := Extraction (nBitsUsed st) (nHashUsed st) (x_vMatch st) (x_vnIndex st) true.
Definition use_bit (st : extraction) : extraction := Extraction (S (nBitsUsed st)) (nHashUsed st) (x_vMatch st) (x_vnIndex st) (x_fBad st).
Definition use_hash (st : extraction) : extraction := Extraction (nBitsUsed st) (S (nHashUsed st)) (x_vMatch st) (x_vnIndex st) (x_fBad st).
Definition found (st : extraction) (hash : bytes) (pos : Z) : extraction :=
  Extraction (nBitsUsed st) (nHashUsed st) (x_vMatch st ++ [hash]) (x_vnIndex st ++ [pos]) (x_fBad st).

Section Extract.
Context (t : CPartialMerkleTree).

Fixpoint TraverseAndExtract (height : nat) (pos : Z) (st : extraction) : bytes * extraction :=
  match vBits t !! nBitsUsed st with
  | None => (uint256_null, bad st)
  | Some fParentOfMatch =>
      let st := use_bit st in
      match height, fParentOfMatch with
      | S height, true =>
          let '(hl, st) := TraverseAndExtract height (u32 (pos * 2)) st in
          if u32 (pos * 2 + 1) <? CalcTreeWidth (nTransactions t) height then
            let '(hr, st) := TraverseAndExtract height (u32 (pos * 2 + 1)) st in
            (Hash2 hl hr, if bool_decide (hr = hl) then bad st else st)
          else (Hash2 hl hl, st)
      | _, _ =>
          match vHash t !! nHashUsed st with
          | None => (uint256_null, bad st)
          | Some hash =>
              let st := use_hash st in
              (hash, match height, fParentOfMatch with O, true => found st hash pos | _, _ => st end)
          end
      end
  end.

(** The root, [vMatch], [vnIndex] (to which is appended) and the flag [fBad] of the
    object. *)
Definition ExtractMatches (vnIndex : list Z) : bytes * list bytes * list Z * bool :=
  let fail st := (uint256_null, x_vMatch st, x_vnIndex st, x_fBad st) in
  let st := Extraction 0 0 [] vnIndex (fBad t) in
  if nTransactions t =? 0 then fail st
  else if MAX_BLOCK_WEIGHT / MIN_TRANSACTION_WEIGHT <? nTransactions t then fail st
  else if nTransactions t <? zlen (vHash t) then fail st
  else if (length (vBits t) <? length (vHash t))%nat then fail st
  else
    let '(hashMerkleRoot, st) := TraverseAndExtract (tree_height 32 (nTransactions t) 0) 0 st in
    if x_fBad st then fail st
    else if negb ((nBitsUsed st + 7) / 8 =? (length (vBits t) + 7) / 8)%nat then fail st
    else if negb (nHashUsed st =? length (vHash t))%nat then fail st
    else (hashMerkleRoot, x_vMatch st, x_vnIndex st, x_fBad st).

End Extract.

(** The serialization; [sizeof(uint256)] is 32. *)
Definition ser_partial_tree (t : CPartialMerkleTree) : bytes :=
  ser_writedata32 (nTransactions t) ++ VectorFormatter_Ser ser_hash (vHash t) ++ ser_byte_vector (BitsToBytes (vBits t)).

Definition unser_partial_tree : reader CPartialMerkleTree :=
  n ← ser_readdata32; hashes ← VectorFormatter_Unser (stream_read 32) 32; bs ← unser_byte_vector;
  mret (PartialMerkleTree n (BytesToBits bs) hashes false).

(** The merkle block for a set of transactions, without a Bloom filter. *)
Record CMerkleBlock := MerkleBlock {
  mb_header : CBlockHeader;
  mb_txn : CPartialMerkleTree;
}.

Definition CMerkleBlock_new (block : CBlock) (txids : gset bytes) : result string CMerkleBlock :=
  let vHashes := ComputeHash <$> vtx block in
  let vMatch := (fun hash => bool_decide (hash ∈ txids)) <$> vHashes in
  txn ← CPartialMerkleTree_new vHashes vMatch;
  Ok (MerkleBlock (block_header block) txn).

(** * Bits in bytes *)

Lemma BytesToBits_nth bs p : (p < length bs * 8)%nat ->
  nth p (BytesToBits bs) false = Z.testbit (nth (p / 8) bs 0) (Z.of_nat (p mod 8)).
Proof.
  intros Hp. unfold BytesToBits. set (f := fun p => negb _).
  rewrite (nth_indep _ false (f 0%nat)) by (by rewrite length_fmap, length_seq).
  change (f <$> seq 0 (length bs * 8)) with (map f (seq 0 (length bs * 8))). rewrite map_nth, seq_nth by done. unfold f. cbn [plus].
  rewrite Z.shiftl_1_l. set (x := nth _ bs 0). set (k := Z.of_nat _).
  assert (0 <= k) by lia. destruct (Z.testbit x k) eqn:E.
  - apply Bool.negb_true_iff, Z.eqb_neq. intros H0. apply (f_equal (fun z => Z.testbit z k)) in H0.
    rewrite Z.land_spec, E, Z.pow2_bits_true, Z.bits_0 in H0 by done. done.
  - apply Bool.negb_false_iff, Z.eqb_eq. apply Z.bits_inj'. intros j Hj. rewrite Z.land_spec, Z.bits_0, Z.pow2_bits_eqb by done.
    destruct (Z.eqb_spec k j) as [<-|]; [by rewrite E|apply andb_false_r].
Qed.

Lemma length_set_bit ret pb : length (set_bit ret pb) = length ret.
Proof. destruct pb as [p b]. apply length_alter. Qed.

Lemma set_bit_testbit ret p b q : (p / 8 < length ret)%nat ->
  Z.testbit (nth (q / 8) (set_bit ret (p, b)) 0) (Z.of_nat (q mod 8)) =
  Z.testbit (nth (q / 8) ret 0) (Z.of_nat (q mod 8)) || (b && (q =? p)%nat).
Proof.
  intros Hp. unfold set_bit. rewrite !nth_lookup.
  destruct (decide (q / 8 = p / 8)%nat) as [Eq|Ne].
  - rewrite Eq, list_lookup_alter_eq. destruct (lookup_lt_is_Some_2 ret (p / 8) Hp) as [x ->]. cbn [fmap option_fmap option_map default].
    assert (Z.of_nat (q mod 8) < 8) by (pose proof (Nat.mod_upper_bound q 8); lia).
    unfold wrap, id. rewrite Z.mod_pow2_bits_low, Z.lor_spec by lia. f_equal.
    rewrite Z.shiftl_spec by lia. pose proof (Nat.div_mod q 8 ltac:(lia)). pose proof (Nat.div_mod p 8 ltac:(lia)).
    destruct (Nat.eqb_spec q p) as [->|Hne].
    + rewrite Z.sub_diag, andb_true_r. by destruct b.
    + rewrite andb_false_r. destruct b; cbn [Z.b2z]; [|apply Z.bits_0].
      destruct (Z.lt_ge_cases (Z.of_nat (q mod 8)) (Z.of_nat (p mod 8))); [rewrite Z.testbit_neg_r by lia; done|].
      change 1 with (2 ^ 0). apply Z.pow2_bits_false. lia.
  - rewrite list_lookup_alter_ne by done. destruct (Nat.eqb_spec q p) as [->|]; [done|]. by rewrite andb_false_r, orb_false_r.
Qed.

Lemma set_bits_length l ret : length (foldl set_bit ret l) = length ret.
Proof. revert ret. induction l as [|pb l IH]; intros ret; [done|]. cbn [foldl]. by rewrite IH, length_set_bit. Qed.

Lemma set_bits_testbit bits : forall first ret q, (first + length bits <= 8 * length ret)%nat ->
  Z.testbit (nth (q / 8) (foldl set_bit ret (zip (seq first (length bits)) bits)) 0) (Z.of_nat (q mod 8)) =
  Z.testbit (nth (q / 8) ret 0) (Z.of_nat (q mod 8)) || ((first <=? q)%nat && nth (q - first) bits false).
Proof.
  induction bits as [|b bits IH]; intros first ret q Hlen; cbn [length seq zip zip_with foldl] in *.
  { destruct (q - first)%nat; cbn; by rewrite andb_false_r, orb_false_r. }
  rewrite IH by (rewrite length_set_bit; lia). rewrite set_bit_testbit by (apply Nat.Div0.div_lt_upper_bound; lia).
  rewrite <- orb_assoc. f_equal. destruct (Nat.leb_spec first q) as [H|H].
  - destruct (Nat.eqb_spec q first) as [->|Hne].
    + rewrite Nat.sub_diag, (proj2 (Nat.leb_gt (S first) first)) by lia. cbn. by rewrite orb_false_r, andb_true_r.
    + rewrite (proj2 (Nat.leb_le (S first) q)) by lia. replace (q - first)%nat with (S (q - S first)) by lia. cbn. by rewrite andb_false_r.
  - rewrite (proj2 (Nat.leb_gt (S first) q)), (proj2 (Nat.eqb_neq q first)) by lia. cbn. by rewrite andb_false_r.
Qed.

(** Bits survive, padded to whole bytes. *)
Lemma bits_roundtrip bits :
  exists pad, BytesToBits (BitsToBytes bits) = bits ++ replicate pad false /\ ((length bits + pad + 7) / 8 = (length bits + 7) / 8)%nat.
Proof.
  set (len := ((length bits + 7) / 8)%nat). exists (len * 8 - length bits)%nat.
  assert (Hlen : (length bits <= len * 8 < length bits + 8)%nat).
  { unfold len. pose proof (Nat.div_mod (length bits + 7) 8 ltac:(lia)). pose proof (Nat.mod_upper_bound (length bits + 7) 8). lia. }
  split.
  - apply (nth_ext _ _ false false).
    + rewrite length_app, length_replicate. unfold BytesToBits, BitsToBytes. rewrite length_fmap, length_seq, set_bits_length, length_replicate. fold len. lia.
    + intros q. unfold BytesToBits at 1. rewrite length_fmap, length_seq. intros Hq. rewrite BytesToBits_nth by done. unfold BitsToBytes in *.
      rewrite set_bits_length, length_replicate in Hq. fold len in Hq |- *. rewrite set_bits_testbit by (rewrite length_replicate; lia).
      replace (nth (q / 8) (replicate len 0) 0) with 0 by (by rewrite nth_lookup; destruct (_ !! _) eqn:E; [apply lookup_replicate in E as [<- _]|]).
      rewrite Z.bits_0, Nat.sub_0_r. cbn [orb andb Nat.leb]. destruct (Nat.lt_ge_cases q (length bits)).
      * by rewrite app_nth1.
      * rewrite app_nth2, (nth_overflow bits) by lia. rewrite nth_lookup. by destruct (_ !! _) eqn:E; [apply lookup_replicate in E as [<- _]|].
  - replace (length bits + (len * 8 - length bits) + 7)%nat with (7 + len * 8)%nat by lia. by rewrite Nat.div_add.
Qed.

(** * The shape of the tree *)

#[local] Opaque Hash2 Hash.

(** The elements below the node [p] of level [k]. *)
Definition slice {A} (k p : nat) (l : list A) : list A := take (2 ^ k) (drop (p * 2 ^ k) l).

Lemma slice_S {A} k p (l : list A) : slice (S k) p l = slice k (2 * p) l ++ slice k (2 * p + 1) l.
Proof.
  unfold slice. replace (2 ^ S k)%nat with (2 ^ k + 2 ^ k)%nat by (cbn; lia). rewrite <- take_take_drop, drop_drop.
  f_equal; f_equal; f_equal; nia.
Qed.

Lemma slice_map {A B} (f : A -> B) k p l : slice k p (map f l) = map f (slice k p l).
Proof. unfold slice. by rewrite skipn_map, firstn_map. Qed.

Lemma equal_pair_nodes l p : equal_pair l = false -> (2 * p + 1 < length l)%nat -> nth (2 * p + 1) l [] <> nth (2 * p) l [].
Proof.
  revert p. induction l as [|a|a b l IH] using list_pair_ind; intros p He Hp; cbn [length] in Hp; [lia|lia|].
  cbn [equal_pair] in He. apply orb_false_iff in He as [Hab He]. apply bool_decide_eq_false in Hab. destruct p as [|p].
  - cbn. congruence.
  - replace (2 * S p + 1)%nat with (S (S (2 * p + 1))) by lia. replace (2 * S p)%nat with (S (S (2 * p))) by lia. cbn [nth].
    apply IH; [done|lia].
Qed.

Lemma pair_block_in l p : (2 * p < length l)%nat ->
  In (nth (2 * p) l [] ++ (if (2 * p + 1 <? length l)%nat then nth (2 * p + 1) l [] else nth (2 * p) l [])) (pair_blocks l).
Proof.
  revert p. induction l as [|a|a b l IH] using list_pair_ind; intros p Hp; cbn [length] in Hp; [lia| |].
  - assert (p = O) as -> by lia. by left.
  - destruct p as [|p]; [by left|]. right. specialize (IH p ltac:(lia)).
    replace (2 * S p + 1)%nat with (S (S (2 * p + 1))) by lia. replace (2 * S p)%nat with (S (S (2 * p))) by lia. exact IH.
Qed.

Section Shape.
Context (leaves : list bytes).
Local Abbreviation n := (zlen leaves).
Context (Hn : 0 < n <= 2 ^ 16).

Lemma CalcTreeWidth_width k : (k <= 16)%nat -> CalcTreeWidth n k = width leaves k.
Proof.
  intros Hk. assert (H2 : 1 <= 2 ^ Z.of_nat k <= 2 ^ 16).
  { split; [lia|]. apply Z.pow_le_mono_r; lia. }
  unfold CalcTreeWidth. rewrite Z.shiftl_1_l, wrap_small, Z.shiftr_div_pow2, width_div by (unfold is_uint; lia).
  pose proof (Z.div_mod n (2 ^ Z.of_nat k) ltac:(lia)) as Hdm. pose proof (Z.mod_pos_bound n (2 ^ Z.of_nat k) ltac:(lia)).
  destruct (Z.eqb_spec (n mod 2 ^ Z.of_nat k) 0) as [E|E]; symmetry.
  - apply (Z.div_unique _ _ _ (2 ^ Z.of_nat k - 1)); lia.
  - apply (Z.div_unique _ _ _ (n mod 2 ^ Z.of_nat k - 1)); lia.
Qed.

Lemma shape_ne : leaves <> [].
Proof. intros ->. unfold zlen in Hn. cbn in Hn. lia. Qed.

Lemma depth_16 d : depth leaves d -> (d <= 16)%nat.
Proof.
  intros Hd. destruct (depth_bounds leaves d Hd) as [_ [->|H]]; [lia|].
  assert (2 ^ (Z.of_nat d - 1) < 2 ^ 16) as H2 by lia. apply Z.pow_lt_mono_r_iff in H2; lia.
Qed.

Lemma tree_height_depth d : depth leaves d -> tree_height 32 n 0 = d.
Proof.
  intros Hd. pose proof (depth_16 d Hd). destruct Hd as [H1 H2].
  assert (forall fuel k, (k <= d)%nat -> (d < fuel + k)%nat -> tree_height fuel n k = d) as Hgen.
  { induction fuel as [|fuel IH]; intros k Hk Hf; [lia|]. cbn [tree_height]. rewrite CalcTreeWidth_width by lia.
    destruct (Nat.eq_dec k d) as [->|]; [by rewrite H1|].
    specialize (H2 k ltac:(lia)). rewrite (proj2 (Z.ltb_lt _ _)) by lia. apply IH; lia. }
  apply Hgen; lia.
Qed.

(** A node has a leaf below it, and a left child. *)
Lemma width_first k p : Z.of_nat p < width leaves k -> Z.of_nat (p * 2 ^ k) < n.
Proof.
  intros Hp. rewrite width_div in Hp. pose proof (Z.div_mod n (2 ^ Z.of_nat k) ltac:(lia)).
  pose proof (Z.mod_pos_bound n (2 ^ Z.of_nat k) ltac:(lia)). rewrite Nat2Z.inj_mul, Nat2Z.inj_pow. change (Z.of_nat 2) with 2.
  destruct (Z.eqb_spec (n mod 2 ^ Z.of_nat k) 0); nia.
Qed.

Lemma width_child k p : Z.of_nat p < width leaves (S k) -> Z.of_nat (2 * p) < width leaves k.
Proof. rewrite width_S. intros H. div_lia. Qed.

Lemma pos_small k p : Z.of_nat p < width leaves k -> (k <= 16)%nat -> Z.of_nat p < 2 ^ 16.
Proof. intros H%width_first Hk. rewrite Nat2Z.inj_mul, Nat2Z.inj_pow in H. change (Z.of_nat 2) with 2 in H. assert (1 <= 2 ^ Z.of_nat k) by lia. nia. Qed.

(** The positions of the children, without overflow. *)
Lemma child_pos k p : Z.of_nat p < width leaves k -> (k <= 16)%nat ->
  u32 (Z.of_nat p * 2) = Z.of_nat (2 * p) /\ u32 (Z.of_nat p * 2 + 1) = Z.of_nat (2 * p + 1).
Proof. intros Hp Hk. pose proof (pos_small k p Hp Hk). rewrite !wrap_small by (unfold is_uint; lia). lia. Qed.

(** A right child that is not there has no leaves below it. *)
Lemma slice_none {A} k p (l : list A) : length l = length leaves -> width leaves k <= Z.of_nat p -> slice k p l = [].
Proof.
  intros Hl Hp. unfold slice. rewrite drop_ge; [by rewrite take_nil|]. rewrite width_div in Hp.
  pose proof (Z.div_mod n (2 ^ Z.of_nat k) ltac:(lia)). pose proof (Z.mod_pos_bound n (2 ^ Z.of_nat k) ltac:(lia)).
  enough (n <= Z.of_nat (p * 2 ^ k)) by (unfold zlen in *; lia). rewrite Nat2Z.inj_mul, Nat2Z.inj_pow. change (Z.of_nat 2) with 2.
  destruct (Z.eqb_spec (n mod 2 ^ Z.of_nat k) 0); nia.
Qed.

Lemma node_children k p : Z.of_nat p < width leaves (S k) ->
  node leaves (S k) (Z.of_nat p) =
  Hash2 (node leaves k (Z.of_nat (2 * p)))
    (if Z.of_nat (2 * p + 1) <? width leaves k then node leaves k (Z.of_nat (2 * p + 1)) else node leaves k (Z.of_nat (2 * p))).
Proof.
  intros Hp%width_child. rewrite node_S by lia. destruct (Z.ltb_spec (Z.of_nat (2 * p + 1)) (width leaves k)).
  - rewrite Z.min_l by lia. do 2 f_equal; lia.
  - rewrite Z.min_r by lia. do 2 f_equal; lia.
Qed.

Lemma CalcHash_node k p : (k <= 16)%nat -> Z.of_nat p < width leaves k -> CalcHash n leaves k (Z.of_nat p) = Ok (node leaves k (Z.of_nat p)).
Proof.
  revert p. induction k as [|k IH]; intros p Hk Hp; pose proof shape_ne as Hne.
  - unfold node, width, zlen in *. cbn [tree] in *. cbn [CalcHash]. rewrite Nat2Z.id.
    destruct (lookup_lt_is_Some_2 leaves p ltac:(lia)) as [h Eh]. rewrite Eh, (nth_lookup_Some _ _ _ _ Eh). by destruct leaves.
  - rewrite node_children by done. pose proof (width_child k p Hp). destruct (child_pos (S k) p Hp Hk) as [E1 E2].
    cbn [CalcHash]. rewrite E1, E2, (IH (2 * p)%nat) by (lia || done). cbn [mbind result_bind]. rewrite CalcTreeWidth_width by lia.
    destruct (Z.ltb_spec (Z.of_nat (2 * p + 1)) (width leaves k)).
    + rewrite IH by (lia || done). by destruct leaves.
    + by destruct leaves.
Qed.

(** * Building *)

Context (matches : list bool) (Hm : length matches = length leaves).

Lemma parent_of_match_spec k : forall p acc, (p + k <= length matches)%nat ->
  parent_of_match matches k (Z.of_nat p) acc = Ok (acc || existsb id (take k (drop p matches))).
Proof.
  induction k as [|k IH]; intros p acc Hp; [by rewrite take_0, orb_false_r|]. cbn [parent_of_match]. rewrite Nat2Z.id.
  destruct (lookup_lt_is_Some_2 matches p ltac:(lia)) as [b Eb]. rewrite Eb, (drop_S _ _ _ Eb).
  replace (Z.of_nat p + 1) with (Z.of_nat (S p)) by lia. rewrite IH by lia. cbn. by rewrite orb_assoc.
Qed.

Definition any_match (k p : nat) : bool := existsb id (slice k p matches).

(** The bits and hashes for the node [p] of level [k]. *)
Fixpoint part (k p : nat) : list bool * list bytes :=
  match k, any_match k p with
  | S k, true =>
      let l := part k (2 * p) in
      let r := if Z.of_nat (2 * p + 1) <? width leaves k then part k (2 * p + 1) else ([], []) in
      (true :: l.1 ++ r.1, l.2 ++ r.2)
  | _, b => ([b], [node leaves k (Z.of_nat p)])
  end.

Lemma parent_of_node k p : (k <= 16)%nat -> Z.of_nat p < width leaves k ->
  let first := u32 (Z.shiftl (Z.of_nat p) (Z.of_nat k)) in
  let last := Z.min (u32 (Z.shiftl (Z.of_nat p + 1) (Z.of_nat k))) n in
  parent_of_match matches (Z.to_nat (last - first)) first false = Ok (any_match k p).
Proof.
  intros Hk Hp first last. pose proof (width_first k p Hp) as Hf. pose proof (pos_small k p Hp Hk).
  assert (H2 : 1 <= 2 ^ Z.of_nat k <= 2 ^ 16) by (split; [lia|apply Z.pow_le_mono_r; lia]).
  assert (E2 : Z.of_nat (2 ^ k) = 2 ^ Z.of_nat k) by (by rewrite Nat2Z.inj_pow).
  assert (Ef : first = Z.of_nat (p * 2 ^ k)).
  { unfold first. rewrite Z.shiftl_mul_pow2, wrap_small by (unfold is_uint; nia). lia. }
  assert (El : last = Z.min (Z.of_nat (p * 2 ^ k) + 2 ^ Z.of_nat k) n).
  { unfold last. rewrite Z.shiftl_mul_pow2, wrap_small by (unfold is_uint; nia). lia. }
  rewrite Ef, El. unfold zlen in *. rewrite parent_of_match_spec by lia. unfold any_match, slice. cbn [orb]. do 2 f_equal.
  destruct (Z.le_ge_cases (Z.of_nat (p * 2 ^ k) + 2 ^ Z.of_nat k) (Z.of_nat (length leaves))).
  - rewrite Z.min_l by lia. f_equal. lia.
  - rewrite Z.min_r by lia. rewrite !take_ge by (rewrite length_drop; lia). done.
Qed.

Lemma TraverseAndBuild_part k : forall p bits hashes, (k <= 16)%nat -> Z.of_nat p < width leaves k ->
  TraverseAndBuild n leaves matches k (Z.of_nat p) bits hashes = Ok (bits ++ (part k p).1, hashes ++ (part k p).2).
Proof.
  induction k as [|k IH]; intros p bits hashes Hk Hp; cbn [TraverseAndBuild].
  - rewrite parent_of_node by done. cbn [mbind result_bind]. rewrite CalcHash_node by done. cbn. by destruct (any_match 0 p).
  - rewrite parent_of_node by done. cbn [mbind result_bind part]. destruct (any_match (S k) p).
    + destruct (child_pos (S k) p Hp Hk) as [-> ->]. rewrite IH by (lia || by apply width_child). cbn [mbind result_bind].
      rewrite CalcTreeWidth_width by lia. destruct (Z.ltb_spec (Z.of_nat (2 * p + 1)) (width leaves k)).
      * rewrite IH by (lia || done). cbn [fst snd]. by rewrite <- !app_assoc.
      * cbn [fst snd]. by rewrite !app_nil_r, <- app_assoc.
    + rewrite CalcHash_node by done. done.
Qed.

(** The checks on the sizes hold. *)
Lemma part_sizes k : forall p, (k <= 16)%nat -> Z.of_nat p < width leaves k ->
  (1 <= length (part k p).2 <= length (part k p).1)%nat /\ (length (part k p).2 <= length (slice k p leaves))%nat.
Proof.
  induction k as [|k IH]; intros p Hk Hp; cbn [part].
  { apply width_first in Hp. cbn [Nat.pow] in Hp. unfold zlen in Hp.
    destruct (any_match 0 p); cbn [fst snd length]; (split; [lia|]); unfold slice; cbn [Nat.pow]; rewrite length_take, length_drop; lia. }
  pose proof (width_first (S k) p Hp) as Hf. pose proof (width_child k p Hp) as Hc. destruct (any_match (S k) p).
  - rewrite slice_S, length_app. destruct (IH (2 * p)%nat ltac:(lia) Hc) as [? ?].
    destruct (Z.ltb_spec (Z.of_nat (2 * p + 1)) (width leaves k)) as [Hr|Hr]; cbn [fst snd length].
    + destruct (IH (2 * p + 1)%nat ltac:(lia) Hr). rewrite !length_app. lia.
    + rewrite !length_app. cbn [length]. lia.
  - cbn [fst snd length]. split; [lia|]. unfold slice. rewrite length_take, length_drop. pose proof (Nat.pow_nonzero 2 (S k)). unfold zlen in Hf. lia.
Qed.

(** * Extracting *)

(** The leaves with their positions, and those that match below a node. *)
Definition items : list (bool * (bytes * Z)) := zip matches (zip leaves (map Z.of_nat (seq 0 (length leaves)))).
Definition chosen (l : list (bool * (bytes * Z))) : list (bytes * Z) := map snd (List.filter fst l).

Lemma any_match_items k p : any_match k p = existsb fst (slice k p items).
Proof.
  unfold any_match. replace matches with (map fst items) at 1.
  - rewrite slice_map. induction (slice k p items) as [|x l IH]; [done|]. cbn. by rewrite IH.
  - unfold items. apply fst_zip. rewrite length_zip, length_map, length_seq. lia.
Qed.

Lemma chosen_app l l' : chosen (l ++ l') = chosen l ++ chosen l'.
Proof. unfold chosen. by rewrite filter_app, map_app. Qed.

Lemma chosen_none l : existsb fst l = false -> chosen l = [].
Proof.
  unfold chosen. induction l as [|[b x] l IH]; [done|]. cbn. intros [-> H]%orb_false_iff. by apply IH.
Qed.

Lemma items_leaf p : (p < length leaves)%nat -> exists b, matches !! p = Some b /\ slice 0 p items = [(b, (node leaves 0 (Z.of_nat p), Z.of_nat p))].
Proof.
  intros Hp. destruct (lookup_lt_is_Some_2 matches p ltac:(lia)) as [b Eb]. exists b. split; [done|].
  destruct (lookup_lt_is_Some_2 leaves p Hp) as [h Eh]. unfold slice. cbn [Nat.pow]. rewrite Nat.mul_1_r.
  assert (items !! p = Some (b, (h, Z.of_nat p))) as Ei.
  { unfold items. apply lookup_zip_with_Some. exists b, (h, Z.of_nat p). split; [done|]. split; [done|].
    apply lookup_zip_with_Some. exists h, (Z.of_nat p). split; [done|]. split; [done|].
    change (map Z.of_nat) with (fmap (M := list) Z.of_nat). rewrite list_lookup_fmap, lookup_seq_lt by done. done. }
  rewrite (drop_S _ _ _ Ei). cbn. rewrite take_0. do 3 f_equal. unfold node. cbn [tree]. rewrite Nat2Z.id. symmetry. by apply nth_lookup_Some.
Qed.

Context (t : CPartialMerkleTree) (Ht : nTransactions t = n).

(** The state after the part of a node was used. *)
Definition after (k p : nat) (st : extraction) : extraction :=
  let c := chosen (slice k p items) in
  Extraction (nBitsUsed st + length (part k p).1) (nHashUsed st + length (part k p).2) (x_vMatch st ++ map fst c) (x_vnIndex st ++ map snd c) (x_fBad st).

(** A node that is not descended into. *)
Lemma extract_stop k pos st b b0 b1 h h0 h1 : k = O \/ b = false ->
  vBits t = b0 ++ b :: b1 -> nBitsUsed st = length b0 -> vHash t = h0 ++ h :: h1 -> nHashUsed st = length h0 ->
  TraverseAndExtract t k pos st = (h, let st := use_hash (use_bit st) in match k, b with O, true => found st h pos | _, _ => st end).
Proof.
  intros Hs Hb Eb Hh Eh.
  assert (vBits t !! nBitsUsed st = Some b) as E1 by (by rewrite Hb, Eb, lookup_app_r, Nat.sub_diag).
  assert (vHash t !! nHashUsed st = Some h) as E2 by (by rewrite Hh, Eh, lookup_app_r, Nat.sub_diag).
  destruct k as [|k], b; cbn [TraverseAndExtract]; rewrite E1; cbn [use_bit nHashUsed]; rewrite ?E2; try done. by destruct Hs.
Qed.

Lemma TraverseAndExtract_part d k : forall p st b0 b1 h0 h1,
  existsb (fun j => equal_pair (tree leaves j)) (seq 0 d) = false -> (k <= d <= 16)%nat -> Z.of_nat p < width leaves k ->
  vBits t = b0 ++ (part k p).1 ++ b1 -> nBitsUsed st = length b0 -> vHash t = h0 ++ (part k p).2 ++ h1 -> nHashUsed st = length h0 ->
  TraverseAndExtract t k (Z.of_nat p) st = (node leaves k (Z.of_nat p), after k p st).
Proof.
  induction k as [|k IH]; intros p st b0 b1 h0 h1 Hmut Hk Hp Hb Eb Hh Eh.
  - pose proof (width_first 0 p Hp) as Hf. cbn [Nat.pow] in Hf. unfold zlen in Hf.
    destruct (items_leaf p ltac:(lia)) as (b & Em & Ei). unfold after. cbn [part] in *. rewrite any_match_items, Ei in *.
    cbn [existsb fst orb] in *. rewrite orb_false_r in *.
    rewrite (extract_stop 0 (Z.of_nat p) st b b0 b1 (node leaves 0 (Z.of_nat p)) h0 h1) by (auto || by destruct b).
    f_equal. destruct b; cbn; rewrite ?app_nil_r; unfold found, use_hash, use_bit; cbn; f_equal; lia.
  - pose proof (width_child k p Hp) as Hc. destruct (child_pos (S k) p Hp ltac:(lia)) as [E1 E2].
    unfold after. cbn [part] in *. rewrite any_match_items in *. destruct (existsb fst (slice (S k) p items)) eqn:Ea.
    + cbn [TraverseAndExtract]. rewrite Hb, Eb, lookup_app_r, Nat.sub_diag by lia. cbn [fst snd app lookup list_lookup length] in *. rewrite E1, E2, Ht, CalcTreeWidth_width by lia.
      rewrite node_children by done. rewrite <- app_assoc in Hb, Hh.
      assert (TraverseAndExtract t k (Z.of_nat (2 * p)) (use_bit st) = (node leaves k (Z.of_nat (2 * p)), after k (2 * p) (use_bit st))) as ->.
      { eapply (IH (2 * p)%nat (use_bit st) (b0 ++ [true]) _ h0); [done|lia|done| | |exact Hh|done].
        - rewrite Hb. cbn. by rewrite <- !app_assoc.
        - cbn. rewrite length_app. cbn. lia. }
      rewrite (slice_S k p items), chosen_app, !map_app. destruct (Z.ltb_spec (Z.of_nat (2 * p + 1)) (width leaves k)) as [Hr|Hr].
      * set (st1 := after k (2 * p) (use_bit st)).
        assert (TraverseAndExtract t k (Z.of_nat (2 * p + 1)) st1 = (node leaves k (Z.of_nat (2 * p + 1)), after k (2 * p + 1) st1)) as ->.
        { eapply (IH (2 * p + 1)%nat _ (b0 ++ [true] ++ (part k (2 * p)).1) b1 (h0 ++ (part k (2 * p)).2) h1); [done|lia|done| | | |].
          - rewrite Hb. cbn. by rewrite <- !app_assoc.
          - cbn. rewrite !length_app. cbn. lia.
          - by rewrite Hh, <- !app_assoc.
          - cbn. rewrite !length_app. lia. }
        rewrite bool_decide_false.
        -- f_equal. unfold after. cbn. rewrite !length_app, <- !app_assoc. f_equal; lia.
        -- assert (equal_pair (tree leaves k) = false) as Hep.
           { apply not_true_iff_false. intros Hep. apply not_true_iff_false in Hmut. apply Hmut, existsb_exists. exists k. split; [apply in_seq; lia|done]. }
           unfold node. rewrite !Nat2Z.id. apply equal_pair_nodes; [done|]. unfold width, zlen in Hr. lia.
      * f_equal. unfold after. rewrite (slice_none k (2 * p + 1) items) by (done || (unfold items; rewrite !length_zip, length_map, length_seq; lia)).
        cbn. rewrite !app_nil_r. f_equal; lia.
    + rewrite (chosen_none _ Ea). rewrite (extract_stop (S k) (Z.of_nat p) st false b0 b1 (node leaves (S k) (Z.of_nat p)) h0 h1) by auto.
      f_equal. cbn. rewrite !app_nil_r. unfold use_hash, use_bit. cbn. f_equal; lia.
Qed.

(** What is extracted from the complete part of the root. *)
Lemma ExtractMatches_part d pad vnIndex : depth leaves d -> n <= MAX_BLOCK_WEIGHT / MIN_TRANSACTION_WEIGHT ->
  existsb (fun j => equal_pair (tree leaves j)) (seq 0 d) = false ->
  vBits t = (part d 0).1 ++ replicate pad false -> ((length (part d 0).1 + pad + 7) / 8 = (length (part d 0).1 + 7) / 8)%nat ->
  vHash t = (part d 0).2 -> fBad t = false ->
  ExtractMatches t vnIndex = (node leaves d 0, map fst (chosen items), vnIndex ++ map snd (chosen items), false).
Proof.
  intros Hd Hmax Hmut Hb Hpad Hh Hbad. pose proof (depth_16 d Hd). assert (Z.of_nat 0 < width leaves d) as Hw by (destruct Hd; lia).
  destruct (part_sizes d 0 ltac:(lia) Hw) as [Hs1 Hs2]. assert (length (slice d 0 leaves) <= length leaves)%nat.
  { unfold slice. rewrite length_take, length_drop. lia. }
  unfold ExtractMatches. rewrite Ht, Hbad, Hh, Hb, length_app, length_replicate.
  rewrite (proj2 (Z.eqb_neq _ _)), (proj2 (Z.ltb_ge _ n)), (proj2 (Z.ltb_ge n _)), (proj2 (Nat.ltb_ge _ _)) by (unfold zlen in *; lia).
  rewrite (tree_height_depth d Hd), (TraverseAndExtract_part d d 0 _ [] (replicate pad false) [] []) by (done || lia || by rewrite ?Hh, ?app_nil_r).
  unfold after. cbn [x_fBad nBitsUsed nHashUsed x_vMatch x_vnIndex plus app]. rewrite Hpad, !Nat.eqb_refl. cbn [negb].
  replace (slice d 0 items) with items; [done|]. unfold slice. cbn [Nat.mul]. rewrite drop_0, take_ge; [done|].
  unfold items. rewrite !length_zip, length_map, length_seq, Hm. destruct (depth_bounds leaves d Hd) as [Hle _].
  apply Nat2Z.inj_le. rewrite Nat2Z.inj_pow. unfold zlen in Hle. change (Z.of_nat 2) with 2. lia.
Qed.

(** * No false proofs *)

(** The pairs that the extraction hashes. *)
Fixpoint extracted_pairs (k : nat) (pos : Z) (st : extraction) : list bytes :=
  match k, vBits t !! nBitsUsed st with
  | S k, Some true =>
      let '(hl, st1) := TraverseAndExtract t k (u32 (pos * 2)) (use_bit st) in
      let '(hr, more) :=
        if u32 (pos * 2 + 1) <? CalcTreeWidth (nTransactions t) k
        then ((TraverseAndExtract t k (u32 (pos * 2 + 1)) st1).1, extracted_pairs k (u32 (pos * 2 + 1)) st1)
        else (hl, []) in
      (hl ++ hr) :: extracted_pairs k (u32 (pos * 2)) (use_bit st) ++ more
  | _, _ => []
  end.

Lemma extract_bad k : forall pos st, x_fBad st = true -> x_fBad (TraverseAndExtract t k pos st).2 = true.
Proof.
  induction k as [|k IH]; intros pos st Hs; cbn [TraverseAndExtract]; (destruct (vBits t !! _) as [[|]|]; [| |done]).
  1, 2, 4: destruct (vHash t !! _); done.
  pose proof (IH (u32 (pos * 2)) (use_bit st) Hs) as H1. destruct (TraverseAndExtract t k (u32 (pos * 2)) (use_bit st)) as [hl st1].
  destruct (_ <? _); [|done]. pose proof (IH (u32 (pos * 2 + 1)) st1 H1) as H2. destruct (TraverseAndExtract t k _ st1) as [hr st2].
  cbn in *. by case_bool_decide.
Qed.

Lemma extract_length k : Forall (fun h => length h = 32%nat) (vHash t) ->
  forall pos st, length (TraverseAndExtract t k pos st).1 = 32%nat.
Proof.
  intros Hh. induction k as [|k IH]; intros pos st; cbn [TraverseAndExtract]; (destruct (vBits t !! _) as [[|]|]; [| |done]).
  1, 2, 4: destruct (vHash t !! _) as [h|] eqn:E; [|done]; apply list_elem_of_lookup_2, list_elem_of_In in E; exact (proj1 (Forall_forall _ _) Hh h E).
  destruct (TraverseAndExtract t k (u32 (pos * 2)) (use_bit st)) as [hl st1]. destruct (_ <? _); [|apply Hash2_length].
  destruct (TraverseAndExtract t k _ st1) as [hr st2]. apply Hash2_length.
Qed.

(** What was found between two states, at its place among the leaves. *)
Definition finds (st st' : extraction) : Prop :=
  exists c, x_vMatch st' = x_vMatch st ++ map fst c /\ x_vnIndex st' = x_vnIndex st ++ map snd c
    /\ Forall (fun '(h, i) => leaves !! Z.to_nat i = Some h /\ 0 <= i < n) c.

Lemma finds_trans st1 st2 st3 : finds st1 st2 -> finds st2 st3 -> finds st1 st3.
Proof.
  intros (c & E1 & E2 & Hc) (c' & E1' & E2' & Hc'). exists (c ++ c').
  rewrite E1', E1, E2', E2, !map_app, <- !app_assoc. split; [done|]. split; [done|]. by apply Forall_app_2.
Qed.

Lemma finds_none st st' : x_vMatch st' = x_vMatch st -> x_vnIndex st' = x_vnIndex st -> finds st st'.
Proof. intros E1 E2. exists []. rewrite E1, E2. cbn. by rewrite !app_nil_r. Qed.

Section Sound.
Context (inputs : list bytes) (Hnc : no_collision inputs) (d : nat) (Hd : (d <= 16)%nat).
Context (Hblocks : forall x, In x (merkle_blocks leaves d) -> In x inputs).
Context (Hwf : Forall (fun h => length h = 32%nat) leaves) (Hhashes : Forall (fun h => length h = 32%nat) (vHash t)).

(** Equal nodes have equal children. *)
Lemma children_equal k p hl hr : (S k <= d)%nat -> Z.of_nat p < width leaves (S k) ->
  In (hl ++ hr) inputs -> length hl = 32%nat -> Hash2 hl hr = node leaves (S k) (Z.of_nat p) ->
  hl = node leaves k (Z.of_nat (2 * p)) /\
  hr = if Z.of_nat (2 * p + 1) <? width leaves k then node leaves k (Z.of_nat (2 * p + 1)) else node leaves k (Z.of_nat (2 * p)).
Proof.
  clear matches Hm.
  intros Hk Hp Hin Hl E. pose proof (width_child k p Hp) as Hc. rewrite node_children, !Hash2_Hash in E by done.
  assert (length (node leaves k (Z.of_nat (2 * p))) = 32%nat) as Hn32.
  { unfold node, width, zlen in *. rewrite Nat2Z.id. apply (proj1 (Forall_forall _ _) (tree_wf leaves k Hwf)), nth_In. lia. }
  apply Hnc in E; [|done|].
  - apply app_inj_1 in E; [done|lia].
  - apply Hblocks, (level_blocks leaves d k); [lia|]. unfold width, zlen, node in *. rewrite !Nat2Z.id.
    replace (Z.of_nat (2 * p + 1) <? Z.of_nat (length (tree leaves k))) with (2 * p + 1 <? length (tree leaves k))%nat
      by (apply eq_true_iff_eq; rewrite Nat.ltb_lt, Z.ltb_lt; lia).
    apply pair_block_in. lia.
Qed.

Lemma extract_sound k : forall p st, (k <= d)%nat -> Z.of_nat p < width leaves k ->
  (forall x, In x (extracted_pairs k (Z.of_nat p) st) -> In x inputs) ->
  let '(h, st') := TraverseAndExtract t k (Z.of_nat p) st in
  x_fBad st' = false -> h = node leaves k (Z.of_nat p) -> finds st st'.
Proof.
  clear matches Hm.
  induction k as [|k IH]; intros p st Hk Hp Hin.
  - pose proof (width_first 0 p Hp) as Hf. cbn [Nat.pow] in Hf. cbn [TraverseAndExtract]. destruct (vBits t !! _) as [b|]; [|done].
    destruct b; (destruct (vHash t !! _) as [h|]; [|done]); intros _ ->; [|by apply finds_none].
    exists [(node leaves 0 (Z.of_nat p), Z.of_nat p)]. cbn. split; [done|]. split; [done|]. constructor; [|done]. split; [|lia].
    unfold node, zlen in *. cbn [tree]. rewrite Nat2Z.id.
    destruct (lookup_lt_is_Some_2 leaves p ltac:(lia)) as [h Eh]. by rewrite (nth_lookup_Some _ _ _ _ Eh).
  - cbn [TraverseAndExtract extracted_pairs] in *. destruct (child_pos (S k) p Hp ltac:(lia)) as [E1 E2]. pose proof (width_child k p Hp) as Hc.
    destruct (vBits t !! _) as [[|]|]; [| |done]; [|destruct (vHash t !! _); [|done]; intros _ _; by apply finds_none].
    rewrite E1, E2, Ht, CalcTreeWidth_width in * by lia. pose proof (extract_length k Hhashes (Z.of_nat (2 * p)) (use_bit st)) as Hlen.
    pose proof (IH (2 * p)%nat (use_bit st) ltac:(lia) Hc) as IHl. destruct (TraverseAndExtract t k (Z.of_nat (2 * p)) (use_bit st)) as [hl st1].
    pose proof (IH (2 * p + 1)%nat st1 ltac:(lia)) as IHr. pose proof (extract_bad k (Z.of_nat (2 * p + 1)) st1) as Hbad.
    destruct (Z.ltb_spec (Z.of_nat (2 * p + 1)) (width leaves k)) as [Hr|Hr].
    + destruct (TraverseAndExtract t k (Z.of_nat (2 * p + 1)) st1) as [hr st2]. cbn [fst snd] in *.
      intros Hok E. case_bool_decide; [done|]. destruct (children_equal k p hl hr Hk Hp) as [El Er]; [apply Hin; by left|done|done|].
      rewrite (proj2 (Z.ltb_lt _ _)) in Er by done.
      assert (x_fBad st1 = false) by (destruct (x_fBad st1); [by rewrite Hbad in Hok|done]).
      apply (finds_trans st st1 st2); [apply (finds_trans st (use_bit st)); [by apply finds_none|]|].
      * apply IHl; [|done|done]. intros x Hx. apply Hin. right. apply in_or_app. by left.
      * apply IHr; [done| |done|done]. intros x Hx. apply Hin. right. apply in_or_app. by right.
    + intros Hok E. destruct (children_equal k p hl hl Hk Hp) as [El _]; [apply Hin; by left|done|done|].
      apply (finds_trans st (use_bit st)); [by apply finds_none|]. apply IHl; [|done|done].
      intros x Hx. apply Hin. right. by rewrite app_nil_r.
Qed.
End Sound.

End Shape.

(** * Properties *)

Section Properties.
Context (way8 way4 way2 : option (bytes -> bytes)).
Context (H8 : way_ok 8 way8) (H4 : way_ok 4 way4) (H2 : way_ok 2 way2).

Definition max_transactions : Z := MAX_BLOCK_WEIGHT / MIN_TRANSACTION_WEIGHT.

Lemma partial_tree_built vTxid vMatch d : depth vTxid d -> 0 < zlen vTxid <= 2 ^ 16 -> length vMatch = length vTxid ->
  CPartialMerkleTree_new vTxid vMatch
  = Ok (PartialMerkleTree (zlen vTxid) (part vTxid vMatch d 0).1 (part vTxid vMatch d 0).2 false).
Proof.
  intros Hd Hn Hm. unfold CPartialMerkleTree_new. rewrite wrap_small by (unfold is_uint; lia).
  pose proof (depth_16 vTxid Hn d Hd). assert (Z.of_nat 0 < width vTxid d) by (destruct Hd; lia).
  pose proof (TraverseAndBuild_part vTxid Hn vMatch Hm d 0 [] [] ltac:(lia) ltac:(done)) as E. change (Z.of_nat 0) with 0 in E.
  by rewrite (tree_height_depth vTxid Hn d Hd), E.
Qed.

Lemma part_hashes vTxid vMatch k : Forall (fun h => length h = 32%nat) vTxid -> forall p, Z.of_nat p < width vTxid k ->
  Forall (fun h => length h = 32%nat) (part vTxid vMatch k p).2.
Proof.
  intros Hwf. assert (forall k p, Z.of_nat p < width vTxid k -> length (node vTxid k (Z.of_nat p)) = 32%nat) as Hnode.
  { intros j p Hp. unfold node, width, zlen in *. rewrite Nat2Z.id. apply (proj1 (Forall_forall _ _) (tree_wf vTxid j Hwf)), nth_In. lia. }
  induction k as [|k IH]; intros p Hp; cbn [part]; [by destruct (any_match _ _ _); repeat constructor; auto|].
  destruct (any_match _ _ _); [|by repeat constructor; auto]. cbn [snd]. apply Forall_app_2; [by apply IH, width_child|].
  destruct (Z.ltb_spec (Z.of_nat (2 * p + 1)) (width vTxid k)); [by apply IH|constructor].
Qed.

Lemma part_bits vTxid vMatch k : forall p, (S (length (part vTxid vMatch k p).1) <= 2 * 2 ^ k)%nat.
Proof.
  induction k as [|k IH]; intros p; cbn [part]; [by destruct (any_match _ _ _); cbn; lia|].
  pose proof (Nat.pow_nonzero 2 k ltac:(lia)). cbn [Nat.pow]. destruct (any_match _ _ _); cbn [fst length]; [|lia].
  rewrite length_app. pose proof (IH (2 * p)%nat). destruct (_ <? _); [pose proof (IH (2 * p + 1)%nat); lia|cbn [fst length]; lia].
Qed.

Lemma partial_tree_sent t rest : is_uint 32 (nTransactions t) -> Forall (fun h => length h = 32%nat) (vHash t) ->
  zlen (vHash t) <= MAX_SIZE -> zlen (vBits t) < MAX_SIZE ->
  unser_partial_tree (ser_partial_tree t ++ rest)
  = Ok (PartialMerkleTree (nTransactions t) (BytesToBits (BitsToBytes (vBits t))) (vHash t) false, rest).
Proof.
  intros Hn Hh Hl Hb. unfold unser_partial_tree, ser_partial_tree. rewrite <- !app_assoc.
  erewrite reader_bind_ok by (by apply read32_app).
  erewrite reader_bind_ok by (by apply VectorFormatter_roundtrip with (P := fun h => length h = 32%nat); [|intros h r Hh'; apply stream_read_app; rewrite Hh'| |]).
  erewrite reader_bind_ok; [done|]. apply unser_ser_byte_vector. unfold BitsToBytes. rewrite set_bits_length, length_replicate.
  unfold zlen, MAX_SIZE in *.
  assert ((length (vBits t) + 7) / 8 <= length (vBits t) + 1)%nat by (apply Nat.Div0.div_le_upper_bound; lia). lia.
Qed.

(** C18: A partial Merkle tree proves what it was built for, also after it was sent.  For
    up to 16666 transactions whose tree has no repeated pair of nodes (the root that
    [ComputeMerkleRoot] finds is not mutated), building the partial tree for a choice of
    transactions fails no assertion, and extracting from what the receiver reads gives
    the Merkle root of the block, exactly the chosen transactions and their positions. *)
Theorem partial_tree_roundtrip vTxid vMatch root rest :
  Forall (fun h => length h = 32%nat) vTxid -> length vMatch = length vTxid -> 0 < zlen vTxid <= max_transactions ->
  ComputeMerkleRoot way8 way4 way2 vTxid = (root, false) ->
  exists t t', CPartialMerkleTree_new vTxid vMatch = Ok t
    /\ unser_partial_tree (ser_partial_tree t ++ rest) = Ok (t', rest)
    /\ let c := chosen (items vTxid vMatch) in
       forall vnIndex, ExtractMatches t' vnIndex = (root, map fst c, vnIndex ++ map snd c, false).
Proof.
  intros Hwf Hm Hn Hroot. assert (Hn16 : 0 < zlen vTxid <= 2 ^ 16) by (split; [lia|etrans; [apply Hn|done]]).
  destruct (ComputeMerkleRoot_spec way8 way4 way2 H8 H4 H2 vTxid (shape_ne vTxid Hn16) Hwf) as (d & Hd & E).
  rewrite E in Hroot. injection Hroot as <- Hmut. pose proof (depth_16 vTxid Hn16 d Hd) as Hd16.
  assert (Z.of_nat 0 < width vTxid d) as Hw by (destruct Hd; lia).
  destruct (part_sizes vTxid vMatch Hm d 0 Hd16 Hw) as [Hs1 Hs2].
  pose proof (part_bits vTxid vMatch d 0) as Hbits.
  assert (Z.of_nat (2 ^ d) <= 65536) by (rewrite Nat2Z.inj_pow; apply (Z.pow_le_mono_r 2 (Z.of_nat d) 16); lia).
  eexists _, _. split; [by apply partial_tree_built|]. split.
  - apply partial_tree_sent; cbn [nTransactions vHash vBits]; [unfold is_uint; lia|by apply part_hashes| |]; unfold zlen, MAX_SIZE; lia.
  - destruct (bits_roundtrip (part vTxid vMatch d 0).1) as (pad & Ep & Hpad). intros c vnIndex. cbn [nTransactions vBits vHash].
    exact (ExtractMatches_part vTxid Hn16 vMatch Hm (PartialMerkleTree _ _ _ false) eq_refl d pad vnIndex Hd (proj2 Hn) Hmut Ep Hpad eq_refl eq_refl).
Qed.

(** C17: No partial tree proves a transaction that is not in the block.  Whatever bits and
    hashes a peer sends, if it claims the number of transactions of the block and
    [ExtractMatches] returns the Merkle root of the block, then every hash that it
    reports is the identifier of the transaction at the reported position, unless the
    double hash collides among the pairs of the tree and of the extraction. *)
Theorem partial_tree_sound t leaves root vMatch vnIndex bad :
  Forall (fun h => length h = 32%nat) leaves -> Forall (fun h => length h = 32%nat) (vHash t) ->
  nTransactions t = zlen leaves -> (ComputeMerkleRoot way8 way4 way2 leaves).1 = root -> root <> uint256_null ->
  ExtractMatches t [] = (root, vMatch, vnIndex, bad) ->
  no_collision (merkle_blocks leaves (levels leaves) ++ extracted_pairs t (levels leaves) 0 (Extraction 0 0 [] [] (fBad t))) ->
  Forall2 (fun h i => 0 <= i < zlen leaves /\ leaves !! Z.to_nat i = Some h) vMatch vnIndex.
Proof.
  intros Hwf Hh Hn Hroot Hnull Hx Hnc. unfold ExtractMatches in Hx.
  destruct (nTransactions t =? 0) eqn:E0; [by simplify_eq|]. destruct (_ <? nTransactions t) eqn:E1 in Hx; [by simplify_eq|].
  destruct (nTransactions t <? _) in Hx; [by simplify_eq|]. destruct (_ <? _)%nat in Hx; [by simplify_eq|]. bool_props.
  assert (Hn16 : 0 < zlen leaves <= 2 ^ 16) by (unfold zlen in *; split; [lia|]; etrans; [|by etrans; [exact E1|done]]; lia).
  pose proof (levels_depth leaves (shape_ne leaves Hn16)) as Hd. pose proof (depth_16 leaves Hn16 _ Hd) as Hd16.
  rewrite Hn, (tree_height_depth leaves Hn16 _ Hd) in Hx. set (st := Extraction 0 0 [] [] (fBad t)) in *.
  pose proof (extract_sound leaves Hn16 t Hn _ Hnc (levels leaves) Hd16) as Hs.
  specialize (Hs (fun x Hx => in_or_app _ _ _ (or_introl Hx)) Hwf Hh (levels leaves) O st (le_n _)). change (Z.of_nat 0) with 0 in Hs.
  assert (0 < width leaves (levels leaves)) as Hw by (destruct Hd; lia).
  specialize (Hs Hw (fun x Hx => in_or_app _ _ _ (or_intror Hx))). destruct (TraverseAndExtract t (levels leaves) 0 st) as [h st'].
  destruct (x_fBad st') eqn:Eb; [by simplify_eq|]. do 2 (destruct (negb _) in Hx; [by simplify_eq|]). simplify_eq.
  destruct (ComputeMerkleRoot_spec way8 way4 way2 H8 H4 H2 leaves (shape_ne leaves Hn16) Hwf) as (d & Hd' & Er).
  rewrite Er, (depth_unique leaves _ _ Hd' Hd) in *. destruct (Hs eq_refl eq_refl) as (c & -> & -> & Hc). cbn [x_vMatch x_vnIndex st app].
  clear -Hc. induction Hc as [|[h i] c [? ?] _ IH]; cbn; by constructor.
Qed.

End Properties.

Definition ex_txids : list bytes := [replicate 32 1; replicate 32 2; replicate 32 3].
Definition ex_choice : list bool := [false; true; true].
Definition ex_root : bytes := Eval vm_compute in (ComputeMerkleRoot None None None ex_txids).1.
Definition ex_partial : CPartialMerkleTree := Eval vm_compute in
  match CPartialMerkleTree_new ex_txids ex_choice with Ok t => t | Err _ => PartialMerkleTree 0 [] [] true end.

Lemma ex_root_ok : ComputeMerkleRoot None None None ex_txids = (ex_root, false).
Proof. vm_compute. reflexivity. Qed.

Lemma partial_tree_roundtrip_witness :
  exists t t', CPartialMerkleTree_new ex_txids ex_choice = Ok t /\ unser_partial_tree (ser_partial_tree t) = Ok (t', [])
    /\ ExtractMatches t' [] = (ex_root, [replicate 32 2; replicate 32 3], [1; 2], false).
Proof.
  destruct (partial_tree_roundtrip None None None I I I ex_txids ex_choice ex_root []) as (t & t' & H1 & H2 & H3);
    [repeat constructor|reflexivity|split; [reflexivity|vm_compute; discriminate]|exact ex_root_ok|].
  rewrite app_nil_r in H2. exists t, t'. split; [exact H1|]. split; [exact H2|exact (H3 [])].
Defined.

Lemma partial_tree_sound_witness :
  Forall2 (fun h i => 0 <= i < zlen ex_txids /\ ex_txids !! Z.to_nat i = Some h) [replicate 32 2; replicate 32 3] [1; 2].
Proof.
  apply (partial_tree_sound None None None I I I ex_partial ex_txids ex_root [replicate 32 2; replicate 32 3] [1; 2] false).
  - repeat constructor.
  - repeat constructor.
  - reflexivity.
  - rewrite ex_root_ok. reflexivity.
  - vm_compute. discriminate.
  - vm_compute. reflexivity.
  - apply collision_free_spec. vm_compute. reflexivity.
Defined.
