(* ===== verification/Base58.v ===== *)
(** Base58 (src/bitcoin/src/base58.h and base58.cpp): the conversion between bytes and
    the digits of base 58, in arrays of a size computed beforehand, and the encoding
    with a checksum.  The arrays are large enough, and decoding reads back. *)

From S2P Require Import Prelude Serialize MerkleDamgard Sha2 Hash.

(** * The code *)

Definition pszBase58 : bytes := to_bytes "123456789ABCDEFGHJKLMNPQRSTUVWXYZabcdefghijkmnopqrstuvwxyz".

Definition mapBase58 : list Z := [
  -1;-1;-1;-1;-1;-1;-1;-1; -1;-1;-1;-1;-1;-1;-1;-1;
  -1;-1;-1;-1;-1;-1;-1;-1; -1;-1;-1;-1;-1;-1;-1;-1;
  -1;-1;-1;-1;-1;-1;-1;-1; -1;-1;-1;-1;-1;-1;-1;-1;
  -1; 0; 1; 2; 3; 4; 5; 6;  7; 8;-1;-1;-1;-1;-1;-1;
  -1; 9;10;11;12;13;14;15; 16;-1;17;18;19;20;21;-1;
  22;23;24;25;26;27;28;29; 30;31;32;-1;-1;-1;-1;-1;
  -1;33;34;35;36;37;38;39; 40;41;42;43;-1;44;45;46;
  47;48;49;50;51;52;53;54; 55;56;57;-1;-1;-1;-1;-1;
  -1;-1;-1;-1;-1;-1;-1;-1; -1;-1;-1;-1;-1;-1;-1;-1;
  -1;-1;-1;-1;-1;-1;-1;-1; -1;-1;-1;-1;-1;-1;-1;-1;
  -1;-1;-1;-1;-1;-1;-1;-1; -1;-1;-1;-1;-1;-1;-1;-1;
  -1;-1;-1;-1;-1;-1;-1;-1; -1;-1;-1;-1;-1;-1;-1;-1;
  -1;-1;-1;-1;-1;-1;-1;-1; -1;-1;-1;-1;-1;-1;-1;-1;
  -1;-1;-1;-1;-1;-1;-1;-1; -1;-1;-1;-1;-1;-1;-1;-1;
  -1;-1;-1;-1;-1;-1;-1;-1; -1;-1;-1;-1;-1;-1;-1;-1;
  -1;-1;-1;-1;-1;-1;-1;-1; -1;-1;-1;-1;-1;-1;-1;-1].

Definition IsSpace (c : Z) : bool :=
  (c =? 0x20) || (c =? 0x0c) || (c =? 0x0a) || (c =? 0x0d) || (c =? 0x09) || (c =? 0x0b).

Definition ContainsNoNUL (str : bytes) : bool := forallb (fun c => negb (c =? 0)) str.

(** The loop over the digits, the last one of the array first: [digits * mul + carry]
    in base [base].  The result is the array, the carry and [i]. *)
Fixpoint carry_loop (mul base : Z) (rdigits : list Z) (carry : Z) (i length : nat) : list Z * Z * nat :=
  match rdigits with
  | [] => ([], carry, i)
  | d :: rest =>
      if negb (carry =? 0) || (i <? length)%nat then
        let carry := carry + mul * d in
        let '(rest, c, i) := carry_loop mul base rest (carry / base) (S i) length in
        (carry mod base :: rest, c, i)
      else (rdigits, carry, i)
  end.

Fixpoint drop_while (f : Z -> bool) (l : bytes) : bytes :=
  match l with
  | c :: l' => if f c then drop_while f l' else l
  | [] => []
  end.

Fixpoint count_while (f : Z -> bool) (l : bytes) : nat :=
  match l with
  | c :: l' => if f c then S (count_while f l') else O
  | [] => O
  end.

(** The characters up to a space; [b256] is held in reverse.  The result is the array,
    [length] and what follows. *)
Fixpoint decode_digits (psz : bytes) (rb256 : list Z) (length zeroes : nat) (max_ret_len : Z) : result string (option (list Z * nat * bytes)) :=
  match psz with
  | [] => Ok (Some (rb256, length, []))
  | c :: rest =>
      if IsSpace c then Ok (Some (rb256, length, psz))
      else
        let carry := nth (Z.to_nat c) mapBase58 (-1) in
        if carry =? -1 then Ok None
        else
          let '(rb256, carry, i) := carry_loop 58 256 rb256 carry 0 length in
          if negb (carry =? 0) then Err "assert(carry == 0)"
          else if max_ret_len <? Z.of_nat (i + zeroes) then Ok None
          else decode_digits rest rb256 i zeroes max_ret_len
  end.

(** On a C string, which is the list of its characters without the final NUL. *)
Definition DecodeBase58_c (psz : bytes) (max_ret_len : Z) : result string (option bytes) :=
  let psz := drop_while IsSpace psz in
  let zeroes := count_while (fun c => c =? 0x31) psz in
  if max_ret_len <? Z.of_nat zeroes then Ok None
  else
    let psz := drop_while (fun c => c =? 0x31) psz in
    let size := (length psz * 733 / 1000 + 1)%nat in
    r ← decode_digits psz (replicate size 0) 0 zeroes max_ret_len;
    match r with
    | None => Ok None
    | Some (rb256, len, psz) =>
        match drop_while IsSpace psz with
        | _ :: _ => Ok None
        | [] => Ok (Some (replicate zeroes 0 ++ rev (take len rb256)))
        end
    end.

Definition DecodeBase58 (str : bytes) (max_ret_len : Z) : result string (option bytes) :=
  if negb (ContainsNoNUL str) then Ok None else DecodeBase58_c str max_ret_len.

Fixpoint encode_digits (input : bytes) (rb58 : list Z) (length : nat) : result string (list Z * nat) :=
  match input with
  | [] => Ok (rb58, length)
  | c :: input =>
      let '(rb58, carry, i) := carry_loop 256 58 rb58 c 0 length in
      if negb (carry =? 0) then Err "assert(carry == 0)" else encode_digits input rb58 i
  end.

Definition EncodeBase58 (input : bytes) : result string bytes :=
  let zeroes := count_while (fun c => c =? 0) input in
  let input := drop_while (fun c => c =? 0) input in
  let size := (length input * 138 / 100 + 1)%nat in
  '(rb58, len) ← encode_digits input (replicate size 0) 0;
  let digits := drop_while (fun c => c =? 0) (rev (take len rb58)) in
  Ok (replicate zeroes 0x31 ++ map (fun d => nth (Z.to_nat d) pszBase58 0) digits).

Definition EncodeBase58Check (input : bytes) : result string bytes := EncodeBase58 (input ++ take 4 (Hash input)).

Definition DecodeBase58Check (str : bytes) (max_ret_len : Z) : result string (option bytes) :=
  if negb (ContainsNoNUL str) then Ok None
  else
    r ← DecodeBase58_c str (if 0x7fffffff - 4 <? max_ret_len then 0x7fffffff else max_ret_len + 4);
    match r with
    | None => Ok None
    | Some vch =>
        if zlen vch <? 4 then Ok None
        else
          let n := (length vch - 4)%nat in
          if bool_decide (take 4 (Hash (take n vch)) = drop n vch) then Ok (Some (take n vch)) else Ok None
    end.

(** * Numbers as digits *)

(** The number of digits in base [B], the lowest first. *)
Fixpoint dval (B : Z) (l : list Z) : Z := match l with [] => 0 | d :: l => d + B * dval B l end.

Definition digits (B : Z) (l : list Z) : Prop := Forall (fun d => 0 <= d < B) l.
Definition zeros (l : list Z) : Prop := Forall (fun d => d = 0) l.

Lemma dval_zeros B l : zeros l -> dval B l = 0.
Proof. induction 1 as [|d l -> _ IH]; cbn; lia. Qed.

Lemma dval_bound B l : 0 < B -> digits B l -> 0 <= dval B l < B ^ zlen l.
Proof.
  intros HB. induction 1 as [|d l Hd _ IH]; cbn [dval]; unfold zlen in *; cbn [length]; [lia|].
  rewrite Nat2Z.inj_succ, Z.pow_succ_r by lia. nia.
Qed.

Lemma dval_inj B l l' : 0 < B -> digits B l -> digits B l' -> length l = length l' -> dval B l = dval B l' -> l = l'.
Proof.
  intros HB Hl. revert l'. induction Hl as [|d l Hd _ IH]; intros [|d' l'] Hl' Hlen Hv; [done|done|done|].
  apply Forall_cons_iff in Hl' as [Hd' Hl']. cbn [dval] in Hv. cbn [length] in Hlen.
  assert (d = d') as -> by (apply (f_equal (fun z => z mod B)) in Hv; rewrite !(Z.mul_comm B), !Z.mod_add, !Z.mod_small in Hv by lia; done).
  f_equal. apply IH; [done|lia|nia].
Qed.

Lemma dval_app B l l' : dval B (l ++ l') = dval B l + B ^ zlen l * dval B l'.
Proof.
  induction l as [|d l IH]; cbn [app dval]; [unfold zlen; cbn [length Z.of_nat]; lia|]. rewrite IH. unfold zlen. cbn [length].
  rewrite Nat2Z.inj_succ, Z.pow_succ_r by lia. lia.
Qed.

Lemma zeros_digits B l : 0 < B -> zeros l -> digits B l.
Proof. intros HB. apply Forall_impl. lia. Qed.

(** One pass over the array. *)
Lemma carry_loop_spec M B l : 1 <= M -> 1 < B -> forall carry i len, 0 <= carry -> digits B l -> zeros (drop (len - i) l) ->
  let '(r, c, i') := carry_loop M B l carry i len in
  dval B r + c * B ^ zlen l = M * dval B l + carry /\ digits B r /\ length r = length l /\ 0 <= c
  /\ (i <= i' <= i + length l)%nat /\ zeros (drop (i' - i) r)
  /\ (i' = i \/ (i' <= len)%nat \/ B ^ Z.of_nat (i' - i - 1) <= M * dval B l + carry).
Proof.
  intros HM HB. induction l as [|d l IH]; intros carry i len Hc Hl Hz; cbn [carry_loop].
  { unfold zlen. cbn [dval length Z.of_nat]. rewrite drop_nil. change (B ^ 0) with 1. repeat split; try lia; try constructor. }
  apply Forall_cons_iff in Hl as [Hd Hl]. destruct (negb (carry =? 0) || (i <? len)%nat) eqn:E.
  - assert (0 <= (carry + M * d) / B) as Hc' by (apply Z.div_pos; nia).
    assert (zeros (drop (len - S i) l)) as Hz'.
    { destruct (len - i)%nat as [|k] eqn:Ek; [apply Forall_cons_iff in Hz as [_ Hz]|cbn in Hz].
      - replace (len - S i)%nat with O by lia. done.
      - replace (len - S i)%nat with k by lia. done. }
    specialize (IH _ (S i) len Hc' Hl Hz'). destruct (carry_loop M B l _ (S i) len) as [[r c] i'].
    destruct IH as (Hv & Hr & Hlen & Hc2 & Hi & Hz2 & Hmin). pose proof (Z.div_mod (carry + M * d) B ltac:(lia)) as Hdm.
    pose proof (Z.mod_pos_bound (carry + M * d) B ltac:(lia)). cbn [dval length]. unfold zlen in *. cbn [length].
    rewrite Nat2Z.inj_succ, Z.pow_succ_r by lia. split; [nia|]. split; [by constructor|]. split; [lia|]. split; [done|]. split; [lia|].
    split; [by replace (i' - i)%nat with (S (i' - S i)) by lia|]. right.
    destruct (Nat.eq_dec i' (S i)) as [->|Hne].
    + apply orb_true_iff in E as [E|E]; [|apply Nat.ltb_lt in E; left; lia]. bool_props. right. replace (S i - i - 1)%nat with O by lia.
      change (B ^ Z.of_nat 0) with 1. pose proof (dval_bound B l ltac:(lia) Hl). nia.
    + destruct Hmin as [|[Hmin|Hmin]]; [done|by left|right].
      replace (i' - i - 1)%nat with (S (i' - S i - 1)) by lia. rewrite Nat2Z.inj_succ, Z.pow_succ_r by lia. nia.
  - apply orb_false_iff in E as [E1 E2%Nat.ltb_ge]. bool_props. subst carry. replace (len - i)%nat with O in Hz by lia. rewrite Nat.sub_diag.
    rewrite drop_0 in Hz |- *. rewrite (dval_zeros B _ Hz). repeat split; try lia; try done; [by apply zeros_digits; [lia|]].
Qed.

(** The array [l] holds [V] in its lowest [len] digits, and no fewer. *)
Record holds (B : Z) (l : list Z) (len : nat) (V : Z) : Prop := {
  holds_digits : digits B l;
  holds_value : dval B l = V;
  holds_zeros : zeros (drop len l);
  holds_len : (len <= length l)%nat;
  holds_top : (0 < len)%nat -> B ^ Z.of_nat (len - 1) <= V;
}.

Lemma holds_init B n : 0 < B -> holds B (replicate n 0) 0 0.
Proof.
  intros HB. assert (zeros (replicate n 0)) by (apply Forall_replicate; done).
  constructor; [by apply zeros_digits|by apply dval_zeros|by rewrite drop_0|lia|lia].
Qed.

Lemma carry_loop_step M B l len V c : 1 <= M -> 1 < B -> 0 <= c -> holds B l len V -> M * V + c < B ^ zlen l ->
  exists l' i, carry_loop M B l c 0 len = (l', 0, i) /\ holds B l' i (M * V + c) /\ length l' = length l.
Proof.
  intros HM HB Hc [Hd Hv Hz Hl Ht] Hlt. pose proof (carry_loop_spec M B l HM HB c 0 len Hc Hd) as H. rewrite Nat.sub_0_r in H.
  specialize (H Hz). destruct (carry_loop M B l c 0 len) as [[r c'] i]. destruct H as (H1 & H2 & H3 & H4 & H5 & H6 & H7).
  rewrite Nat.sub_0_r in H6, H7. pose proof (dval_bound B r ltac:(lia) H2). rewrite Hv in *.
  assert (c' = 0) as -> by (unfold zlen in *; nia). exists r, i. split; [done|]. split; [|done]. constructor; [done|lia|done|lia|].
  intros Hi. destruct H7 as [->|[Hi'|Hi']]; [lia| |done].
  assert (B ^ Z.of_nat (i - 1) <= B ^ Z.of_nat (len - 1)) by (apply Z.pow_le_mono_r; lia). specialize (Ht ltac:(lia)). pose proof (dval_bound B l ltac:(lia) Hd). nia.
Qed.

(** The digits that are kept are the only ones. *)
Lemma holds_unique B l len V s : 1 < B -> holds B l len V -> digits B s -> dval B s = V ->
  (s <> [] -> B ^ Z.of_nat (length s - 1) <= V) -> take len l = s.
Proof.
  intros HB [Hd Hv Hz Hl Ht] Hs Hvs Hts. assert (digits B (take len l)) as Hdt by (by apply Forall_take).
  assert (dval B (take len l) = V) as Hvt.
  { rewrite <- Hv. rewrite <- (take_drop len l) at 2. rewrite dval_app, (dval_zeros B _ Hz). lia. }
  apply (dval_inj B); [lia|done|done| |congruence]. rewrite length_take, Nat.min_l by done.
  pose proof (dval_bound B _ ltac:(lia) Hdt) as B1. pose proof (dval_bound B _ ltac:(lia) Hs) as B2. rewrite Hvt in B1. rewrite Hvs in B2.
  unfold zlen in *. rewrite length_take, Nat.min_l in B1 by done. apply Nat.le_antisymm; apply Nat.nlt_ge; intros Hlt.
  - specialize (Ht ltac:(lia)). assert (B ^ Z.of_nat (length s) <= B ^ Z.of_nat (len - 1)) by (apply Z.pow_le_mono_r; lia). lia.
  - assert (s <> []) as Hne by (intros ->; cbn in Hlt; lia). specialize (Hts Hne).
    assert (B ^ Z.of_nat len <= B ^ Z.of_nat (length s - 1)) by (apply Z.pow_le_mono_r; lia). lia.
Qed.

(** The sizes of the arrays are enough. *)
Lemma size_enough a b p q n : 0 < a -> 0 < b -> (0 < q)%nat -> a ^ Z.of_nat q <= b ^ Z.of_nat p ->
  a ^ Z.of_nat n <= b ^ Z.of_nat (n * p / q + 1).
Proof.
  intros Ha Hb Hq H. apply (Z.pow_le_mono_l_iff _ _ (Z.of_nat q)); [apply Z.pow_nonneg; lia|apply Z.pow_nonneg; lia|lia|].
  rewrite <- !Z.pow_mul_r by lia. rewrite (Z.mul_comm (Z.of_nat n)), Z.pow_mul_r by lia.
  transitivity ((b ^ Z.of_nat p) ^ Z.of_nat n); [apply Z.pow_le_mono_l; split; [apply Z.pow_nonneg; lia|done]|].
  rewrite <- Z.pow_mul_r by lia. apply Z.pow_le_mono_r; [done|].
  pose proof (Nat.div_mod (n * p) q ltac:(lia)). pose proof (Nat.mod_upper_bound (n * p) q ltac:(lia)). nia.
Qed.

(** * The loops *)

Abbreviation number B V l := (foldl (fun v c => B * v + c) V l).

Lemma number_dval B l : forall V, number B V l = V * B ^ zlen l + dval B (rev l).
Proof.
  induction l as [|c l IH]; intros V; cbn [foldl rev]; [unfold zlen; cbn [length Z.of_nat dval]; lia|].
  rewrite IH, dval_app. unfold zlen. rewrite length_rev. cbn [length dval]. rewrite Nat2Z.inj_succ, Z.pow_succ_r by lia. lia.
Qed.

Lemma number_mono B l : 1 <= B -> Forall (fun c => 0 <= c) l -> forall V, 0 <= V -> V <= number B V l.
Proof.
  intros HB. induction 1 as [|c l Hc _ IH]; intros V HV; cbn [foldl]; [lia|]. specialize (IH (B * V + c) ltac:(nia)). nia.
Qed.

Lemma encode_digits_spec input : Forall (fun c => 0 <= c < 256) input -> forall l len V, 0 <= V -> holds 58 l len V ->
  (V + 1) * 256 ^ zlen input <= 58 ^ zlen l ->
  exists l' i, encode_digits input l len = Ok (l', i) /\ holds 58 l' i (number 256 V input).
Proof.
  induction 1 as [|c input Hc _ IH]; intros l len V HV Hl Hb; cbn [encode_digits foldl]; [by eauto|].
  unfold zlen in Hb. cbn [length] in Hb. rewrite Nat2Z.inj_succ, Z.pow_succ_r in Hb by lia.
  assert (0 < 256 ^ Z.of_nat (length input)) by lia.
  destruct (carry_loop_step 256 58 l len V c ltac:(lia) ltac:(lia) ltac:(lia) Hl) as (l' & i & -> & Hl' & Hlen); [unfold zlen; nia|].
  apply IH; [nia|done|]. unfold zlen. rewrite Hlen. nia.
Qed.

Definition b58_digit (c : Z) : Z := nth (Z.to_nat c) mapBase58 (-1).

#[global] Arguments b58_digit : simpl never.

Lemma decode_digits_spec cs : Forall (fun c => IsSpace c = false /\ 0 <= b58_digit c < 58) cs ->
  forall l len V zeroes max L, 0 <= V -> holds 256 l len V -> (V + 1) * 58 ^ zlen cs <= 256 ^ zlen l ->
  number 58 V (map b58_digit cs) < 256 ^ Z.of_nat L -> Z.of_nat (L + zeroes) <= max ->
  exists l' i, decode_digits cs l len zeroes max = Ok (Some (l', i, [])) /\ holds 256 l' i (number 58 V (map b58_digit cs)).
Proof.
  induction 1 as [|c cs [Hs Hc] Hcs IH]; intros l len V zeroes max L HV Hl Hb HL Hmax; cbn [decode_digits map foldl] in *; [by eauto|].
  unfold zlen in Hb. cbn [length] in Hb. rewrite Nat2Z.inj_succ, Z.pow_succ_r in Hb by lia. assert (0 < 58 ^ Z.of_nat (length cs)) by lia.
  rewrite Hs. fold (b58_digit c). rewrite (proj2 (Z.eqb_neq _ _)) by lia.
  destruct (carry_loop_step 58 256 l len V (b58_digit c) ltac:(lia) ltac:(lia) ltac:(lia) Hl) as (l' & i & -> & Hl' & Hlen); [unfold zlen; nia|].
  assert (Forall (fun c => 0 <= c) (map b58_digit cs)) as Hpos by (apply Forall_map; eapply Forall_impl; [|exact Hcs]; cbn; lia).
  pose proof (number_mono 58 _ ltac:(lia) Hpos (58 * V + b58_digit c) ltac:(nia)) as Hmono.
  assert (i <= L)%nat as Hi.
  { apply Nat.nlt_ge. intros Hlt. pose proof (holds_top _ _ _ _ Hl' ltac:(lia)) as Htop.
    assert (256 ^ Z.of_nat L <= 256 ^ Z.of_nat (i - 1)) by (apply Z.pow_le_mono_r; lia). lia. }
  cbn [negb Z.eqb]. rewrite (proj2 (Z.ltb_ge _ _)) by lia. apply (IH l' i _ zeroes max L); [nia|done| |done|done]. unfold zlen. rewrite Hlen. nia.
Qed.

(** * Leading zeroes *)

Lemma split_while f l : exists rest, l = take (count_while f l) l ++ rest /\ drop_while f l = rest
  /\ Forall (fun c => f c = true) (take (count_while f l) l) /\ match rest with c :: _ => f c = false | [] => True end.
Proof.
  induction l as [|c l IH]; [by exists []|]. cbn [count_while drop_while]. destruct (f c) eqn:E.
  - destruct IH as (rest & H1 & H2 & H3 & H4). exists rest. cbn [take]. split; [by rewrite <- app_comm_cons, <- H1|]. split; [done|]. split; [by constructor|done].
  - exists (c :: l). repeat split; done.
Qed.

Lemma eq_replicate (x : Z) l : Forall (fun c => (c =? x) = true) l -> l = replicate (length l) x.
Proof. induction 1 as [|c l Hc _ IH]; [done|]. apply Z.eqb_eq in Hc as ->. cbn. by f_equal. Qed.

Lemma while_app f n x rest : f x = true -> match rest with c :: _ => f c = false | [] => True end ->
  count_while f (replicate n x ++ rest) = n /\ drop_while f (replicate n x ++ rest) = rest.
Proof.
  intros Hx Hr. induction n as [|n [IH1 IH2]]; cbn; [by destruct rest as [|c rest]; cbn; [|rewrite Hr]|]. rewrite Hx. by rewrite IH1, IH2.
Qed.

(** The number of a list that does not start with 0 has as many digits as the list. *)
Lemma number_top B l : 1 < B -> digits B l -> match l with c :: _ => (c =? 0) = false | [] => True end ->
  l <> [] -> B ^ Z.of_nat (length l - 1) <= number B 0 l.
Proof.
  intros HB Hl Hc Hne. destruct l as [|c l]; [done|]. bool_props. apply Forall_cons_iff in Hl as [Hc' Hl]. rewrite number_dval. cbn [rev]. rewrite dval_app.
  unfold zlen. rewrite length_rev. cbn [length dval]. rewrite Nat.sub_1_r. cbn [Nat.pred].
  pose proof (dval_bound B (rev l) ltac:(lia) ltac:(by apply Forall_rev)). assert (0 < B ^ Z.of_nat (length l)) by lia. nia.
Qed.

(** * The alphabet *)

Definition b58_char (d : Z) : Z := nth (Z.to_nat d) pszBase58 0.

#[global] Arguments b58_char : simpl never.

Lemma b58_char_digit d : 0 <= d < 58 ->
  b58_digit (b58_char d) = d /\ IsSpace (b58_char d) = false /\ 0 < b58_char d < 256 /\ (b58_char d =? 0x31) = (d =? 0).
Proof.
  intros Hd. assert (forallb (fun k => let d := Z.of_nat k in (b58_digit (b58_char d) =? d) && negb (IsSpace (b58_char d))
    && (0 <? b58_char d) && (b58_char d <? 256) && Bool.eqb (b58_char d =? 0x31) (d =? 0)) (seq 0 58) = true) as H by (vm_compute; reflexivity).
  rewrite forallb_forall in H. specialize (H (Z.to_nat d) ltac:(apply in_seq; lia)). cbv zeta in H. rewrite Z2Nat.id in H by lia.
  apply andb_prop in H as [H H5%Bool.eqb_prop]. bool_props. done.
Qed.

(** * Reading back *)

Lemma EncodeBase58_spec z body : digits 256 body -> match body with c :: _ => (c =? 0) = false | [] => True end ->
  exists ds, EncodeBase58 (replicate z 0 ++ body) = Ok (replicate z 0x31 ++ map b58_char ds)
    /\ digits 58 ds /\ number 58 0 ds = number 256 0 body /\ match ds with c :: _ => (c =? 0) = false | [] => True end.
Proof.
  intros Hb Hh. unfold EncodeBase58. destruct (while_app (fun c => c =? 0) z 0 body eq_refl Hh) as [-> ->].
  set (size := (length body * 138 / 100 + 1)%nat).
  destruct (encode_digits_spec body Hb (replicate size 0) 0 0 ltac:(lia) (holds_init 58 size ltac:(lia))) as (l & i & -> & Hl).
  { unfold zlen. rewrite length_replicate. rewrite Z.mul_1_l. apply size_enough; [lia..|vm_compute; discriminate]. }
  cbn [mbind result_bind]. destruct (split_while (fun c => c =? 0) (rev (take i l))) as (ds & E1 & -> & E3 & E4). exists ds.
  remember (take (count_while _ _) _) as zz.
  split; [done|]. pose proof (holds_digits _ _ _ _ Hl) as Hd. assert (digits 58 (rev (take i l))) as Hdr by (by apply Forall_rev, Forall_take).
  rewrite E1 in Hdr. apply Forall_app in Hdr as [_ Hds]. split; [done|]. split; [|done].
  rewrite number_dval, Z.mul_0_l, Z.add_0_l. rewrite <- (holds_value _ _ _ _ Hl). rewrite <- (take_drop i l), dval_app, (dval_zeros _ _ (holds_zeros _ _ _ _ Hl)), Z.mul_0_r, Z.add_0_r.
  rewrite <- (rev_involutive (take i l)), E1, rev_app_distr, dval_app, (dval_zeros _ (rev zz)); [lia|].
  apply Forall_rev. eapply Forall_impl; [|exact E3]. cbn. intros a Ha. by apply Z.eqb_eq.
Qed.

Lemma DecodeBase58_spec z ds body max : digits 58 ds -> match ds with c :: _ => (c =? 0) = false | [] => True end ->
  digits 256 body -> match body with c :: _ => (c =? 0) = false | [] => True end ->
  number 58 0 ds = number 256 0 body -> Z.of_nat (z + length body) <= max ->
  DecodeBase58_c (replicate z 0x31 ++ map b58_char ds) max = Ok (Some (replicate z 0 ++ body)).
Proof.
  intros Hd Hh Hb Hbh Hv Hmax. unfold DecodeBase58_c.
  assert (Forall (fun c => IsSpace c = false /\ 0 <= b58_digit c < 58) (map b58_char ds)) as Hcs.
  { apply Forall_map. eapply Forall_impl; [|exact Hd]. cbn. intros d H. destruct (b58_char_digit d H) as (-> & -> & _). done. }
  assert (map b58_digit (map b58_char ds) = ds) as Eds.
  { rewrite map_map. clear -Hd. induction Hd as [|d ds H _ IH]; [done|]. cbn. destruct (b58_char_digit d H) as [-> _]. by rewrite IH. }
  assert (drop_while IsSpace (replicate z 0x31 ++ map b58_char ds) = replicate z 0x31 ++ map b58_char ds) as ->.
  { destruct z; [|done]. destruct ds as [|d ds]; [done|]. cbn. apply Forall_cons_iff in Hcs as [[-> _] _]. done. }
  destruct (while_app (fun c => c =? 0x31) z 0x31 (map b58_char ds) eq_refl) as [-> ->].
  { destruct ds as [|d ds]; [done|]. cbn. apply Forall_cons_iff in Hd as [Hd _]. by destruct (b58_char_digit d Hd) as (_ & _ & _ & ->). }
  rewrite (proj2 (Z.ltb_ge _ _)) by lia. set (size := (length (map b58_char ds) * 733 / 1000 + 1)%nat).
  assert (number 58 0 ds < 256 ^ Z.of_nat (length body)) as HL.
  { rewrite Hv, number_dval. pose proof (dval_bound 256 (rev body) ltac:(lia) ltac:(by apply Forall_rev)) as H. unfold zlen in H. rewrite length_rev in H. lia. }
  destruct (decode_digits_spec _ Hcs (replicate size 0) 0 0 z max (length body) ltac:(lia) (holds_init 256 size ltac:(lia))) as (l & i & -> & Hl);
    [|by rewrite Eds|lia|].
  { unfold zlen. rewrite length_replicate, Z.mul_1_l. apply size_enough; [lia..|vm_compute; discriminate]. }
  cbn [mbind result_bind drop_while]. rewrite Eds in Hl. rewrite (holds_unique 256 l i _ (rev body) ltac:(lia) Hl); [by rewrite rev_involutive|by apply Forall_rev| |].
  - by rewrite Hv, number_dval, Z.mul_0_l.
  - intros Hne. rewrite length_rev, Hv. apply number_top; [lia|done|done|]. intros ->. done.
Qed.

Lemma encoded_no_nul z ds : digits 58 ds -> ContainsNoNUL (replicate z 0x31 ++ map b58_char ds) = true.
Proof.
  intros Hd. unfold ContainsNoNUL. rewrite forallb_app. apply andb_true_iff. split; [by induction z|].
  apply forallb_forall. intros c Hc. apply in_map_iff in Hc as (d & <- & Hin). pose proof (proj1 (Forall_forall _ _) Hd d Hin) as H.
  destruct (b58_char_digit d H) as (_ & _ & Hpos & _). rewrite (proj2 (Z.eqb_neq _ _)) by lia. done.
Qed.

Lemma base58_read b max : wf_bytes b -> zlen b <= max ->
  exists s, EncodeBase58 b = Ok s /\ ContainsNoNUL s = true /\ DecodeBase58_c s max = Ok (Some b).
Proof.
  intros Hb Hmax. destruct (split_while (fun c => c =? 0) b) as (body & E & _ & Hz & Hh). apply eq_replicate in Hz.
  rewrite Hz in E. set (z := length _) in E. assert (digits 256 body) as Hbody.
  { eapply Forall_impl; [|rewrite E in Hb; apply wf_bytes_app in Hb; apply Hb]. cbn. unfold is_uint. lia. }
  rewrite E in Hmax |- *. destruct (EncodeBase58_spec z body Hbody Hh) as (ds & -> & Hd & Hv & Hdh). eexists. split; [done|].
  split; [by apply encoded_no_nul|]. apply DecodeBase58_spec; try done. unfold zlen in Hmax. rewrite length_app, length_replicate in Hmax. lia.
Qed.

Lemma base58check_read b max : wf_bytes b -> zlen b <= max < 2 ^ 31 - 4 ->
  exists s, EncodeBase58Check b = Ok s /\ DecodeBase58Check s max = Ok (Some b).
Proof.
  intros Hb Hmax. assert (length (take 4 (Hash b)) = 4%nat) as H4 by (rewrite length_take, length_Hash; lia).
  destruct (base58_read (b ++ take 4 (Hash b)) (max + 4)) as (s & H1 & H2 & H3).
  - apply wf_bytes_app. split; [done|]. apply Forall_take, Hash_wf.
  - unfold zlen. rewrite length_app, H4. unfold zlen in Hmax. lia.
  - exists s. split; [done|]. unfold DecodeBase58Check. rewrite H2. cbn [negb]. rewrite (proj2 (Z.ltb_ge _ _)) by lia. rewrite H3. cbn [mbind result_bind].
    unfold zlen. rewrite length_app, H4, (proj2 (Z.ltb_ge _ _)) by lia. rewrite Nat.add_sub, take_app_length, drop_app_length. by rewrite bool_decide_true.
Qed.

(** Base58 is read back.  Every byte string is encoded without a failed assertion, so
    that the precomputed size of the array is always enough, and decoding gives the
    bytes again if they are at most as many as allowed, with and without checksum. *)
Theorem base58_roundtrip b max : wf_bytes b -> zlen b <= max < 2 ^ 31 - 4 ->
  (exists s, EncodeBase58 b = Ok s /\ DecodeBase58 s max = Ok (Some b))
  /\ exists s, EncodeBase58Check b = Ok s /\ DecodeBase58Check s max = Ok (Some b).
Proof.
  intros Hb Hmax. split; [|by apply base58check_read].
  destruct (base58_read b max Hb ltac:(lia)) as (s & H1 & H2 & H3). exists s. split; [done|]. unfold DecodeBase58. by rewrite H2.
Qed.

Lemma base58_roundtrip_witness :
  exists s, EncodeBase58Check (0 :: replicate 20 7) = Ok s /\ DecodeBase58Check s 21 = Ok (Some (0 :: replicate 20 7)).
Proof.
  refine (proj2 (base58_roundtrip (0 :: replicate 20 7) 21 _ _)); [by_decide|split; [discriminate|reflexivity]].
Defined.
