(* ===== verification/Script.v ===== *)
(** Scripts (src/bitcoin/src/script/script.h and script.cpp): opcodes, the
    parsing of a script into operations, data pushes, script numbers, and the
    predicates on scripts. *)

From S2P Require Import Prelude Serialize MerkleDamgard Sha2 Hash.

(** * Opcodes

    An opcode is a byte; the enumeration names most of them.  Values without a
    name (direct pushes of 1 to 75 bytes, and the unassigned ones) are handled by
    ranges, as in the source. *)

Inductive opcodetype :=
| OP_0 | OP_PUSHDATA1 | OP_PUSHDATA2 | OP_PUSHDATA4 | OP_1NEGATE | OP_RESERVED | OP_1 | OP_2
| OP_3 | OP_4 | OP_5 | OP_6 | OP_7 | OP_8 | OP_9 | OP_10 | OP_11 | OP_12 | OP_13 | OP_14 | OP_15
| OP_16 | OP_NOP | OP_VER | OP_IF | OP_NOTIF | OP_VERIF | OP_VERNOTIF | OP_ELSE | OP_ENDIF
| OP_VERIFY | OP_RETURN | OP_TOALTSTACK | OP_FROMALTSTACK | OP_2DROP | OP_2DUP | OP_3DUP
| OP_2OVER | OP_2ROT | OP_2SWAP | OP_IFDUP | OP_DEPTH | OP_DROP | OP_DUP | OP_NIP | OP_OVER
| OP_PICK | OP_ROLL | OP_ROT | OP_SWAP | OP_TUCK | OP_CAT | OP_SUBSTR | OP_LEFT | OP_RIGHT
| OP_SIZE | OP_INVERT | OP_AND | OP_OR | OP_XOR | OP_EQUAL | OP_EQUALVERIFY | OP_RESERVED1
| OP_RESERVED2 | OP_1ADD | OP_1SUB | OP_2MUL | OP_2DIV | OP_NEGATE | OP_ABS | OP_NOT
| OP_0NOTEQUAL | OP_ADD | OP_SUB | OP_MUL | OP_DIV | OP_MOD | OP_LSHIFT | OP_RSHIFT | OP_BOOLAND
| OP_BOOLOR | OP_NUMEQUAL | OP_NUMEQUALVERIFY | OP_NUMNOTEQUAL | OP_LESSTHAN | OP_GREATERTHAN
| OP_LESSTHANOREQUAL | OP_GREATERTHANOREQUAL | OP_MIN | OP_MAX | OP_WITHIN | OP_RIPEMD160
| OP_SHA1 | OP_SHA256 | OP_HASH160 | OP_HASH256 | OP_CODESEPARATOR | OP_CHECKSIG
| OP_CHECKSIGVERIFY | OP_CHECKMULTISIG | OP_CHECKMULTISIGVERIFY | OP_NOP1
| OP_CHECKLOCKTIMEVERIFY | OP_CHECKSEQUENCEVERIFY | OP_NOP4 | OP_NOP5 | OP_NOP6 | OP_NOP7
| OP_NOP8 | OP_NOP9 | OP_NOP10 | OP_CHECKSIGADD | OP_INVALIDOPCODE.

#[export] Instance opcodetype_eq_dec : EqDecision opcodetype.
Proof. solve_decision. Defined.

Definition op (c : opcodetype) : Z :=
  match c with
  | OP_0 => 0x00 | OP_PUSHDATA1 => 0x4c | OP_PUSHDATA2 => 0x4d | OP_PUSHDATA4 => 0x4e
  | OP_1NEGATE => 0x4f | OP_RESERVED => 0x50 | OP_1 => 0x51 | OP_2 => 0x52 | OP_3 => 0x53
  | OP_4 => 0x54 | OP_5 => 0x55 | OP_6 => 0x56 | OP_7 => 0x57 | OP_8 => 0x58 | OP_9 => 0x59
  | OP_10 => 0x5a | OP_11 => 0x5b | OP_12 => 0x5c | OP_13 => 0x5d | OP_14 => 0x5e | OP_15 => 0x5f
  | OP_16 => 0x60 | OP_NOP => 0x61 | OP_VER => 0x62 | OP_IF => 0x63 | OP_NOTIF => 0x64
  | OP_VERIF => 0x65 | OP_VERNOTIF => 0x66 | OP_ELSE => 0x67 | OP_ENDIF => 0x68
  | OP_VERIFY => 0x69 | OP_RETURN => 0x6a | OP_TOALTSTACK => 0x6b | OP_FROMALTSTACK => 0x6c
  | OP_2DROP => 0x6d | OP_2DUP => 0x6e | OP_3DUP => 0x6f | OP_2OVER => 0x70 | OP_2ROT => 0x71
  | OP_2SWAP => 0x72 | OP_IFDUP => 0x73 | OP_DEPTH => 0x74 | OP_DROP => 0x75 | OP_DUP => 0x76
  | OP_NIP => 0x77 | OP_OVER => 0x78 | OP_PICK => 0x79 | OP_ROLL => 0x7a | OP_ROT => 0x7b
  | OP_SWAP => 0x7c | OP_TUCK => 0x7d | OP_CAT => 0x7e | OP_SUBSTR => 0x7f | OP_LEFT => 0x80
  | OP_RIGHT => 0x81 | OP_SIZE => 0x82 | OP_INVERT => 0x83 | OP_AND => 0x84 | OP_OR => 0x85
  | OP_XOR => 0x86 | OP_EQUAL => 0x87 | OP_EQUALVERIFY => 0x88 | OP_RESERVED1 => 0x89
  | OP_RESERVED2 => 0x8a | OP_1ADD => 0x8b | OP_1SUB => 0x8c | OP_2MUL => 0x8d | OP_2DIV => 0x8e
  | OP_NEGATE => 0x8f | OP_ABS => 0x90 | OP_NOT => 0x91 | OP_0NOTEQUAL => 0x92 | OP_ADD => 0x93
  | OP_SUB => 0x94 | OP_MUL => 0x95 | OP_DIV => 0x96 | OP_MOD => 0x97 | OP_LSHIFT => 0x98
  | OP_RSHIFT => 0x99 | OP_BOOLAND => 0x9a | OP_BOOLOR => 0x9b | OP_NUMEQUAL => 0x9c
  | OP_NUMEQUALVERIFY => 0x9d | OP_NUMNOTEQUAL => 0x9e | OP_LESSTHAN => 0x9f
  | OP_GREATERTHAN => 0xa0 | OP_LESSTHANOREQUAL => 0xa1 | OP_GREATERTHANOREQUAL => 0xa2
  | OP_MIN => 0xa3 | OP_MAX => 0xa4 | OP_WITHIN => 0xa5 | OP_RIPEMD160 => 0xa6 | OP_SHA1 => 0xa7
  | OP_SHA256 => 0xa8 | OP_HASH160 => 0xa9 | OP_HASH256 => 0xaa | OP_CODESEPARATOR => 0xab
  | OP_CHECKSIG => 0xac | OP_CHECKSIGVERIFY => 0xad | OP_CHECKMULTISIG => 0xae
  | OP_CHECKMULTISIGVERIFY => 0xaf | OP_NOP1 => 0xb0 | OP_CHECKLOCKTIMEVERIFY => 0xb1
  | OP_CHECKSEQUENCEVERIFY => 0xb2 | OP_NOP4 => 0xb3 | OP_NOP5 => 0xb4 | OP_NOP6 => 0xb5
  | OP_NOP7 => 0xb6 | OP_NOP8 => 0xb7 | OP_NOP9 => 0xb8 | OP_NOP10 => 0xb9
  | OP_CHECKSIGADD => 0xba | OP_INVALIDOPCODE => 0xff
  end.

Definition all_opcodes : list opcodetype :=
  [OP_0; OP_PUSHDATA1; OP_PUSHDATA2; OP_PUSHDATA4; OP_1NEGATE; OP_RESERVED; OP_1; OP_2; OP_3;
   OP_4; OP_5; OP_6; OP_7; OP_8; OP_9; OP_10; OP_11; OP_12; OP_13; OP_14; OP_15; OP_16; OP_NOP;
   OP_VER; OP_IF; OP_NOTIF; OP_VERIF; OP_VERNOTIF; OP_ELSE; OP_ENDIF; OP_VERIFY; OP_RETURN;
   OP_TOALTSTACK; OP_FROMALTSTACK; OP_2DROP; OP_2DUP; OP_3DUP; OP_2OVER; OP_2ROT; OP_2SWAP;
   OP_IFDUP; OP_DEPTH; OP_DROP; OP_DUP; OP_NIP; OP_OVER; OP_PICK; OP_ROLL; OP_ROT; OP_SWAP;
   OP_TUCK; OP_CAT; OP_SUBSTR; OP_LEFT; OP_RIGHT; OP_SIZE; OP_INVERT; OP_AND; OP_OR; OP_XOR;
   OP_EQUAL; OP_EQUALVERIFY; OP_RESERVED1; OP_RESERVED2; OP_1ADD; OP_1SUB; OP_2MUL; OP_2DIV;
   OP_NEGATE; OP_ABS; OP_NOT; OP_0NOTEQUAL; OP_ADD; OP_SUB; OP_MUL; OP_DIV; OP_MOD; OP_LSHIFT;
   OP_RSHIFT; OP_BOOLAND; OP_BOOLOR; OP_NUMEQUAL; OP_NUMEQUALVERIFY; OP_NUMNOTEQUAL; OP_LESSTHAN;
   OP_GREATERTHAN; OP_LESSTHANOREQUAL; OP_GREATERTHANOREQUAL; OP_MIN; OP_MAX; OP_WITHIN;
   OP_RIPEMD160; OP_SHA1; OP_SHA256; OP_HASH160; OP_HASH256; OP_CODESEPARATOR; OP_CHECKSIG;
   OP_CHECKSIGVERIFY; OP_CHECKMULTISIG; OP_CHECKMULTISIGVERIFY; OP_NOP1; OP_CHECKLOCKTIMEVERIFY;
   OP_CHECKSEQUENCEVERIFY; OP_NOP4; OP_NOP5; OP_NOP6; OP_NOP7; OP_NOP8; OP_NOP9; OP_NOP10;
   OP_CHECKSIGADD; OP_INVALIDOPCODE].

(** The name of a byte, which [switch (opcode)] dispatches on. *)
Definition opcode_name (b : Z) : option opcodetype := List.find (fun c => op c =? b) all_opcodes.

Definition MAX_OPCODE : Z := op OP_NOP10.

(** * Limits *)

Definition MAX_SCRIPT_ELEMENT_SIZE : Z := 520.
Definition MAX_OPS_PER_SCRIPT : Z := 201.
Definition MAX_PUBKEYS_PER_MULTISIG : Z := 20.
Definition MAX_SCRIPT_SIZE : Z := 10000.
Definition MAX_STACK_SIZE : Z := 1000.
Definition LOCKTIME_THRESHOLD : Z := 500000000.
Definition ANNEX_TAG : Z := 0x50.
Definition VALIDATION_WEIGHT_PER_SIGOP_PASSED : Z := 50.
Definition VALIDATION_WEIGHT_OFFSET : Z := 50.

(** * Parsing

    An iterator into a script is the list of the bytes from it to the end. *)

(** The length of the push an opcode up to [OP_PUSHDATA4] announces, and the
    iterator after it; [None] where the length itself is cut off. *)
Definition push_size (opcode : Z) (pc : bytes) : option Z * bytes :=
  if opcode <? op OP_PUSHDATA1 then (Some opcode, pc)
  else if opcode =? op OP_PUSHDATA1 then
    match pc with [] => (None, pc) | n :: pc => (Some n, pc) end
  else if opcode =? op OP_PUSHDATA2 then
    if zlen pc <? 2 then (None, pc) else (Some (le_val (take 2 pc)), drop 2 pc)
  else if opcode =? op OP_PUSHDATA4 then
    if zlen pc <? 4 then (None, pc) else (Some (le_val (take 4 pc)), drop 4 pc)
  else (Some 0, pc).

(** [GetScriptOp]: whether it succeeded, [opcodeRet], [pvchRet] and the iterator,
    which has moved even when it failed. *)
Definition GetScriptOp (pc : bytes) : bool * Z * bytes * bytes :=
  match pc with
  | [] => (false, op OP_INVALIDOPCODE, [], [])
  | opcode :: pc =>
      if opcode <=? op OP_PUSHDATA4 then
        match push_size opcode pc with
        | (None, pc) => (false, op OP_INVALIDOPCODE, [], pc)
        | (Some nSize, pc) =>
            if zlen pc <? nSize then (false, op OP_INVALIDOPCODE, [], pc)
            else (true, opcode, take (Z.to_nat nSize) pc, drop (Z.to_nat nSize) pc)
        end
      else (true, opcode, [], pc)
  end.

Definition DecodeOP_N (opcode : Z) : result string Z :=
  if opcode =? op OP_0 then Ok 0
  else if (op OP_1 <=? opcode) && (opcode <=? op OP_16) then Ok (opcode - (op OP_1 - 1))
  else Err "assertion in DecodeOP_N".

Definition EncodeOP_N (n : Z) : result string Z :=
  if (0 <=? n) && (n <=? 16) then Ok (if n =? 0 then op OP_0 else op OP_1 + n - 1)
  else Err "assertion in EncodeOP_N".

(** ** Writing *)

Definition AppendDataSize (size : Z) : bytes :=
  if size <? op OP_PUSHDATA1 then [u8 size]
  else if size <=? 0xff then [op OP_PUSHDATA1; u8 size]
  else if size <=? 0xffff then op OP_PUSHDATA2 :: le_bytes 2 size
  else op OP_PUSHDATA4 :: le_bytes 4 size.

(** [script << b] for bytes [b], and for an opcode. *)
Definition push_data (script b : bytes) : bytes := script ++ AppendDataSize (u32 (zlen b)) ++ b.

Definition push_op (script : bytes) (opcode : Z) : result string bytes :=
  if (opcode <? 0) || (0xff <? opcode) then Err "CScript::operator<<(): invalid opcode"
  else Ok (script ++ [opcode]).

(** * Script numbers *)

Fixpoint serialize_loop (fuel : nat) (absvalue : Z) : bytes :=
  match fuel with
  | O => []
  | S fuel =>
      if absvalue =? 0 then []
      else Z.land absvalue 0xff :: serialize_loop fuel (Z.shiftr absvalue 8)
  end.

Definition back (v : bytes) : Z := List.last v 0.

(** [CScriptNum::serialize]; a 64-bit magnitude has at most eight bytes. *)
Definition CScriptNum_serialize (value : Z) : bytes :=
  if value =? 0 then []
  else
    let neg := value <? 0 in
    let absvalue := if neg then u64 ((2 ^ 64 - 1 - u64 value) + 1) else u64 value in
    let result := serialize_loop 8 absvalue in
    if negb (Z.land (back result) 0x80 =? 0) then result ++ [if neg then 0x80 else 0]
    else if neg then removelast result ++ [Z.lor (back result) 0x80]
    else result.

Fixpoint set_vch_loop (i : Z) (vch : bytes) (acc : Z) : Z :=
  match vch with
  | [] => acc
  | b :: vch => set_vch_loop (i + 1) vch (Z.lor acc (Z.shiftl b (8 * i)))
  end.

Definition CScriptNum_set_vch (vch : bytes) : Z :=
  match vch with
  | [] => 0
  | _ =>
      let value := set_vch_loop 0 vch 0 in
      if negb (Z.land (back vch) 0x80 =? 0)
      then - Z.land value (2 ^ 64 - 1 - Z.shiftl 0x80 (8 * (zlen vch - 1)))
      else value
  end.

(** [CScriptNum(vch, fRequireMinimal, nMaxNumSize)] *)
Definition CScriptNum_new (vch : bytes) (fRequireMinimal : bool) (nMaxNumSize : Z) : result string Z :=
  if nMaxNumSize <? zlen vch then Err "script number overflow"
  else if fRequireMinimal && (0 <? zlen vch) && (Z.land (back vch) 0x7f =? 0)
          && ((zlen vch <=? 1) || (Z.land (nth (length vch - 2) vch 0) 0x80 =? 0))
  then Err "non-minimally encoded script number"
  else Ok (CScriptNum_set_vch vch).

Definition nDefaultMaxNumSize : Z := 4.

Definition getint (m_value : Z) : Z :=
  if 2 ^ 31 - 1 <? m_value then 2 ^ 31 - 1
  else if m_value <? - 2 ^ 31 then - 2 ^ 31
  else m_value.

(** The operators that assert that their result is representable. *)
Definition CScriptNum_neg (m_value : Z) : result string Z :=
  if m_value =? - 2 ^ 63 then Err "assertion in CScriptNum::operator-" else Ok (- m_value).

Definition CScriptNum_add_assign (m_value rhs : Z) : result string Z :=
  if (rhs =? 0) || ((0 <? rhs) && (m_value <=? 2 ^ 63 - 1 - rhs)) || ((rhs <? 0) && (- 2 ^ 63 - rhs <=? m_value))
  then Ok (m_value + rhs) else Err "assertion in CScriptNum::operator+=".

Definition CScriptNum_sub_assign (m_value rhs : Z) : result string Z :=
  if (rhs =? 0) || ((0 <? rhs) && (- 2 ^ 63 + rhs <=? m_value)) || ((rhs <? 0) && (m_value <=? 2 ^ 63 - 1 + rhs))
  then Ok (m_value - rhs) else Err "assertion in CScriptNum::operator-=".

(** [push_int64] *)
Definition push_int64 (script : bytes) (n : Z) : bytes :=
  if (n =? -1) || ((1 <=? n) && (n <=? 16)) then script ++ [n + (op OP_1 - 1)]
  else if n =? 0 then script ++ [op OP_0]
  else push_data script (CScriptNum_serialize n).

(** * Predicates *)

Definition byte_at (s : bytes) (i : nat) : Z := nth i s 0.

Definition IsPayToAnchor (s : bytes) : bool :=
  (zlen s =? 4) && (byte_at s 0 =? op OP_1) && (byte_at s 1 =? 0x02) && (byte_at s 2 =? 0x4e)
  && (byte_at s 3 =? 0x73).

Definition IsPayToAnchor_program (version : Z) (program : bytes) : bool :=
  (version =? 1) && (zlen program =? 2) && (byte_at program 0 =? 0x4e) && (byte_at program 1 =? 0x73).

Definition IsPayToScriptHash (s : bytes) : bool :=
  (zlen s =? 23) && (byte_at s 0 =? op OP_HASH160) && (byte_at s 1 =? 0x14) && (byte_at s 22 =? op OP_EQUAL).

Definition IsPayToWitnessScriptHash (s : bytes) : bool :=
  (zlen s =? 34) && (byte_at s 0 =? op OP_0) && (byte_at s 1 =? 0x20).

(** The version and program, when the script is a witness program. *)
Definition IsWitnessProgram (s : bytes) : option (Z * bytes) :=
  if (zlen s <? 4) || (42 <? zlen s) then None
  else if negb (byte_at s 0 =? op OP_0) && ((byte_at s 0 <? op OP_1) || (op OP_16 <? byte_at s 0)) then None
  else if byte_at s 1 + 2 =? zlen s then
    match DecodeOP_N (byte_at s 0) with Ok version => Some (version, drop 2 s) | Err _ => None end
  else None.

Definition IsUnspendable (script : bytes) : bool :=
  match script with
  | b :: _ => (b =? op OP_RETURN) || (MAX_SCRIPT_SIZE <? zlen script)
  | [] => MAX_SCRIPT_SIZE <? zlen script
  end.

(** The loops over the operations of a script below run at most once per byte. *)
Fixpoint IsPushOnly_loop (fuel : nat) (pc : bytes) : bool :=
  match pc, fuel with
  | [], _ => true
  | _, O => false
  | _, S fuel =>
      let '(ok, opcode, _, pc) := GetScriptOp pc in
      if negb ok then false
      else if op OP_16 <? opcode then false
      else IsPushOnly_loop fuel pc
  end.

Definition IsPushOnly (s : bytes) : bool := IsPushOnly_loop (length s) s.

Fixpoint HasValidOps_loop (fuel : nat) (pc : bytes) : bool :=
  match pc, fuel with
  | [], _ => true
  | _, O => false
  | _, S fuel =>
      let '(ok, opcode, item, pc) := GetScriptOp pc in
      if negb ok || (MAX_OPCODE <? opcode) || (MAX_SCRIPT_ELEMENT_SIZE <? zlen item) then false
      else HasValidOps_loop fuel pc
  end.

Definition HasValidOps (s : bytes) : bool := HasValidOps_loop (length s) s.

Definition sigops_of (fAccurate : bool) (opcode lastOpcode : Z) : Z :=
  if (opcode =? op OP_CHECKSIG) || (opcode =? op OP_CHECKSIGVERIFY) then 1
  else if (opcode =? op OP_CHECKMULTISIG) || (opcode =? op OP_CHECKMULTISIGVERIFY) then
    if fAccurate && (op OP_1 <=? lastOpcode) && (lastOpcode <=? op OP_16)
    then lastOpcode - (op OP_1 - 1)
    else MAX_PUBKEYS_PER_MULTISIG
  else 0.

Fixpoint GetSigOpCount_loop (fuel : nat) (fAccurate : bool) (n : Z) (lastOpcode : Z) (pc : bytes) : Z :=
  match pc, fuel with
  | [], _ => n
  | _, O => n
  | _, S fuel =>
      let '(ok, opcode, _, pc) := GetScriptOp pc in
      if negb ok then n
      else GetSigOpCount_loop fuel fAccurate (u32 (n + sigops_of fAccurate opcode lastOpcode)) opcode pc
  end.

(** [GetSigOpCount(bool fAccurate)] *)
Definition GetSigOpCount (s : bytes) (fAccurate : bool) : Z :=
  GetSigOpCount_loop (length s) fAccurate 0 (op OP_INVALIDOPCODE) s.

(** The last item a push-only script pushes; [None] where the loop returns 0. *)
Fixpoint last_push (fuel : nat) (pc vData : bytes) : option bytes :=
  match pc, fuel with
  | [], _ => Some vData
  | _, O => None
  | _, S fuel =>
      let '(ok, opcode, vData, pc) := GetScriptOp pc in
      if negb ok then None
      else if op OP_16 <? opcode then None
      else last_push fuel pc vData
  end.

(** [GetSigOpCount(const CScript& scriptSig)] *)
Definition GetSigOpCount_p2sh (s scriptSig : bytes) : Z :=
  if negb (IsPayToScriptHash s) then GetSigOpCount s true
  else match last_push (length scriptSig) scriptSig [] with
       | None => 0
       | Some subscript => GetSigOpCount subscript true
       end.

Definition IsOpSuccess (opcode : Z) : bool :=
  (opcode =? 80) || (opcode =? 98) || ((126 <=? opcode) && (opcode <=? 129))
  || ((131 <=? opcode) && (opcode <=? 134)) || ((137 <=? opcode) && (opcode <=? 138))
  || ((141 <=? opcode) && (opcode <=? 142)) || ((149 <=? opcode) && (opcode <=? 153))
  || ((187 <=? opcode) && (opcode <=? 254)).

Definition CheckMinimalPush (data : bytes) (opcode : Z) : result string bool :=
  if (opcode <? 0) || (op OP_PUSHDATA4 <? opcode) then Err "assertion in CheckMinimalPush"
  else if zlen data =? 0 then Ok (opcode =? op OP_0)
  else if (zlen data =? 1) && (1 <=? byte_at data 0) && (byte_at data 0 <=? 16) then Ok false
  else if (zlen data =? 1) && (byte_at data 0 =? 0x81) then Ok false
  else if zlen data <=? 75 then Ok (opcode =? zlen data)
  else if zlen data <=? 255 then Ok (opcode =? op OP_PUSHDATA1)
  else if zlen data <=? 65535 then Ok (opcode =? op OP_PUSHDATA2)
  else Ok true.

(** * Script numbers are in bijection with their minimal encodings *)

Lemma land_0x80 b : is_uint 8 b -> (Z.land b 0x80 =? 0) = (b <? 128).
Proof.
  intros Hb. apply eqb_prop.
  revert b Hb. apply (byte_forall (fun b => Bool.eqb (Z.land b 0x80 =? 0) (b <? 128))). done.
Qed.

Lemma land_0x7f b : is_uint 8 b -> (Z.land b 0x7f =? 0) = ((b =? 0) || (b =? 128)).
Proof.
  intros Hb. apply eqb_prop.
  revert b Hb. apply (byte_forall (fun b => Bool.eqb (Z.land b 0x7f =? 0) ((b =? 0) || (b =? 128)))). done.
Qed.

Lemma lor_0x80 b : is_uint 7 b -> Z.lor b 0x80 = b + 128.
Proof. intros Hb. apply (lor_pow2_add 7 b 1); [lia|done]. Qed.

Lemma back_app r t : back (r ++ [t]) = t.
Proof. apply last_last. Qed.

Lemma shiftr_8 a : Z.shiftr a 8 = a / 256.
Proof. by rewrite Z.shiftr_div_pow2. Qed.

Lemma div_256_range k a :
  is_uint (8 * Z.of_nat (S k)) a -> is_uint (8 * Z.of_nat k) (a / 256).
Proof.
  unfold is_uint. rewrite pow256_succ. intros [H1 H2].
  split; [apply Z.div_pos; lia | apply Z.div_lt_upper_bound; lia].
Qed.

Lemma serialize_loop_S k a :
  serialize_loop (S k) a = if a =? 0 then [] else a mod 256 :: serialize_loop k (a / 256).
Proof.
  cbn [serialize_loop].
  rewrite shiftr_8. change 0xff with (2 ^ 8 - 1). by rewrite land_mask.
Qed.

Lemma serialize_loop_wf k a : wf_bytes (serialize_loop k a).
Proof.
  revert a. induction k as [|k IH]; intros a; [constructor|].
  rewrite serialize_loop_S. destruct (a =? 0); constructor; [|apply IH].
  apply (Z.mod_pos_bound a 256). lia.
Qed.

Lemma serialize_loop_val k a : is_uint (8 * Z.of_nat k) a -> le_val (serialize_loop k a) = a.
Proof.
  revert a. induction k as [|k IH]; intros a Ha.
  - unfold is_uint in Ha. simpl in *. lia.
  - rewrite serialize_loop_S. destruct (Z.eqb_spec a 0) as [->|Hne]; [done|].
    simpl. rewrite IH by (by apply div_256_range). pose proof (Z.div_mod a 256). lia.
Qed.

Lemma serialize_loop_back k a :
  is_uint (8 * Z.of_nat k) a -> a <> 0 -> back (serialize_loop k a) <> 0.
Proof.
  revert a. induction k as [|k IH]; intros a Ha Hne.
  - unfold is_uint in Ha. simpl in Ha. lia.
  - rewrite serialize_loop_S. rewrite (proj2 (Z.eqb_neq a 0) Hne).
    pose proof (Z.div_mod a 256 ltac:(lia)) as Hd. destruct (decide (a / 256 = 0)) as [E|E].
    + rewrite E. replace (serialize_loop k 0) with (@nil Z) by (by destruct k). unfold back. cbn [List.last]. lia.
    + specialize (IH _ (div_256_range _ _ Ha) E). unfold back in *.
      destruct (serialize_loop k (a / 256)) eqn:E2; [by simpl in IH|]. simpl in *. done.
Qed.

(** Bytes without a leading (most significant) zero are what the loop writes. *)
Lemma le_val_pos b : wf_bytes b -> back b <> 0 -> 0 < le_val b.
Proof.
  unfold back. induction 1 as [|x b Hx Hb IH]; [done|]. intros Hl.
  pose proof (le_val_bound _ Hb) as [? _]. unfold is_uint in Hx. simpl le_val.
  destruct b; simpl in *; [lia|]. specialize (IH Hl). lia.
Qed.

Lemma serialize_loop_of_val k b :
  wf_bytes b -> back b <> 0 -> (length b <= k)%nat -> serialize_loop k (le_val b) = b.
Proof.
  intros Hwf. revert k. induction Hwf as [|x b Hx Hb IH]; intros k Hl Hk; [done|].
  destruct k as [|k]; [simpl in Hk; lia|]. rewrite serialize_loop_S.
  pose proof (le_val_pos (x :: b) ltac:(by constructor) Hl) as Hpos.
  rewrite (proj2 (Z.eqb_neq _ 0)) by lia. simpl le_val. unfold is_uint in Hx.
  rewrite Z.add_comm, Z.mul_comm, Z.div_add_l, Z.add_comm, Z.mod_add, Z.mod_small, Z.div_small by lia.
  rewrite Z.add_0_r. f_equal. destruct b as [|y b].
  - by destruct k.
  - apply IH; [done|simpl in *; lia].
Qed.

Lemma set_vch_loop_val vch i acc :
  wf_bytes vch -> 0 <= i -> is_uint (8 * i) acc ->
  set_vch_loop i vch acc = acc + 2 ^ (8 * i) * le_val vch.
Proof.
  intros Hwf. revert i acc. induction Hwf as [|b vch Hb Hwf IH]; intros i acc Hi Hacc; simpl; [lia|].
  rewrite lor_shiftl_add by (done || lia). rewrite IH.
  - replace (8 * (i + 1)) with (8 * i + 8) by lia. rewrite Z.pow_add_r by lia. lia.
  - lia.
  - unfold is_uint in *. replace (8 * (i + 1)) with (8 * i + 8) by lia.
    rewrite Z.pow_add_r by lia. split; nia.
Qed.

Lemma clear_bit x j :
  is_uint 64 x -> 0 <= j < 64 -> Z.testbit x j = true ->
  Z.land x (2 ^ 64 - 1 - 2 ^ j) = x - 2 ^ j.
Proof.
  intros Hx Hj Hb.
  assert (forall y, Z.testbit y j = true -> y - 2 ^ j = Z.ldiff y (2 ^ j)) as Hsub.
  { intros y Hy. apply Z.sub_nocarry_ldiff. apply Z.bits_inj'. intros i Hi.
    rewrite Z.ldiff_spec, Z.bits_0, Z.pow2_bits_eqb by lia.
    destruct (Z.eqb_spec j i) as [<-|]; [by rewrite Hy|done]. }
  rewrite (Hsub x Hb), (Hsub (2 ^ 64 - 1)).
  2: { change (2 ^ 64 - 1) with (Z.ones 64). apply Z.ones_spec_low. lia. }
  apply Z.bits_inj'. intros i Hi. rewrite Z.land_spec, !Z.ldiff_spec.
  destruct (decide (i < 64)).
  - change (2 ^ 64 - 1) with (Z.ones 64). by rewrite Z.ones_spec_low by lia.
  - by rewrite (testbit_small 64 x) by (auto; lia).
Qed.

(** The magnitude and sign that [r ++ [t]] stands for. *)
Lemma set_vch_snoc r (m : Z) (neg : bool) :
  wf_bytes r -> is_uint 7 m -> (length r < 8)%nat ->
  CScriptNum_set_vch (r ++ [m + if neg then 128 else 0])
  = if neg then - le_val (r ++ [m]) else le_val (r ++ [m]).
Proof.
  intros Hr Hm Hlen. pose proof Hm as [Hm1 Hm2]. set (t := m + _).
  assert (is_uint 8 t) as Ht by (unfold is_uint; subst t; destruct neg; lia).
  assert (wf_bytes (r ++ [t])) as Hwf by (apply wf_bytes_app; split; [done|by constructor]).
  unfold CScriptNum_set_vch. destruct (r ++ [t]) eqn:E; [by destruct r|]. rewrite <- E in *.
  rewrite set_vch_loop_val by (done || lia). rewrite back_app, land_0x80 by done.
  change (2 ^ (8 * 0)) with 1. rewrite Z.add_0_l, Z.mul_1_l. rewrite !le_val_app. simpl (le_val [_]).
  rewrite !Z.mul_0_r, !Z.add_0_r. subst t. pose proof (le_val_bound r Hr) as [Hr1 Hr2].
  destruct neg.
  - rewrite (proj2 (Z.ltb_ge _ _)) by lia. simpl negb. cbv iota. f_equal.
    unfold zlen. rewrite length_app. simpl length.
    replace (Z.of_nat (length r + 1) - 1) with (Z.of_nat (length r)) by lia.
    set (k := 8 * Z.of_nat (length r)) in *.
    assert (Z.shiftl 128 k = 2 ^ (k + 7)) as -> by (rewrite Z.shiftl_mul_pow2, Z.pow_add_r by lia; lia).
    assert (2 ^ (k + 7) = 2 ^ k * 128) as Ek by (rewrite Z.pow_add_r by lia; lia).
    assert (2 ^ (k + 7 + 1) = 2 ^ k * 256) as Ek' by (rewrite <- Z.add_assoc, Z.pow_add_r by lia; lia).
    assert (2 ^ (k + 7 + 1) <= 2 ^ 64) as Hk by (apply Z.pow_le_mono_r; lia).
    rewrite clear_bit; [nia|unfold is_uint; nia|lia|].
    rewrite (testbit_top (k + 7)); [apply Z.leb_le; nia|lia|unfold is_uint; nia].
  - rewrite (proj2 (Z.ltb_lt _ _)) by lia. simpl. lia.
Qed.

Definition signed (neg : bool) (z : Z) : Z := if neg then - z else z.

Definition sign_byte (neg : bool) : Z := if neg then 128 else 0.

Lemma nth_back (r : bytes) t : nth (length (r ++ [t]) - 2) (r ++ [t]) 0 = match r with [] => t | _ => back r end.
Proof.
  destruct r as [|x r _] using rev_ind; [done|].
  rewrite !length_app. simpl length.
  replace (length r + 1 + 1 - 2)%nat with (length r) by lia.
  rewrite <- app_assoc, app_nth2, Nat.sub_diag by lia. simpl. rewrite back_app. by destruct r.
Qed.

Lemma wf_back r : wf_bytes r -> is_uint 8 (back r).
Proof.
  intros H. destruct r as [|x r _] using rev_ind; [done|]. rewrite back_app.
  by apply wf_bytes_app in H as [_ H]; inversion H.
Qed.

Lemma CScriptNum_new_snoc r m neg n :
  wf_bytes r -> is_uint 7 m -> n <= 8 ->
  CScriptNum_new (r ++ [m + sign_byte neg]) true n
  = if n <? zlen r + 1 then Err "script number overflow"
    else if (m =? 0) && (back r <? 128) then Err "non-minimally encoded script number"
    else Ok (signed neg (le_val (r ++ [m]))).
Proof.
  intros Hr Hm Hn. pose proof Hm as [Hm1 Hm2]. unfold CScriptNum_new.
  assert (zlen (r ++ [m + sign_byte neg]) = zlen r + 1) as -> by (unfold zlen; rewrite length_app; simpl; lia).
  assert (is_uint 8 (m + sign_byte neg)) as Ht by (unfold is_uint, sign_byte; destruct neg; lia).
  destruct (Z.ltb_spec n (zlen r + 1)) as [|Hle]; [done|].
  assert ((Z.land (back (r ++ [m + sign_byte neg])) 0x7f =? 0) = (m =? 0)) as ->.
  { rewrite back_app, land_0x7f by done. unfold sign_byte. destruct neg; bool_cases; (done || lia). }
  assert (0 <= zlen r) by (unfold zlen; lia).
  rewrite (proj2 (Z.ltb_lt 0 _)) by lia.
  rewrite nth_back, land_0x80 by (destruct r; [done|by apply wf_back]).
  replace ((zlen r + 1 <=? 1) || _) with (back r <? 128).
  2: { unfold zlen. destruct r; [done|]. simpl length. by rewrite (proj2 (Z.leb_gt _ _)) by lia. }
  simpl andb. destruct (_ && _); [done|]. f_equal. apply set_vch_snoc; [done|done|].
  unfold zlen in *. lia.
Qed.

(** The bytes the decoder accepts as minimal are the ones the encoder writes. *)
Lemma serialize_signed r m neg :
  wf_bytes r -> is_uint 7 m -> (length r < 8)%nat -> (m <> 0 \/ 128 <= back r) ->
  CScriptNum_serialize (signed neg (le_val (r ++ [m]))) = r ++ [m + sign_byte neg].
Proof.
  intros Hr Hm Hlen Hmin. pose proof Hm as [Hm1 Hm2].
  assert (wf_bytes (r ++ [m])) as Hrm.
  { apply wf_bytes_app. split; [done|]. constructor; [unfold is_uint; lia|constructor]. }
  pose proof (le_val_bound _ Hr) as Hrb.
  assert (le_val (r ++ [m]) = le_val r + 2 ^ (8 * Z.of_nat (length r)) * m) as Emag
    by (rewrite le_val_app; simpl; lia).
  set (mag := le_val (r ++ [m])) in *.
  assert (0 < mag /\ mag < 2 ^ 63) as [Hpos Hlt].
  { assert (0 < 2 ^ (8 * Z.of_nat (length r))) by (apply pow2_pos; lia).
    assert (2 ^ (8 * Z.of_nat (length r)) <= 2 ^ 56) by (apply Z.pow_le_mono_r; lia).
    unfold is_uint in Hrb. split; [|nia].
    destruct Hmin; [nia|]. pose proof (le_val_pos r Hr ltac:(lia)). nia. }
  assert (serialize_loop 8 mag = if m =? 0 then r else r ++ [m]) as Eloop.
  { destruct (Z.eqb_spec m 0) as [->|].
    - rewrite Emag, Z.mul_0_r, Z.add_0_r. apply serialize_loop_of_val; [done| |lia].
      destruct Hmin; lia.
    - apply serialize_loop_of_val; [done|by rewrite back_app|rewrite length_app; simpl; lia]. }
  unfold CScriptNum_serialize.
  rewrite (proj2 (Z.eqb_neq _ 0)) by (unfold signed; destruct neg; lia).
  assert ((signed neg mag <? 0) = neg) as -> by (unfold signed; destruct neg; bool_cases; (done || lia)).
  replace (if neg then _ else _) with mag.
  2: { unfold signed. destruct neg; [|symmetry; apply wrap_small; unfold is_uint; lia].
       rewrite <- (Z.opp_involutive mag) at 1. unfold wrap.
       rewrite (Z.mod_opp_l_nz mag) by (rewrite ?Z.mod_small; lia). rewrite (Z.mod_small mag) by lia.
       symmetry. rewrite Z.mod_small; lia. }
  rewrite Eloop. destruct (Z.eqb_spec m 0) as [->|Hm0].
  - rewrite land_0x80 by (by apply wf_back). rewrite (proj2 (Z.ltb_ge _ _)) by (destruct Hmin; lia).
    by destruct neg.
  - rewrite back_app, land_0x80 by (unfold is_uint; lia). rewrite (proj2 (Z.ltb_lt _ _)) by lia.
    simpl negb. cbv iota. destruct neg; simpl; [|by rewrite Z.add_0_r].
    by rewrite removelast_last, lor_0x80.
Qed.

Lemma split_sign t : is_uint 8 t -> exists m neg, is_uint 7 m /\ t = m + sign_byte neg.
Proof.
  intros [H1 H2]. destruct (decide (t < 128)).
  - exists t, false. unfold is_uint. simpl. lia.
  - exists (t - 128), true. unfold is_uint. simpl. lia.
Qed.

(** Every non-zero magnitude has a minimal form [r ++ [m]]. *)
Lemma minimal_form n a :
  (n <= 8)%nat -> 0 < a < 2 ^ (8 * Z.of_nat n - 1) ->
  exists r m, wf_bytes r /\ is_uint 7 m /\ (length r < n)%nat /\ (m <> 0 \/ 128 <= back r) /\ le_val (r ++ [m]) = a.
Proof.
  intros Hn Ha. destruct n as [|n]; [simpl in Ha; lia|].
  replace (8 * Z.of_nat (S n) - 1) with (8 * Z.of_nat n + 7) in Ha by lia.
  rewrite Z.pow_add_r in Ha by lia.
  assert (is_uint (8 * Z.of_nat (S n)) a) as Hu by (unfold is_uint; rewrite pow256_succ; lia).
  pose proof (serialize_loop_val (S n) a Hu) as Hv. pose proof (serialize_loop_wf (S n) a) as Hwf.
  pose proof (serialize_loop_back (S n) a Hu ltac:(lia)) as Hb.
  assert (forall k x, (length (serialize_loop k x) <= k)%nat) as Hlen.
  { induction k as [|k IH]; intros x; [done|]. rewrite serialize_loop_S.
    destruct (x =? 0); simpl; [lia|]. specialize (IH (x / 256)). lia. }
  specialize (Hlen (S n) a). set (b := serialize_loop (S n) a) in *. clearbody b.
  destruct b as [|t b _] using rev_ind; [done|]. rewrite back_app in Hb.
  apply wf_bytes_app in Hwf as [Hwb Ht]. inversion Ht as [|?? Ht' _]; subst.
  rewrite length_app in Hlen. simpl in Hlen.
  destruct (decide (t < 128)) as [Hs|Hs].
  - exists b, t. repeat split; try done; try lia. destruct Ht'; unfold is_uint; lia.
  - exists (b ++ [t]), 0. rewrite back_app, le_val_app, length_app. simpl.
    repeat split; try lia; [by apply wf_bytes_app|].
    assert (length b < n)%nat; [|lia].
    destruct (decide (length b = n)) as [E|E]; [exfalso|lia].
    rewrite le_val_app, E in Ha. simpl in Ha. pose proof (le_val_bound b Hwb) as Hbb. unfold is_uint in Hbb.
    assert (0 < 2 ^ (8 * Z.of_nat n)) by (apply pow2_pos; lia). nia.
Qed.

(** The encoding of a number below [2^(8n-1)] takes at most [n] bytes. *)
Lemma serialize_bound n v :
  (0 < n <= 8)%nat -> Z.abs v < 2 ^ (8 * Z.of_nat n - 1) ->
  wf_bytes (CScriptNum_serialize v) /\ (length (CScriptNum_serialize v) <= n)%nat.
Proof.
  intros Hn Hv. destruct (decide (v = 0)) as [->|Hv0]; [split; [constructor|simpl; lia]|].
  destruct (minimal_form n (Z.abs v)) as (r & m & Hr & Hm & Hlen & Hmin & E); [lia|lia|].
  assert (v = signed (v <? 0) (Z.abs v)) as Ev by (unfold signed; bool_cases; lia).
  rewrite Ev, <- E. rewrite serialize_signed by (done || lia).
  rewrite wf_bytes_app, length_app. simpl. repeat split; [done| |lia].
  constructor; [|constructor]. destruct Hm. unfold is_uint, sign_byte. case_match; lia.
Qed.

(** A decoded number is bounded by the length of its encoding. *)
Lemma set_vch_bound vch :
  wf_bytes vch -> zlen vch <= 8 -> Z.abs (CScriptNum_set_vch vch) < 2 ^ Z.max 0 (8 * zlen vch - 1).
Proof.
  intros Hwf Hlen. destruct vch as [|t r _] using rev_ind; [done|].
  apply wf_bytes_app in Hwf as [Hr Ht]. inversion Ht as [|?? Ht' _]; subst.
  unfold zlen in *. rewrite length_app in *. simpl length in *.
  destruct (split_sign t Ht') as (m & neg & Hm & ->). unfold sign_byte. rewrite set_vch_snoc by (done || lia).
  rewrite le_val_app. simpl le_val. pose proof (le_val_bound r Hr). unfold is_uint in *.
  replace (Z.max 0 _) with (8 * Z.of_nat (length r) + 7) by lia. rewrite Z.pow_add_r by lia.
  destruct neg; nia.
Qed.

Lemma CScriptNum_new_bound vch minimal n v :
  wf_bytes vch -> 0 < n <= 8 -> CScriptNum_new vch minimal n = Ok v -> Z.abs v < 2 ^ (8 * n - 1).
Proof.
  intros Hwf Hn. unfold CScriptNum_new. destruct (Z.ltb_spec n (zlen vch)); [done|].
  destruct (_ && _); [done|]. intros [= <-].
  eapply Z.lt_le_trans; [apply set_vch_bound; [done|lia]|]. apply Z.pow_le_mono_r; lia.
Qed.

(** Script numbers of at most [n <= 8] bytes and minimal encodings of at most
    [n] bytes are in bijection: every integer of absolute value below
    [2^(8n-1)] is read back from the bytes [CScriptNum::serialize] writes, which
    pass the minimality check, and every string the constructor accepts under the
    minimality requirement is the one the decoded value serializes to. *)
Theorem scriptnum_roundtrip (n : nat) :
  (0 < n <= 8)%nat ->
  (forall v, Z.abs v < 2 ^ (8 * Z.of_nat n - 1) ->
     CScriptNum_new (CScriptNum_serialize v) true (Z.of_nat n) = Ok v) /\
  (forall vch v, wf_bytes vch -> CScriptNum_new vch true (Z.of_nat n) = Ok v ->
     Z.abs v < 2 ^ (8 * Z.of_nat n - 1) /\ CScriptNum_serialize v = vch).
Proof.
  intros Hn. split.
  - intros v Hv. destruct (decide (v = 0)) as [->|Hv0]; [by unfold CScriptNum_new; destruct n|].
    destruct (minimal_form n (Z.abs v)) as (r & m & Hr & Hm & Hlen & Hmin & E); [lia|lia|].
    assert (v = signed (v <? 0) (Z.abs v)) as Ev by (unfold signed; bool_cases; lia).
    rewrite Ev, <- E. rewrite serialize_signed by (done || lia). rewrite CScriptNum_new_snoc by (done || lia).
    rewrite (proj2 (Z.ltb_ge _ _)) by (unfold zlen; lia).
    destruct (Z.eqb_spec m 0), (Z.ltb_spec (back r) 128); try done. lia.
  - intros vch v Hwf. destruct vch as [|t r _] using rev_ind.
    { unfold CScriptNum_new. simpl. case_match; [done|]. intros [= <-].
      split; [|done]. apply pow2_pos. lia. }
    apply wf_bytes_app in Hwf as [Hr Ht]. inversion Ht as [|?? Ht' _]; subst.
    destruct (split_sign t Ht') as (m & neg & Hm & ->). rewrite CScriptNum_new_snoc by (done || lia).
    destruct (Z.ltb_spec (Z.of_nat n) (zlen r + 1)) as [|Hlen]; [done|]. unfold zlen in Hlen.
    destruct (_ && _) eqn:Emin; [done|]. intros [= <-]. split.
    + pose proof (le_val_bound r Hr) as Hb. rewrite le_val_app. simpl. unfold is_uint in *.
      assert (2 ^ (8 * Z.of_nat (length r) + 7) <= 2 ^ (8 * Z.of_nat n - 1)) by (apply Z.pow_le_mono_r; lia).
      rewrite Z.pow_add_r in * by lia. unfold signed. destruct neg; nia.
    + apply serialize_signed; [done|done|lia|].
      apply andb_false_iff in Emin as [?|?]; bool_props; [by left|by right].
Qed.

Lemma scriptnum_roundtrip_witness :
  CScriptNum_new (CScriptNum_serialize (-255)) true 4 = Ok (-255)
  /\ CScriptNum_serialize (-255) = [0xff; 0x80].
Proof.
  split; [|done]. destruct (scriptnum_roundtrip 4 ltac:(lia)) as [H _]. by apply (H (-255)).
Defined.

(** * Parsing

    A successful [GetScriptOp] consumes at least one byte, so the loops below run
    to the end of the script within their fuel. *)

Lemma push_size_le opcode pc n pc' :
  push_size opcode pc = (n, pc') -> (length pc' <= length pc)%nat.
Proof.
  unfold push_size. intros H. repeat (case_match; simplify_eq; try done);
    simpl; rewrite ?length_drop; lia.
Qed.

Lemma GetScriptOp_shrinks pc opcode data pc' :
  GetScriptOp pc = (true, opcode, data, pc') -> (length pc' < length pc)%nat.
Proof.
  unfold GetScriptOp. intros H. destruct pc as [|b pc]; [done|].
  repeat (case_match; simplify_eq; try done); simpl; rewrite ?length_drop; [|lia].
  match goal with H : push_size _ _ = _ |- _ => apply push_size_le in H end. lia.
Qed.

(** ** Data pushes *)

(** The number of bytes of the length field of a push opcode. *)
Definition length_field (opcode : Z) : nat :=
  if opcode =? op OP_PUSHDATA1 then 1%nat
  else if opcode =? op OP_PUSHDATA2 then 2%nat
  else if opcode =? op OP_PUSHDATA4 then 4%nat
  else 0%nat.

(** [data] can be pushed with [opcode]. *)
Definition pushes (opcode : Z) (data : bytes) : Prop :=
  if opcode <? op OP_PUSHDATA1 then zlen data = opcode
  else opcode <= op OP_PUSHDATA4 /\ is_uint (8 * Z.of_nat (length_field opcode)) (zlen data).

Definition push_bytes (opcode : Z) (data : bytes) : bytes :=
  opcode :: le_bytes (length_field opcode) (zlen data) ++ data.

Lemma push_opcode_cases opcode :
  0 <= opcode <= op OP_PUSHDATA4 ->
  opcode < 76 \/ opcode = 76 \/ opcode = 77 \/ opcode = 78.
Proof. change (op OP_PUSHDATA4) with 78. lia. Qed.

Lemma length_field_small opcode : opcode < 76 -> length_field opcode = 0%nat.
Proof.
  intros. unfold length_field. change (op OP_PUSHDATA1) with 76. change (op OP_PUSHDATA2) with 77.
  change (op OP_PUSHDATA4) with 78. by rewrite !(proj2 (Z.eqb_neq _ _)) by lia.
Qed.

Lemma length_field_enough opcode data : pushes opcode data -> opcode < 76 \/ length_field opcode <> 0%nat.
Proof.
  unfold pushes. change (op OP_PUSHDATA1) with 76. destruct (Z.ltb_spec opcode 76); [by left|].
  intros [Hle _]. right. destruct (push_opcode_cases opcode) as [?|[->|[->| ->]]]; [|lia|done..].
  change (op OP_PUSHDATA4) with 78 in *. lia.
Qed.

Lemma push_size_field opcode pc :
  76 <= opcode <= 78 ->
  push_size opcode pc
  = if zlen pc <? Z.of_nat (length_field opcode) then (None, pc)
    else (Some (le_val (take (length_field opcode) pc)), drop (length_field opcode) pc).
Proof.
  intros H. destruct (push_opcode_cases opcode) as [?|[->|[->| ->]]].
  - change (op OP_PUSHDATA4) with 78. lia.
  - lia.
  - unfold push_size, length_field. simpl. destruct pc as [|b pc]; [done|].
    rewrite (proj2 (Z.ltb_ge _ _)) by (unfold zlen; simpl; lia). simpl. by rewrite drop_0, Z.add_0_r.
  - done.
  - done.
Qed.

(** The strings that parse to a push are the ones made of its opcode, its length
    field and its data. *)
Lemma GetScriptOp_push opcode data rest :
  0 <= opcode -> pushes opcode data ->
  GetScriptOp (push_bytes opcode data ++ rest) = (true, opcode, data, rest).
Proof.
  intros H0 Hp. pose proof Hp as Hp'. unfold pushes in Hp'. change (op OP_PUSHDATA1) with 76 in Hp'.
  unfold GetScriptOp, push_bytes. rewrite <- app_comm_cons, <- app_assoc.
  assert (opcode <=? op OP_PUSHDATA4 = true) as ->.
  { apply Z.leb_le. change (op OP_PUSHDATA4) with 78 in *. destruct (Z.ltb_spec opcode 76); lia. }
  assert (Z.to_nat (zlen data) = length data) as El by (unfold zlen; lia).
  assert (zlen (data ++ rest) <? zlen data = false) as Ez
    by (apply Z.ltb_ge; unfold zlen; rewrite length_app; lia).
  destruct (Z.ltb_spec opcode 76) as [Hs|Hs].
  - rewrite length_field_small by done. unfold push_size. change (op OP_PUSHDATA1) with 76.
    rewrite (proj2 (Z.ltb_lt _ _)) by done. simpl app. rewrite <- Hp', Ez, El.
    by rewrite take_app_exact, drop_app_exact.
  - rewrite push_size_field by (change (op OP_PUSHDATA4) with 78 in *; lia).
    rewrite take_app_exact, drop_app_exact by (by rewrite length_le_bytes).
    rewrite (proj2 (Z.ltb_ge _ _)) by (unfold zlen; rewrite length_app, length_le_bytes; lia).
    rewrite le_val_bytes by apply Hp'. by rewrite Ez, El, take_app_exact, drop_app_exact.
Qed.

Lemma GetScriptOp_push_inv s opcode data rest :
  wf_bytes s -> GetScriptOp s = (true, opcode, data, rest) -> opcode <= op OP_PUSHDATA4 ->
  0 <= opcode /\ pushes opcode data /\ s = push_bytes opcode data ++ rest.
Proof.
  intros Hwf H Hle. destruct s as [|b s]; [done|]. inversion Hwf as [|?? [Hb _] Hs]; subst.
  unfold GetScriptOp in H. destruct (Z.leb_spec b (op OP_PUSHDATA4)) as [Hb'|]; [|simplify_eq; lia].
  assert (forall n (pc : bytes), 0 <= n -> zlen pc <? n = false -> zlen (take (Z.to_nat n) pc) = n) as Hlen.
  { intros n pc Hn Hz. bool_props. unfold zlen in *. rewrite length_take. lia. }
  unfold pushes, push_bytes. change (op OP_PUSHDATA1) with 76. destruct (Z.ltb_spec opcode 76) as [Hlt|Hge].
  - destruct (push_size b s) as [[n|] pc] eqn:E; [|done]. case_match eqn:Ez; [done|]. simplify_eq.
    unfold push_size in E. change (op OP_PUSHDATA1) with 76 in E. rewrite (proj2 (Z.ltb_lt _ _)) in E by done.
    simplify_eq. rewrite Hlen, length_field_small by (done || lia). simpl. by rewrite take_drop.
  - change (op OP_PUSHDATA4) with 78 in *. destruct (push_size b s) as [[n|] pc] eqn:E; [|done].
    case_match eqn:Ez; [done|]. simplify_eq. rewrite push_size_field in E by lia. case_match eqn:Ef; [done|]. simplify_eq.
    assert (wf_bytes (take (length_field opcode) s)) as Hwt by (by apply Forall_take).
    assert (length (take (length_field opcode) s) = length_field opcode) as Elf.
    { bool_props. unfold zlen in *. rewrite length_take. lia. }
    pose proof (le_val_bound _ Hwt) as Hlv. rewrite Elf in Hlv.
    rewrite Hlen by (done || apply Hlv). repeat split; [done|done|apply Hlv..|].
    rewrite <- Elf at 1. rewrite le_bytes_val by done. simpl. f_equal. rewrite <- app_assoc. by rewrite !take_drop.
Qed.

(** The opcode [AppendDataSize] chooses. *)
Definition best_opcode (data : bytes) : Z :=
  if zlen data <? 76 then zlen data
  else if zlen data <=? 0xff then op OP_PUSHDATA1
  else if zlen data <=? 0xffff then op OP_PUSHDATA2
  else op OP_PUSHDATA4.

(** Data with an opcode of its own: 1 to 16 and -1. *)
Definition small_number (data : bytes) : bool :=
  match data with
  | [b] => ((1 <=? b) && (b <=? 16)) || (b =? 0x81)
  | _ => false
  end.

Lemma zlen_nonneg {A} (l : list A) : 0 <= zlen l.
Proof. unfold zlen. lia. Qed.

Lemma best_opcode_pushes data : zlen data < 2 ^ 32 -> 0 <= best_opcode data <= op OP_PUSHDATA4 /\ pushes (best_opcode data) data.
Proof.
  intros H. pose proof (zlen_nonneg data). unfold best_opcode, pushes.
  change (op OP_PUSHDATA1) with 76. change (op OP_PUSHDATA2) with 77. change (op OP_PUSHDATA4) with 78.
  destruct (Z.ltb_spec (zlen data) 76) as [|].
  - rewrite (proj2 (Z.ltb_lt _ _)) by done. lia.
  - destruct (Z.leb_spec (zlen data) 0xff) as [|]; [|destruct (Z.leb_spec (zlen data) 0xffff) as [|]];
      repeat split; try done; unfold length_field; simpl; lia.
Qed.

Lemma push_data_best data : zlen data < 2 ^ 32 -> push_data [] data = push_bytes (best_opcode data) data.
Proof.
  intros H. pose proof (zlen_nonneg data). unfold push_data, push_bytes. simpl app.
  rewrite wrap_small by done. unfold AppendDataSize, best_opcode. change (op OP_PUSHDATA1) with 76.
  destruct (Z.ltb_spec (zlen data) 76) as [|].
  - rewrite length_field_small by done. rewrite wrap_small by (unfold is_uint; lia). done.
  - destruct (Z.leb_spec (zlen data) 0xff) as [|]; [by unfold wrap|].
    by destruct (Z.leb_spec (zlen data) 0xffff).
Qed.

(** Among the opcodes a string can be pushed with, [AppendDataSize]'s has the
    shortest length field, and it is the only one with that length. *)
Lemma best_opcode_least opcode data :
  0 <= opcode -> pushes opcode data ->
  (length_field (best_opcode data) <= length_field opcode)%nat /\ zlen data < 2 ^ 32.
Proof.
  intros H0 Hp. pose proof (zlen_nonneg data). unfold best_opcode.
  pose proof (length_field_enough _ _ Hp) as Hlf. unfold pushes in Hp. change (op OP_PUSHDATA1) with 76 in *.
  destruct (Z.ltb_spec opcode 76) as [Hs|Hs].
  - rewrite (proj2 (Z.ltb_lt (zlen data) 76)) by lia. rewrite length_field_small by lia. split; lia.
  - destruct Hp as [Hle Hu]. destruct (push_opcode_cases opcode) as [?|[->|[->| ->]]]; [lia|lia|..];
      unfold length_field, is_uint in *; simpl in Hu |- *; bool_cases; simpl; bool_cases; lia.
Qed.

Lemma CheckMinimalPush_best opcode data :
  0 <= opcode -> pushes opcode data -> opcode <= op OP_PUSHDATA4 ->
  CheckMinimalPush data opcode = Ok (bool_decide (opcode = best_opcode data) && negb (small_number data)).
Proof.
  intros H0 Hp Hle. pose proof (zlen_nonneg data). destruct (best_opcode_least _ _ H0 Hp) as [_ Hlt].
  unfold CheckMinimalPush, small_number. rewrite (proj2 (Z.ltb_ge opcode 0)) by done.
  rewrite (proj2 (Z.ltb_ge (op OP_PUSHDATA4) opcode)) by done. unfold best_opcode, byte_at. simpl orb.
  pose proof (zlen_nonneg data) as Hz. unfold pushes in Hp. change (op OP_PUSHDATA1) with 76 in *.
  change (op OP_PUSHDATA2) with 77. change (op OP_PUSHDATA4) with 78 in *. change (op OP_0) with 0.
  assert (forall a b, bool_decide (a = b) = (a =? b)) as Hbd.
  { intros a b. destruct (Z.eqb_spec a b); [by rewrite bool_decide_true|by rewrite bool_decide_false]. }
  rewrite Hbd. destruct data as [|x [|y data]]; simpl nth.
  - change (zlen []) with 0. simpl. by rewrite andb_true_r.
  - change (zlen [x]) with 1 in *. cbn -[Z.leb Z.eqb].
    destruct (1 <=? x), (x <=? 16), (x =? 129); by rewrite ?andb_false_r, ?andb_true_r.
  - assert (2 <= zlen (x :: y :: data)) by (unfold zlen; simpl; lia). set (n := zlen (x :: y :: data)) in *.
    rewrite (proj2 (Z.eqb_neq n 0)), (proj2 (Z.eqb_neq n 1)) by lia. simpl. rewrite andb_true_r.
    destruct (Z.leb_spec n 75), (Z.ltb_spec n 76); try lia; [done|].
    destruct (Z.leb_spec n 255); [done|]. destruct (Z.leb_spec n 65535); [done|].
    f_equal. symmetry. apply Z.eqb_eq. destruct (Z.ltb_spec opcode 76); [lia|].
    destruct (push_opcode_cases opcode) as [?|[->|[->| ->]]]; [done|lia| | |done];
      destruct Hp as [_ [_ Hp]]; unfold length_field in Hp; simpl in Hp; lia.
Qed.

(** [script << data] is read back by [GetScriptOp] as a push of [data], it is
    a shortest string that parses to such a push, and [CheckMinimalPush] accepts
    a parsed push exactly when its bytes are the ones [script << data] writes and
    the data has no opcode of its own. *)
Theorem push_minimal (data rest : bytes) :
  zlen data < 2 ^ 32 ->
  GetScriptOp (push_data [] data ++ rest) = (true, best_opcode data, data, rest) /\
  (forall s opcode, wf_bytes s -> GetScriptOp s = (true, opcode, data, rest) -> opcode <= op OP_PUSHDATA4 ->
     (length (push_data [] data ++ rest) <= length s)%nat /\
     CheckMinimalPush data opcode
     = Ok (bool_decide (s = push_data [] data ++ rest) && negb (small_number data))).
Proof.
  intros Hlt. destruct (best_opcode_pushes _ Hlt) as [[H0 Hle] Hp]. rewrite push_data_best by done.
  split; [by apply GetScriptOp_push|]. intros s opcode Hwf Hs Hle'.
  destruct (GetScriptOp_push_inv _ _ _ _ Hwf Hs Hle') as (H0' & Hp' & ->).
  split; [|].
  - unfold push_bytes. rewrite !length_app. simpl length. rewrite !length_app, !length_le_bytes.
    destruct (best_opcode_least _ _ H0' Hp'). lia.
  - rewrite CheckMinimalPush_best by done. do 2 f_equal. apply bool_decide_ext.
    split; [by intros ->|]. by intros [= ->].
Qed.

Lemma push_minimal_witness :
  zlen (replicate 76 7) < 2 ^ 32 /\
  GetScriptOp (push_data [] (replicate 76 7) ++ [0xac]) = (true, 76, replicate 76 7, [0xac]) /\
  CheckMinimalPush (replicate 76 7) (op OP_PUSHDATA2) = Ok false.
Proof.
  split; [by vm_compute|]. destruct (push_minimal (replicate 76 7) [0xac]) as [H1 H2]; [by vm_compute|].
  split; [exact H1|].
  edestruct (H2 (op OP_PUSHDATA2 :: [76; 0] ++ replicate 76 7 ++ [0xac]) (op OP_PUSHDATA2)) as [_ E];
    [by_decide|by vm_compute|by vm_compute|].
  rewrite E. by vm_compute.
Defined.

(** ** Scripts as lists of operations *)

(** [parses s ops rest]: [ops] are operations read one after the other from [s],
    and [rest] is what follows them. *)
Inductive parses : bytes -> list (Z * bytes) -> bytes -> Prop :=
| parses_nil s : parses s [] s
| parses_cons s opcode data s' ops rest :
    GetScriptOp s = (true, opcode, data, s') -> parses s' ops rest ->
    parses s ((opcode, data) :: ops) rest.

(** No operation can be read: the end of the script, or a push that is cut off. *)
Definition stuck (rest : bytes) : Prop := (GetScriptOp rest).1.1.1 = false.

Lemma parses_exists s : exists ops rest, parses s ops rest /\ stuck rest.
Proof.
  remember (length s) as n eqn:Hn. revert s Hn. induction n as [n IH] using lt_wf_ind. intros s ->.
  destruct (GetScriptOp s) as [[[ok opcode] data] s'] eqn:E. destruct ok.
  - destruct (IH (length s') (GetScriptOp_shrinks _ _ _ _ E) s' eq_refl) as (ops & rest & Hp & Hs).
    exists ((opcode, data) :: ops), rest. split; [by econstructor|done].
  - exists [], s. split; [constructor|]. unfold stuck. by rewrite E.
Qed.

Lemma parses_unique s ops rest ops' rest' :
  parses s ops rest -> stuck rest -> parses s ops' rest' -> stuck rest' -> ops = ops' /\ rest = rest'.
Proof.
  intros Hp Hs. revert ops' rest'. induction Hp as [s|s opcode data s' ops rest E Hp IH]; intros ops' rest' Hp' Hs';
    inversion Hp' as [|? opcode' data' s'' ops'' ? E' Hp'']; subst; unfold stuck in *.
  - done.
  - rewrite E' in Hs. done.
  - rewrite E in Hs'. done.
  - rewrite E in E'. simplify_eq. by destruct (IH Hs _ _ Hp'' Hs') as [-> ->].
Qed.

Fixpoint sigop_sum (fAccurate : bool) (lastOpcode : Z) (ops : list (Z * bytes)) : Z :=
  match ops with
  | [] => 0
  | (opcode, _) :: ops => sigops_of fAccurate opcode lastOpcode + sigop_sum fAccurate opcode ops
  end.

Lemma GetScriptOp_nonempty s opcode data s' : GetScriptOp s = (true, opcode, data, s') -> s <> [].
Proof. by destruct s. Qed.

Lemma IsPushOnly_loop_parses fuel s ops rest :
  parses s ops rest -> stuck rest -> (length s <= fuel)%nat ->
  IsPushOnly_loop fuel s = bool_decide (rest = []) && forallb (fun o => o.1 <=? op OP_16) ops.
Proof.
  intros Hp Hs. revert fuel. induction Hp as [s|s opcode data s' ops rest E Hp IH]; intros fuel Hf.
  - destruct s as [|b s]; [by destruct fuel|]. destruct fuel as [|fuel]; [simpl in Hf; lia|].
    unfold stuck in Hs. cbn [IsPushOnly_loop]. destruct (GetScriptOp (b :: s)) as [[[ok ?] ?] ?]. simpl in Hs. by subst.
  - pose proof (GetScriptOp_shrinks _ _ _ _ E). destruct s as [|b s]; [done|].
    destruct fuel as [|fuel]; [simpl in Hf; lia|]. cbn [IsPushOnly_loop]. rewrite E. simpl negb. cbv iota.
    rewrite Z.ltb_antisym. cbn [forallb fst]. destruct (opcode <=? op OP_16); [|by rewrite andb_false_r].
    rewrite IH by (done || lia). done.
Qed.

Lemma HasValidOps_loop_parses fuel s ops rest :
  parses s ops rest -> stuck rest -> (length s <= fuel)%nat ->
  HasValidOps_loop fuel s
  = bool_decide (rest = [])
    && forallb (fun o => (o.1 <=? MAX_OPCODE) && (zlen o.2 <=? MAX_SCRIPT_ELEMENT_SIZE)) ops.
Proof.
  intros Hp Hs. revert fuel. induction Hp as [s|s opcode data s' ops rest E Hp IH]; intros fuel Hf.
  - destruct s as [|b s]; [by destruct fuel|]. destruct fuel as [|fuel]; [simpl in Hf; lia|].
    unfold stuck in Hs. cbn [HasValidOps_loop]. destruct (GetScriptOp (b :: s)) as [[[ok ?] ?] ?]. simpl in Hs. by subst.
  - pose proof (GetScriptOp_shrinks _ _ _ _ E). destruct s as [|b s]; [done|].
    destruct fuel as [|fuel]; [simpl in Hf; lia|]. cbn [HasValidOps_loop]. rewrite E. simpl negb.
    rewrite orb_false_l, !Z.ltb_antisym, <- negb_andb. cbn [forallb fst snd].
    destruct (_ && (zlen data <=? _)); [|by rewrite andb_false_r].
    simpl negb. cbv iota. rewrite IH by (done || lia). done.
Qed.

Lemma GetSigOpCount_loop_parses fuel acc n last s ops rest :
  parses s ops rest -> stuck rest -> (length s <= fuel)%nat -> is_uint 32 n ->
  GetSigOpCount_loop fuel acc n last s = u32 (n + sigop_sum acc last ops).
Proof.
  intros Hp Hs. revert fuel n last. induction Hp as [s|s opcode data s' ops rest E Hp IH]; intros fuel n last Hf Hn.
  - simpl. rewrite Z.add_0_r, wrap_small by done. destruct s as [|b s]; [by destruct fuel|].
    destruct fuel as [|fuel]; [done|].
    unfold stuck in Hs. cbn [GetSigOpCount_loop]. destruct (GetScriptOp (b :: s)) as [[[ok ?] ?] ?]. simpl in Hs. by subst.
  - pose proof (GetScriptOp_shrinks _ _ _ _ E). destruct s as [|b s]; [done|].
    destruct fuel as [|fuel]; [simpl in Hf; lia|]. cbn [GetSigOpCount_loop]. rewrite E. simpl negb. cbv iota.
    rewrite IH by (try done; try lia; by apply wrap_range). cbn [sigop_sum].
    unfold wrap. rewrite Zplus_mod_idemp_l. f_equal. lia.
Qed.

Lemma sigops_of_bound acc opcode last : 0 <= sigops_of acc opcode last <= MAX_PUBKEYS_PER_MULTISIG.
Proof.
  unfold sigops_of. change MAX_PUBKEYS_PER_MULTISIG with 20. change (op OP_1) with 81. change (op OP_16) with 96.
  destruct (_ || _); [lia|]. destruct (_ || _); [|lia].
  destruct acc; simpl; [|lia]. bool_cases; simpl; lia.
Qed.

Lemma sigop_sum_bound acc last ops : 0 <= sigop_sum acc last ops <= MAX_PUBKEYS_PER_MULTISIG * zlen ops.
Proof.
  revert last. induction ops as [|[o d] ops IH]; intros last; [done|]. cbn [sigop_sum].
  specialize (IH o). pose proof (sigops_of_bound acc o last). change MAX_PUBKEYS_PER_MULTISIG with 20 in *.
  unfold zlen in *. simpl length. lia.
Qed.

Lemma parses_length s ops rest : parses s ops rest -> (length ops + length rest <= length s)%nat.
Proof.
  induction 1 as [|s opcode data s' ops rest E Hp IH]; simpl; [done|]. apply GetScriptOp_shrinks in E. lia.
Qed.

(** The scans of a script agree with its list of operations.  Every script
    splits uniquely into operations and a rest from which none can be read (the
    end, or a push that is cut off).  [IsPushOnly] and [HasValidOps] hold exactly
    when the rest is empty and every operation passes their test, and
    [GetSigOpCount] is the sum over the operations before the rest, without
    overflow for any script of a block. *)
Theorem script_scans (s : bytes) :
  zlen s <= 4000000 ->
  exists ops rest, parses s ops rest /\ stuck rest /\
    (forall ops' rest', parses s ops' rest' -> stuck rest' -> ops' = ops /\ rest' = rest) /\
    IsPushOnly s = bool_decide (rest = []) && forallb (fun o => o.1 <=? op OP_16) ops /\
    HasValidOps s = bool_decide (rest = [])
      && forallb (fun o => (o.1 <=? MAX_OPCODE) && (zlen o.2 <=? MAX_SCRIPT_ELEMENT_SIZE)) ops /\
    (forall acc, GetSigOpCount s acc = sigop_sum acc (op OP_INVALIDOPCODE) ops
                 /\ GetSigOpCount s acc <= MAX_PUBKEYS_PER_MULTISIG * zlen s).
Proof.
  intros Hlen. destruct (parses_exists s) as (ops & rest & Hp & Hs). exists ops, rest.
  repeat (split; [done || (intros; by eapply parses_unique) || by first [apply IsPushOnly_loop_parses | apply HasValidOps_loop_parses]|]).
  intros acc. unfold GetSigOpCount. erewrite GetSigOpCount_loop_parses by done.
  pose proof (sigop_sum_bound acc (op OP_INVALIDOPCODE) ops). pose proof (parses_length _ _ _ Hp).
  change MAX_PUBKEYS_PER_MULTISIG with 20 in *. unfold zlen in *.
  rewrite wrap_small by (unfold is_uint; lia). split; lia.
Qed.

Lemma script_scans_witness :
  exists ops rest, parses [0x51; 0xae; 0x4c] ops rest /\ stuck rest /\ GetSigOpCount [0x51; 0xae; 0x4c] true = 1
    /\ IsPushOnly [0x51; 0xae; 0x4c] = false.
Proof.
  destruct (script_scans [0x51; 0xae; 0x4c] ltac:(vm_compute; discriminate)) as (ops & rest & Hp & Hs & _).
  exists ops, rest. split; [exact Hp|]. split; [exact Hs|]. by vm_compute.
Defined.
