(* ===== verification/Coins.v ===== *)
(** The coins cache (src/bitcoin/src/coins.h, coins.cpp): coins, cache entries
    with their DIRTY and FRESH flags, the linked list of flagged entries, the
    cursor that a flush hands to the parent view, and [CCoinsViewCache].

    A view is an instance of the class [CoinsView]: the operations of
    [CCoinsView] and the contract a cache relies on.  A cache over any view is
    again a view, so caches stack. *)

From S2P Require Import Prelude Serialize MerkleDamgard Sha2 Hash Transaction Script.

(** * Coins *)

Record Coin := MkCoin { out : CTxOut; fCoinBase : bool; coin_nHeight : Z }.

#[export] Instance Coin_eq_dec : EqDecision Coin.
Proof. solve_decision. Defined.

(** [Coin(out, nHeightIn, fCoinBaseIn)]: the height is a 31-bit field. *)
Definition Coin_new (o : CTxOut) (nHeightIn : Z) (fCoinBaseIn : bool) : Coin :=
  MkCoin o fCoinBaseIn (wrap 31 nHeightIn).

(** [Coin()], and a coin after [Clear()]; also [coinEmpty]. *)
Definition coinEmpty : Coin := MkCoin CTxOut_null false 0.
Definition Coin_Clear (c : Coin) : Coin := coinEmpty.

Definition IsSpent (c : Coin) : bool := CTxOut_IsNull (out c).

(** A coin whose contents were moved out: the script is gone, the rest stays. *)
Definition moved_from (c : Coin) : Coin :=
  MkCoin (TxOut (nValue (out c)) []) (fCoinBase c) (coin_nHeight c).

(** * Cache entries *)

(** [m_flags] as its two bits. *)
Record CCoinsCacheEntry := CacheEntry { coin : Coin; IsDirty : bool; IsFresh : bool }.

#[export] Instance CCoinsCacheEntry_eq_dec : EqDecision CCoinsCacheEntry.
Proof. solve_decision. Defined.

Definition entry_flagged (e : CCoinsCacheEntry) : bool := IsDirty e || IsFresh e.

(** What a flush works on, in the child: the map, the flagged entries in the
    order of the linked list from the sentinel on, and the usage counter. *)
Record coins_state := CoinsState {
  cs_map : gmap COutPoint CCoinsCacheEntry;
  cs_list : list COutPoint;
  cs_usage : Z;
}.

Definition cs_empty : coins_state := CoinsState ∅ [] 0.

(** [AddFlags]: the first flag links the entry before the sentinel. *)
Definition AddFlags (dirty fresh : bool) (k : COutPoint) (s : coins_state) : coins_state :=
  match cs_map s !! k with
  | Some e =>
      CoinsState (<[k := CacheEntry (coin e) (IsDirty e || dirty) (IsFresh e || fresh)]> (cs_map s))
        (if entry_flagged e then cs_list s else cs_list s ++ [k]) (cs_usage s)
  | None => s
  end.

Definition SetDirty : COutPoint -> coins_state -> coins_state := AddFlags true false.
Definition SetFresh : COutPoint -> coins_state -> coins_state := AddFlags false true.

(** [SetClean]: unlink. *)
Definition SetClean (k : COutPoint) (s : coins_state) : coins_state :=
  match cs_map s !! k with
  | Some e =>
      if entry_flagged e
      then CoinsState (<[k := CacheEntry (coin e) false false]> (cs_map s))
             (filter (fun k' => k' <> k) (cs_list s)) (cs_usage s)
      else s
  | None => s
  end.

(** [map.erase]: the destructor of the entry unlinks it. *)
Definition cs_erase (k : COutPoint) (s : coins_state) : coins_state :=
  let s := SetClean k s in
  CoinsState (delete k (cs_map s)) (cs_list s) (cs_usage s).

Definition set_coin (k : COutPoint) (c : Coin) (s : coins_state) : coins_state :=
  match cs_map s !! k with
  | Some e => CoinsState (<[k := CacheEntry c (IsDirty e) (IsFresh e)]> (cs_map s)) (cs_list s) (cs_usage s)
  | None => s
  end.

(** A new default entry, as [try_emplace(k)] makes it. *)
Definition cs_emplace (k : COutPoint) (c : Coin) (s : coins_state) : coins_state :=
  CoinsState (<[k := CacheEntry c false false]> (cs_map s)) (cs_list s) (cs_usage s).

(** [size_t] arithmetic on the counter. *)
Definition usage_add (n : Z) (s : coins_state) : coins_state :=
  CoinsState (cs_map s) (cs_list s) (u64 (cs_usage s + n)).
Definition usage_sub (n : Z) (s : coins_state) : coins_state :=
  CoinsState (cs_map s) (cs_list s) (u64 (cs_usage s - n)).

(** * The contents of a view *)

(** The unspent coin an entry stands for. *)
Definition entry_view (e : CCoinsCacheEntry) : option Coin :=
  if IsSpent (coin e) then None else Some (coin e).

(** The coins seen through the cache entries [m] over the coins [b]. *)
Definition overlay (m : gmap COutPoint CCoinsCacheEntry) (b : gmap COutPoint Coin) : gmap COutPoint Coin :=
  merge (fun e c => match e with Some e => entry_view e | None => c end) m b.

Section Coins.

(** [memusage::DynamicUsage(scriptPubKey)]: the heap memory of a script, which
    depends on the allocator. *)
Context (DynamicUsage : bytes -> Z).

Definition DynamicMemoryUsage (c : Coin) : Z := DynamicUsage (scriptPubKey (out c)).

(** [CoinsViewCacheCursor::NextAndMaybeErase], its effect on the child. *)
Definition NextAndMaybeErase (will_erase : bool) (k : COutPoint) (child : coins_state) : coins_state :=
  if will_erase then child
  else
    match cs_map child !! k with
    | Some e =>
        if IsSpent (coin e) then cs_erase k (usage_sub (DynamicMemoryUsage (coin e)) child)
        else SetClean k child
    | None => child
    end.

Definition WillErase (will_erase : bool) (e : CCoinsCacheEntry) : bool :=
  will_erase || IsSpent (coin e).

(** * The interface of a view

    [GetCoin] and [GetBestBlock] are const methods that may fill caches, so the
    view is threaded through them.  [BatchWrite view child will_erase hash]
    walks over the flagged entries of [child]; it returns the success flag, the
    view and the child as the cursor leaves it, or the exception. *)

Class CoinsViewOps (V : Type) := {
  view_GetCoin : V -> COutPoint -> option Coin * V;
  view_GetBestBlock : V -> bytes * V;
  view_BatchWrite : V -> coins_state -> bool -> bytes -> result string (bool * V * coins_state);
}.

(** * The cache *)

Record CCoinsViewCache (V : Type) := Cache {
  base : V;
  hashBlock : bytes;
  cache : coins_state;
}.
Arguments Cache {V} base hashBlock cache.
Arguments base {V} c.
Arguments hashBlock {V} c.
Arguments cache {V} c.

Section Cache.
Context {V : Type} {OPS : CoinsViewOps V}.

Definition CCoinsViewCache_new (baseIn : V) : CCoinsViewCache V := Cache baseIn uint256_null cs_empty.

Definition with_cache (c : CCoinsViewCache V) (s : coins_state) : CCoinsViewCache V :=
  Cache (base c) (hashBlock c) s.

(** [FetchCoin]: the entry for the outpoint, [None] for [cacheCoins.end()]. *)
Definition FetchCoin (c : CCoinsViewCache V) (outpoint : COutPoint)
    : option CCoinsCacheEntry * CCoinsViewCache V :=
  match cs_map (cache c) !! outpoint with
  | Some e => (Some e, c)
  | None =>
      let '(r, b) := view_GetCoin (base c) outpoint in
      let c := Cache b (hashBlock c) (cache c) in
      match r with
      | Some co =>
          let s := cs_emplace outpoint co (cache c) in
          let s := usage_add (DynamicMemoryUsage co) s in
          let s := if IsSpent co then SetFresh outpoint s else s in
          (cs_map s !! outpoint, with_cache c s)
      | None => (None, c)
      end
  end.

Definition CCoinsViewCache_GetCoin (c : CCoinsViewCache V) (outpoint : COutPoint)
    : option Coin * CCoinsViewCache V :=
  let '(it, c) := FetchCoin c outpoint in
  match it with
  | Some e => (if negb (IsSpent (coin e)) then Some (coin e) else None, c)
  | None => (None, c)
  end.

(** [AddCoin].  An exception, or the failed assertion, is [Err] of its message
    and of the state it leaves behind. *)
Definition AddCoin (c : CCoinsViewCache V) (outpoint : COutPoint) (co : Coin)
    (possible_overwrite : bool) : result (string * CCoinsViewCache V) (CCoinsViewCache V) :=
  if IsSpent co then Err ("assert(!coin.IsSpent())", c)
  else if IsUnspendable (scriptPubKey (out co)) then Ok c
  else
    let '(e, s) :=
      match cs_map (cache c) !! outpoint with
      | Some e => (e, usage_sub (DynamicMemoryUsage (coin e)) (cache c))
      | None => (CacheEntry coinEmpty false false, cs_emplace outpoint coinEmpty (cache c))
      end in
    if negb possible_overwrite && negb (IsSpent (coin e))
    then Err ("Attempted to overwrite an unspent coin (when possible_overwrite is false)", with_cache c s)
    else
      let fresh := negb possible_overwrite && negb (IsDirty e) in
      let s := set_coin outpoint co s in
      let s := SetDirty outpoint s in
      let s := if fresh then SetFresh outpoint s else s in
      Ok (with_cache c (usage_add (DynamicMemoryUsage co) s)).

Definition EmplaceCoinInternalDANGER (c : CCoinsViewCache V) (outpoint : COutPoint) (co : Coin)
    : CCoinsViewCache V :=
  let s := usage_add (DynamicMemoryUsage co) (cache c) in
  match cs_map s !! outpoint with
  | Some _ => with_cache c s
  | None => with_cache c (SetDirty outpoint (cs_emplace outpoint co s))
  end.

(** [SpendCoin]; the second component is what [*moveout] receives. *)
Definition SpendCoin (c : CCoinsViewCache V) (outpoint : COutPoint)
    : bool * option Coin * CCoinsViewCache V :=
  let '(it, c) := FetchCoin c outpoint in
  match it with
  | None => (false, None, c)
  | Some e =>
      let s := usage_sub (DynamicMemoryUsage (coin e)) (cache c) in
      let s := if IsFresh e then cs_erase outpoint s
               else set_coin outpoint (Coin_Clear (coin e)) (SetDirty outpoint s) in
      (true, Some (coin e), with_cache c s)
  end.

Definition AccessCoin (c : CCoinsViewCache V) (outpoint : COutPoint) : Coin * CCoinsViewCache V :=
  let '(it, c) := FetchCoin c outpoint in
  (match it with Some e => coin e | None => coinEmpty end, c).

Definition HaveCoin (c : CCoinsViewCache V) (outpoint : COutPoint) : bool * CCoinsViewCache V :=
  let '(it, c) := FetchCoin c outpoint in
  (match it with Some e => negb (IsSpent (coin e)) | None => false end, c).

Definition HaveCoinInCache (c : CCoinsViewCache V) (outpoint : COutPoint) : bool :=
  match cs_map (cache c) !! outpoint with
  | Some e => negb (IsSpent (coin e))
  | None => false
  end.

Definition CCoinsViewCache_GetBestBlock (c : CCoinsViewCache V) : bytes * CCoinsViewCache V :=
  if bool_decide (hashBlock c = uint256_null) then
    let '(h, b) := view_GetBestBlock (base c) in (h, Cache b h (cache c))
  else (hashBlock c, c).

Definition SetBestBlock (c : CCoinsViewCache V) (hashBlockIn : bytes) : CCoinsViewCache V :=
  Cache (base c) hashBlockIn (cache c).

(** One iteration of the loop of [BatchWrite]: the parent state and the child
    state after the body and the step of the cursor. *)
Definition batch_step (will_erase : bool) (us child : coins_state) (k : COutPoint)
    : result string (coins_state * coins_state) :=
  match cs_map child !! k with
  | None => Ok (us, child)
  | Some it =>
      let next child := NextAndMaybeErase will_erase k child in
      let child_moved := if WillErase will_erase it then set_coin k (moved_from (coin it)) child else child in
      if negb (IsDirty it) then Ok (us, next child)
      else
        match cs_map us !! k with
        | None =>
            if negb (IsFresh it && IsSpent (coin it)) then
              let us := cs_emplace k (coin it) us in
              let us := usage_add (DynamicMemoryUsage (coin it)) us in
              let us := SetDirty k us in
              let us := if IsFresh it then SetFresh k us else us in
              Ok (us, next child_moved)
            else Ok (us, next child)
        | Some itUs =>
            if IsFresh it && negb (IsSpent (coin itUs))
            then Err "FRESH flag misapplied to coin that exists in parent cache"
            else if IsFresh itUs && IsSpent (coin it) then
              let us := usage_sub (DynamicMemoryUsage (coin itUs)) us in
              Ok (cs_erase k us, next child)
            else
              let us := usage_sub (DynamicMemoryUsage (coin itUs)) us in
              let us := set_coin k (coin it) us in
              let us := usage_add (DynamicMemoryUsage (coin it)) us in
              Ok (SetDirty k us, next child_moved)
        end
  end.

(** The loop over the linked list, each step taken from the entry it leaves. *)
Fixpoint batch_loop (will_erase : bool) (us child : coins_state) (ks : list COutPoint)
    : result string (coins_state * coins_state) :=
  match ks with
  | [] => Ok (us, child)
  | k :: ks =>
      r ← batch_step will_erase us child k;
      batch_loop will_erase r.1 r.2 ks
  end.

Definition CCoinsViewCache_BatchWrite (c : CCoinsViewCache V) (child : coins_state)
    (will_erase : bool) (hashBlockIn : bytes) : result string (bool * CCoinsViewCache V * coins_state) :=
  r ← batch_loop will_erase (cache c) child (cs_list child);
  Ok (true, Cache (base c) hashBlockIn r.1, r.2).

#[export] Instance CCoinsViewCache_ops : CoinsViewOps (CCoinsViewCache V) := {|
  view_GetCoin := CCoinsViewCache_GetCoin;
  view_GetBestBlock := CCoinsViewCache_GetBestBlock;
  view_BatchWrite := CCoinsViewCache_BatchWrite;
|}.

(** [Flush]: the map is cleared when the base accepted the batch; the counter is
    reset in any case. *)
Definition Flush (c : CCoinsViewCache V) : result string (bool * CCoinsViewCache V) :=
  match view_BatchWrite (base c) (cache c) true (hashBlock c) with
  | Err e => Err e
  | Ok (fOk, b, child) =>
      let s := if fOk then cs_empty else child in
      Ok (fOk, Cache b (hashBlock c) (CoinsState (cs_map s) (cs_list s) 0))
  end.

Definition Sync (c : CCoinsViewCache V) : result string (bool * CCoinsViewCache V) :=
  match view_BatchWrite (base c) (cache c) false (hashBlock c) with
  | Err e => Err e
  | Ok (fOk, b, child) =>
      if fOk && negb (bool_decide (cs_list child = []))
      then Err "Not all unspent flagged entries were cleared"
      else Ok (fOk, Cache b (hashBlock c) child)
  end.

Definition Uncache (c : CCoinsViewCache V) (hash : COutPoint) : CCoinsViewCache V :=
  match cs_map (cache c) !! hash with
  | Some e =>
      if negb (IsDirty e) && negb (IsFresh e)
      then with_cache c (cs_erase hash (usage_sub (DynamicMemoryUsage (coin e)) (cache c)))
      else c
  | None => c
  end.

Definition GetCacheSize (c : CCoinsViewCache V) : Z := u32 (Z.of_nat (size (cs_map (cache c)))).

Fixpoint have_all (c : CCoinsViewCache V) (ins : list CTxIn) : bool * CCoinsViewCache V :=
  match ins with
  | [] => (true, c)
  | i :: ins =>
      let '(b, c) := HaveCoin c (prevout i) in
      if b then have_all c ins else (false, c)
  end.

Definition HaveInputs (c : CCoinsViewCache V) (tx : CTransaction) : bool * CCoinsViewCache V :=
  if negb (IsCoinBase tx) then have_all c (vin tx) else (true, c).

(** [AddCoins]: the outputs from index [i] on. *)
Fixpoint add_coins_from (c : CCoinsViewCache V) (txid : bytes) (fCoinbase : bool) (nHeight i : Z)
    (check_for_overwrite : bool) (outs : list CTxOut)
    : result (string * CCoinsViewCache V) (CCoinsViewCache V) :=
  match outs with
  | [] => Ok c
  | o :: outs =>
      let '(overwrite, c) :=
        if check_for_overwrite then HaveCoin c (OutPoint txid i) else (fCoinbase, c) in
      c ← AddCoin c (OutPoint txid i) (Coin_new o nHeight fCoinbase) overwrite;
      add_coins_from c txid fCoinbase nHeight (i + 1) check_for_overwrite outs
  end.

Definition AddCoins (c : CCoinsViewCache V) (tx : CTransaction) (nHeight : Z) (check_for_overwrite : bool)
    : result (string * CCoinsViewCache V) (CCoinsViewCache V) :=
  add_coins_from c (ComputeHash tx) (IsCoinBase tx) nHeight 0 check_for_overwrite (vout tx).

(** [AccessByTxid]: the first unspent output of a transaction. *)
Definition MIN_TRANSACTION_OUTPUT_WEIGHT : Z :=
  WITNESS_SCALE_FACTOR * Z.of_nat (length (ser_txout CTxOut_null)).
Definition MAX_OUTPUTS_PER_BLOCK : Z := MAX_BLOCK_WEIGHT / MIN_TRANSACTION_OUTPUT_WEIGHT.

Fixpoint access_from (fuel : nat) (c : CCoinsViewCache V) (txid : bytes) (n : Z) : Coin * CCoinsViewCache V :=
  match fuel with
  | O => (coinEmpty, c)
  | S fuel =>
      let '(alternate, c) := AccessCoin c (OutPoint txid n) in
      if negb (IsSpent alternate) then (alternate, c) else access_from fuel c txid (n + 1)
  end.

Definition AccessByTxid (c : CCoinsViewCache V) (txid : bytes) : Coin * CCoinsViewCache V :=
  access_from (Z.to_nat MAX_OUTPUTS_PER_BLOCK) c txid 0.

(** The assertions of [SanityCheck], on the map, the list and the counter. *)
Definition entry_attr (e : CCoinsCacheEntry) : Z :=
  (if IsDirty e then 1 else 0) + (if IsFresh e then 2 else 0) + (if IsSpent (coin e) then 4 else 0).

Definition recomputed_usage (m : gmap COutPoint CCoinsCacheEntry) : Z :=
  map_fold (fun _ e acc => u64 (acc + DynamicMemoryUsage (coin e))) 0 m.

Definition SanityCheck (c : CCoinsViewCache V) : bool :=
  let s := cache c in
  forallb (fun '(_, e) => negb (entry_attr e =? 2) && negb (entry_attr e =? 4) && negb (entry_attr e =? 7))
    (map_to_list (cs_map s))
  && forallb (fun k => match cs_map s !! k with Some e => entry_flagged e | None => false end) (cs_list s)
  && (length (cs_list s) =? length (filter (fun '(_, e) => entry_flagged e) (map_to_list (cs_map s))))%nat
  && (recomputed_usage (cs_map s) =? cs_usage s).

End Cache.
End Coins.

Arguments Cache {V} base hashBlock cache.
Arguments base {V} c.
Arguments hashBlock {V} c.
Arguments cache {V} c.
