(* ===== verification/CoinsProofs.v ===== *)
(** The coins cache is transparent: the invariant of [CCoinsViewCache], the
    refinement of its operations to a finite map of unspent coins, and the
    contract of a view, which a cache over a view satisfies again. *)

From S2P Require Import Prelude Serialize MerkleDamgard Sha2 Hash Transaction Script Coins.

Section Contract.
Context (DynamicUsage : bytes -> Z).
Abbreviation DMU := (DynamicMemoryUsage DynamicUsage).

(** * The invariant of a cache state over the coins [b] of its base *)

(** Out of the eight combinations of flags only four occur: unspent and clean
    (then the base has this coin), unspent and DIRTY, unspent and DIRTY and
    FRESH (then the base has no coin), spent and DIRTY. *)
Definition entry_ok (e : CCoinsCacheEntry) (bk : option Coin) : Prop :=
  (IsDirty e = false -> IsFresh e = false /\ bk = Some (coin e) /\ IsSpent (coin e) = false)
  /\ (IsFresh e = true -> IsSpent (coin e) = false /\ bk = None)
  /\ (IsSpent (coin e) = true -> coin e = coinEmpty).

Definition total_usage (m : gmap COutPoint CCoinsCacheEntry) : Z :=
  map_fold (fun _ e acc => DMU (coin e) + acc) 0 m.

Record state_ok (s : coins_state) (b : gmap COutPoint Coin) : Prop := {
  so_nodup : NoDup (cs_list s);
  so_list : forall k, k ∈ cs_list s <-> exists e, cs_map s !! k = Some e /\ entry_flagged e = true;
  so_entry : forall k e, cs_map s !! k = Some e -> entry_ok e (b !! k);
  so_usage : cs_usage s = u64 (total_usage (cs_map s));
}.

(** What remains of the child of a [Sync]. *)
Definition synced (m : gmap COutPoint CCoinsCacheEntry) : gmap COutPoint CCoinsCacheEntry :=
  omap (fun e => if IsSpent (coin e) then None else Some (CacheEntry (coin e) false false)) m.

(** * The contract of a view *)

Class CoinsView (V : Type) {OPS : CoinsViewOps V} := {
  view_ok : V -> Prop;
  view_coins : V -> gmap COutPoint Coin;
  view_best : V -> bytes;
  view_unspent v k c : view_ok v -> view_coins v !! k = Some c -> IsSpent c = false;
  view_GetCoin_spec v o : view_ok v ->
    (view_GetCoin v o).1 = view_coins v !! o
    /\ view_ok (view_GetCoin v o).2
    /\ view_coins (view_GetCoin v o).2 = view_coins v
    /\ view_best (view_GetCoin v o).2 = view_best v;
  view_GetBestBlock_spec v : view_ok v ->
    (view_GetBestBlock v).1 = view_best v
    /\ view_ok (view_GetBestBlock v).2
    /\ view_coins (view_GetBestBlock v).2 = view_coins v
    /\ view_best (view_GetBestBlock v).2 = view_best v;
  view_BatchWrite_spec v child we h :
    view_ok v -> state_ok child (view_coins v) -> h <> uint256_null ->
    exists fOk v' child', view_BatchWrite v child we h = Ok (fOk, v', child')
      /\ (fOk = true ->
          view_ok v' /\ view_coins v' = overlay (cs_map child) (view_coins v) /\ view_best v' = h
          /\ (we = false -> child' = CoinsState (synced (cs_map child)) [] (cs_usage child)));
}.

(** * Lookups and usage *)

Lemma lookup_overlay m b k :
  overlay m b !! k = match m !! k with Some e => entry_view e | None => b !! k end.
Proof.
  unfold overlay. rewrite lookup_merge. unfold diag_None.
  by destruct (m !! k), (b !! k).
Qed.

Lemma lookup_synced m k :
  synced m !! k
  = match m !! k with
    | Some e => if IsSpent (coin e) then None else Some (CacheEntry (coin e) false false)
    | None => None
    end.
Proof. unfold synced. rewrite lookup_omap. by destruct (m !! k). Qed.

Lemma total_usage_insert m k e :
  m !! k = None -> total_usage (<[k := e]> m) = DMU (coin e) + total_usage m.
Proof.
  intros H. unfold total_usage.
  apply (map_fold_insert_L (fun _ e acc => DMU (coin e) + acc)); [|done]. intros. lia.
Qed.

Lemma total_usage_delete m k e :
  m !! k = Some e -> total_usage (delete k m) = total_usage m - DMU (coin e).
Proof.
  intros H. rewrite <- (insert_delete_id m k e H) at 2.
  rewrite total_usage_insert by apply lookup_delete_eq. lia.
Qed.

Lemma total_usage_replace m k e e' :
  m !! k = Some e -> total_usage (<[k := e']> m) = total_usage m - DMU (coin e) + DMU (coin e').
Proof.
  intros H. rewrite <- insert_delete_eq, total_usage_insert by apply lookup_delete_eq.
  rewrite (total_usage_delete m k e H). lia.
Qed.

(** * One change of a state

    Every operation of the cache replaces, adds or removes one entry; the list
    and the counter follow. *)

Definition was_flagged (s : coins_state) (k : COutPoint) : bool :=
  match cs_map s !! k with Some e => entry_flagged e | None => false end.

Definition relink (s : coins_state) (k : COutPoint) (now : bool) : list COutPoint :=
  if was_flagged s k
  then if now then cs_list s else filter (fun k' => k' <> k) (cs_list s)
  else if now then cs_list s ++ [k] else cs_list s.

Definition usage_of (oe : option CCoinsCacheEntry) : Z :=
  match oe with Some e => DMU (coin e) | None => 0 end.

Definition cs_update (k : COutPoint) (oe : option CCoinsCacheEntry) (s : coins_state) : coins_state :=
  CoinsState (match oe with Some e => <[k := e]> (cs_map s) | None => delete k (cs_map s) end)
    (relink s k (match oe with Some e => entry_flagged e | None => false end))
    (u64 (cs_usage s - usage_of (cs_map s !! k) + usage_of oe)).

Lemma cs_update_lookup k oe s : cs_map (cs_update k oe s) !! k = oe.
Proof. cbn. destruct oe; [apply lookup_insert_eq|apply lookup_delete_eq]. Qed.

Lemma cs_update_lookup_ne k k' oe s : k' <> k -> cs_map (cs_update k oe s) !! k' = cs_map s !! k'.
Proof. intros. cbn. destruct oe; [by apply lookup_insert_ne|by apply lookup_delete_ne]. Qed.

Lemma total_usage_update k oe s :
  total_usage (cs_map (cs_update k oe s))
  = total_usage (cs_map s) - usage_of (cs_map s !! k) + usage_of oe.
Proof.
  cbn. destruct (cs_map s !! k) as [e|] eqn:E; destruct oe as [e'|]; cbn.
  - by apply total_usage_replace.
  - rewrite (total_usage_delete _ _ _ E). lia.
  - rewrite total_usage_insert by done. lia.
  - rewrite delete_id by done. lia.
Qed.

Lemma elem_of_relink s k now b k' :
  state_ok s b -> k' ∈ relink s k now <-> (if decide (k' = k) then now = true else k' ∈ cs_list s).
Proof.
  intros Hs. unfold relink, was_flagged.
  pose proof (so_list _ _ Hs k) as Hk.
  destruct (cs_map s !! k) as [e|] eqn:E; [destruct (entry_flagged e) eqn:Ef|];
    destruct now, (decide (k' = k)) as [->|Hne];
    rewrite ?list_elem_of_filter, ?elem_of_app, ?list_elem_of_singleton, ?Hk;
    try (intuition congruence); naive_solver.
Qed.

Lemma NoDup_relink s k now b : state_ok s b -> NoDup (relink s k now).
Proof.
  intros Hs. pose proof (so_nodup _ _ Hs) as Hnd. unfold relink, was_flagged.
  pose proof (so_list _ _ Hs k) as Hk.
  destruct (cs_map s !! k) as [e|] eqn:E; [destruct (entry_flagged e) eqn:Ef|]; destruct now; try done;
    try (by apply list.NoDup_filter);
    (apply list.NoDup_app; split_and!; [done| |apply list.NoDup_singleton]);
    intros x Hx ->%list_elem_of_singleton; apply Hk in Hx as (e' & He' & Hf); congruence.
Qed.

(** The invariant is local. *)
Lemma state_ok_update k oe s b :
  state_ok s b -> (forall e, oe = Some e -> entry_ok e (b !! k)) -> state_ok (cs_update k oe s) b.
Proof.
  intros Hs He. constructor.
  - by eapply NoDup_relink.
  - intros k'. change (cs_list (cs_update k oe s)) with
      (relink s k (match oe with Some e => entry_flagged e | None => false end)).
    rewrite elem_of_relink by done. destruct (decide (k' = k)) as [->|Hne].
    + rewrite cs_update_lookup. destruct oe; naive_solver.
    + rewrite cs_update_lookup_ne by done. apply Hs.
  - intros k' e'. destruct (decide (k' = k)) as [->|Hne].
    + rewrite cs_update_lookup. intros ->. by apply He.
    + rewrite cs_update_lookup_ne by done. apply Hs.
  - rewrite total_usage_update. cbn. rewrite (so_usage _ _ Hs). unfold wrap.
    rewrite <- !Z.add_opp_r, <- !Z.add_assoc. by rewrite Z.add_mod_idemp_l by lia.
Qed.

Lemma overlay_update k oe s b :
  overlay (cs_map (cs_update k oe s)) b
  = match oe with
    | Some e => partial_alter (fun _ => entry_view e) k (overlay (cs_map s) b)
    | None => partial_alter (fun _ => b !! k) k (overlay (cs_map s) b)
    end.
Proof.
  apply map_eq. intros k'. rewrite lookup_overlay. destruct (decide (k' = k)) as [->|Hne].
  - rewrite cs_update_lookup. by destruct oe; rewrite lookup_partial_alter_eq.
  - rewrite cs_update_lookup_ne by done. by destruct oe; rewrite lookup_partial_alter_ne, lookup_overlay.
Qed.

(** * The operations on the state are such changes *)

Hypothesis DynamicUsage_nil : DynamicUsage [] = 0.

Lemma DMU_empty : DMU coinEmpty = 0.
Proof. exact DynamicUsage_nil. Qed.

Lemma u64_idem a b : u64 (u64 a + b) = u64 (a + b).
Proof. unfold wrap. by rewrite Z.add_mod_idemp_l by lia. Qed.

Ltac cs_unfold :=
  unfold cs_update, relink, was_flagged, usage_of, SetDirty, SetFresh, AddFlags, cs_erase, SetClean,
    set_coin, cs_emplace, usage_add, usage_sub in *; cbn [cs_map cs_list cs_usage] in *.

Ltac cs_simpl :=
  repeat first
    [ rewrite lookup_insert_eq | rewrite insert_insert_eq | rewrite delete_insert_eq
    | progress cbn [cs_map cs_list cs_usage coin IsDirty IsFresh orb entry_flagged]
    | match goal with H : _ !! _ = _ |- _ => rewrite H end ].

Ltac cs_solve :=
  cs_unfold; cs_simpl; unfold entry_flagged; cbn [coin IsDirty IsFresh orb];
  repeat match goal with e : CCoinsCacheEntry |- _ => destruct e as [? [] []] end;
  cbn [coin IsDirty IsFresh orb] in *; cs_simpl;
  rewrite ?orb_true_r, ?orb_false_r, ?DMU_empty;
  try congruence; f_equal;
  rewrite <- ?Z.add_opp_r, ?u64_idem; try (f_equal; lia).

Lemma fetch_update k co s :
  cs_map s !! k = None ->
  usage_add (DMU co) (cs_emplace k co s) = cs_update k (Some (CacheEntry co false false)) s.
Proof. intros H. cs_solve. Qed.

Lemma put_new_update k co (fresh : bool) s :
  cs_map s !! k = None ->
  usage_add (DMU co)
    ((if fresh then SetFresh k else id) (SetDirty k (set_coin k co (cs_emplace k coinEmpty s))))
  = cs_update k (Some (CacheEntry co true fresh)) s.
Proof. intros H. destruct fresh; unfold id; cs_solve. Qed.

Lemma put_update k co (fresh : bool) e s :
  cs_map s !! k = Some e ->
  usage_add (DMU co)
    ((if fresh then SetFresh k else id) (SetDirty k (set_coin k co (usage_sub (DMU (coin e)) s))))
  = cs_update k (Some (CacheEntry co true (IsFresh e || fresh))) s.
Proof. intros H. destruct fresh; unfold id; cs_solve. Qed.

Lemma erase_update k e s :
  cs_map s !! k = Some e ->
  cs_erase k (usage_sub (DMU (coin e)) s) = cs_update k None s.
Proof. intros H. cs_solve. Qed.

Lemma clear_update k e s :
  cs_map s !! k = Some e -> IsFresh e = false ->
  set_coin k (Coin_Clear (coin e)) (SetDirty k (usage_sub (DMU (coin e)) s))
  = cs_update k (Some (CacheEntry coinEmpty true false)) s.
Proof. intros H Hf. unfold Coin_Clear. cs_solve. Qed.

Lemma batch_new_update k co (fresh : bool) s :
  cs_map s !! k = None ->
  (if fresh then SetFresh k else id) (SetDirty k (usage_add (DMU co) (cs_emplace k co s)))
  = cs_update k (Some (CacheEntry co true fresh)) s.
Proof. intros H. destruct fresh; unfold id; cs_solve. Qed.

Lemma batch_put_update k co e s :
  cs_map s !! k = Some e ->
  SetDirty k (usage_add (DMU co) (set_coin k co (usage_sub (DMU (coin e)) s)))
  = cs_update k (Some (CacheEntry co true (IsFresh e))) s.
Proof. intros H. cs_solve. Qed.

(** * Writing a batch *)

(** The child after the step over [k]. *)
Definition child_step (we : bool) (k : COutPoint) (moved : bool) (child : coins_state) : coins_state :=
  NextAndMaybeErase DynamicUsage we k
    (match cs_map child !! k with
     | Some e => if moved && WillErase we e then set_coin k (moved_from (coin e)) child else child
     | None => child
     end).

(** A child entry is pushed into the parent state [us] over the coins [b]: the
    parent's view takes the child's value at [k] and keeps the rest. *)
Lemma batch_step_spec we us child b k it :
  state_ok us b -> (forall k c, b !! k = Some c -> IsSpent c = false) ->
  cs_map child !! k = Some it -> entry_ok it (overlay (cs_map us) b !! k) ->
  exists us' moved, batch_step DynamicUsage we us child k = Ok (us', child_step we k moved child)
    /\ state_ok us' b
    /\ overlay (cs_map us') b = partial_alter (fun _ => entry_view it) k (overlay (cs_map us) b).
Proof.
  intros Hus Hb Hk (Hclean & Hfresh & Hspent). unfold batch_step, child_step. rewrite Hk.
  rewrite lookup_overlay in *.
  assert (Hid : forall x : option Coin, x = entry_view it -> overlay (cs_map us) b !! k = x ->
    overlay (cs_map us) b = partial_alter (fun _ => entry_view it) k (overlay (cs_map us) b)).
  { intros x -> Hx. apply map_eq. intros k'. destruct (decide (k' = k)) as [->|Hne].
    - by rewrite lookup_partial_alter_eq.
    - by rewrite lookup_partial_alter_ne. }
  rewrite lookup_overlay in Hid.
  destruct (IsDirty it) eqn:Ed; cbn [negb].
  2:{ destruct (Hclean eq_refl) as (_ & Hv & Hu). exists us, false. split_and!; [done|done|].
      apply (Hid (Some (coin it))); [unfold entry_view; by rewrite Hu|done]. }
  destruct (cs_map us !! k) as [itUs|] eqn:Eu.
  - pose proof (so_entry _ _ Hus k itUs Eu) as (HcU & HfU & HsU).
    destruct (IsFresh it && negb (IsSpent (coin itUs))) eqn:E1.
    { apply andb_prop in E1 as [E1 E2]. destruct (Hfresh E1) as [_ Hv].
      unfold entry_view in Hv. apply negb_true_iff in E2. by rewrite E2 in Hv. }
    destruct (IsFresh itUs && IsSpent (coin it)) eqn:E2.
    + apply andb_prop in E2 as [E2 E3]. destruct (HfU E2) as [_ Hbk].
      rewrite (erase_update _ itUs) by done. exists (cs_update k None us), false. split_and!; [done| |].
      * by apply state_ok_update.
      * rewrite overlay_update, Hbk. unfold entry_view. by rewrite E3.
    + rewrite (batch_put_update k (coin it) itUs us) by done.
      eexists _, true. split_and!; [reflexivity| |].
      * apply state_ok_update; [done|]. intros e [= <-]. unfold entry_ok. cbn. split_and!; [done| |done].
        intros E3. destruct (HfU E3) as [_ Hbk]. rewrite E3 in E2. done.
      * rewrite overlay_update. done.
  - destruct (negb (IsFresh it && IsSpent (coin it))) eqn:E1.
    + pose proof (batch_new_update k (coin it) (IsFresh it) us Eu) as Hnew.
      destruct (IsFresh it) eqn:Ef; cbn [id] in Hnew; rewrite Hnew; eexists _, true;
        (split_and!; [reflexivity| |by rewrite overlay_update]);
        (apply state_ok_update; [done|]); intros e [= <-]; unfold entry_ok; cbn; (split_and!; [done| |done]).
      * intros _. destruct (Hfresh eq_refl) as [Hs Hv]. done.
      * done.
    + apply negb_false_iff, andb_prop in E1 as [E1 E2]. destruct (Hfresh E1) as [Hs Hv]. congruence.
Qed.

Lemma set_coin_ne k k' c s : k' <> k -> cs_map (set_coin k c s) !! k' = cs_map s !! k'.
Proof. intros. unfold set_coin. destruct (cs_map s !! k); [|done]. by apply lookup_insert_ne. Qed.

Lemma SetClean_ne k k' s : k' <> k -> cs_map (SetClean k s) !! k' = cs_map s !! k'.
Proof.
  intros. unfold SetClean. destruct (cs_map s !! k) as [e|]; [|done].
  destruct (entry_flagged e); [by apply lookup_insert_ne|done].
Qed.

Lemma child_step_ne we k moved child k' :
  k' <> k -> cs_map (child_step we k moved child) !! k' = cs_map child !! k'.
Proof.
  intros Hne. unfold child_step, NextAndMaybeErase, cs_erase.
  set (ch := match cs_map child !! k with Some e => _ | None => child end).
  assert (cs_map ch !! k' = cs_map child !! k') as <-.
  { unfold ch. destruct (cs_map child !! k) as [e|]; [|done].
    destruct (moved && WillErase we e); [by apply set_coin_ne|done]. }
  destruct we; [done|]. destruct (cs_map ch !! k) as [e|]; [|done].
  destruct (IsSpent (coin e)); cbn; [rewrite lookup_delete_ne by done|]; by rewrite SetClean_ne.
Qed.

(** The cursor of a [Sync]: spent entries go, the others become clean. *)
Lemma child_step_sync k moved child it :
  cs_map child !! k = Some it -> entry_flagged it = true ->
  (IsSpent (coin it) = true -> coin it = coinEmpty) -> is_uint 64 (cs_usage child) ->
  child_step false k moved child
  = CoinsState (if IsSpent (coin it) then delete k (cs_map child)
                else <[k := CacheEntry (coin it) false false]> (cs_map child))
      (filter (fun k' => k' <> k) (cs_list child)) (cs_usage child).
Proof.
  intros Hk Hf Hs Hu. unfold child_step, NextAndMaybeErase, WillErase. rewrite Hk. cbn [orb].
  destruct (IsSpent (coin it)) eqn:E; rewrite ?andb_true_r, ?andb_false_r.
  - rewrite Hs by done. change (moved_from coinEmpty) with coinEmpty.
    assert (Hu0 : u64 (cs_usage child - 0) = cs_usage child) by (rewrite Z.sub_0_r; by apply wrap_small).
    destruct moved; unfold set_coin; cs_unfold; cs_simpl; change (IsSpent coinEmpty) with true.
    + cbn [coin]. rewrite DMU_empty, Hu0. unfold entry_flagged in *. cbn. rewrite Hf. cs_simpl.
      by cs_simpl.
    + rewrite E, Hs by done. cbn. rewrite DMU_empty, Hu0. cs_simpl. rewrite Hf. cbn. by cs_simpl.
  - cs_unfold. rewrite Hk, E, Hf. done.
Qed.

Lemma child_step_usage we k moved child it :
  cs_map child !! k = Some it -> entry_flagged it = true ->
  (IsSpent (coin it) = true -> coin it = coinEmpty) -> is_uint 64 (cs_usage child) ->
  cs_usage (child_step we k moved child) = cs_usage child.
Proof.
  intros Hk Hf Hs Hu. destruct we; [|by rewrite (child_step_sync _ _ _ it)].
  unfold child_step, NextAndMaybeErase. rewrite Hk.
  destruct (moved && WillErase true it); [|done]. unfold set_coin. by rewrite Hk.
Qed.

Lemma filter_nil (l : list COutPoint) : filter (fun k => k ∉ @nil COutPoint) l = l.
Proof.
  induction l as [|x l IH]; [done|]. rewrite filter_cons_True by apply not_elem_of_nil. by rewrite IH.
Qed.

Lemma filter_step k ks (l : list COutPoint) :
  filter (fun k' => k' ∉ ks) (filter (fun k' => k' <> k) l) = filter (fun k' => k' ∉ k :: ks) l.
Proof.
  induction l as [|x l IH]; [done|]. rewrite !filter_cons.
  repeat case_decide; rewrite ?filter_cons; repeat case_decide; rewrite ?IH; set_solver.
Qed.

Lemma filter_out (l l' : list COutPoint) : l ⊆ l' -> filter (fun k => k ∉ l') l = [].
Proof.
  induction l as [|x l IH]; intros Hl; [done|].
  rewrite filter_cons_False by (intros Hx; apply Hx; set_solver). apply IH. set_solver.
Qed.

Lemma synced_ext m m' k : m !! k = m' !! k -> synced m !! k = synced m' !! k.
Proof. rewrite !lookup_synced. by intros ->. Qed.

Lemma batch_loop_spec we ks us child b :
  state_ok us b -> (forall k c, b !! k = Some c -> IsSpent c = false) -> NoDup ks ->
  is_uint 64 (cs_usage child) ->
  (forall k, k ∈ ks -> exists it, cs_map child !! k = Some it /\ entry_flagged it = true
                                  /\ entry_ok it (overlay (cs_map us) b !! k)) ->
  exists us' child', batch_loop DynamicUsage we us child ks = Ok (us', child')
    /\ state_ok us' b
    /\ (forall k, overlay (cs_map us') b !! k
          = if decide (k ∈ ks) then overlay (cs_map child) ∅ !! k else overlay (cs_map us) b !! k)
    /\ (we = false ->
        (forall k, cs_map child' !! k
           = if decide (k ∈ ks) then synced (cs_map child) !! k else cs_map child !! k)
        /\ cs_list child' = filter (fun k => k ∉ ks) (cs_list child)
        /\ cs_usage child' = cs_usage child).
Proof.
  intros Hus Hb Hnd. revert us child Hus. induction Hnd as [|k ks Hnin Hnd IH]; intros us child Hus Hu Hks.
  - exists us, child. cbn. split_and!; [done|done|done|]. intros _. by rewrite filter_nil.
  - destruct (Hks k) as (it & Hit & Hf & Hok); [set_solver|].
    destruct (batch_step_spec we us child b k it Hus Hb Hit Hok) as (us1 & moved & Hstep & Hus1 & Hov).
    pose proof Hok as (_ & _ & Hspent).
    pose proof (child_step_usage we k moved child it Hit Hf Hspent Hu) as Hu1.
    cbn [batch_loop]. rewrite Hstep. unfold mbind, result_bind. cbn [fst snd].
    destruct (IH us1 (child_step we k moved child)) as (us' & child' & -> & Hus' & Hov' & Hsync);
      [done|by rewrite Hu1| |].
    { intros k' Hk'. assert (k' <> k) as Hne by congruence. rewrite child_step_ne by done.
      rewrite Hov, lookup_partial_alter_ne by done. apply Hks. set_solver. }
    exists us', child'. split_and!; [done|done| |].
    + intros k'. rewrite Hov'. destruct (decide (k' = k)) as [->|Hne].
      * rewrite decide_False by done. rewrite decide_True by set_solver.
        by rewrite Hov, lookup_partial_alter_eq, lookup_overlay, Hit.
      * rewrite !lookup_overlay, child_step_ne by done. rewrite <- !lookup_overlay.
        rewrite Hov, lookup_partial_alter_ne by done.
        repeat case_decide; set_solver.
    + intros ->. destruct (Hsync eq_refl) as (Hm & Hl & Hus2).
      rewrite (child_step_sync k moved child it) in Hl by done.
      split_and!; [|rewrite Hl; apply filter_step|by rewrite Hus2].
      intros k'. rewrite Hm. destruct (decide (k' = k)) as [->|Hne].
      * rewrite decide_False by done. rewrite decide_True by set_solver.
        rewrite (child_step_sync k moved child it) by done. rewrite lookup_synced, Hit. cbn.
        destruct (IsSpent (coin it)); [apply lookup_delete_eq|apply lookup_insert_eq].
      * rewrite (synced_ext _ (cs_map child)) by (by apply child_step_ne).
        rewrite child_step_ne by done. repeat case_decide; set_solver.
Qed.

(** All flagged entries visited: what is left of the child. *)
Lemma sync_state_eq child child' b :
  state_ok child b ->
  (forall k, cs_map child' !! k
     = if decide (k ∈ cs_list child) then synced (cs_map child) !! k else cs_map child !! k) ->
  cs_list child' = filter (fun k => k ∉ cs_list child) (cs_list child) ->
  cs_usage child' = cs_usage child ->
  child' = CoinsState (synced (cs_map child)) [] (cs_usage child).
Proof.
  intros Hch Hm Hli Hu. destruct child' as [m l u]. cbn in *. f_equal; [|rewrite Hli; by apply filter_out|done].
  apply map_eq. intros k. rewrite Hm. case_decide as Hin; [done|].
  rewrite lookup_synced. destruct (cs_map child !! k) as [e|] eqn:He; [|done].
  destruct (entry_flagged e) eqn:Ef; [exfalso; apply Hin, (so_list _ _ Hch); eauto|].
  pose proof (so_entry _ _ Hch k e He) as (Hc & _ & _).
  destruct e as [c d f]. apply orb_false_elim in Ef as [Ed Ef]. cbn in *. subst.
  destruct (Hc eq_refl) as (_ & _ & ->). done.
Qed.

(** The whole batch, for a child that satisfies the invariant over the parent. *)
Lemma batch_write_spec we us child b :
  state_ok us b -> (forall k c, b !! k = Some c -> IsSpent c = false) ->
  state_ok child (overlay (cs_map us) b) ->
  exists us' child', batch_loop DynamicUsage we us child (cs_list child) = Ok (us', child')
    /\ state_ok us' b
    /\ overlay (cs_map us') b = overlay (cs_map child) (overlay (cs_map us) b)
    /\ (we = false -> child' = CoinsState (synced (cs_map child)) [] (cs_usage child)).
Proof.
  intros Hus Hb Hch.
  destruct (batch_loop_spec we (cs_list child) us child b Hus Hb (so_nodup _ _ Hch))
    as (us' & child' & Hl & Hus' & Hov & Hsync).
  { rewrite (so_usage _ _ Hch). apply wrap_range. lia. }
  { intros k Hk. apply (so_list _ _ Hch) in Hk as (e & He & Hf). exists e. split_and!; [done|done|].
    by apply (so_entry _ _ Hch). }
  exists us', child'. split_and!; [done|done| |].
  - apply map_eq. intros k. rewrite Hov, (lookup_overlay (cs_map child) (overlay _ _)).
    pose proof (so_list _ _ Hch k) as Hk. case_decide as Hin.
    + apply Hk in Hin as (e & He & _). by rewrite lookup_overlay, He.
    + destruct (cs_map child !! k) as [e|] eqn:He; [|done].
      pose proof (so_entry _ _ Hch k e He) as (Hc & _ & _).
      destruct (entry_flagged e) eqn:Ef; [exfalso; apply Hin, Hk; eauto|].
      apply orb_false_elim in Ef as [Ed _]. destruct (Hc Ed) as (_ & -> & Hs).
      unfold entry_view. by rewrite Hs.
  - intros Hwe. destruct (Hsync Hwe) as (Hm & Hli & Hu). by apply (sync_state_eq _ _ (overlay (cs_map us) b)).
Qed.

(** The cursor alone, run over all entries. *)
Lemma cursor_sync_loop ks child :
  NoDup ks -> is_uint 64 (cs_usage child) ->
  (forall k, k ∈ ks -> exists it, cs_map child !! k = Some it /\ entry_flagged it = true
                                  /\ (IsSpent (coin it) = true -> coin it = coinEmpty)) ->
  let child' := foldl (fun c k => NextAndMaybeErase DynamicUsage false k c) child ks in
  (forall k, cs_map child' !! k
     = if decide (k ∈ ks) then synced (cs_map child) !! k else cs_map child !! k)
  /\ cs_list child' = filter (fun k => k ∉ ks) (cs_list child)
  /\ cs_usage child' = cs_usage child.
Proof.
  intros Hnd. revert child. induction Hnd as [|k ks Hnin Hnd IH]; intros child Hu Hks; cbn zeta in *.
  - cbn. by rewrite filter_nil.
  - destruct (Hks k) as (it & Hit & Hf & Hs); [set_solver|]. cbn [foldl].
    assert (NextAndMaybeErase DynamicUsage false k child = child_step false k false child) as ->
      by (unfold child_step; by rewrite Hit).
    destruct (IH (child_step false k false child)) as (Hm & Hl & Hus).
    { by rewrite (child_step_usage _ _ _ _ it). }
    { intros k' Hk'. assert (k' <> k) by congruence. rewrite child_step_ne by done. apply Hks. set_solver. }
    pose proof (child_step_sync k false child it Hit Hf Hs Hu) as Hc1.
    split_and!; [|by rewrite Hl, Hc1; apply filter_step|by rewrite Hus, Hc1].
    intros k'. rewrite Hm. destruct (decide (k' = k)) as [->|Hne].
    + rewrite decide_False by done. rewrite decide_True by set_solver.
      rewrite (child_step_sync k false child it) by done. rewrite lookup_synced, Hit. cbn.
      destruct (IsSpent (coin it)); [apply lookup_delete_eq|apply lookup_insert_eq].
    + rewrite (synced_ext _ (cs_map child)) by (by apply child_step_ne).
      rewrite child_step_ne by done. repeat case_decide; set_solver.
Qed.

Lemma cursor_sync child b :
  state_ok child b ->
  foldl (fun c k => NextAndMaybeErase DynamicUsage false k c) child (cs_list child)
  = CoinsState (synced (cs_map child)) [] (cs_usage child).
Proof.
  intros Hch. destruct (cursor_sync_loop (cs_list child) child (so_nodup _ _ Hch)) as (Hm & Hl & Hu).
  { rewrite (so_usage _ _ Hch). apply wrap_range. lia. }
  { intros k Hk. apply (so_list _ _ Hch) in Hk as (e & He & Hf). exists e. split_and!; [done|done|].
    by apply (so_entry _ _ Hch k e He). }
  by apply (sync_state_eq _ _ b).
Qed.

(** * The cache over a view *)

Section CacheOk.
Context {V : Type} {OPS : CoinsViewOps V} {CV : CoinsView V}.

Record cache_ok (c : CCoinsViewCache V) : Prop := {
  cache_ok_base : view_ok (base c);
  cache_ok_state : state_ok (cache c) (view_coins (base c));
}.

(** The unspent coins the cache shows. *)
Definition cache_coins (c : CCoinsViewCache V) : gmap COutPoint Coin :=
  overlay (cs_map (cache c)) (view_coins (base c)).

Definition cache_best (c : CCoinsViewCache V) : bytes :=
  if bool_decide (hashBlock c = uint256_null) then view_best (base c) else hashBlock c.

Lemma state_ok_empty b : state_ok cs_empty b.
Proof.
  constructor; cbn.
  - constructor.
  - intros k. split; [intros H; by apply not_elem_of_nil in H|intros (e & H & _); by rewrite lookup_empty in H].
  - intros k e H. by rewrite lookup_empty in H.
  - unfold total_usage. by rewrite map_fold_empty.
Qed.

Lemma overlay_empty b : overlay ∅ b = b.
Proof. apply map_eq. intros k. by rewrite lookup_overlay, lookup_empty. Qed.

Lemma cache_new_ok v :
  view_ok v -> cache_ok (CCoinsViewCache_new v)
  /\ cache_coins (CCoinsViewCache_new v) = view_coins v
  /\ cache_best (CCoinsViewCache_new v) = view_best v.
Proof.
  intros Hv. split_and!.
  - constructor; [done|apply state_ok_empty].
  - apply overlay_empty.
  - unfold cache_best. cbn. by rewrite bool_decide_true.
Qed.

Lemma base_unspent c k co : cache_ok c -> view_coins (base c) !! k = Some co -> IsSpent co = false.
Proof. intros [Hb _]. by apply view_unspent. Qed.

Lemma cache_coins_unspent c k co : cache_ok c -> cache_coins c !! k = Some co -> IsSpent co = false.
Proof.
  intros Hc. unfold cache_coins. rewrite lookup_overlay.
  destruct (cs_map (cache c) !! k) as [e|]; [|by apply base_unspent].
  unfold entry_view. destruct (IsSpent (coin e)) eqn:E; [done|]. intros [= <-]. done.
Qed.

(** ** [FetchCoin] *)

(** The entry that is found carries the coin of the view, the view does not
    change, and a coin of the view is always found. *)
Lemma FetchCoin_spec c o :
  cache_ok c ->
  let '(it, c') := FetchCoin DynamicUsage c o in
  cache_ok c' /\ cache_coins c' = cache_coins c /\ cache_best c' = cache_best c
  /\ cs_map (cache c') !! o = it
  /\ (forall k, k <> o -> cs_map (cache c') !! k = cs_map (cache c) !! k)
  /\ cache_coins c !! o = match it with Some e => entry_view e | None => None end.
Proof.
  intros Hc. unfold FetchCoin. destruct (cs_map (cache c) !! o) as [e|] eqn:E.
  - split_and!; try done. unfold cache_coins. by rewrite lookup_overlay, E.
  - pose proof Hc as [Hb Hs]. destruct (view_GetCoin_spec (base c) o Hb) as (Hr & Hb' & Hcs & Hbest).
    destruct (view_GetCoin (base c) o) as [r b]. cbn in Hr, Hb', Hcs, Hbest. subst r.
    assert (Hbest' : forall s, cache_best (Cache b (hashBlock c) s) = cache_best c)
      by (intros s; unfold cache_best; cbn; by rewrite Hbest).
    destruct (view_coins (base c) !! o) as [co|] eqn:Eb.
    + assert (IsSpent co = false) as Hu by exact (view_unspent _ _ _ Hb Eb). rewrite Hu.
      cbn [cache]. rewrite fetch_update by done. unfold with_cache. cbn [base hashBlock cache].
      rewrite cs_update_lookup. split_and!; try done.
      * constructor; cbn [base cache]; [done|]. rewrite Hcs. apply state_ok_update; [done|].
        intros e [= <-]. unfold entry_ok. cbn. rewrite Eb, Hu. split_and!; done.
      * unfold cache_coins. cbn [base cache]. rewrite overlay_update, Hcs. unfold entry_view. cbn. rewrite Hu.
        apply map_eq. intros k. destruct (decide (k = o)) as [->|Hne].
        -- by rewrite lookup_partial_alter_eq, lookup_overlay, E.
        -- by rewrite lookup_partial_alter_ne.
      * intros k Hne. by apply cs_update_lookup_ne.
      * unfold cache_coins. rewrite lookup_overlay, E, Eb. unfold entry_view. cbn. by rewrite Hu.
    + split_and!; try done.
      * constructor; cbn [base cache]; [done|]. by rewrite Hcs.
      * unfold cache_coins. cbn. by rewrite Hcs.
      * unfold cache_coins. by rewrite lookup_overlay, E.
Qed.

(** ** Reading *)

Lemma GetCoin_spec c o :
  cache_ok c ->
  let '(r, c') := CCoinsViewCache_GetCoin DynamicUsage c o in
  r = cache_coins c !! o /\ cache_ok c' /\ cache_coins c' = cache_coins c /\ cache_best c' = cache_best c.
Proof.
  intros Hc. pose proof (FetchCoin_spec c o Hc) as H. unfold CCoinsViewCache_GetCoin.
  destruct (FetchCoin DynamicUsage c o) as [[e|] c']; destruct H as (Hok & Hcs & Hbest & _ & _ & ->); [|done].
  unfold entry_view. destruct (IsSpent (coin e)); done.
Qed.

Lemma HaveCoin_spec c o :
  cache_ok c ->
  let '(r, c') := HaveCoin DynamicUsage c o in
  r = bool_decide (is_Some (cache_coins c !! o))
  /\ cache_ok c' /\ cache_coins c' = cache_coins c /\ cache_best c' = cache_best c.
Proof.
  intros Hc. pose proof (FetchCoin_spec c o Hc) as H. unfold HaveCoin.
  destruct (FetchCoin DynamicUsage c o) as [[e|] c']; destruct H as (Hok & Hcs & Hbest & _ & _ & ->); [|done].
  unfold entry_view. destruct (IsSpent (coin e)); done.
Qed.

(** [AccessCoin] gives the coin, or a spent one. *)
Lemma AccessCoin_spec c o :
  cache_ok c ->
  let '(r, c') := AccessCoin DynamicUsage c o in
  r = default coinEmpty (cache_coins c !! o)
  /\ cache_ok c' /\ cache_coins c' = cache_coins c /\ cache_best c' = cache_best c.
Proof.
  intros Hc. pose proof (FetchCoin_spec c o Hc) as H. unfold AccessCoin.
  destruct (FetchCoin DynamicUsage c o) as [[e|] c'];
    destruct H as (Hok & Hcs & Hbest & Hit & _ & ->); [|done].
  split_and!; try done. unfold entry_view. destruct (IsSpent (coin e)) eqn:E; [|done].
  by apply (so_entry _ _ (cache_ok_state _ Hok) o e).
Qed.

Lemma GetBestBlock_spec c :
  cache_ok c ->
  let '(h, c') := CCoinsViewCache_GetBestBlock c in
  h = cache_best c /\ cache_ok c' /\ cache_coins c' = cache_coins c /\ cache_best c' = cache_best c.
Proof.
  intros Hc. unfold CCoinsViewCache_GetBestBlock.
  destruct (bool_decide (hashBlock c = uint256_null)) eqn:E.
  - pose proof Hc as [Hb Hs]. destruct (view_GetBestBlock_spec (base c) Hb) as (Hr & Hb' & Hcs & Hbest).
    destruct (view_GetBestBlock (base c)) as [h b]. cbn in Hr, Hb', Hcs, Hbest. subst h.
    unfold cache_best. rewrite E. split_and!; [done| | |].
    + constructor; cbn [base cache]; [done|]. by rewrite Hcs.
    + unfold cache_coins. cbn. by rewrite Hcs.
    + cbn [hashBlock base]. rewrite Hbest. by destruct (bool_decide (view_best (base c) = uint256_null)).
  - split_and!; try done. unfold cache_best. by rewrite E.
Qed.

(** ** Changing *)

(** [AddCoin] on an unspent, spendable coin.  The caller promises that nothing
    is overwritten unless it says so. *)
Lemma AddCoin_spec c o co ow :
  cache_ok c -> IsSpent co = false -> IsUnspendable (scriptPubKey (out co)) = false ->
  (ow = false -> cache_coins c !! o = None) ->
  exists c', AddCoin DynamicUsage c o co ow = Ok c'
    /\ cache_ok c' /\ cache_coins c' = <[o := co]> (cache_coins c) /\ cache_best c' = cache_best c.
Proof.
  intros Hc Hu Hun How. pose proof Hc as [Hb Hs]. unfold AddCoin. rewrite Hu, Hun.
  assert (Hfin : forall fr, entry_ok (CacheEntry co true fr) (view_coins (base c) !! o) ->
    let c' := with_cache c (cs_update o (Some (CacheEntry co true fr)) (cache c)) in
    cache_ok c' /\ cache_coins c' = <[o := co]> (cache_coins c) /\ cache_best c' = cache_best c).
  { intros fr He. cbv zeta. split_and!; [|unfold cache_coins; cbn [base cache with_cache]|done].
    - constructor; cbn [base cache with_cache]; [done|]. apply state_ok_update; [done|]. by intros e [= <-].
    - rewrite overlay_update. unfold entry_view. cbn [coin]. by rewrite Hu. }
  assert (Hcoins : cache_coins c !! o = match cs_map (cache c) !! o with
    Some e => entry_view e | None => view_coins (base c) !! o end) by apply lookup_overlay.
  destruct (cs_map (cache c) !! o) as [e|] eqn:E.
  - destruct (so_entry _ _ Hs o e E) as (Hcl & Hfr & Hsp).
    destruct (negb ow && negb (IsSpent (coin e))) eqn:E1.
    { apply andb_prop in E1 as [->%negb_true_iff E1%negb_true_iff].
      rewrite How in Hcoins by done. unfold entry_view in Hcoins. by rewrite E1 in Hcoins. }
    set (fresh := negb ow && negb (IsDirty e)).
    pose proof (put_update o co fresh e (cache c) E) as Hput.
    assert (He : entry_ok (CacheEntry co true (IsFresh e || fresh)) (view_coins (base c) !! o)).
    { unfold entry_ok. cbn. split_and!; [done| |by rewrite Hu]. intros Hf. split; [done|].
      apply orb_true_iff in Hf as [Hf|Hf]; [by apply Hfr|].
      apply andb_prop in Hf as [Hf1 Hf2%negb_true_iff]. destruct (Hcl Hf2) as (_ & _ & Hns).
      rewrite Hf1, Hns in E1. done. }
    destruct fresh; cbn [id] in Hput; rewrite Hput; eexists; (split; [reflexivity|]); by apply Hfin.
  - change (IsSpent (coin (CacheEntry coinEmpty false false))) with true. rewrite andb_false_r.
    change (negb (IsDirty (CacheEntry coinEmpty false false))) with true. rewrite andb_true_r.
    pose proof (put_new_update o co (negb ow) (cache c) E) as Hput.
    assert (He : entry_ok (CacheEntry co true (negb ow)) (view_coins (base c) !! o)).
    { unfold entry_ok. cbn. split_and!; [done| |by rewrite Hu]. intros ->%negb_true_iff.
      split; [done|]. rewrite <- Hcoins. by apply How. }
    destruct (negb ow); cbn [id] in Hput; rewrite Hput; eexists; (split; [reflexivity|]); by apply Hfin.
Qed.

(** The remaining outcomes of [AddCoin]: an unspendable output is ignored. *)
Lemma AddCoin_unspendable (c : CCoinsViewCache V) o co ow :
  IsSpent co = false -> IsUnspendable (scriptPubKey (out co)) = true -> AddCoin DynamicUsage c o co ow = Ok c.
Proof. intros Hu Hun. unfold AddCoin. by rewrite Hu, Hun. Qed.

(** [SpendCoin] removes the coin and hands it out.  The result says whether the
    cache or its base knew the outpoint. *)
Lemma SpendCoin_spec c o :
  cache_ok c ->
  let '(r, moved, c') := SpendCoin DynamicUsage c o in
  cache_ok c' /\ cache_coins c' = delete o (cache_coins c) /\ cache_best c' = cache_best c
  /\ (is_Some (cache_coins c !! o) -> r = true /\ moved = cache_coins c !! o)
  /\ (r = true -> moved = Some (default coinEmpty (cache_coins c !! o))).
Proof.
  intros Hc. pose proof (FetchCoin_spec c o Hc) as H. unfold SpendCoin.
  destruct (FetchCoin DynamicUsage c o) as [[e|] c1];
    destruct H as (Hok & Hcs & Hbest & Hit & _ & Hlook).
  2:{ split_and!; try done.
      - rewrite Hcs. symmetry. by apply delete_id.
      - rewrite Hlook. by intros []. }
  destruct (so_entry _ _ (cache_ok_state _ Hok) o e Hit) as (Hcl & Hfr & Hsp).
  assert (Hdel : partial_alter (fun _ => None) o (cache_coins c) = delete o (cache_coins c)) by done.
  assert (Hst : state_ok (cache c1) (view_coins (base c1))) by apply Hok.
  assert (Hmoved : forall r : bool, (is_Some (cache_coins c !! o) -> true = true /\ Some (coin e) = cache_coins c !! o)
    /\ (true = true -> Some (coin e) = Some (default coinEmpty (cache_coins c !! o)))).
  { intros _. rewrite Hlook. unfold entry_view. destruct (IsSpent (coin e)) eqn:Es; cbn.
    - rewrite Hsp by done. split; [by intros []|done].
    - done. }
  destruct (IsFresh e) eqn:Ef.
  - rewrite (erase_update o e) by done. split_and!; [| |done|apply (Hmoved true)..].
    + constructor; cbn [base cache with_cache]; [apply Hok|]. by apply state_ok_update.
    + unfold cache_coins at 1. cbn [base cache with_cache]. rewrite overlay_update.
      fold (cache_coins c1). rewrite Hcs. destruct (Hfr eq_refl) as [_ ->]. done.
  - rewrite (clear_update o e) by done. split_and!; [| |done|apply (Hmoved true)..].
    + constructor; cbn [base cache with_cache]; [apply Hok|]. apply state_ok_update; [done|].
      intros e' [= <-]. unfold entry_ok. cbn. by split_and!.
    + unfold cache_coins at 1. cbn [base cache with_cache]. rewrite overlay_update.
      fold (cache_coins c1). rewrite Hcs. done.
Qed.

Lemma Uncache_spec c o :
  cache_ok c ->
  cache_ok (Uncache DynamicUsage c o) /\ cache_coins (Uncache DynamicUsage c o) = cache_coins c
  /\ cache_best (Uncache DynamicUsage c o) = cache_best c.
Proof.
  intros Hc. pose proof Hc as [Hb Hs]. unfold Uncache.
  destruct (cs_map (cache c) !! o) as [e|] eqn:E; [|done].
  destruct (negb (IsDirty e) && negb (IsFresh e)) eqn:Ef; [|done].
  apply andb_prop in Ef as [Ed%negb_true_iff _].
  destruct (so_entry _ _ Hs o e E) as (Hcl & _). destruct (Hcl Ed) as (_ & Hbk & Hu).
  rewrite (erase_update o e) by done. split_and!; [| |done].
  - constructor; cbn [base cache with_cache]; [done|]. by apply state_ok_update.
  - unfold cache_coins. cbn [base cache with_cache]. rewrite overlay_update, Hbk.
    apply map_eq. intros k. destruct (decide (k = o)) as [->|Hne].
    + rewrite lookup_partial_alter_eq, lookup_overlay, E. unfold entry_view. by rewrite Hu.
    + by rewrite lookup_partial_alter_ne.
Qed.

Lemma SetBestBlock_spec c h :
  cache_ok c -> h <> uint256_null ->
  cache_ok (SetBestBlock c h) /\ cache_coins (SetBestBlock c h) = cache_coins c
  /\ cache_best (SetBestBlock c h) = h.
Proof.
  intros [Hb Hs] Hh. split_and!; [by constructor|done|].
  unfold cache_best. cbn. by rewrite bool_decide_false.
Qed.

(** ** Flushing *)

Lemma total_usage_synced m :
  (forall k e, m !! k = Some e -> IsSpent (coin e) = true -> coin e = coinEmpty) ->
  total_usage (synced m) = total_usage m.
Proof.
  induction m as [|k e m Hk IH] using map_ind; intros H.
  - unfold synced. by rewrite omap_empty.
  - rewrite total_usage_insert by done. rewrite <- IH.
    2:{ intros k' e' He'. apply (H k'). rewrite lookup_insert_ne by congruence. done. }
    unfold synced. rewrite omap_insert. fold (synced m).
    assert (synced m !! k = None) as Hs by (by rewrite lookup_synced, Hk).
    destruct (IsSpent (coin e)) eqn:E.
    + rewrite delete_id by done. rewrite (H k e), DMU_empty; [lia|apply lookup_insert_eq|done].
    + by rewrite total_usage_insert.
Qed.

Lemma state_ok_synced s b :
  state_ok s b ->
  state_ok (CoinsState (synced (cs_map s)) [] (cs_usage s)) (overlay (cs_map s) b).
Proof.
  intros Hs. constructor; cbn [cs_map cs_list cs_usage].
  - constructor.
  - intros k. split; [intros H; by apply not_elem_of_nil in H|]. intros (e & He & Hf).
    rewrite lookup_synced in He. destruct (cs_map s !! k) as [e0|]; [|done].
    destruct (IsSpent (coin e0)); [done|]. injection He as <-. done.
  - intros k e He. rewrite lookup_synced in He. rewrite lookup_overlay.
    destruct (cs_map s !! k) as [e0|]; [|done]. unfold entry_view.
    destruct (IsSpent (coin e0)) eqn:E; [done|]. injection He as <-.
    unfold entry_ok. cbn. rewrite E. by split_and!.
  - rewrite total_usage_synced; [apply Hs|]. intros k e He. by apply (so_entry _ _ Hs k e He).
Qed.

Lemma overlay_synced m b : overlay (synced m) (overlay m b) = overlay m b.
Proof.
  apply map_eq. intros k. rewrite lookup_overlay, lookup_synced, lookup_overlay.
  destruct (m !! k) as [e|]; [|done]. unfold entry_view at 2. destruct (IsSpent (coin e)) eqn:E.
  - unfold entry_view. by rewrite E.
  - unfold entry_view. cbn. by rewrite E.
Qed.

Lemma Flush_spec c :
  cache_ok c -> hashBlock c <> uint256_null ->
  exists fOk c', Flush c = Ok (fOk, c')
    /\ (fOk = true ->
        cache_ok c' /\ cache_coins c' = cache_coins c /\ cache_best c' = cache_best c
        /\ view_coins (base c') = cache_coins c /\ view_best (base c') = hashBlock c
        /\ cs_map (cache c') = ∅).
Proof.
  intros [Hb Hs] Hh. unfold Flush.
  destruct (view_BatchWrite_spec (base c) (cache c) true (hashBlock c) Hb Hs Hh)
    as (fOk & v' & child' & -> & Hspec).
  destruct fOk; eexists _, _; (split; [reflexivity|]); [|done].
  intros _. destruct (Hspec eq_refl) as (Hv' & Hcs & Hbest & _). split_and!.
  - constructor; [done|apply state_ok_empty].
  - unfold cache_coins at 1. cbn. by rewrite overlay_empty.
  - unfold cache_best. cbn [hashBlock base]. by rewrite !bool_decide_false.
  - done.
  - done.
  - done.
Qed.

Lemma Sync_spec c :
  cache_ok c -> hashBlock c <> uint256_null ->
  exists fOk c', Sync c = Ok (fOk, c')
    /\ (fOk = true ->
        cache_ok c' /\ cache_coins c' = cache_coins c /\ cache_best c' = cache_best c
        /\ view_coins (base c') = cache_coins c /\ view_best (base c') = hashBlock c
        /\ cs_list (cache c') = [] /\ cs_map (cache c') = synced (cs_map (cache c))).
Proof.
  intros [Hb Hs] Hh. unfold Sync.
  destruct (view_BatchWrite_spec (base c) (cache c) false (hashBlock c) Hb Hs Hh)
    as (fOk & v' & child' & -> & Hspec).
  destruct fOk; cbn [andb]; [|eexists _, _; by split].
  destruct (Hspec eq_refl) as (Hv' & Hcs & Hbest & Hch). rewrite (Hch eq_refl).
  rewrite bool_decide_true by done. cbn [negb]. eexists _, _. split; [reflexivity|]. intros _. split_and!; try done.
  - constructor; cbn [base cache]; [done|]. rewrite Hcs. by apply state_ok_synced.
  - unfold cache_coins. cbn [base cache cs_map]. rewrite Hcs. apply overlay_synced.
  - unfold cache_best. cbn [hashBlock base]. by rewrite !bool_decide_false.
Qed.

(** A cache over a view is a view. *)
#[export] Instance CCoinsViewCache_view :
  CoinsView (CCoinsViewCache V) (OPS := CCoinsViewCache_ops DynamicUsage).
Proof.
  refine (Build_CoinsView _ _ cache_ok cache_coins cache_best cache_coins_unspent _ _ _).
  - intros c o Hc. pose proof (GetCoin_spec c o Hc) as H. cbn.
    by destruct (CCoinsViewCache_GetCoin DynamicUsage c o) as [r c'].
  - intros c Hc. pose proof (GetBestBlock_spec c Hc) as H. cbn.
    by destruct (CCoinsViewCache_GetBestBlock c) as [h c'].
  - intros c child we h Hc Hch Hh. pose proof Hc as [Hb Hs].
    destruct (batch_write_spec we (cache c) child (view_coins (base c)) Hs) as
      (us' & child' & Hl & Hus' & Hov & Hsync); [intros; by eapply base_unspent|done|].
    cbn. unfold CCoinsViewCache_BatchWrite. rewrite Hl. eexists _, _, _. split; [reflexivity|].
    intros _. split_and!; [by constructor|done| |done].
    unfold cache_best. cbn [hashBlock]. by rewrite bool_decide_false.
Defined.

End CacheOk.
End Contract.
