(* ===== verification/CoinsDB.v ===== *)
(** The coins database (src/bitcoin/src/txdb.cpp): [CCoinsViewDB] over a
    key-value store that applies a batch of writes atomically.  A large batch is
    written in parts; the head-blocks record marks a database that is between
    two parts.

    The store has one typed component per key prefix ([DB_COIN],
    [DB_BEST_BLOCK], [DB_HEAD_BLOCKS]).  How large a batch is, and so where it
    is cut, depends on the store: [SizeEstimate] and [batch_write_bytes] are
    parameters. *)

From S2P Require Import Prelude Serialize MerkleDamgard Sha2 Hash Transaction Script Coins CoinsProofs.

Record coins_db := CoinsDb {
  db_coins : gmap COutPoint Coin;
  db_best : option bytes;
  db_heads : option (list bytes);
}.

(** The entries of a [CDBBatch]. *)
Inductive db_op :=
| EraseCoin (o : COutPoint)
| WriteCoin (o : COutPoint) (c : Coin)
| EraseBest
| WriteBest (h : bytes)
| EraseHeads
| WriteHeads (l : list bytes).

Definition db_apply (d : coins_db) (op : db_op) : coins_db :=
  match op with
  | EraseCoin o => CoinsDb (delete o (db_coins d)) (db_best d) (db_heads d)
  | WriteCoin o c => CoinsDb (<[o := c]> (db_coins d)) (db_best d) (db_heads d)
  | EraseBest => CoinsDb (db_coins d) None (db_heads d)
  | WriteBest h => CoinsDb (db_coins d) (Some h) (db_heads d)
  | EraseHeads => CoinsDb (db_coins d) (db_best d) None
  | WriteHeads l => CoinsDb (db_coins d) (db_best d) (Some l)
  end.

(** [WriteBatch] is atomic. *)
Definition WriteBatch (d : coins_db) (batch : list db_op) : coins_db := foldl db_apply d batch.

(** The changes of the entries [ks] of [m]. *)
Definition pushed (m : gmap COutPoint CCoinsCacheEntry) (ks : list COutPoint) (b : gmap COutPoint Coin)
    : gmap COutPoint Coin :=
  foldl (fun b k => match m !! k with
                    | Some e => if IsDirty e then partial_alter (fun _ => entry_view e) k b else b
                    | None => b
                    end) b ks.

Lemma pushed_snoc m ks k b :
  pushed m (ks ++ [k]) b
  = match m !! k with
    | Some e => if IsDirty e then partial_alter (fun _ => entry_view e) k (pushed m ks b) else pushed m ks b
    | None => pushed m ks b
    end.
Proof. unfold pushed. by rewrite foldl_app. Qed.

Lemma lookup_pushed m ks b k :
  pushed m ks b !! k
  = match m !! k with
    | Some e => if IsDirty e && bool_decide (k ∈ ks) then entry_view e else b !! k
    | None => b !! k
    end.
Proof.
  induction ks as [|k' ks IH] using rev_ind.
  - cbn. destruct (m !! k) as [e|]; [|done]. rewrite bool_decide_false by apply not_elem_of_nil.
    by rewrite andb_false_r.
  - rewrite pushed_snoc. destruct (decide (k = k')) as [<-|Hne].
    + rewrite (bool_decide_true (k ∈ ks ++ [k])) by set_solver.
      destruct (m !! k) as [e|]; [|done]. destruct (IsDirty e); [by rewrite lookup_partial_alter_eq|done].
    + assert (bool_decide (k ∈ ks ++ [k']) = bool_decide (k ∈ ks)) as ->
        by (apply bool_decide_ext; set_solver).
      rewrite <- IH. destruct (m !! k') as [e'|]; [|done]. destruct (IsDirty e'); [|done].
      by rewrite lookup_partial_alter_ne.
Qed.

Lemma WriteBatch_app d a b : WriteBatch d (a ++ b) = WriteBatch (WriteBatch d a) b.
Proof. apply foldl_app. Qed.

(** The state the pending batch leads to. *)
Definition in_transition (h tip : bytes) (b : gmap COutPoint Coin) (d : coins_db) : Prop :=
  d = CoinsDb b None (Some [h; tip]).

Section CoinsDB.
Context (DynamicUsage : bytes -> Z).
Context (SizeEstimate : list db_op -> Z) (batch_write_bytes : Z).

Definition CCoinsViewDB_GetCoin (d : coins_db) (outpoint : COutPoint) : option Coin :=
  db_coins d !! outpoint.

Definition CCoinsViewDB_HaveCoin (d : coins_db) (outpoint : COutPoint) : bool :=
  bool_decide (is_Some (db_coins d !! outpoint)).

Definition CCoinsViewDB_GetBestBlock (d : coins_db) : bytes := default uint256_null (db_best d).

Definition GetHeadBlocks (d : coins_db) : list bytes := default [] (db_heads d).

(** The tip the database is moving away from; [None] is the failed assertion. *)
Definition old_tip (d : coins_db) (hashBlock : bytes) : option bytes :=
  let tip := CCoinsViewDB_GetBestBlock d in
  if bool_decide (tip = uint256_null) then
    match GetHeadBlocks d with
    | [h0; h1] => if bool_decide (h0 = hashBlock) then Some h1 else None
    | _ => Some tip
    end
  else Some tip.

(** The loop over the flagged entries.  [written] collects the durable states,
    the latest first: a crash leaves the last of them. *)
Fixpoint db_batch_loop (will_erase : bool) (written : list coins_db) (d : coins_db) (batch : list db_op)
    (child : coins_state) (ks : list COutPoint) : list coins_db * coins_db * list db_op * coins_state :=
  match ks with
  | [] => (written, d, batch, child)
  | k :: ks =>
      let batch :=
        match cs_map child !! k with
        | Some e =>
            if IsDirty e then batch ++ [if IsSpent (coin e) then EraseCoin k else WriteCoin k (coin e)]
            else batch
        | None => batch
        end in
      let child := NextAndMaybeErase DynamicUsage will_erase k child in
      if batch_write_bytes <? SizeEstimate batch then
        let d := WriteBatch d batch in
        db_batch_loop will_erase (d :: written) d [] child ks
      else db_batch_loop will_erase written d batch child ks
  end.

(** [BatchWrite]: the durable states on the way, the success flag, the database
    and the child. *)
Definition CCoinsViewDB_BatchWrite (d : coins_db) (child : coins_state) (will_erase : bool)
    (hashBlock : bytes) : result string (list coins_db * (bool * coins_db * coins_state)) :=
  if bool_decide (hashBlock = uint256_null) then Err "assert(!hashBlock.IsNull())"
  else
    match old_tip d hashBlock with
    | None => Err "assert(old_heads[0] == hashBlock)"
    | Some tip =>
        let batch := [EraseBest; WriteHeads [hashBlock; tip]] in
        let '(written, d, batch, child) := db_batch_loop will_erase [] d batch child (cs_list child) in
        let d := WriteBatch d (batch ++ [EraseHeads; WriteBest hashBlock]) in
        Ok (d :: written, (true, d, child))
    end.

#[export] Instance CCoinsViewDB_ops : CoinsViewOps coins_db := {|
  view_GetCoin d o := (CCoinsViewDB_GetCoin d o, d);
  view_GetBestBlock d := (CCoinsViewDB_GetBestBlock d, d);
  view_BatchWrite d child we h :=
    match CCoinsViewDB_BatchWrite d child we h with Ok (_, r) => Ok r | Err e => Err e end;
|}.

(** * Correctness *)

Hypothesis DynamicUsage_nil : DynamicUsage [] = 0.

(** A database outside a transition. *)
Record db_ok (d : coins_db) : Prop := {
  db_ok_unspent : forall k c, db_coins d !! k = Some c -> IsSpent c = false;
  db_ok_best : forall h, db_best d = Some h -> h <> uint256_null;
  db_ok_heads : db_heads d = None;
}.

(** All flagged entries pushed: the coins as seen through the child. *)
Lemma pushed_overlay s b :
  state_ok DynamicUsage s b -> pushed (cs_map s) (cs_list s) b = overlay (cs_map s) b.
Proof.
  intros Hs. apply map_eq. intros k. rewrite lookup_pushed, lookup_overlay.
  destruct (cs_map s !! k) as [e|] eqn:E; [|done].
  destruct (so_entry _ _ _ Hs k e E) as (Hcl & _). destruct (IsDirty e) eqn:Ed; cbn [andb].
  - rewrite bool_decide_true; [done|]. apply (so_list _ _ _ Hs). exists e. split; [done|].
    unfold entry_flagged. by rewrite Ed.
  - destruct (Hcl eq_refl) as (_ & -> & Hu). unfold entry_view. by rewrite Hu.
Qed.

Lemma db_batch_loop_spec we m0 b0 h tip ks : forall written d batch child ks0,
  NoDup (ks0 ++ ks) ->
  (forall k, k ∈ ks -> cs_map child !! k = m0 !! k) ->
  in_transition h tip (pushed m0 ks0 b0) (WriteBatch d batch) ->
  Forall (fun w => exists ks1, ks1 `prefix_of` (ks0 ++ ks) /\ in_transition h tip (pushed m0 ks1 b0) w) written ->
  let '(written', d', batch', child') := db_batch_loop we written d batch child ks in
  in_transition h tip (pushed m0 (ks0 ++ ks) b0) (WriteBatch d' batch')
  /\ Forall (fun w => exists ks1, ks1 `prefix_of` (ks0 ++ ks) /\ in_transition h tip (pushed m0 ks1 b0) w) written'
  /\ child' = foldl (fun c k => NextAndMaybeErase DynamicUsage we k c) child ks.
Proof.
  induction ks as [|k ks IH]; intros written d batch child ks0 Hnd Hm Hd Hw; cbn [db_batch_loop].
  - by rewrite app_nil_r in *.
  - assert (Hk : cs_map child !! k = m0 !! k) by (apply Hm; set_solver). rewrite Hk.
    set (batch' := match m0 !! k with Some e => _ | None => batch end).
    assert (Hd' : in_transition h tip (pushed m0 (ks0 ++ [k]) b0) (WriteBatch d batch')).
    { unfold batch'. rewrite pushed_snoc. destruct (m0 !! k) as [e|]; [|done].
      destruct (IsDirty e); [|done]. rewrite WriteBatch_app, Hd. unfold in_transition, entry_view. cbn.
      by destruct (IsSpent (coin e)). }
    assert (Hnd' : NoDup ((ks0 ++ [k]) ++ ks)) by (by rewrite <- app_assoc).
    assert (Hm' : forall k', k' ∈ ks -> cs_map (NextAndMaybeErase DynamicUsage we k child) !! k' = m0 !! k').
    { intros k' Hk'. rewrite <- Hm by set_solver. assert (k' <> k) as Hne.
      { intros ->. apply list.NoDup_app in Hnd as (_ & _ & Hnd). by apply list.NoDup_cons in Hnd as [Hnin _]. }
      pose proof (child_step_ne DynamicUsage we k false child k' Hne) as Hs. unfold child_step in Hs.
      by destruct (cs_map child !! k). }
    assert (Happ : ks0 ++ k :: ks = (ks0 ++ [k]) ++ ks) by (by rewrite <- app_assoc).
    rewrite Happ in *.
    destruct (batch_write_bytes <? SizeEstimate batch').
    + apply IH; try done. constructor; [|done]. exists (ks0 ++ [k]). split; [by apply prefix_app_r|done].
    + by apply IH.
Qed.

Lemma old_tip_ok d h : db_ok d -> old_tip d h = Some (CCoinsViewDB_GetBestBlock d).
Proof.
  intros [_ _ Hh]. unfold old_tip, GetHeadBlocks. rewrite Hh. by case_bool_decide.
Qed.

(** A write into a consistent database: the durable states on the way are all
    marked, hold a prefix of the changes, and the last state is the result. *)
Lemma db_write_spec d child we h :
  db_ok d -> state_ok DynamicUsage child (db_coins d) -> h <> uint256_null ->
  exists mid child',
    let d' := CoinsDb (overlay (cs_map child) (db_coins d)) (Some h) None in
    CCoinsViewDB_BatchWrite d child we h = Ok (d' :: mid, (true, d', child'))
    /\ Forall (fun w => exists ks1, ks1 `prefix_of` cs_list child
          /\ in_transition h (CCoinsViewDB_GetBestBlock d) (pushed (cs_map child) ks1 (db_coins d)) w) mid
    /\ (we = false -> child' = CoinsState (synced (cs_map child)) [] (cs_usage child)).
Proof.
  intros Hd Hch Hh. unfold CCoinsViewDB_BatchWrite. rewrite bool_decide_false by done.
  rewrite old_tip_ok by done.
  set (tip := CCoinsViewDB_GetBestBlock d).
  pose proof (db_batch_loop_spec we (cs_map child) (db_coins d) h tip (cs_list child) []
    d [EraseBest; WriteHeads [h; tip]] child []) as H.
  destruct (db_batch_loop _ _ _ _ _ _) as [[[written d'] batch] child'].
  destruct H as (Hd' & Hw & Hc); [apply Hch|done|by destruct d|constructor|].
  cbn [app] in *. exists written, child'. rewrite WriteBatch_app, Hd'.
  rewrite pushed_overlay by done. split_and!; [done|done|]. intros ->. rewrite Hc. by eapply cursor_sync.
Qed.

#[export] Instance CCoinsViewDB_view : CoinsView DynamicUsage coins_db.
Proof.
  refine (Build_CoinsView _ _ _ db_ok db_coins CCoinsViewDB_GetBestBlock _ _ _ _).
  - intros d k c Hd. apply Hd.
  - intros d o Hd. done.
  - intros d Hd. done.
  - intros d child we h Hd Hch Hh. cbn [view_BatchWrite CCoinsViewDB_ops].
    destruct (db_write_spec d child we h Hd Hch Hh) as (mid & child' & -> & _ & Hs).
    eexists _, _, _. split; [reflexivity|]. intros _. cbn. split_and!; try done.
    constructor; cbn; [|by intros ? [= <-]|done].
    intros k c. rewrite lookup_overlay. destruct (cs_map child !! k) as [e|]; [|apply Hd].
    unfold entry_view. destruct (IsSpent (coin e)) eqn:E; [done|]. by intros [= <-].
Defined.

End CoinsDB.
