(* ===== verification/CoinsSpec.v ===== *)
(** What the coins cache promises: runs of operations on a cache refine runs on
    a finite map of unspent coins, flushes through stacked caches reach the
    database, a crash during a database write can be repaired, and the cache's
    own sanity check holds in every reachable state. *)

From S2P Require Import Prelude Serialize MerkleDamgard Sha2 Hash Transaction Script Coins CoinsProofs CoinsDB.

(** * Runs of operations *)

Inductive coins_op :=
| OpGetCoin (o : COutPoint)
| OpHaveCoin (o : COutPoint)
| OpAccessCoin (o : COutPoint)
| OpAddCoin (o : COutPoint) (c : Coin) (possible_overwrite : bool)
| OpSpendCoin (o : COutPoint)
| OpUncache (o : COutPoint)
| OpGetBestBlock
| OpSetBestBlock (h : bytes)
| OpSync
| OpFlush.

(** What a caller sees. *)
Inductive coins_obs :=
| SeenCoin (c : option Coin)
| SeenBool (b : bool)
| SeenHash (h : bytes)
| SeenNothing.

(** A null coin is how "no coin" looks where a [Coin] is returned. *)
Definition unspent_only (c : Coin) : option Coin := if IsSpent c then None else Some c.

Section Run.
Context (DynamicUsage : bytes -> Z).
Context {V : Type} {OPS : CoinsViewOps V}.

Definition exec (c : CCoinsViewCache V) (op : coins_op) : result string (coins_obs * CCoinsViewCache V) :=
  match op with
  | OpGetCoin o => let '(r, c) := CCoinsViewCache_GetCoin DynamicUsage c o in Ok (SeenCoin r, c)
  | OpHaveCoin o => let '(r, c) := HaveCoin DynamicUsage c o in Ok (SeenBool r, c)
  | OpAccessCoin o => let '(r, c) := AccessCoin DynamicUsage c o in Ok (SeenCoin (unspent_only r), c)
  | OpAddCoin o co ow =>
      match AddCoin DynamicUsage c o co ow with
      | Ok c => Ok (SeenNothing, c)
      | Err (e, _) => Err e
      end
  | OpSpendCoin o =>
      let '(_, moved, c) := SpendCoin DynamicUsage c o in
      Ok (SeenCoin (moved ≫= unspent_only), c)
  | OpUncache o => Ok (SeenNothing, Uncache DynamicUsage c o)
  | OpGetBestBlock => let '(h, c) := CCoinsViewCache_GetBestBlock c in Ok (SeenHash h, c)
  | OpSetBestBlock h => Ok (SeenNothing, SetBestBlock c h)
  | OpSync => match Sync c with Ok (b, c) => Ok (SeenBool b, c) | Err e => Err e end
  | OpFlush => match Flush c with Ok (b, c) => Ok (SeenBool b, c) | Err e => Err e end
  end.

Fixpoint exec_all (c : CCoinsViewCache V) (ops : list coins_op)
    : result string (list coins_obs * CCoinsViewCache V) :=
  match ops with
  | [] => Ok ([], c)
  | op :: ops =>
      match exec c op with
      | Err e => Err e
      | Ok (o, c) =>
          match exec_all c ops with
          | Err e => Err e
          | Ok (os, c) => Ok (o :: os, c)
          end
      end
  end.
End Run.

(** * The abstract machine: a map of unspent coins and the best block

    [sp_loaded] says that the cache has been told, or has asked for, the best
    block; only then can it be flushed. *)
Record utxo := Utxo { sp_coins : gmap COutPoint Coin; sp_best : bytes; sp_loaded : bool }.

Definition spec_step (s : utxo) (op : coins_op) : coins_obs * utxo :=
  match op with
  | OpGetCoin o | OpAccessCoin o => (SeenCoin (sp_coins s !! o), s)
  | OpHaveCoin o => (SeenBool (bool_decide (is_Some (sp_coins s !! o))), s)
  | OpAddCoin o co _ =>
      (SeenNothing,
       if IsUnspendable (scriptPubKey (out co)) then s
       else Utxo (<[o := co]> (sp_coins s)) (sp_best s) (sp_loaded s))
  | OpSpendCoin o => (SeenCoin (sp_coins s !! o), Utxo (delete o (sp_coins s)) (sp_best s) (sp_loaded s))
  | OpUncache _ => (SeenNothing, s)
  | OpGetBestBlock =>
      (SeenHash (sp_best s),
       Utxo (sp_coins s) (sp_best s) (sp_loaded s || negb (bool_decide (sp_best s = uint256_null))))
  | OpSetBestBlock h => (SeenNothing, Utxo (sp_coins s) h true)
  | OpSync | OpFlush => (SeenBool true, s)
  end.

Fixpoint spec_all (s : utxo) (ops : list coins_op) : list coins_obs * utxo :=
  match ops with
  | [] => ([], s)
  | op :: ops => let '(o, s) := spec_step s op in let '(os, s) := spec_all s ops in (o :: os, s)
  end.

(** What the documentation of the operations asks of the caller. *)
Definition op_allowed (s : utxo) (op : coins_op) : bool :=
  match op with
  | OpAddCoin o co ow =>
      negb (IsSpent co) && (ow || IsUnspendable (scriptPubKey (out co)) || bool_decide (sp_coins s !! o = None))
  | OpSetBestBlock h => negb (bool_decide (h = uint256_null))
  | OpSync | OpFlush => sp_loaded s
  | _ => true
  end.

Fixpoint ops_allowed (s : utxo) (ops : list coins_op) : bool :=
  match ops with
  | [] => true
  | op :: ops => op_allowed s op && ops_allowed (spec_step s op).2 ops
  end.

(** A view whose writes succeed: an in-memory cache always, the database as
    long as the disk does. *)
Class CoinsViewReliable (DynamicUsage : bytes -> Z) (V : Type) {OPS : CoinsViewOps V}
    {CV : CoinsView DynamicUsage V} : Prop :=
  view_reliable : forall v child we h r v' child',
    view_ok DynamicUsage v -> state_ok DynamicUsage child (view_coins DynamicUsage v) -> h <> uint256_null ->
    view_BatchWrite v child we h = Ok (r, v', child') -> r = true.

#[export] Instance CCoinsViewDB_reliable DU SE bw (H0 : DU [] = 0) :
  CoinsViewReliable DU coins_db (OPS := CCoinsViewDB_ops DU SE bw) (CV := CCoinsViewDB_view DU SE bw H0).
Proof.
  intros d child we h r v' child' Hd Hch Hh. cbn [view_BatchWrite CCoinsViewDB_ops].
  destruct (db_write_spec DU SE bw H0 d child we h Hd Hch Hh) as (mid & ch & -> & _). by intros [= <- _ _].
Qed.

#[export] Instance CCoinsViewCache_reliable DU (H0 : DU [] = 0) V `{CV : CoinsView DU V} :
  CoinsViewReliable DU (CCoinsViewCache V) (OPS := CCoinsViewCache_ops DU)
    (CV := CCoinsViewCache_view DU H0).
Proof.
  intros c child we h r v' child' _ _ _. cbn [view_BatchWrite CCoinsViewCache_ops].
  unfold CCoinsViewCache_BatchWrite. destruct (batch_loop _ _ _ _ _); by intros [= <- _ _].
Qed.

Section Refine.
Context (DynamicUsage : bytes -> Z) (DynamicUsage_nil : DynamicUsage [] = 0).
Context {V : Type} {OPS : CoinsViewOps V} {CV : CoinsView DynamicUsage V}.
Context {REL : CoinsViewReliable DynamicUsage V}.

(** The simulation relation. *)
Record refines (c : CCoinsViewCache V) (s : utxo) : Prop := {
  ref_ok : cache_ok DynamicUsage c;
  ref_coins : cache_coins DynamicUsage c = sp_coins s;
  ref_best : cache_best DynamicUsage c = sp_best s;
  ref_loaded : sp_loaded s = true -> hashBlock c <> uint256_null;
}.

Lemma refines_new v :
  view_ok DynamicUsage v ->
  refines (CCoinsViewCache_new v) (Utxo (view_coins DynamicUsage v) (view_best DynamicUsage v) false).
Proof. intros Hv. destruct (cache_new_ok DynamicUsage v Hv) as (? & ? & ?). by constructor. Qed.

Lemma FetchCoin_hashBlock (c : CCoinsViewCache V) o :
  hashBlock (FetchCoin DynamicUsage c o).2 = hashBlock c.
Proof.
  unfold FetchCoin. destruct (cs_map (cache c) !! o); [done|].
  destruct (view_GetCoin (base c) o) as [[co|] b]; done.
Qed.

Lemma AddCoin_hashBlock (c : CCoinsViewCache V) o co ow c' :
  AddCoin DynamicUsage c o co ow = Ok c' -> hashBlock c' = hashBlock c.
Proof.
  unfold AddCoin. destruct (IsSpent co); [done|]. destruct (IsUnspendable _); [by intros [= <-]|].
  destruct (cs_map (cache c) !! o) as [e|]; (destruct (_ && negb (IsSpent _)); [done|]); by intros [= <-].
Qed.

Lemma SpendCoin_hashBlock (c : CCoinsViewCache V) o :
  hashBlock (SpendCoin DynamicUsage c o).2 = hashBlock c.
Proof.
  pose proof (FetchCoin_hashBlock c o) as H. unfold SpendCoin.
  by destruct (FetchCoin DynamicUsage c o) as [[e|] c'].
Qed.

Lemma SpendCoin_false (c : CCoinsViewCache V) o moved c' :
  SpendCoin DynamicUsage c o = (false, moved, c') -> moved = None.
Proof. unfold SpendCoin. destruct (FetchCoin DynamicUsage c o) as [[e|] c1]; by intros [=]. Qed.

(** A flush that the reliable base accepts. *)
Lemma Flush_ok c s :
  refines c s -> sp_loaded s = true ->
  exists c', Flush c = Ok (true, c') /\ refines c' s
    /\ view_coins DynamicUsage (base c') = sp_coins s /\ view_best DynamicUsage (base c') = sp_best s
    /\ view_ok DynamicUsage (base c').
Proof.
  intros [Hc Hcoins Hbest Hload] Hl. specialize (Hload Hl).
  destruct (Flush_spec DynamicUsage c Hc Hload) as (fOk & c' & E & Hspec).
  assert (fOk = true) as ->.
  { unfold Flush in E. destruct (view_BatchWrite _ _ _ _) as [[[r v'] ch]|] eqn:Eb; [|done].
    assert (r = true) as -> by (eapply view_reliable; [apply Hc|apply Hc|exact Hload|exact Eb]).
    by injection E as <- _. }
  destruct (Hspec eq_refl) as (Hok & Hcs & Hb & Hvc & Hvb & _).
  assert (hashBlock c' = hashBlock c) as Hh.
  { unfold Flush in E. destruct (view_BatchWrite _ _ _ _) as [[[r v'] ch]|]; [|done]. by injection E as _ <-. }
  exists c'. split_and!; [done| |by rewrite Hvc| |apply Hok].
  - constructor; [done|by rewrite Hcs|by rewrite Hb|by rewrite Hh].
  - rewrite Hvb, <- Hbest. unfold cache_best. by rewrite bool_decide_false.
Qed.

Lemma Sync_ok c s :
  refines c s -> sp_loaded s = true -> exists c', Sync c = Ok (true, c') /\ refines c' s.
Proof.
  intros [Hc Hcoins Hbest Hload] Hl. specialize (Hload Hl).
  destruct (Sync_spec DynamicUsage DynamicUsage_nil c Hc Hload) as (fOk & c' & E & Hspec).
  unfold Sync in *. destruct (view_BatchWrite _ _ _ _) as [[[r v'] ch]|] eqn:Eb; [|done].
  assert (r = true) as -> by (eapply view_reliable; [apply Hc|apply Hc|exact Hload|exact Eb]).
  destruct (true && _); [done|]. injection E as <- <-.
  destruct (Hspec eq_refl) as (Hok & Hcs & Hb & _). eexists. split; [reflexivity|].
  constructor; [done|by rewrite Hcs|by rewrite Hb|done].
Qed.

(** ** One step *)

Lemma unspent_lookup (m : gmap COutPoint Coin) o :
  (forall k c, m !! k = Some c -> IsSpent c = false) ->
  unspent_only (default coinEmpty (m !! o)) = m !! o.
Proof.
  intros H. destruct (m !! o) as [c|] eqn:E; cbn; [|done].
  unfold unspent_only. by rewrite (H o c E).
Qed.

Lemma step_refines c s op :
  refines c s -> op_allowed s op = true ->
  exists c', exec DynamicUsage c op = Ok ((spec_step s op).1, c') /\ refines c' (spec_step s op).2.
Proof.
  intros Hr Ha. pose proof Hr as [Hc Hcoins Hbest Hload].
  assert (Hun : forall k co, sp_coins s !! k = Some co -> IsSpent co = false)
    by (intros k co; rewrite <- Hcoins; by apply cache_coins_unspent).
  destruct op as [o|o|o|o co ow|o|o| |h| |]; cbn [exec spec_step fst snd op_allowed] in *.
  - pose proof (GetCoin_spec DynamicUsage c o Hc) as H. pose proof (FetchCoin_hashBlock c o) as Hh.
    unfold CCoinsViewCache_GetCoin in *. destruct (FetchCoin DynamicUsage c o) as [[e|] c']; cbn in Hh;
      destruct H as (H1 & H2 & H3 & H4); eexists; (split; [by rewrite H1, Hcoins|]);
      (constructor; [done|by rewrite H3|by rewrite H4|by rewrite Hh]).
  - pose proof (HaveCoin_spec DynamicUsage c o Hc) as H. pose proof (FetchCoin_hashBlock c o) as Hh.
    unfold HaveCoin in *. destruct (FetchCoin DynamicUsage c o) as [it c']. cbn in Hh.
    destruct H as (H1 & H2 & H3 & H4). eexists. split; [by rewrite H1, Hcoins|].
    constructor; [done|by rewrite H3|by rewrite H4|by rewrite Hh].
  - pose proof (AccessCoin_spec DynamicUsage c o Hc) as H. pose proof (FetchCoin_hashBlock c o) as Hh.
    unfold AccessCoin in *. destruct (FetchCoin DynamicUsage c o) as [it c']. cbn in Hh.
    destruct H as (H1 & H2 & H3 & H4). eexists. split; [by rewrite H1, Hcoins, unspent_lookup|].
    constructor; [done|by rewrite H3|by rewrite H4|by rewrite Hh].
  - apply andb_prop in Ha as [Hs%negb_true_iff Ha].
    destruct (IsUnspendable (scriptPubKey (out co))) eqn:Eu.
    { rewrite AddCoin_unspendable by done. eauto. }
    rewrite orb_false_r in Ha.
    destruct (AddCoin_spec DynamicUsage c o co ow Hc Hs Eu) as (c' & Ec & H1 & H2 & H3).
    { intros ->. rewrite Hcoins. by apply bool_decide_eq_true in Ha. }
    pose proof (AddCoin_hashBlock c o co ow c' Ec) as Hh. rewrite Ec. eexists. split; [done|].
    constructor; cbn; [done|by rewrite H2, Hcoins|by rewrite H3|by rewrite Hh].
  - pose proof (SpendCoin_spec DynamicUsage DynamicUsage_nil c o Hc) as H.
    pose proof (SpendCoin_hashBlock c o) as Hh.
    destruct (SpendCoin DynamicUsage c o) as [[r moved] c'] eqn:Es. cbn in Hh.
    destruct H as (H1 & H2 & H3 & H4 & H5). eexists. split.
    + do 3 f_equal. rewrite <- Hcoins. destruct (cache_coins DynamicUsage c !! o) as [co|] eqn:El.
      * destruct H4 as [_ ->]; [by eexists|]. cbn. unfold unspent_only.
        by rewrite (cache_coins_unspent DynamicUsage c o co Hc El).
      * destruct r; [by rewrite H5 by done|]. by rewrite (SpendCoin_false c o moved c' Es).
    + constructor; cbn; [done|by rewrite H2, Hcoins|by rewrite H3|by rewrite Hh].
  - destruct (Uncache_spec DynamicUsage c o Hc) as (H1 & H2 & H3). eexists. split; [done|].
    constructor; [done|by rewrite H2|by rewrite H3|].
    unfold Uncache. destruct (cs_map (cache c) !! o) as [e|]; [|done]. by destruct (_ && _).
  - pose proof (GetBestBlock_spec DynamicUsage c Hc) as H.
    destruct (CCoinsViewCache_GetBestBlock c) as [h c'] eqn:Eg. destruct H as (-> & H1 & H2 & H3).
    eexists. split; [by rewrite Hbest|]. constructor; cbn [sp_coins sp_best sp_loaded];
      [done|by rewrite H2|by rewrite H3|].
    unfold CCoinsViewCache_GetBestBlock in Eg. intros Hl.
    destruct (bool_decide (hashBlock c = uint256_null)) eqn:Eh.
    + destruct (view_GetBestBlock (base c)) as [h b]. injection Eg as -> <-. cbn.
      apply bool_decide_eq_true in Eh. apply orb_prop in Hl as [Hl|Hl]; [by specialize (Hload Hl)|].
      apply negb_true_iff, bool_decide_eq_false in Hl. by rewrite Hbest.
    + injection Eg as _ <-. by apply bool_decide_eq_false in Eh.
  - apply negb_true_iff, bool_decide_eq_false in Ha.
    destruct (SetBestBlock_spec DynamicUsage c h Hc Ha) as (H1 & H2 & H3). eexists. split; [done|].
    constructor; cbn; [done|by rewrite H2|done|done].
  - destruct (Sync_ok c s Hr Ha) as (c' & -> & H). eauto.
  - destruct (Flush_ok c s Hr Ha) as (c' & -> & H & _). eauto.
Qed.

Lemma run_refines ops : forall c s,
  refines c s -> ops_allowed s ops = true ->
  exists c', exec_all DynamicUsage c ops = Ok ((spec_all s ops).1, c') /\ refines c' (spec_all s ops).2.
Proof.
  induction ops as [|op ops IH]; intros c s Hr Ha; cbn in *; [eauto|].
  apply andb_prop in Ha as [Ha1 Ha2]. destruct (step_refines c s op Hr Ha1) as (c1 & -> & Hr1).
  destruct (spec_step s op) as [o s1]. cbn in *. destruct (IH c1 s1 Hr1 Ha2) as (c2 & -> & Hr2).
  destruct (spec_all s1 ops) as [os s2]. cbn in *. eauto.
Qed.

End Refine.

(** * The sanity check *)

Section Sanity.
Context (DynamicUsage : bytes -> Z).

Lemma recomputed_usage_total m :
  recomputed_usage DynamicUsage m = u64 (total_usage DynamicUsage m).
Proof.
  induction m as [|k e m Hk IH] using map_ind.
  - unfold recomputed_usage, total_usage. by rewrite !map_fold_empty.
  - rewrite total_usage_insert by done. unfold recomputed_usage.
    rewrite (map_fold_insert_L (fun _ e acc => u64 (acc + DynamicMemoryUsage DynamicUsage (coin e)))).
    + fold (recomputed_usage DynamicUsage m). rewrite IH, u64_idem. f_equal. lia.
    + intros j1 j2 z1 z2 y _ _ _. rewrite !u64_idem. f_equal. lia.
    + done.
Qed.

Lemma flagged_count s b :
  state_ok DynamicUsage s b ->
  length (cs_list s) = length (filter (fun '(_, e) => entry_flagged e) (map_to_list (cs_map s))).
Proof.
  intros Hs. rewrite <- (length_fmap fst (filter _ _)). apply Permutation_length, NoDup_Permutation.
  - apply Hs.
  - apply (NoDup_fmap_fst (A := COutPoint)).
    + intros k e1 e2 H1 H2. apply list_elem_of_filter in H1 as [_ H1], H2 as [_ H2].
      apply elem_of_map_to_list in H1, H2. congruence.
    + apply list.NoDup_filter, NoDup_map_to_list.
  - intros k. rewrite (so_list _ _ _ Hs). rewrite list_elem_of_fmap. split.
    + intros (e & He & Hf). exists (k, e). split; [done|]. apply list_elem_of_filter.
      split; [by rewrite Hf|by apply elem_of_map_to_list].
    + intros ([k' e] & -> & H). apply list_elem_of_filter in H as [Hf H]. apply elem_of_map_to_list in H.
      exists e. split; [done|]. by apply Is_true_true.
Qed.

Lemma state_ok_sane {V} (c : CCoinsViewCache V) b :
  state_ok DynamicUsage (cache c) b -> SanityCheck DynamicUsage c = true.
Proof.
  intros Hs. unfold SanityCheck. rewrite !andb_true_iff. split_and!.
  - apply forallb_forall. intros [k e] He. apply list_elem_of_In, elem_of_map_to_list in He.
    destruct (so_entry _ _ _ Hs k e He) as (Hcl & Hfr & _). unfold entry_attr.
    destruct (IsDirty e), (IsFresh e), (IsSpent (coin e)); try done;
      first [by destruct (Hcl eq_refl) as (? & _ & ?)|by destruct (Hfr eq_refl)].
  - apply forallb_forall. intros k Hk. apply list_elem_of_In, (so_list _ _ _ Hs) in Hk as (e & -> & Hf). done.
  - apply Nat.eqb_eq. by eapply flagged_count.
  - apply Z.eqb_eq. rewrite recomputed_usage_total. by rewrite (so_usage _ _ _ Hs).
Qed.
End Sanity.

(** * Crash and recovery of the database *)

Section Crash.
Context (DynamicUsage : bytes -> Z) (DynamicUsage_nil : DynamicUsage [] = 0).
Context (SizeEstimate : list db_op -> Z) (batch_write_bytes : Z).

Lemma pushed_again m ks1 ks b :
  (forall k, k ∈ ks1 -> k ∈ ks) -> pushed m ks (pushed m ks1 b) = pushed m ks b.
Proof.
  intros Hsub. apply map_eq. intros k. rewrite !lookup_pushed. destruct (m !! k) as [e|]; [|done].
  destruct (IsDirty e); cbn [andb]; [|done]. repeat case_bool_decide; naive_solver.
Qed.

(** Writing the same batch into a database that a crash left in the middle. *)
Lemma db_resume child we h tip b ks1 :
  state_ok DynamicUsage child b -> h <> uint256_null -> ks1 `prefix_of` cs_list child ->
  exists mid child',
    let d' := CoinsDb (overlay (cs_map child) b) (Some h) None in
    CCoinsViewDB_BatchWrite DynamicUsage SizeEstimate batch_write_bytes
      (CoinsDb (pushed (cs_map child) ks1 b) None (Some [h; tip])) child we h
    = Ok (d' :: mid, (true, d', child')).
Proof.
  intros Hch Hh Hpre. unfold CCoinsViewDB_BatchWrite. rewrite bool_decide_false by done.
  unfold old_tip, GetHeadBlocks, CCoinsViewDB_GetBestBlock. cbn [db_best db_heads default from_option].
  rewrite bool_decide_true by done. cbn [id]. rewrite bool_decide_true by done.
  pose proof (db_batch_loop_spec DynamicUsage SizeEstimate batch_write_bytes DynamicUsage_nil we (cs_map child)
    (pushed (cs_map child) ks1 b) h tip (cs_list child) []
    (CoinsDb (pushed (cs_map child) ks1 b) None (Some [h; tip]))
    [EraseBest; WriteHeads [h; tip]] child []) as H.
  destruct (db_batch_loop _ _ _ _ _ _ _ _ _) as [[[written d'] batch] child'].
  destruct H as (Hd' & Hw & Hc); [apply Hch|done|done|constructor|].
  cbn [app] in *. exists written, child'. rewrite WriteBatch_app, Hd'.
  rewrite pushed_again, (pushed_overlay DynamicUsage) by (try done; intros k Hk; destruct Hpre as [l ->]; set_solver).
  done.
Qed.
End Crash.

(** * Transactions and the cache *)

Section Transactions.
Context (DynamicUsage : bytes -> Z).
Context {V : Type} {OPS : CoinsViewOps V} {CV : CoinsView DynamicUsage V}.

(** The coins of the outputs from index [i] on, over [b]. *)
Fixpoint with_outputs (b : gmap COutPoint Coin) (txid : bytes) (cb : bool) (h i : Z) (outs : list CTxOut)
    : gmap COutPoint Coin :=
  match outs with
  | [] => b
  | o :: outs =>
      let b := if IsUnspendable (scriptPubKey o) then b else <[OutPoint txid i := Coin_new o h cb]> b in
      with_outputs b txid cb h (i + 1) outs
  end.

Lemma add_coins_from_spec txid cb h chk outs : forall i c,
  cache_ok DynamicUsage c -> Forall (fun o => nValue o <> -1) outs ->
  (chk = false -> cb = false ->
     forall j, i <= j < i + Z.of_nat (length outs) -> cache_coins DynamicUsage c !! OutPoint txid j = None) ->
  exists c', add_coins_from DynamicUsage c txid cb h i chk outs = Ok c'
    /\ cache_ok DynamicUsage c' /\ cache_best DynamicUsage c' = cache_best DynamicUsage c
    /\ cache_coins DynamicUsage c' = with_outputs (cache_coins DynamicUsage c) txid cb h i outs.
Proof.
  induction outs as [|o outs IH]; intros i c Hc Hv Hno; cbn [add_coins_from with_outputs]; [eauto|].
  inversion Hv as [|?? Ho Hv']; subst.
  assert (Hu : IsSpent (Coin_new o h cb) = false) by (by apply Z.eqb_neq).
  assert (Hx : exists ow c1, (if chk then HaveCoin DynamicUsage c (OutPoint txid i) else (cb, c)) = (ow, c1)
    /\ cache_ok DynamicUsage c1 /\ cache_coins DynamicUsage c1 = cache_coins DynamicUsage c
    /\ cache_best DynamicUsage c1 = cache_best DynamicUsage c
    /\ (ow = false -> cache_coins DynamicUsage c !! OutPoint txid i = None)).
  { destruct chk.
    - pose proof (HaveCoin_spec DynamicUsage c (OutPoint txid i) Hc) as H.
      destruct (HaveCoin _ _ _) as [ow c1]. destruct H as (-> & H1 & H2 & H3). eexists _, _.
      split_and!; try done. intros Hn. apply bool_decide_eq_false in Hn. by apply eq_None_not_Some.
    - eexists _, _. split_and!; try done. intros ->. apply Hno; [done|done|]. cbn. lia. }
  destruct Hx as (ow & c1 & -> & Hc1 & Hcs1 & Hb1 & How).
  assert (Hadd : exists c2, AddCoin DynamicUsage c1 (OutPoint txid i) (Coin_new o h cb) ow = Ok c2
    /\ cache_ok DynamicUsage c2 /\ cache_best DynamicUsage c2 = cache_best DynamicUsage c
    /\ cache_coins DynamicUsage c2 = if IsUnspendable (scriptPubKey o) then cache_coins DynamicUsage c
         else <[OutPoint txid i := Coin_new o h cb]> (cache_coins DynamicUsage c)).
  { destruct (IsUnspendable (scriptPubKey o)) eqn:Eu.
    - rewrite AddCoin_unspendable by done. eauto.
    - destruct (AddCoin_spec DynamicUsage c1 (OutPoint txid i) (Coin_new o h cb) ow Hc1 Hu Eu)
        as (c2 & -> & H1 & H2 & H3); [by rewrite Hcs1|].
      eexists. split_and!; [done|done|by rewrite H3|by rewrite H2, Hcs1]. }
  destruct Hadd as (c2 & -> & Hc2 & Hb2 & Hcs2). unfold mbind, result_bind.
  destruct (IH (i + 1) c2 Hc2 Hv') as (c' & -> & Hc' & Hb' & Hcs').
  { intros H1 H2 j Hj. rewrite Hcs2.
    assert (Hn : cache_coins DynamicUsage c !! OutPoint txid j = None) by (apply Hno; [done|done|cbn [length]; lia]).
    destruct (IsUnspendable _); [done|]. rewrite lookup_insert_ne; [done|]. intros [= ->]. lia. }
  eexists. split_and!; [done|done|by rewrite Hb'|by rewrite Hcs', Hcs2].
Qed.

Lemma have_all_spec ins : forall c,
  cache_ok DynamicUsage c ->
  let '(r, c') := have_all DynamicUsage c ins in
  r = forallb (fun i => bool_decide (is_Some (cache_coins DynamicUsage c !! prevout i))) ins
  /\ cache_ok DynamicUsage c' /\ cache_coins DynamicUsage c' = cache_coins DynamicUsage c
  /\ cache_best DynamicUsage c' = cache_best DynamicUsage c.
Proof.
  induction ins as [|i ins IH]; intros c Hc; cbn [have_all forallb]; [done|].
  pose proof (HaveCoin_spec DynamicUsage c (prevout i) Hc) as H.
  destruct (HaveCoin DynamicUsage c (prevout i)) as [b c1]. destruct H as (-> & H1 & H2 & H3).
  destruct (bool_decide _) eqn:E; cbn [andb]; [|done].
  specialize (IH c1 H1). destruct (have_all DynamicUsage c1 ins) as [r c'].
  destruct IH as (-> & Hc' & Hcs & Hb). rewrite H2 in *. split_and!; try done. by rewrite Hb.
Qed.
End Transactions.

(** * Properties *)

(** Concrete parameters for the examples. *)
Definition ex_usage (s : bytes) : Z := Z.of_nat (length s).
Definition ex_size (b : list db_op) : Z := Z.of_nat (length b).
Definition ex_outpoint (i : Z) : COutPoint := OutPoint (replicate 32 7) i.
Definition ex_coin (v : Z) : Coin := MkCoin (TxOut v [81; 82]) false 100.
Definition ex_db : coins_db := CoinsDb {[ex_outpoint 0 := ex_coin 5]} (Some (replicate 32 1)) None.
Definition ex_ops : list coins_op :=
  [OpGetBestBlock; OpSpendCoin (ex_outpoint 0); OpAddCoin (ex_outpoint 1) (ex_coin 9) false;
   OpSync; OpHaveCoin (ex_outpoint 0); OpAddCoin (ex_outpoint 0) (ex_coin 6) false;
   OpSpendCoin (ex_outpoint 1); OpSetBestBlock (replicate 32 2); OpFlush; OpGetCoin (ex_outpoint 0)].

Lemma ex_db_ok : db_ok ex_db.
Proof.
  constructor; cbn; [|intros h [= <-]; done|done].
  intros k c [<- <-]%lookup_singleton_Some. done.
Defined.

(** C4: the coins cache is transparent.  Over any view that keeps its contract
    and accepts writes, every allowed sequence of lookups, additions, spends,
    uncachings, syncs and flushes, interleaved in any order, runs without an
    exception, answers as a finite map of unspent coins would, passes the
    cache's sanity check at the end, and a final flush leaves exactly that map
    and the best block in the base. *)
Theorem coins_cache_refines_utxo_set (DU : bytes -> Z) (V : Type) (OPS : CoinsViewOps V)
    (CV : CoinsView DU V) (REL : CoinsViewReliable DU V) (v : V) (ops : list coins_op) :
  DU [] = 0 -> view_ok DU v ->
  let s0 := Utxo (view_coins DU v) (view_best DU v) false in
  ops_allowed s0 ops = true ->
  exists c', exec_all DU (CCoinsViewCache_new v) ops = Ok ((spec_all s0 ops).1, c')
    /\ cache_coins DU c' = sp_coins (spec_all s0 ops).2
    /\ SanityCheck DU c' = true
    /\ (sp_loaded (spec_all s0 ops).2 = true ->
        exists c'', Flush c' = Ok (true, c'')
          /\ view_coins DU (base c'') = sp_coins (spec_all s0 ops).2
          /\ view_best DU (base c'') = sp_best (spec_all s0 ops).2).
Proof.
  intros H0 Hv s0 Ha. destruct (run_refines DU H0 ops (CCoinsViewCache_new v) s0) as (c' & -> & Hr);
    [by apply refines_new|done|].
  exists c'. split_and!; [done|apply Hr|by eapply state_ok_sane, Hr|].
  intros Hl. destruct (Flush_ok DU c' _ Hr Hl) as (c'' & -> & _ & H1 & H2 & _). eauto.
Qed.

Lemma coins_cache_refines_utxo_set_witness :
  let s0 := Utxo {[ex_outpoint 0 := ex_coin 5]} (replicate 32 1) false in
  (exists c' : CCoinsViewCache coins_db,
    exec_all (OPS := CCoinsViewDB_ops ex_usage ex_size 3) ex_usage (CCoinsViewCache_new ex_db) ex_ops
    = Ok ((spec_all s0 ex_ops).1, c'))
  /\ (spec_all s0 ex_ops).2 = Utxo {[ex_outpoint 0 := ex_coin 6]} (replicate 32 2) true.
Proof.
  split; [|vm_compute; reflexivity].
  destruct (coins_cache_refines_utxo_set ex_usage coins_db (CCoinsViewDB_ops ex_usage ex_size 3)
    (CCoinsViewDB_view ex_usage ex_size 3 eq_refl) (CCoinsViewDB_reliable ex_usage ex_size 3 eq_refl)
    ex_db ex_ops eq_refl ex_db_ok) as (c' & H & _).
  - by vm_compute.
  - exists c'. exact H.
Defined.

(** C21: caches stack.  Operations on a cache over a cache over the database,
    followed by a flush of each level, leave in the database the coins and the
    best block of the abstract run, whatever way the database cuts its batches. *)
Theorem stacked_flush_reaches_database (DU : bytes -> Z) (SE : list db_op -> Z) (bw : Z)
    (H0 : DU [] = 0) (d : coins_db) (ops : list coins_op) :
  db_ok d ->
  let s0 := Utxo (db_coins d) (CCoinsViewDB_GetBestBlock d) false in
  ops_allowed s0 ops = true -> sp_loaded (spec_all s0 ops).2 = true ->
  let OPSD := CCoinsViewDB_ops DU SE bw in
  let OPS1 := CCoinsViewCache_ops (OPS := OPSD) DU in
  exists c2 c2' c1',
    exec_all DU (OPS := OPS1) (CCoinsViewCache_new (CCoinsViewCache_new d)) ops
      = Ok ((spec_all s0 ops).1, c2)
    /\ Flush (OPS := OPS1) c2 = Ok (true, c2')
    /\ Flush (OPS := OPSD) (base c2') = Ok (true, c1')
    /\ db_coins (base c1') = sp_coins (spec_all s0 ops).2
    /\ CCoinsViewDB_GetBestBlock (base c1') = sp_best (spec_all s0 ops).2.
Proof.
  intros Hd s0 Ha Hl OPSD OPS1. set (CVD := CCoinsViewDB_view DU SE bw H0).
  set (CV1 := CCoinsViewCache_view (OPS := OPSD) (CV := CVD) DU H0).
  destruct (cache_new_ok (CV := CVD) DU d Hd) as (Hc1 & Hcs1 & Hb1).
  destruct (run_refines (CV := CV1) DU H0 ops (CCoinsViewCache_new (CCoinsViewCache_new d)) s0) as (c2 & E2 & Hr);
    [|done|].
  { pose proof (refines_new (CV := CV1) DU (CCoinsViewCache_new d) Hc1) as Hn.
    replace s0 with (Utxo (view_coins DU (CCoinsViewCache_new d)) (view_best DU (CCoinsViewCache_new d)) false);
      [done|]. unfold s0. by f_equal. }
  destruct (Flush_ok (CV := CV1) DU c2 _ Hr Hl) as (c2' & F2 & Hr2 & Hvc & Hvb & Hvo).
  assert (hashBlock (base c2') <> uint256_null) as Hh.
  { unfold Flush in F2. cbn [view_BatchWrite CCoinsViewCache_ops OPS1] in F2.
    unfold CCoinsViewCache_BatchWrite in F2. destruct (batch_loop _ _ _ _ _); [|done].
    cbn in F2. injection F2 as <-. exact (ref_loaded DU c2 _ Hr Hl). }
  destruct (Flush_ok (CV := CVD) DU (base c2') (Utxo (sp_coins (spec_all s0 ops).2) (sp_best (spec_all s0 ops).2) true))
    as (c1' & F1 & _ & Hdc & Hdb & _); [by constructor|done|].
  exists c2, c2', c1'. by split_and!.
Qed.

Lemma stacked_flush_reaches_database_witness :
  let s0 := Utxo {[ex_outpoint 0 := ex_coin 5]} (replicate 32 1) false in
  exists c1' : CCoinsViewCache coins_db,
    db_coins (base c1') = sp_coins (spec_all s0 ex_ops).2.
Proof.
  destruct (stacked_flush_reaches_database ex_usage ex_size 3 eq_refl ex_db ex_ops ex_db_ok)
    as (c2 & c2' & c1' & _ & _ & _ & H & _); [by vm_compute|by vm_compute|]. exists c1'. exact H.
Defined.

(** C20: database writes survive a crash.  A batch that is written in parts goes
    through durable states that all carry the marker of the transition (new
    tip, old tip) and hold a prefix of the changes; from each of them, writing
    the batch again ends in the same final state as the uninterrupted write,
    which has the new tip, no marker, and the coins seen through the cache. *)
Theorem database_write_crash_safe (DU : bytes -> Z) (SE : list db_op -> Z) (bw : Z)
    (d : coins_db) (child : coins_state) (we : bool) (h : bytes) :
  DU [] = 0 -> db_ok d -> state_ok DU child (db_coins d) -> h <> uint256_null ->
  let d' := CoinsDb (overlay (cs_map child) (db_coins d)) (Some h) None in
  exists mid child', CCoinsViewDB_BatchWrite DU SE bw d child we h = Ok (d' :: mid, (true, d', child'))
    /\ Forall (fun w =>
         db_best w = None /\ GetHeadBlocks w = [h; CCoinsViewDB_GetBestBlock d]
         /\ (exists ks, ks `prefix_of` cs_list child /\ db_coins w = pushed (cs_map child) ks (db_coins d))
         /\ exists mid' child'', CCoinsViewDB_BatchWrite DU SE bw w child we h
                                 = Ok (d' :: mid', (true, d', child''))) mid.
Proof.
  intros H0 Hd Hch Hh d'. destruct (db_write_spec DU SE bw H0 d child we h Hd Hch Hh)
    as (mid & child' & E & Hmid & _).
  exists mid, child'. split; [exact E|]. eapply Forall_impl; [|exact Hmid].
  intros w (ks & Hpre & Hw). unfold in_transition in Hw. subst w. split_and!; [done|done|by exists ks|].
  by apply (db_resume DU H0 SE bw child we h (CCoinsViewDB_GetBestBlock d) (db_coins d) ks).
Qed.

Definition ex_child : coins_state :=
  CoinsState {[ex_outpoint 1 := CacheEntry (ex_coin 9) true true]} [ex_outpoint 1] 2.

Lemma ex_child_ok : state_ok ex_usage ex_child (db_coins ex_db).
Proof.
  constructor; cbn [ex_child cs_list cs_map cs_usage].
  - apply list.NoDup_singleton.
  - intros k. rewrite list_elem_of_singleton. split.
    + intros ->. eexists. split; [apply lookup_singleton_eq|done].
    + intros (e & [<- _]%lookup_singleton_Some & _). done.
  - intros k e [<- <-]%lookup_singleton_Some. unfold entry_ok. cbn. by split_and!.
  - by vm_compute.
Defined.

Lemma database_write_crash_safe_witness :
  exists mid child', CCoinsViewDB_BatchWrite ex_usage ex_size 2 ex_db ex_child true (replicate 32 3)
    = Ok (CoinsDb (overlay (cs_map ex_child) (db_coins ex_db)) (Some (replicate 32 3)) None :: mid,
          (true, CoinsDb (overlay (cs_map ex_child) (db_coins ex_db)) (Some (replicate 32 3)) None, child')).
Proof.
  destruct (database_write_crash_safe ex_usage ex_size 2 ex_db ex_child true (replicate 32 3)
    eq_refl ex_db_ok ex_child_ok) as (mid & child' & H & _); [done|]. exists mid, child'. exact H.
Defined.

(** Transactions on the cache.  [AddCoins] adds the spendable outputs of the
    transaction with their index, height and coinbase flag and changes nothing
    else; it cannot throw when it checks for overwriting, or for a coinbase, or
    when no output is there yet.  [HaveInputs] holds exactly of a coinbase or
    when every input has an unspent coin. *)
Theorem cache_transactions (DU : bytes -> Z) (V : Type) (OPS : CoinsViewOps V) (CV : CoinsView DU V)
    (c : CCoinsViewCache V) (tx : CTransaction) (nHeight : Z) (check : bool) :
  cache_ok DU c -> Forall (fun o => nValue o <> -1) (vout tx) ->
  (check = true \/ IsCoinBase tx = true
   \/ forall j, cache_coins DU c !! OutPoint (ComputeHash tx) j = None) ->
  (exists c', AddCoins DU c tx nHeight check = Ok c'
     /\ cache_ok DU c' /\ cache_best DU c' = cache_best DU c
     /\ cache_coins DU c'
        = with_outputs (cache_coins DU c) (ComputeHash tx) (IsCoinBase tx) nHeight 0 (vout tx))
  /\ (HaveInputs DU c tx).1
     = IsCoinBase tx || forallb (fun i => bool_decide (is_Some (cache_coins DU c !! prevout i))) (vin tx)
  /\ cache_coins DU (HaveInputs DU c tx).2 = cache_coins DU c.
Proof.
  intros Hc Hv Hno. split.
  - apply add_coins_from_spec; [done|done|]. intros -> Hcb j _.
    destruct Hno as [?|[?|Hno]]; [done|congruence|apply Hno].
  - unfold HaveInputs. destruct (IsCoinBase tx); cbn [negb orb]; [done|].
    pose proof (have_all_spec DU (vin tx) c Hc) as H.
    destruct (have_all DU c (vin tx)) as [r c']. destruct H as (-> & _ & H & _). done.
Qed.

Definition ex_tx : CTransaction :=
  Tx [TxIn (ex_outpoint 0) [] 0 []] [TxOut 3 [81]; TxOut 2 [0x6a; 1]] 2 0.

Lemma cache_transactions_witness :
  exists c', AddCoins (OPS := CCoinsViewDB_ops ex_usage ex_size 3) ex_usage (CCoinsViewCache_new ex_db) ex_tx 7 true
             = Ok c'.
Proof.
  destruct (cache_transactions ex_usage coins_db (CCoinsViewDB_ops ex_usage ex_size 3)
    (CCoinsViewDB_view ex_usage ex_size 3 eq_refl) (CCoinsViewCache_new ex_db) ex_tx 7 true)
    as ((c' & H & _) & _).
  - apply cache_new_ok, ex_db_ok.
  - repeat constructor; discriminate.
  - by left.
  - exists c'. exact H.
Defined.

