(* ===== verification/BlockIndex.v ===== *)
(** The tree of block headers: [CBlockIndex] of src/bitcoin/src/chain.h and
    chain.cpp with its skip list, work and time fields,
    [BlockManager::AddToBlockIndex] of src/bitcoin/src/node/blockstorage.cpp,
    and the record a block index entry is stored as.

    An address of an index entry is modelled by its key in the map
    [m_block_index]; entries never move and are never removed from that map, so
    keys and addresses correspond one to one. *)

From stdpp Require Import sorting.
From S2P Require Import Prelude Serialize ArithUint256 MerkleDamgard Sha2 Hash Transaction.

(** * Data *)

Abbreviation ptr := bytes.

Record CBlockIndex := BlockIndex {
  phashBlock : option ptr;
  pprev : option ptr;
  pskip : option ptr;
  nHeight : Z;
  nFile : Z;
  nDataPos : Z;
  nUndoPos : Z;
  nChainWork : limbs;
  nTx : Z;
  m_chain_tx_count : Z;
  nStatus : Z;
  bi_nVersion : Z;
  bi_hashMerkleRoot : bytes;
  bi_nTime : Z;
  bi_nBits : Z;
  bi_nNonce : Z;
  nSequenceId : Z;
  nTimeMax : Z;
}.

#[export] Instance CBlockIndex_eq_dec : EqDecision CBlockIndex.
Proof. solve_decision. Defined.

Abbreviation BlockMap := (gmap ptr CBlockIndex).

(** [BlockStatus] *)
Definition BLOCK_VALID_RESERVED : Z := 1.
Definition BLOCK_VALID_TREE : Z := 2.
Definition BLOCK_VALID_TRANSACTIONS : Z := 3.
Definition BLOCK_VALID_CHAIN : Z := 4.
Definition BLOCK_VALID_SCRIPTS : Z := 5.
Definition BLOCK_VALID_MASK : Z :=
  Z.lor (Z.lor (Z.lor (Z.lor BLOCK_VALID_RESERVED BLOCK_VALID_TREE) BLOCK_VALID_TRANSACTIONS)
               BLOCK_VALID_CHAIN) BLOCK_VALID_SCRIPTS.
Definition BLOCK_HAVE_DATA : Z := 8.
Definition BLOCK_HAVE_UNDO : Z := 16.
Definition BLOCK_HAVE_MASK : Z := Z.lor BLOCK_HAVE_DATA BLOCK_HAVE_UNDO.
Definition BLOCK_FAILED_VALID : Z := 32.
Definition BLOCK_FAILED_CHILD : Z := 64.
Definition BLOCK_FAILED_MASK : Z := Z.lor BLOCK_FAILED_VALID BLOCK_FAILED_CHILD.

(** [CBlockIndex(const CBlockHeader& block)]: every other member has its default. *)
Definition CBlockIndex_new (block : CBlockHeader) : CBlockIndex :=
  {| phashBlock := None; pprev := None; pskip := None; nHeight := 0; nFile := 0; nDataPos := 0;
     nUndoPos := 0; nChainWork := arith_u64 0; nTx := 0; m_chain_tx_count := 0; nStatus := 0;
     bi_nVersion := nVersion block; bi_hashMerkleRoot := hashMerkleRoot block;
     bi_nTime := nTime block; bi_nBits := nBits block; bi_nNonce := nNonce block;
     nSequenceId := 0; nTimeMax := 0 |}.

(** Assignments to one member. *)
Definition set_phashBlock (v : option ptr) (b : CBlockIndex) : CBlockIndex :=
  let '(BlockIndex _ a2 a3 a4 a5 a6 a7 a8 a9 a10 a11 a12 a13 a14 a15 a16 a17 a18) := b in
  BlockIndex v a2 a3 a4 a5 a6 a7 a8 a9 a10 a11 a12 a13 a14 a15 a16 a17 a18.
Definition set_pprev (v : option ptr) (b : CBlockIndex) : CBlockIndex :=
  let '(BlockIndex a1 _ a3 a4 a5 a6 a7 a8 a9 a10 a11 a12 a13 a14 a15 a16 a17 a18) := b in
  BlockIndex a1 v a3 a4 a5 a6 a7 a8 a9 a10 a11 a12 a13 a14 a15 a16 a17 a18.
Definition set_pskip (v : option ptr) (b : CBlockIndex) : CBlockIndex :=
  let '(BlockIndex a1 a2 _ a4 a5 a6 a7 a8 a9 a10 a11 a12 a13 a14 a15 a16 a17 a18) := b in
  BlockIndex a1 a2 v a4 a5 a6 a7 a8 a9 a10 a11 a12 a13 a14 a15 a16 a17 a18.
Definition set_nHeight (v : Z) (b : CBlockIndex) : CBlockIndex :=
  let '(BlockIndex a1 a2 a3 _ a5 a6 a7 a8 a9 a10 a11 a12 a13 a14 a15 a16 a17 a18) := b in
  BlockIndex a1 a2 a3 v a5 a6 a7 a8 a9 a10 a11 a12 a13 a14 a15 a16 a17 a18.
Definition set_nChainWork (v : limbs) (b : CBlockIndex) : CBlockIndex :=
  let '(BlockIndex a1 a2 a3 a4 a5 a6 a7 _ a9 a10 a11 a12 a13 a14 a15 a16 a17 a18) := b in
  BlockIndex a1 a2 a3 a4 a5 a6 a7 v a9 a10 a11 a12 a13 a14 a15 a16 a17 a18.
Definition set_nStatus (v : Z) (b : CBlockIndex) : CBlockIndex :=
  let '(BlockIndex a1 a2 a3 a4 a5 a6 a7 a8 a9 a10 _ a12 a13 a14 a15 a16 a17 a18) := b in
  BlockIndex a1 a2 a3 a4 a5 a6 a7 a8 a9 a10 v a12 a13 a14 a15 a16 a17 a18.
Definition set_nSequenceId (v : Z) (b : CBlockIndex) : CBlockIndex :=
  let '(BlockIndex a1 a2 a3 a4 a5 a6 a7 a8 a9 a10 a11 a12 a13 a14 a15 a16 _ a18) := b in
  BlockIndex a1 a2 a3 a4 a5 a6 a7 a8 a9 a10 a11 a12 a13 a14 a15 a16 v a18.
Definition set_nTimeMax (v : Z) (b : CBlockIndex) : CBlockIndex :=
  let '(BlockIndex a1 a2 a3 a4 a5 a6 a7 a8 a9 a10 a11 a12 a13 a14 a15 a16 a17 _) := b in
  BlockIndex a1 a2 a3 a4 a5 a6 a7 a8 a9 a10 a11 a12 a13 a14 a15 a16 a17 v.

(** Following a pointer. *)
Definition deref (m : BlockMap) (p : ptr) : result string CBlockIndex :=
  match m !! p with Some b => Ok b | None => Err "invalid pointer" end.

(** * Operations of an entry *)

Definition GetBlockHash (b : CBlockIndex) : result string bytes :=
  match phashBlock b with Some h => Ok h | None => Err "assertion phashBlock" end.

Definition GetBlockHeader (m : BlockMap) (b : CBlockIndex) : result string CBlockHeader :=
  prev ← match pprev b with
         | Some q => bq ← deref m q; GetBlockHash bq
         | None => Ok uint256_null
         end;
  Ok (BlockHeader (bi_nVersion b) prev (bi_hashMerkleRoot b) (bi_nTime b) (bi_nBits b) (bi_nNonce b)).

Definition GetBlockTime (b : CBlockIndex) : Z := bi_nTime b.
Definition GetBlockTimeMax (b : CBlockIndex) : Z := nTimeMax b.
Definition HaveNumChainTxs (b : CBlockIndex) : bool := negb (m_chain_tx_count b =? 0).

Definition nMedianTimeSpan : nat := 11.

(** The times stored by the loop of [GetMedianTimePast], in storage order: each
    iteration writes in front of the previous ones. *)
Fixpoint past_times (n : nat) (m : BlockMap) (pindex : option ptr) (pbegin : list Z) :
    result string (list Z) :=
  match n, pindex with
  | S n, Some p => b ← deref m p; past_times n m (pprev b) (GetBlockTime b :: pbegin)
  | _, _ => Ok pbegin
  end.

Definition GetMedianTimePast (m : BlockMap) (this : ptr) : result string Z :=
  ts ← past_times nMedianTimeSpan m (Some this) [];
  Ok (nth (length ts / 2) (merge_sort Z.le ts) 0).

(** [IsValid] and [RaiseValidity] assert that only validity bits are passed. *)
Definition IsValid (b : CBlockIndex) (nUpTo : Z) : result string bool :=
  if negb (Z.land nUpTo (not32 BLOCK_VALID_MASK) =? 0) then Err "assertion nUpTo"
  else if negb (Z.land (nStatus b) BLOCK_FAILED_MASK =? 0) then Ok false
  else Ok (nUpTo <=? Z.land (nStatus b) BLOCK_VALID_MASK).

Definition RaiseValidity (b : CBlockIndex) (nUpTo : Z) : result string (CBlockIndex * bool) :=
  if negb (Z.land nUpTo (not32 BLOCK_VALID_MASK) =? 0) then Err "assertion nUpTo"
  else if negb (Z.land (nStatus b) BLOCK_FAILED_MASK =? 0) then Ok (b, false)
  else if Z.land (nStatus b) BLOCK_VALID_MASK <? nUpTo then
    Ok (set_nStatus (Z.lor (Z.land (nStatus b) (not32 BLOCK_VALID_MASK)) nUpTo) b, true)
  else Ok (b, false).

(** ** The skip list *)

Definition InvertLowestOne (n : Z) : Z := Z.land n (n - 1).

Definition GetSkipHeight (height : Z) : Z :=
  if height <? 2 then 0
  else if negb (Z.land height 1 =? 0) then InvertLowestOne (InvertLowestOne (height - 1)) + 1
  else InvertLowestOne height.

(** The [pskip] pointer, where the loop decides to follow it. *)
Definition skip_to (b : CBlockIndex) (heightSkip heightSkipPrev height : Z) : option ptr :=
  match pskip b with
  | Some s =>
      if (heightSkip =? height)
         || ((height <? heightSkip)
             && negb ((heightSkipPrev <? heightSkip - 2) && (height <=? heightSkipPrev)))
      then Some s else None
  | None => None
  end.

(** [heightWalk] decreases in every iteration, so [nHeight - height] iterations
    are enough. *)
Fixpoint GetAncestor_loop (fuel : nat) (m : BlockMap) (pindexWalk : ptr) (heightWalk height : Z) :
    result string ptr :=
  if negb (height <? heightWalk) then Ok pindexWalk
  else match fuel with
  | O => Err "out of fuel"
  | S fuel =>
      let heightSkip := GetSkipHeight heightWalk in
      let heightSkipPrev := GetSkipHeight (heightWalk - 1) in
      b ← deref m pindexWalk;
      match skip_to b heightSkip heightSkipPrev height with
      | Some s => GetAncestor_loop fuel m s heightSkip height
      | None =>
          match pprev b with
          | Some q => GetAncestor_loop fuel m q (heightWalk - 1) height
          | None => Err "assertion pindexWalk->pprev"
          end
      end
  end.

Definition GetAncestor (m : BlockMap) (this : ptr) (height : Z) : result string (option ptr) :=
  b ← deref m this;
  if (nHeight b <? height) || (height <? 0) then Ok None
  else a ← GetAncestor_loop (Z.to_nat (nHeight b - height)) m this (nHeight b) height; Ok (Some a).

Definition BuildSkip (m : BlockMap) (this : ptr) : result string BlockMap :=
  b ← deref m this;
  match pprev b with
  | Some q =>
      a ← GetAncestor m q (GetSkipHeight (nHeight b)); Ok (alter (set_pskip a) this m)
  | None => Ok m
  end.

(** ** Work *)

Definition GetBlockProof (b : CBlockIndex) : result string limbs :=
  let '(bnTarget, fNegative, fOverflow) := SetCompact (bi_nBits b) in
  if fNegative || fOverflow || EqualTo bnTarget 0 then Ok (arith_u64 0)
  else
    q ← uint_div (uint_not bnTarget) (uint_add bnTarget (arith_u64 1));
    Ok (uint_add q (arith_u64 1)).

Definition int64_max : Z := 2 ^ 63 - 1.

Definition GetBlockProofEquivalentTime (to from tip : CBlockIndex) (nPowTargetSpacing : Z) :
    result string Z :=
  let '(r, sign) :=
    if uint_gt (nChainWork to) (nChainWork from)
    then (uint_sub (nChainWork to) (nChainWork from), 1)
    else (uint_sub (nChainWork from) (nChainWork to), -1) in
  proof ← GetBlockProof tip;
  r ← uint_div (uint_mul r (arith_u64 (u64 nPowTargetSpacing))) proof;
  if 63 <? bits r then Ok (sign * int64_max) else Ok (sign * i64 (GetLow64 r)).

(** * The block index *)

Record BlockManager := BlockMgr {
  m_block_index : BlockMap;
  m_dirty_blockindex : gset ptr;
  best_header : option ptr;
}.

Definition LookupBlockIndex (bm : BlockManager) (hash : bytes) : option ptr :=
  match m_block_index bm !! hash with Some _ => Some hash | None => None end.

(** The assignments of [AddToBlockIndex] that link the new entry to its parent. *)
Definition link_parent (m : BlockMap) (hash : ptr) (block : CBlockHeader) : result string BlockMap :=
  match m !! hashPrevBlock block with
  | Some _ =>
      let m := alter (set_pprev (Some (hashPrevBlock block))) hash m in
      prev ← deref m (hashPrevBlock block);
      let m := alter (set_nHeight (i32 (nHeight prev + 1))) hash m in
      BuildSkip m hash
  | None => Ok m
  end.

(** The assignments that accumulate time and work and set the status. *)
Definition accumulate (m : BlockMap) (hash : ptr) : result string BlockMap :=
  b ← deref m hash;
  prev ← match pprev b with Some q => bq ← deref m q; Ok (Some bq) | None => Ok None end;
  let m := alter (set_nTimeMax
    (match prev with Some bq => Z.max (nTimeMax bq) (bi_nTime b) | None => bi_nTime b end)) hash m in
  proof ← GetBlockProof b;
  prev ← match pprev b with Some q => bq ← deref m q; Ok (Some bq) | None => Ok None end;
  let m := alter (set_nChainWork
    (uint_add (match prev with Some bq => nChainWork bq | None => arith_u64 0 end) proof)) hash m in
  b ← deref m hash;
  '(b, _) ← RaiseValidity b BLOCK_VALID_TREE;
  Ok (<[hash := b]> m).

Definition AddToBlockIndex (bm : BlockManager) (block : CBlockHeader) :
    result string (ptr * BlockManager) :=
  let hash := CBlockHeader_GetHash block in
  match m_block_index bm !! hash with
  | Some _ => Ok (hash, bm)
  | None =>
      let m := <[hash := CBlockIndex_new block]> (m_block_index bm) in
      let m := alter (set_nSequenceId 0) hash m in
      let m := alter (set_phashBlock (Some hash)) hash m in
      m ← link_parent m hash block;
      m ← accumulate m hash;
      best ← match best_header bm with
             | None => Ok hash
             | Some bp =>
                 best ← deref m bp; new ← deref m hash;
                 Ok (if uint_lt (nChainWork best) (nChainWork new) then hash else bp)
             end;
      Ok (hash, BlockMgr m ({[ hash ]} ∪ m_dirty_blockindex bm) (Some best))
  end.

(** ** Common ancestors *)

Definition pprev_of (m : BlockMap) (p : ptr) : result string (option ptr) :=
  b ← deref m p; Ok (pprev b).

Fixpoint LastCommonAncestor_loop (fuel : nat) (m : BlockMap) (pa pb : option ptr) :
    result string (option ptr * option ptr) :=
  if bool_decide (pa = pb) then Ok (pa, pb)
  else match pa, pb with
  | Some a, Some b =>
      match fuel with
      | O => Err "out of fuel"
      | S fuel =>
          pa ← pprev_of m a; pb ← pprev_of m b; LastCommonAncestor_loop fuel m pa pb
      end
  | _, _ => Ok (pa, pb)
  end.

(** A path to a root visits [nHeight + 1] entries. *)
Definition LastCommonAncestor (m : BlockMap) (pa pb : ptr) : result string (option ptr) :=
  a ← deref m pa; b ← deref m pb;
  '(pa, pb) ←
    (if nHeight b <? nHeight a then x ← GetAncestor m pa (nHeight b); Ok (x, Some pb)
     else if nHeight a <? nHeight b then x ← GetAncestor m pb (nHeight a); Ok (Some pa, x)
     else Ok (Some pa, Some pb));
  '(pa, pb) ← LastCommonAncestor_loop (Z.to_nat (nHeight a) + 1) m pa pb;
  if bool_decide (pa = pb) then Ok pa else Err "assertion pa == pb".

(** * Records on disk *)

(** [CDiskBlockIndex]: an entry whose parent is named by hash. *)
Record CDiskBlockIndex := DiskBlockIndex { disk_base : CBlockIndex; hashPrev : bytes }.

Definition CDiskBlockIndex_new (m : BlockMap) (b : CBlockIndex) : result string CDiskBlockIndex :=
  prev ← match pprev b with
         | Some q => bq ← deref m q; GetBlockHash bq
         | None => Ok uint256_null
         end;
  Ok (DiskBlockIndex b prev).

Definition DISK_DUMMY_VERSION : Z := 259900.
Definition has_status (status mask : Z) : bool := negb (Z.land status mask =? 0).

Definition ser_disk_index (d : CDiskBlockIndex) : bytes :=
  let b := disk_base d in
  ser_varint 32 DISK_DUMMY_VERSION
  ++ ser_varint 32 (nHeight b) ++ ser_varint 32 (nStatus b) ++ ser_varint 32 (nTx b)
  ++ (if has_status (nStatus b) BLOCK_HAVE_MASK then ser_varint 32 (nFile b) else [])
  ++ (if has_status (nStatus b) BLOCK_HAVE_DATA then ser_varint 32 (nDataPos b) else [])
  ++ (if has_status (nStatus b) BLOCK_HAVE_UNDO then ser_varint 32 (nUndoPos b) else [])
  ++ ser_int32 (bi_nVersion b) ++ ser_hash (hashPrev d) ++ ser_hash (bi_hashMerkleRoot b)
  ++ ser_writedata32 (bi_nTime b) ++ ser_writedata32 (bi_nBits b) ++ ser_writedata32 (bi_nNonce b).

Definition int_max : Z := 2 ^ 31 - 1.
Definition uint_max : Z := 2 ^ 32 - 1.

(** Reading into a default-constructed [CDiskBlockIndex]. *)
Definition unser_disk_index : reader CDiskBlockIndex :=
  _ ← ReadVarInt int_max;
  height ← ReadVarInt int_max; status ← ReadVarInt uint_max; tx ← ReadVarInt uint_max;
  file ← (if has_status status BLOCK_HAVE_MASK then ReadVarInt int_max else mret 0);
  data ← (if has_status status BLOCK_HAVE_DATA then ReadVarInt uint_max else mret 0);
  undo ← (if has_status status BLOCK_HAVE_UNDO then ReadVarInt uint_max else mret 0);
  version ← unser_int32; prev ← stream_read 32; root ← stream_read 32;
  time ← ser_readdata32; bits ← ser_readdata32; nonce ← ser_readdata32;
  mret (DiskBlockIndex
    {| phashBlock := None; pprev := None; pskip := None; nHeight := height; nFile := file;
       nDataPos := data; nUndoPos := undo; nChainWork := arith_u64 0; nTx := tx; m_chain_tx_count := 0;
       nStatus := status; bi_nVersion := version; bi_hashMerkleRoot := root; bi_nTime := time;
       bi_nBits := bits; bi_nNonce := nonce; nSequenceId := 0; nTimeMax := 0 |} prev).

Definition ConstructBlockHash (d : CDiskBlockIndex) : bytes :=
  let b := disk_base d in
  CBlockHeader_GetHash
    (BlockHeader (bi_nVersion b) (hashPrev d) (bi_hashMerkleRoot b) (bi_nTime b) (bi_nBits b) (bi_nNonce b)).

(** [CBlockFileInfo] and its [AddBlock]. *)
Record CBlockFileInfo := BlockFileInfo {
  nBlocks : Z; nSize : Z; nUndoSize : Z; nHeightFirst : Z; nHeightLast : Z; nTimeFirst : Z; nTimeLast : Z
}.

Definition CBlockFileInfo_new : CBlockFileInfo := BlockFileInfo 0 0 0 0 0 0 0.

Definition AddBlock (nHeightIn nTimeIn : Z) (f : CBlockFileInfo) : CBlockFileInfo :=
  let hf := if (nBlocks f =? 0) || (nHeightIn <? nHeightFirst f) then nHeightIn else nHeightFirst f in
  let tf := if (nBlocks f =? 0) || (nTimeIn <? nTimeFirst f) then nTimeIn else nTimeFirst f in
  let nb := u32 (nBlocks f + 1) in
  let hl := if nHeightLast f <? nHeightIn then nHeightIn else nHeightLast f in
  let tl := if nTimeLast f <? nTimeIn then nTimeIn else nTimeLast f in
  BlockFileInfo nb (nSize f) (nUndoSize f) hf hl tf tl.

Definition ser_file_info (f : CBlockFileInfo) : bytes :=
  ser_varint 32 (nBlocks f) ++ ser_varint 32 (nSize f) ++ ser_varint 32 (nUndoSize f)
  ++ ser_varint 32 (nHeightFirst f) ++ ser_varint 32 (nHeightLast f)
  ++ ser_varint 64 (nTimeFirst f) ++ ser_varint 64 (nTimeLast f).

Definition unser_file_info : reader CBlockFileInfo :=
  nb ← ReadVarInt uint_max; sz ← ReadVarInt uint_max; us ← ReadVarInt uint_max;
  hf ← ReadVarInt uint_max; hl ← ReadVarInt uint_max;
  tf ← ReadVarInt (2 ^ 64 - 1); tl ← ReadVarInt (2 ^ 64 - 1);
  mret (BlockFileInfo nb sz us hf hl tf tl).

(** * Specification

    The chain of a block is what one gets by following [pprev]. *)

Fixpoint walk (m : BlockMap) (n : nat) (p : ptr) : option ptr :=
  match n with
  | O => Some p
  | S n => b ← m !! p; q ← pprev b; walk m n q
  end.

Definition ancestor (m : BlockMap) (p a : ptr) : Prop := exists n, walk m n p = Some a.

(** The number of hashes a target calls for on average. *)
Definition block_proof (bits : Z) : Z :=
  let target := compact_exact bits in
  if (negb (compact_word bits =? 0) && Z.testbit bits 23) || (2 ^ 256 <=? target) || (target =? 0)
  then 0 else 2 ^ 256 / (target + 1).

(** What holds of the fields derived from the parent. *)
Definition links_ok (m : BlockMap) (b : CBlockIndex) : Prop :=
  match pprev b with
  | None =>
      nHeight b = 0 /\ pskip b = None /\ nTimeMax b = bi_nTime b
      /\ uval (nChainWork b) = block_proof (bi_nBits b)
  | Some q =>
      exists bq s, m !! q = Some bq /\ nHeight b = nHeight bq + 1
        /\ pskip b = Some s /\ walk m (Z.to_nat (nHeight bq - GetSkipHeight (nHeight b))) q = Some s
        /\ nTimeMax b = Z.max (nTimeMax bq) (bi_nTime b)
        /\ uval (nChainWork b) = (uval (nChainWork bq) + block_proof (bi_nBits b)) mod 2 ^ 256
  end.

Record entry_wf (m : BlockMap) (p : ptr) (b : CBlockIndex) : Prop := {
  ew_hash : phashBlock b = Some p;
  ew_key : exists h, GetBlockHeader m b = Ok h /\ CBlockHeader_GetHash h = p;
  ew_height : 0 <= nHeight b < Z.of_nat (size m);
  ew_work : wf256 (nChainWork b);
  ew_bits : is_uint 32 (bi_nBits b);
  ew_time : is_uint 32 (bi_nTime b);
  ew_links : links_ok m b;
}.

Definition wf_tree (m : BlockMap) : Prop := map_Forall (entry_wf m) m.

(** ** Walking *)

Lemma deref_ok m p b : m !! p = Some b -> deref m p = Ok b.
Proof. unfold deref. by intros ->. Qed.

Lemma walk_add m n k p : walk m (n + k) p = walk m n p ≫= walk m k.
Proof.
  revert p. induction n as [|n IH]; intros p; [done|]. cbn [Nat.add walk].
  destruct (m !! p) as [b|]; [|done]. cbn. destruct (pprev b) as [q|]; [|done]. cbn. apply IH.
Qed.

Lemma walk_mono m m' n p a : m ⊆ m' -> walk m n p = Some a -> walk m' n p = Some a.
Proof.
  intros Hm. revert p. induction n as [|n IH]; intros p; [done|]. cbn [walk]. intros H.
  destruct (m !! p) as [b|] eqn:E; [|done]. cbn in H. destruct (pprev b) as [q|] eqn:Eq; [|done].
  rewrite (lookup_weaken _ _ _ _ E Hm). cbn. rewrite Eq. cbn. by apply IH.
Qed.

Lemma InvertLowestOne_bound n : 0 <= n -> 0 <= InvertLowestOne n <= n /\ (0 < n -> InvertLowestOne n < n).
Proof.
  intros Hn. unfold InvertLowestOne. destruct (Z.eq_dec n 0) as [->|]; [done|].
  assert (0 <= Z.land n (n - 1)) by (apply Z.land_nonneg; lia).
  assert (Z.land n (n - 1) <= n - 1); [|lia].
  rewrite Z.land_comm. apply Z.ldiff_le; [lia|].
  apply Z.bits_inj'. intros i Hi. rewrite Z.ldiff_spec, Z.land_spec, Z.bits_0.
  by destruct (Z.testbit (n - 1) i), (Z.testbit n i).
Qed.

Lemma GetSkipHeight_bound h : 1 <= h -> 0 <= GetSkipHeight h < h.
Proof.
  intros Hh. unfold GetSkipHeight. destruct (h <? 2) eqn:E; bool_props; [lia|].
  destruct (negb _).
  - destruct (InvertLowestOne_bound (h - 1)) as [? ?]; [lia|].
    destruct (InvertLowestOne_bound (InvertLowestOne (h - 1))) as [? ?]; lia.
  - destruct (InvertLowestOne_bound h); lia.
Qed.

Section Tree.
Context (m : BlockMap) (Hwf : wf_tree m).

Lemma wf_lookup p b : m !! p = Some b -> entry_wf m p b.
Proof. apply Hwf. Qed.

Lemma height_nonneg p b : m !! p = Some b -> 0 <= nHeight b.
Proof. intros Hp. by destruct (ew_height _ _ _ (wf_lookup _ _ Hp)). Qed.

(** Following [pprev] reaches every height below, and nothing past the root. *)
Lemma walk_down n p b :
  m !! p = Some b -> Z.of_nat n <= nHeight b ->
  exists a ba, walk m n p = Some a /\ m !! a = Some ba /\ nHeight ba = nHeight b - Z.of_nat n.
Proof.
  revert p b. induction n as [|n IH]; intros p b Hp Hn; [exists p, b; split_and!; [done|done|lia]|].
  pose proof (ew_links _ _ _ (wf_lookup _ _ Hp)) as Hl. unfold links_ok in Hl. cbn [walk].
  rewrite Hp. cbn. destruct (pprev b) as [q|]; [|lia]. destruct Hl as (bq & s & Hq & Hh & _).
  destruct (IH q bq Hq) as (a & ba & Ha & Hba & E); [lia|]. exists a, ba. split_and!; [done|done|lia].
Qed.

Lemma walk_past n p b : m !! p = Some b -> nHeight b < Z.of_nat n -> walk m n p = None.
Proof.
  revert p b. induction n as [|n IH]; intros p b Hp Hn; [pose proof (height_nonneg _ _ Hp); lia|].
  pose proof (ew_links _ _ _ (wf_lookup _ _ Hp)) as Hl. unfold links_ok in Hl. cbn [walk].
  rewrite Hp. cbn. destruct (pprev b) as [q|]; [|done]. destruct Hl as (bq & s & Hq & Hh & _).
  cbn. apply (IH q bq Hq). lia.
Qed.

Lemma walk_inv n p b a :
  m !! p = Some b -> walk m n p = Some a ->
  exists ba, m !! a = Some ba /\ nHeight ba = nHeight b - Z.of_nat n.
Proof.
  intros Hp Ha. destruct (Z.le_gt_cases (Z.of_nat n) (nHeight b)) as [Hle|Hgt].
  - destruct (walk_down n p b Hp Hle) as (a' & ba & E & Hba & Hh). naive_solver.
  - rewrite (walk_past n p b) in Ha by done. done.
Qed.

Lemma pskip_spec p b s :
  m !! p = Some b -> pskip b = Some s ->
  1 <= nHeight b /\ walk m (Z.to_nat (nHeight b - GetSkipHeight (nHeight b))) p = Some s.
Proof.
  intros Hp Hs. pose proof (ew_links _ _ _ (wf_lookup _ _ Hp)) as Hl. unfold links_ok in Hl.
  destruct (pprev b) as [q|] eqn:Eq; [|naive_solver].
  destruct Hl as (bq & s' & Hq & Hh & Hs' & Hw & _). pose proof (height_nonneg _ _ Hq).
  pose proof (GetSkipHeight_bound (nHeight b) ltac:(lia)). split; [lia|].
  replace (Z.to_nat (nHeight b - _)) with (S (Z.to_nat (nHeight bq - GetSkipHeight (nHeight b)))) by lia.
  cbn [walk]. rewrite Hp. cbn. rewrite Eq. cbn. congruence.
Qed.

Lemma GetAncestor_loop_spec fuel p b height :
  m !! p = Some b -> 0 <= height <= nHeight b -> (Z.to_nat (nHeight b - height) <= fuel)%nat ->
  exists a, GetAncestor_loop fuel m p (nHeight b) height = Ok a
            /\ walk m (Z.to_nat (nHeight b - height)) p = Some a.
Proof.
  revert p b. induction fuel as [|fuel IH]; intros p b Hp Hh Hf.
  - replace height with (nHeight b) by lia. exists p. cbn. rewrite Z.ltb_irrefl, Z.sub_diag. done.
  - cbn [GetAncestor_loop]. destruct (Z.ltb_spec height (nHeight b)) as [Hlt|Hge]; cbn [negb].
    2:{ replace height with (nHeight b) by lia. exists p. by rewrite Z.sub_diag. }
    rewrite (deref_ok _ _ _ Hp). cbn. pose proof (GetSkipHeight_bound (nHeight b) ltac:(lia)).
    destruct (skip_to _ _ _ _) as [s|] eqn:Es.
    + unfold skip_to in Es. destruct (pskip b) as [s'|] eqn:Ep; [|done].
      destruct (_ || _) eqn:Ec in Es; [|done]. injection Es as ->.
      assert (height <= GetSkipHeight (nHeight b)) by (bool_cases; bool_props; lia).
      destruct (pskip_spec _ _ _ Hp Ep) as [_ Hw]. destruct (walk_inv _ _ _ _ Hp Hw) as (bs & Hs & Hhs).
      destruct (IH s bs Hs) as (a & Ha & Hwa); [lia..|]. exists a.
      replace (nHeight bs) with (GetSkipHeight (nHeight b)) in Ha by lia. split; [done|].
      replace (Z.to_nat (nHeight b - height)) with
        (Z.to_nat (nHeight b - GetSkipHeight (nHeight b)) + Z.to_nat (nHeight bs - height))%nat by lia.
      rewrite walk_add, Hw. done.
    + destruct (walk_down 1 p b Hp) as (q & bq & Hw & Hq & Hhq); [lia|]. cbn [walk] in Hw.
      rewrite Hp in Hw. cbn in Hw. destruct (pprev b) as [q'|] eqn:Eq; [|done]. injection Hw as ->.
      destruct (IH q bq Hq) as (a & Ha & Hwa); [lia..|]. exists a.
      replace (nHeight b - 1) with (nHeight bq) by lia. split; [done|].
      replace (Z.to_nat (nHeight b - height)) with (S (Z.to_nat (nHeight bq - height))) by lia.
      cbn [walk]. rewrite Hp. cbn. rewrite Eq. done.
Qed.

Lemma GetAncestor_in_range p b height :
  m !! p = Some b -> 0 <= height <= nHeight b ->
  exists a ba, GetAncestor m p height = Ok (Some a)
    /\ walk m (Z.to_nat (nHeight b - height)) p = Some a /\ m !! a = Some ba /\ nHeight ba = height.
Proof.
  intros Hp Hh. destruct (GetAncestor_loop_spec (Z.to_nat (nHeight b - height)) p b height) as (a & Ha & Hw);
    [done..|]. destruct (walk_inv _ _ _ _ Hp Hw) as (ba & Hba & E). exists a, ba.
  unfold GetAncestor. rewrite (deref_ok _ _ _ Hp). cbn.
  rewrite (proj2 (Z.ltb_ge _ _)), (proj2 (Z.ltb_ge _ _)) by lia. cbn. rewrite Ha. split_and!; try done. lia.
Qed.

Lemma GetAncestor_out_of_range p b height :
  m !! p = Some b -> height < 0 \/ nHeight b < height -> GetAncestor m p height = Ok None.
Proof.
  intros Hp Hh. unfold GetAncestor. rewrite (deref_ok _ _ _ Hp). cbn.
  destruct (_ || _) eqn:E; [done|]. bool_props. lia.
Qed.
End Tree.

(** ** Work *)

Lemma compact_exact_not_max c : 0 <= c -> compact_exact c <> 2 ^ 256 - 1.
Proof.
  intros Hc. destruct (compact_exact_representable c Hc) as (w & e & Hw & He & ->).
  destruct (Z.eq_dec e 0) as [->|]; [rewrite Z.mul_1_r; lia|].
  replace (8 * e) with (1 + (8 * e - 1)) by lia. rewrite Z.pow_add_r by lia.
  set (k := 2 ^ (8 * e - 1)). replace (2 ^ 256) with (2 * 2 ^ 255) by done. lia.
Qed.

Lemma wf256_arith b : is_uint 64 b -> wf256 (arith_u64 b) /\ uval (arith_u64 b) = b.
Proof. intros Hb. by destruct (arith_u64_spec b Hb) as (? & ? & ?). Qed.

Lemma wf256_add a b :
  wf256 a -> wf256 b -> wf256 (uint_add a b) /\ uval (uint_add a b) = (uval a + uval b) mod 2 ^ 256.
Proof.
  intros Ha Hb. pose proof (wf256_nbits a Ha) as E. destruct Ha as [Ha La], Hb as [Hb Lb].
  destruct (uint_add_spec a b Ha Hb) as (V & W & L); [congruence|]. rewrite E in V.
  split; [split; congruence|done].
Qed.

Lemma GetBlockProof_spec b :
  is_uint 32 (bi_nBits b) ->
  exists w, GetBlockProof b = Ok w /\ wf256 w /\ uval w = block_proof (bi_nBits b).
Proof.
  intros Hb. unfold GetBlockProof, block_proof. pose proof (SetCompact_spec _ Hb) as Hs.
  pose proof (compact_exact_not_max (bi_nBits b) (proj1 Hb)) as Hmax.
  destruct (SetCompact (bi_nBits b)) as [[t fn] fo]. destruct Hs as (Wt & Lt & Vt & -> & ->).
  rewrite EqualTo_spec by (done || (rewrite Lt; unfold WIDTH256; lia)). set (T := compact_exact (bi_nBits b)) in *.
  destruct (wf256_arith 0 ltac:(done)) as [W0 V0], (wf256_arith 1 ltac:(done)) as [W1 V1].
  destruct (_ && _); [by eauto|]. cbn [orb]. destruct (2 ^ 256 <=? T) eqn:E1; bool_props; [by eauto|].
  assert (0 <= T) by (subst T; destruct (compact_exact_representable (bi_nBits b) (proj1 Hb)) as
    (w & e & Hw & He & ->); assert (0 < 2 ^ (8 * e)) by (apply pow2_pos; lia); nia).
  rewrite Z.mod_small in Vt by lia. rewrite Vt. cbn [orb].
  destruct (T =? 0) eqn:E2; bool_props; [by eauto|].
  destruct (wf256_add t (arith_u64 1)) as [Wa Va]; [done..|]. rewrite Vt, V1, Z.mod_small in Va by lia.
  destruct (uint_not_spec t Wt) as (Vn & Wn & Ln). rewrite (wf256_nbits t (conj Wt Lt)), Vt in Vn.
  destruct (uint_div_spec (uint_not t) (uint_add t (arith_u64 1))) as [[_ E]|(q & -> & _ & Vq & Wq & Lq)];
    [done|by destruct Wa|rewrite Ln, Lt; by destruct Wa|lia|].
  destruct (wf256_add q (arith_u64 1)) as [Wr Vr]; [split; [done|congruence]|done|].
  exists (uint_add q (arith_u64 1)). split; [done|]. split; [done|]. rewrite Vr, Vq, Va, Vn, V1.
  replace (2 ^ 256 - 1 - T) with (2 ^ 256 + (-1) * (T + 1)) by lia.
  rewrite Z.div_add by lia. rewrite Z.mod_small; [lia|].
  pose proof (Z.div_pos (2 ^ 256) (T + 1)). assert (2 ^ 256 / (T + 1) < 2 ^ 256) by (apply Z.div_lt; lia). lia.
Qed.

Lemma block_proof_bound bits : 0 <= bits -> 0 <= block_proof bits < 2 ^ 256.
Proof.
  intros Hb. unfold block_proof. destruct (_ || _) eqn:E; [lia|]. bool_props.
  destruct (compact_exact_representable bits Hb) as (w & e & Hw & He & Ec).
  assert (0 < 2 ^ (8 * e)) by (apply pow2_pos; lia). assert (0 < compact_exact bits) by nia.
  split; [apply Z.div_pos; lia|apply Z.div_lt; lia].
Qed.

(** ** Adding a header *)

#[local] Opaque CBlockHeader_GetHash.

Lemma alter_new {A} (f : A -> A) (m : gmap ptr A) p a : alter f p (<[p := a]> m) = <[p := f a]> m.
Proof.
  apply map_eq. intros q. destruct (decide (q = p)) as [->|].
  - by rewrite lookup_alter_eq, !lookup_insert_eq.
  - by rewrite lookup_alter_ne, !lookup_insert_ne.
Qed.

Lemma GetAncestor_loop_mono m m' fuel p hw h a :
  m ⊆ m' -> GetAncestor_loop fuel m p hw h = Ok a -> GetAncestor_loop fuel m' p hw h = Ok a.
Proof.
  intros Hm. revert p hw. induction fuel as [|fuel IH]; intros p hw; cbn [GetAncestor_loop];
    destruct (negb _); try done.
  unfold deref. destruct (m !! p) as [b|] eqn:E; [|done]. rewrite (lookup_weaken _ _ _ _ E Hm).
  cbn. destruct (skip_to _ _ _ _); [apply IH|]. destruct (pprev b); [apply IH|done].
Qed.

Lemma GetAncestor_mono m m' p h a :
  m ⊆ m' -> GetAncestor m p h = Ok a -> GetAncestor m' p h = Ok a.
Proof.
  intros Hm. unfold GetAncestor, deref. destruct (m !! p) as [b|] eqn:E; [|done].
  rewrite (lookup_weaken _ _ _ _ E Hm). cbn. destruct (_ || _); [done|].
  destruct (GetAncestor_loop _ m _ _ _) as [x|] eqn:El; [|done].
  by rewrite (GetAncestor_loop_mono _ _ _ _ _ _ _ Hm El).
Qed.

Lemma entry_wf_mono m m' p b : m ⊆ m' -> (size m <= size m')%nat -> entry_wf m p b -> entry_wf m' p b.
Proof.
  intros Hm Hs [H1 H2 H3 H4 H5 H6 H7]. constructor; try done; [|lia|].
  - destruct H2 as (h & Hh & Hk). exists h. split; [|done]. revert Hh. unfold GetBlockHeader, deref.
    destruct (pprev b) as [q|]; [|done]. destruct (m !! q) as [bq|] eqn:E; [|done].
    by rewrite (lookup_weaken _ _ _ _ E Hm).
  - unfold links_ok in *. destruct (pprev b) as [q|]; [|done].
    destruct H7 as (bq & s & Hq & ? & ? & Hw & ?). exists bq, s.
    split_and!; try done; [by apply (lookup_weaken m)|by apply (walk_mono m)|naive_solver..].
Qed.

(** A header that may be added: its fields fit their types, it does not name
    itself as its parent, its parent is known (or it is a first block), and the
    heights stay in range. *)
Record addable (m : BlockMap) (h : CBlockHeader) : Prop := {
  add_bits : is_uint 32 (nBits h);
  add_time : is_uint 32 (nTime h);
  add_self : CBlockHeader_GetHash h <> hashPrevBlock h;
  add_prev : is_Some (m !! hashPrevBlock h) \/ hashPrevBlock h = uint256_null;
  add_room : Z.of_nat (size m) < 2 ^ 31;
}.

(** The entry [AddToBlockIndex] builds. *)
Definition child_entry (h : CBlockHeader) (parent : option (CBlockIndex * ptr)) (work : limbs) : CBlockIndex :=
  {| phashBlock := Some (CBlockHeader_GetHash h);
     pprev := match parent with Some _ => Some (hashPrevBlock h) | None => None end;
     pskip := match parent with Some (_, s) => Some s | None => None end;
     nHeight := match parent with Some (bq, _) => nHeight bq + 1 | None => 0 end;
     nFile := 0; nDataPos := 0; nUndoPos := 0; nChainWork := work; nTx := 0; m_chain_tx_count := 0;
     nStatus := BLOCK_VALID_TREE;
     bi_nVersion := nVersion h; bi_hashMerkleRoot := hashMerkleRoot h;
     bi_nTime := nTime h; bi_nBits := nBits h; bi_nNonce := nNonce h; nSequenceId := 0;
     nTimeMax := match parent with Some (bq, _) => Z.max (nTimeMax bq) (nTime h) | None => nTime h end |}.

Lemma RaiseValidity_fresh b :
  nStatus b = 0 -> RaiseValidity b BLOCK_VALID_TREE = Ok (set_nStatus BLOCK_VALID_TREE b, true).
Proof. intros E. unfold RaiseValidity. by rewrite E. Qed.

Section Add.
Context (m : BlockMap) (Hwf : wf_tree m) (h : CBlockHeader) (Hadd : addable m h).
Let hash := CBlockHeader_GetHash h.
Context (Hnew : m !! hash = None).

Lemma new_subset b : m ⊆ <[hash := b]> m.
Proof. by apply insert_subseteq. Qed.

Definition linked (parent : option (CBlockIndex * ptr)) : CBlockIndex :=
  let b := set_phashBlock (Some hash) (set_nSequenceId 0 (CBlockIndex_new h)) in
  match parent with
  | Some (bq, s) => set_pskip (Some s) (set_nHeight (nHeight bq + 1) (set_pprev (Some (hashPrevBlock h)) b))
  | None => b
  end.

Definition parent_ok (parent : option (CBlockIndex * ptr)) : Prop :=
  match parent with
  | Some (bq, s) => m !! hashPrevBlock h = Some bq
      /\ walk m (Z.to_nat (nHeight bq - GetSkipHeight (nHeight bq + 1))) (hashPrevBlock h) = Some s
  | None => m !! hashPrevBlock h = None
  end.

Lemma link_parent_spec :
  exists parent, parent_ok parent
    /\ link_parent (<[hash := linked None]> m) hash h = Ok (<[hash := linked parent]> m).
Proof.
  unfold link_parent. rewrite lookup_insert_ne by apply (add_self _ _ Hadd).
  destruct (m !! hashPrevBlock h) as [bq|] eqn:Eq; [|by exists None].
  pose proof (ew_height _ _ _ (wf_lookup _ Hwf _ _ Eq)) as Hh. pose proof (add_room _ _ Hadd).
  rewrite alter_new, (deref_ok _ _ bq) by (rewrite lookup_insert_ne by apply (add_self _ _ Hadd); done).
  cbn -[linked swrap]. rewrite swrap_small by (unfold is_sint; lia).
  rewrite alter_new. pose proof (GetSkipHeight_bound (nHeight bq + 1) ltac:(lia)).
  destruct (GetAncestor_in_range m Hwf _ _ (GetSkipHeight (nHeight bq + 1)) Eq) as (s & bs & Hs & Hw & _); [lia|].
  exists (Some (bq, s)). split; [done|]. unfold BuildSkip.
  rewrite (deref_ok _ hash _ (lookup_insert_eq _ _ _)).
  cbn [mbind result_bind linked set_nHeight set_pprev set_phashBlock set_nSequenceId CBlockIndex_new pprev nHeight].
  rewrite (GetAncestor_mono m _ _ _ _ (new_subset _) Hs). cbn [mbind result_bind]. by rewrite alter_new.
Qed.

Lemma parent_lookup parent b :
  parent_ok parent ->
  match pprev (linked parent) with
  | Some q => bq ← deref (<[hash := b]> m) q; Ok (Some bq)
  | None => Ok None
  end = Ok (E := string) (fst <$> parent).
Proof.
  unfold parent_ok. destruct parent as [[bq s]|]; [|done]. intros [Hq _]. cbn [linked set_pskip
    set_nHeight set_pprev set_phashBlock set_nSequenceId CBlockIndex_new pprev]. unfold deref.
  by rewrite lookup_insert_ne, Hq by apply (add_self _ _ Hadd).
Qed.

Lemma accumulate_spec parent :
  parent_ok parent ->
  exists work, wf256 work
    /\ uval work = (match parent with Some (bq, _) => uval (nChainWork bq) | None => 0 end
                    + block_proof (nBits h)) mod 2 ^ 256
    /\ accumulate (<[hash := linked parent]> m) hash = Ok (<[hash := child_entry h parent work]> m).
Proof.
  intros Hp. unfold accumulate. rewrite (deref_ok _ hash (linked parent)) by apply lookup_insert_eq.
  cbn [mbind result_bind]. rewrite (parent_lookup _ _ Hp). cbn [mbind result_bind].
  destruct (GetBlockProof_spec (linked parent)) as (proof & -> & Wp & Vp).
  { destruct parent as [[bq s]|]; apply (add_bits _ _ Hadd). }
  cbn [mbind result_bind]. rewrite alter_new, (parent_lookup _ _ Hp). cbn [mbind result_bind].
  set (w0 := match fst <$> parent with Some bq => nChainWork bq | None => arith_u64 0 end).
  assert (wf256 w0 /\ uval w0 = match parent with Some (bq, _) => uval (nChainWork bq) | None => 0 end)
    as [W0 V0].
  { subst w0. destruct parent as [[bq s]|]; [|by apply wf256_arith]. destruct Hp as [Hq _].
    split; [|done]. apply (ew_work _ _ _ (wf_lookup _ Hwf _ _ Hq)). }
  destruct (wf256_add w0 proof W0 Wp) as [W V]. exists (uint_add w0 proof). split; [done|].
  assert (Eb : bi_nBits (linked parent) = nBits h) by by destruct parent as [[bq s]|].
  split; [by rewrite V, V0, Vp, Eb|]. rewrite alter_new. unfold deref. rewrite lookup_insert_eq.
  cbn [mbind result_bind]. clearbody w0. rewrite RaiseValidity_fresh by by destruct parent as [[bq s]|].
  cbn [mbind result_bind]. rewrite insert_insert_eq. by destruct parent as [[bq s]|].
Qed.

Lemma child_entry_wf parent work :
  parent_ok parent -> wf256 work ->
  uval work = (match parent with Some (bq, _) => uval (nChainWork bq) | None => 0 end
               + block_proof (nBits h)) mod 2 ^ 256 ->
  entry_wf (<[hash := child_entry h parent work]> m) hash (child_entry h parent work)
  /\ GetBlockHeader (<[hash := child_entry h parent work]> m) (child_entry h parent work) = Ok h.
Proof.
  intros Hp Hw Hv.
  assert (GetBlockHeader (<[hash := child_entry h parent work]> m) (child_entry h parent work) = Ok h) as Hh.
  { unfold GetBlockHeader. unfold parent_ok in Hp.
    destruct parent as [[bq s]|]; cbn [child_entry pprev].
    - destruct Hp as [Hq _]. unfold deref. rewrite lookup_insert_ne, Hq by apply (add_self _ _ Hadd).
      cbn. unfold GetBlockHash. rewrite (ew_hash _ _ _ (wf_lookup _ Hwf _ _ Hq)). by destruct h.
    - destruct (add_prev _ _ Hadd) as [[? E]|E]; [congruence|]. rewrite <- E. by destruct h. }
  split; [|done]. constructor; try done; [by eexists| |apply Hadd|apply Hadd|].
  all: pose proof (block_proof_bound (nBits h) (proj1 (add_bits _ _ Hadd))) as Hb.
  all: cbn [child_entry nHeight]; rewrite ?map_size_insert_None by done.
  - destruct parent as [[bq s]|]; [|lia].
    pose proof (ew_height _ _ _ (wf_lookup _ Hwf _ _ (proj1 Hp))). lia.
  - unfold links_ok. destruct parent as [[bq s]|]; cbn [child_entry pprev pskip nHeight nTimeMax nChainWork bi_nBits bi_nTime].
    + destruct Hp as [Hq Hs]. exists bq, s. split_and!; try done.
      * by apply (lookup_weaken m), new_subset.
      * by apply (walk_mono m); [apply new_subset|].
    + split_and!; try done. rewrite Hv, Z.add_0_l. by rewrite Z.mod_small.
Qed.
End Add.

Definition work_of (b : CBlockIndex) : Z := uval (nChainWork b).

(** The best header has the most work. *)
Definition best_ok (bm : BlockManager) : Prop :=
  match best_header bm with
  | None => m_block_index bm = ∅
  | Some p => exists b, m_block_index bm !! p = Some b
      /\ map_Forall (fun _ b' => work_of b' <= work_of b) (m_block_index bm)
  end.

(** What a call of [AddToBlockIndex] that inserts does. *)
Record header_added (bm : BlockManager) (h : CBlockHeader) (bm' : BlockManager) : Prop := {
  ha_kept : m_block_index bm ⊆ m_block_index bm';
  ha_only : forall p, p <> CBlockHeader_GetHash h -> m_block_index bm' !! p = m_block_index bm !! p;
  ha_entry : exists b, m_block_index bm' !! CBlockHeader_GetHash h = Some b
                       /\ GetBlockHeader (m_block_index bm') b = Ok h /\ nStatus b = BLOCK_VALID_TREE
                       /\ pprev b = (fun _ => hashPrevBlock h) <$> m_block_index bm !! hashPrevBlock h;
  ha_dirty : m_dirty_blockindex bm' = {[ CBlockHeader_GetHash h ]} ∪ m_dirty_blockindex bm;
}.

Lemma AddToBlockIndex_new bm h :
  wf_tree (m_block_index bm) -> best_ok bm -> addable (m_block_index bm) h ->
  m_block_index bm !! CBlockHeader_GetHash h = None ->
  exists bm', AddToBlockIndex bm h = Ok (CBlockHeader_GetHash h, bm')
    /\ wf_tree (m_block_index bm') /\ best_ok bm' /\ header_added bm h bm'.
Proof.
  destruct bm as [m dirty best]. cbn [m_block_index]. intros Hwf Hbest Hadd Hnew.
  destruct (link_parent_spec m Hwf h Hadd Hnew) as (parent & Hp & Hlink).
  destruct (accumulate_spec m Hwf h Hadd parent Hp) as (work & Ww & Vw & Hacc).
  destruct (child_entry_wf m Hwf h Hadd Hnew parent work Hp Ww Vw) as [Hew Hh].
  pose proof (new_subset m h Hnew (child_entry h parent work)) as Hsub.
  unfold AddToBlockIndex. cbn [m_block_index m_dirty_blockindex best_header]. rewrite Hnew.
  rewrite !alter_new. unfold linked in Hlink at 1. rewrite Hlink. cbn [mbind result_bind]. rewrite Hacc.
  cbn [mbind result_bind]. set (b := child_entry h parent work) in *.
  set (hash := CBlockHeader_GetHash h) in *.
  assert (wf_tree (<[hash := b]> m)) as Hwf'.
  { intros p bp Hlk. destruct (decide (p = hash)) as [->|Hne].
    - rewrite lookup_insert_eq in Hlk. by injection Hlk as <-.
    - rewrite lookup_insert_ne in Hlk by done. apply (entry_wf_mono m); [done| |by apply Hwf].
      rewrite map_size_insert_None by done. lia. }
  assert (forall best', header_added (BlockMgr m dirty best) h (BlockMgr (<[hash := b]> m) ({[hash]} ∪ dirty) best')).
  { intros best'. constructor; cbn [m_block_index m_dirty_blockindex]; try done.
    - intros p Hne. by rewrite lookup_insert_ne.
    - exists b. rewrite lookup_insert_eq. split_and!; [done..|].
      destruct parent as [[bq s]|]; cbn in Hp; [by destruct Hp as [-> _]|by rewrite Hp]. }
  destruct best as [bp|]; cbn [mbind result_bind].
  - destruct Hbest as (bb & Hbb & Hall). cbn [m_block_index] in Hbb, Hall.
    assert (bp <> hash) by congruence.
    rewrite (deref_ok _ bp bb) by by rewrite lookup_insert_ne.
    rewrite (deref_ok _ hash b) by by rewrite lookup_insert_eq.
    cbn [mbind result_bind]. pose proof (ew_work _ _ _ (wf_lookup _ Hwf _ _ Hbb)) as [Wb Lb].
    rewrite uint_lt_spec by (try done; subst b; cbn; destruct Ww; congruence).
    eexists. split; [done|]. split; [done|]. split; [|done]. unfold best_ok. cbn [best_header m_block_index].
    fold (work_of bb) (work_of b). destruct (Z.ltb_spec (work_of bb) (work_of b)) as [Hlt|Hge].
    + exists b. rewrite lookup_insert_eq. split; [done|]. apply map_Forall_insert_2; [lia|].
      intros p b' Hb'. specialize (Hall p b' Hb'). cbn in Hall. lia.
    + exists bb. rewrite lookup_insert_ne by done. split; [done|]. by apply map_Forall_insert_2.
  - eexists. split; [done|]. split; [done|]. split; [|done]. exists b. cbn [m_block_index best_header].
    rewrite lookup_insert_eq. split; [done|]. unfold best_ok in Hbest. cbn in Hbest. subst m.
    apply map_Forall_insert_2; [lia|apply map_Forall_empty].
Qed.

Lemma AddToBlockIndex_known bm h b :
  m_block_index bm !! CBlockHeader_GetHash h = Some b ->
  AddToBlockIndex bm h = Ok (CBlockHeader_GetHash h, bm).
Proof. intros Hb. unfold AddToBlockIndex. by rewrite Hb. Qed.

(** The states the block index goes through as headers arrive. *)
Inductive index_reaches : BlockManager -> Prop :=
| reach_empty : index_reaches (BlockMgr ∅ ∅ None)
| reach_add bm h p bm' :
    index_reaches bm -> addable (m_block_index bm) h -> AddToBlockIndex bm h = Ok (p, bm') ->
    index_reaches bm'.

Lemma reaches_wf bm : index_reaches bm -> wf_tree (m_block_index bm) /\ best_ok bm.
Proof.
  induction 1 as [|bm h p bm' Hr [Hwf Hbest] Hadd Hop].
  - split; [apply map_Forall_empty|done].
  - destruct (m_block_index bm !! CBlockHeader_GetHash h) as [b|] eqn:E.
    + rewrite (AddToBlockIndex_known bm h b E) in Hop. by injection Hop as _ <-.
    + destruct (AddToBlockIndex_new bm h Hwf Hbest Hadd E) as (bm2 & Hop2 & ? & ? & _).
      rewrite Hop2 in Hop. by injection Hop as _ <-.
Qed.

(** The work of a chain, by adding up its blocks. *)
Fixpoint chain_proofs (m : BlockMap) (n : nat) (p : ptr) : Z :=
  match m !! p with
  | None => 0
  | Some b =>
      block_proof (bi_nBits b)
      + match n, pprev b with S n, Some q => chain_proofs m n q | _, _ => 0 end
  end.

Lemma chain_work m p b :
  wf_tree m -> m !! p = Some b -> work_of b = chain_proofs m (Z.to_nat (nHeight b)) p mod 2 ^ 256.
Proof.
  intros Hwf. remember (Z.to_nat (nHeight b)) as n eqn:En. revert p b En.
  induction n as [|n IH]; intros p b En Hp; cbn [chain_proofs]; rewrite Hp;
    pose proof (Hwf p b Hp) as He; pose proof (ew_links _ _ _ He) as Hl;
    pose proof (block_proof_bound (bi_nBits b) (proj1 (ew_bits _ _ _ He)));
    unfold links_ok in Hl; unfold work_of; destruct (pprev b) as [q|].
  - destruct Hl as (bq & s & Hq & Hh & _). pose proof (height_nonneg m Hwf _ _ Hq). lia.
  - destruct Hl as (_ & _ & _ & ->). rewrite Z.add_0_r, Z.mod_small; lia.
  - destruct Hl as (bq & s & Hq & Hh & _ & _ & _ & ->). fold (work_of bq).
    rewrite (IH q bq) by (done || lia). rewrite Z.add_mod_idemp_l by lia. f_equal. lia.
  - lia.
Qed.

(** ** Common ancestors *)

Definition common (m : BlockMap) (pa pb c : ptr) : Prop := ancestor m pa c /\ ancestor m pb c.

Definition last_common (m : BlockMap) (pa pb : ptr) (r : option ptr) : Prop :=
  match r with
  | Some c => common m pa pb c /\ forall c', common m pa pb c' -> ancestor m c c'
  | None => forall c', ~ common m pa pb c'
  end.

Lemma ancestor_refl m p : ancestor m p p.
Proof. by exists 0%nat. Qed.

Lemma ancestor_trans m p a c : ancestor m p a -> ancestor m a c -> ancestor m p c.
Proof. intros [n Hn] [k Hk]. exists (n + k)%nat. by rewrite walk_add, Hn. Qed.

Section Common.
Context (m : BlockMap) (Hwf : wf_tree m).

(** An ancestor is found by its height. *)
Lemma ancestor_at p b a :
  m !! p = Some b -> ancestor m p a ->
  exists ba, m !! a = Some ba /\ nHeight ba <= nHeight b
             /\ walk m (Z.to_nat (nHeight b - nHeight ba)) p = Some a.
Proof.
  intros Hp [n Hn]. destruct (walk_inv m Hwf _ _ _ _ Hp Hn) as (ba & Hba & E).
  exists ba. split; [done|]. split; [lia|].
  replace (Z.to_nat (nHeight b - nHeight ba)) with n by lia. done.
Qed.

Lemma ancestor_same_height p b a c :
  m !! p = Some b -> ancestor m p a -> ancestor m p c ->
  forall ba bc, m !! a = Some ba -> m !! c = Some bc -> nHeight ba = nHeight bc -> a = c.
Proof.
  intros Hp Ha Hc ba bc Hba Hbc E. destruct (ancestor_at p b a Hp Ha) as (ba' & Hba' & _ & Wa).
  destruct (ancestor_at p b c Hp Hc) as (bc' & Hbc' & _ & Wc). simplify_eq. rewrite E in Wa. congruence.
Qed.

(** Of two ancestors of a block, the lower one is an ancestor of the other. *)
Lemma ancestor_linear p b a c :
  m !! p = Some b -> ancestor m p a -> ancestor m p c ->
  forall ba bc, m !! a = Some ba -> m !! c = Some bc -> nHeight bc <= nHeight ba -> ancestor m a c.
Proof.
  intros Hp Ha Hc ba bc Hba Hbc E. destruct (ancestor_at p b a Hp Ha) as (ba' & Hba' & Hla & Wa).
  destruct (ancestor_at p b c Hp Hc) as (bc' & Hbc' & Hlc & Wc). simplify_eq.
  exists (Z.to_nat (nHeight ba - nHeight bc)).
  replace (Z.to_nat (nHeight b - nHeight bc)) with
    (Z.to_nat (nHeight b - nHeight ba) + Z.to_nat (nHeight ba - nHeight bc))%nat in Wc by lia.
  by rewrite walk_add, Wa in Wc.
Qed.

Lemma pprev_cases p b :
  m !! p = Some b ->
  nHeight b = 0 /\ pprev b = None
  \/ exists q bq, pprev b = Some q /\ m !! q = Some bq /\ nHeight b = nHeight bq + 1 /\ ancestor m p q.
Proof.
  intros Hp. pose proof (ew_links _ _ _ (wf_lookup _ Hwf _ _ Hp)) as Hl. unfold links_ok in Hl.
  destruct (pprev b) as [q|] eqn:E; [right|naive_solver]. destruct Hl as (bq & s & Hq & Hh & _).
  exists q, bq. split_and!; try done. exists 1%nat. cbn. rewrite Hp. cbn. by rewrite E.
Qed.

(** An ancestor is the block itself or an ancestor of its parent. *)
Lemma ancestor_step p b c :
  m !! p = Some b -> ancestor m p c -> c = p \/ exists q, pprev b = Some q /\ ancestor m q c.
Proof.
  intros Hp [[|n] Hn]; [left; by injection Hn|]. right. cbn [walk] in Hn. rewrite Hp in Hn. cbn in Hn.
  destruct (pprev b) as [q|]; [|done]. exists q. split; [done|]. by exists n.
Qed.

Lemma last_common_parents pa a pb b qa qb r :
  m !! pa = Some a -> m !! pb = Some b -> nHeight a = nHeight b -> pa <> pb ->
  pprev a = Some qa -> pprev b = Some qb -> last_common m qa qb r -> last_common m pa pb r.
Proof.
  intros Ha Hb Hh Hne Eqa Eqb Hr.
  assert (forall c, common m pa pb c <-> common m qa qb c) as Hiff.
  { intros c. split; intros [H1 H2].
    - destruct (ancestor_step pa a c Ha H1) as [->|(? & ? & ?)], (ancestor_step pb b _ Hb H2) as [->|(? & ? & ?)];
        simplify_eq; try done.
      + destruct (ancestor_at pb b pa Hb H2) as (? & ? & _ & W). simplify_eq.
        rewrite Hh, Z.sub_diag in W. by injection W as ->.
      + destruct (ancestor_at pa a pb Ha H1) as (? & ? & _ & W). simplify_eq.
        rewrite Hh, Z.sub_diag in W. by injection W as ->.
    - split; [apply (ancestor_trans _ _ qa)|apply (ancestor_trans _ _ qb)]; try done;
        exists 1%nat; cbn; [rewrite Ha|rewrite Hb]; cbn; [by rewrite Eqa|by rewrite Eqb]. }
  unfold last_common in *. destruct r as [c|]; [|intros c'; rewrite Hiff; auto].
  destruct Hr as [Hc Hall]. split; [by apply Hiff|]. intros c' Hc'. by apply Hall, Hiff.
Qed.

Lemma LastCommonAncestor_loop_spec fuel pa pb a b :
  m !! pa = Some a -> m !! pb = Some b -> nHeight a = nHeight b -> (Z.to_nat (nHeight a) < fuel)%nat ->
  exists r, LastCommonAncestor_loop fuel m (Some pa) (Some pb) = Ok (r, r) /\ last_common m pa pb r.
Proof.
  revert pa pb a b. induction fuel as [|fuel IH]; intros pa pb a b Ha Hb Hh Hf; [lia|].
  cbn [LastCommonAncestor_loop]. case_bool_decide as E.
  - injection E as ->. exists (Some pb). split; [done|].
    split; [split; apply ancestor_refl|]. by intros c' [? ?].
  - assert (pa <> pb) by congruence. unfold pprev_of. rewrite (deref_ok _ _ _ Ha), (deref_ok _ _ _ Hb). cbn.
    destruct (pprev_cases pa a Ha) as [[H0 Ea]|(qa & ba & Eqa & Hqa & Hha & _)],
      (pprev_cases pb b Hb) as [[H0' Eb]|(qb & bb & Eqb & Hqb & Hhb & _)]; simplify_eq.
    + rewrite Ea, Eb. exists None. split; [by destruct fuel|]. intros c [H1 H2].
      destruct (ancestor_step pa a c Ha H1) as [->|(? & ? & ?)]; [|congruence].
      destruct (ancestor_step pb b _ Hb H2) as [->|(? & ? & ?)]; congruence.
    + pose proof (height_nonneg m Hwf _ _ Hqb). lia.
    + pose proof (height_nonneg m Hwf _ _ Hqa). lia.
    + rewrite Eqa, Eqb. pose proof (height_nonneg m Hwf _ _ Hqa).
      destruct (IH qa qb ba bb) as (r & Hr & Hl); [done|done|lia|lia|].
      exists r. split; [done|]. by apply (last_common_parents pa a pb b qa qb).
Qed.

Lemma last_common_lift pa a pb b a' ba' r :
  m !! pa = Some a -> m !! pb = Some b -> ancestor m pa a' -> m !! a' = Some ba' -> nHeight ba' = nHeight b ->
  last_common m a' pb r -> last_common m pa pb r.
Proof.
  intros Ha Hb Haa Hba' E Hr.
  assert (forall c, common m pa pb c <-> common m a' pb c) as Hiff.
  { intros c. split; intros [H1 H2]; split; try done; [|by apply (ancestor_trans _ _ a')].
    destruct (ancestor_at pb b c Hb H2) as (bc & Hc & Hle & _).
    apply (ancestor_linear pa a a' c Ha Haa H1 ba' bc Hba' Hc). lia. }
  unfold last_common in *. destruct r as [c|]; [|intros c'; rewrite Hiff; auto].
  destruct Hr as [Hc Hall]. split; [by apply Hiff|]. intros c' Hc'. by apply Hall, Hiff.
Qed.

Lemma last_common_sym pa pb r : last_common m pa pb r -> last_common m pb pa r.
Proof. unfold last_common, common. destruct r; naive_solver. Qed.

Lemma LastCommonAncestor_spec pa pb a b :
  m !! pa = Some a -> m !! pb = Some b ->
  exists r, LastCommonAncestor m pa pb = Ok r /\ last_common m pa pb r.
Proof.
  intros Ha Hb. unfold LastCommonAncestor. rewrite (deref_ok _ _ _ Ha), (deref_ok _ _ _ Hb). cbn [mbind result_bind].
  pose proof (height_nonneg m Hwf _ _ Ha). pose proof (height_nonneg m Hwf _ _ Hb).
  destruct (Z.ltb_spec (nHeight b) (nHeight a)); [|destruct (Z.ltb_spec (nHeight a) (nHeight b))].
  - destruct (GetAncestor_in_range m Hwf pa a (nHeight b) Ha) as (x & bx & -> & Hw & Hx & Hh); [lia|].
    cbn [mbind result_bind].
    destruct (LastCommonAncestor_loop_spec (Z.to_nat (nHeight a) + 1) x pb bx b) as (r & -> & Hr); try done; [lia|].
    cbn. rewrite bool_decide_true by done. exists r. split; [done|].
    by apply (last_common_lift pa a pb b x bx); [..|by eexists| | |].
  - destruct (GetAncestor_in_range m Hwf pb b (nHeight a) Hb) as (x & bx & -> & Hw & Hx & Hh); [lia|].
    cbn [mbind result_bind].
    destruct (LastCommonAncestor_loop_spec (Z.to_nat (nHeight a) + 1) pa x a bx) as (r & -> & Hr); try done; [lia|].
    cbn. rewrite bool_decide_true by done. exists r. split; [done|]. apply last_common_sym.
    by apply (last_common_lift pb b pa a x bx); [..|by eexists| | |apply last_common_sym].
  - cbn [mbind result_bind].
    destruct (LastCommonAncestor_loop_spec (Z.to_nat (nHeight a) + 1) pa pb a b) as (r & -> & Hr); try done; [lia|lia|].
    cbn. rewrite bool_decide_true by done. by exists r.
Qed.
End Common.

(** ** Median time *)

(** The times of a block and its ten predecessors. *)
Definition time_at (m : BlockMap) (p : ptr) (k : nat) : option Z :=
  bi_nTime <$> (walk m k p ≫= fun a => m !! a).
Definition recent_times (m : BlockMap) (p : ptr) : list Z := omap (time_at m p) (seq 0 nMedianTimeSpan).

Definition is_median (t : Z) (ts : list Z) : Prop :=
  t ∈ ts /\ (length ts < 2 * length (filter (fun x => (x <= t)%Z) ts))%nat
  /\ (length ts <= 2 * length (filter (fun x => (t <= x)%Z) ts))%nat.

Lemma filter_all_length {A} (P : A -> Prop) `{!forall x, Decision (P x)} (l : list A) :
  Forall P l -> length (filter P l) = length l.
Proof. induction 1; [done|]. rewrite filter_cons_True by done. cbn. congruence. Qed.

Lemma sorted_middle ts :
  ts <> [] -> is_median (nth (length ts / 2) (merge_sort Z.le ts) 0) ts.
Proof.
  intros Hne. pose proof (merge_sort_Permutation Z.le ts) as Hp.
  pose proof (StronglySorted_merge_sort Z.le ts) as Hs. set (l := merge_sort Z.le ts) in *.
  assert (length ts <> 0)%nat by (intros ?; by apply Hne, length_zero_iff_nil).
  pose proof (Permutation_length Hp) as El. set (i := (length ts / 2)%nat).
  pose proof (Nat.div_lt (length ts) 2 ltac:(lia) ltac:(lia)).
  pose proof (Nat.div_mod (length ts) 2 ltac:(lia)) as Hdm. pose proof (Nat.mod_upper_bound (length ts) 2 ltac:(lia)).
  destruct (lookup_lt_is_Some_2 l i) as [t Ht]; [subst i; lia|]. rewrite (nth_lookup_Some _ _ _ _ Ht).
  unfold is_median. rewrite <- !Hp, El. split; [by apply list_elem_of_lookup_2 with i|].
  pose proof (take_drop_middle l i t Ht) as E. pose proof (length_take l i) as Lt.
  pose proof (length_drop l (S i)) as Ld. rewrite <- E in Hs.
  assert (forall x, x ∈ take i l -> x <= t) as Hlow.
  { intros x Hx. apply (StronglySorted_app_1_elem_of _ _ _ _ _ Hs Hx). by left. }
  apply StronglySorted_app_1_r in Hs. apply StronglySorted_inv in Hs as [_ Hhigh].
  rewrite <- E. rewrite !list.filter_app, !length_app. split.
  - rewrite (filter_all_length _ (take i l)) by by apply list.Forall_forall.
    rewrite filter_cons_True by lia. cbn [length]. fold i in Hdm. lia.
  - rewrite (filter_all_length _ (t :: _)) by (by constructor; [lia|]). cbn [length]. fold i in Hdm. lia.
Qed.

Lemma omap_shift {A} (f g : nat -> option A) (l : list nat) : (forall k, f (S k) = g k) -> omap f (S <$> l) = omap g l.
Proof.
  intros H. induction l as [|k l IH]; [done|]. cbn. rewrite H. destruct (g k); [f_equal|]; apply IH.
Qed.

Lemma omap_none {A B} (l : list A) : omap (fun _ => @None B) l = [].
Proof. by induction l. Qed.

Lemma past_times_spec m n p acc :
  wf_tree m -> is_Some (m !! p) ->
  past_times n m (Some p) acc = Ok (rev (omap (time_at m p) (seq 0 n)) ++ acc).
Proof.
  intros Hwf. revert p acc. induction n as [|n IH]; intros p acc [b Hb]; [done|].
  cbn [past_times seq]. rewrite (deref_ok _ _ _ Hb). cbn [mbind result_bind].
  rewrite <- fmap_S_seq. cbn [omap list_omap]. unfold time_at at 1. cbn [walk mbind option_bind].
  rewrite Hb. cbn [fmap option_fmap option_map rev].
  rewrite <- app_assoc. cbn [app].
  destruct (pprev_cases m Hwf p b Hb) as [[_ E]|(q & bq & E & Hq & _)]; rewrite E.
  - rewrite (omap_shift _ (fun _ => None)) by (intros k; unfold time_at; cbn; rewrite Hb; cbn; by rewrite E).
    rewrite omap_none. by destruct n.
  - rewrite (omap_shift _ (time_at m q)) by (intros k; unfold time_at; cbn; rewrite Hb; cbn; by rewrite E).
    by apply IH; eexists.
Qed.
