(* ===== verification/BlockIndexSpec.v ===== *)
(** The properties of the block index: ancestors through the skip list, the
    invariant of [AddToBlockIndex], common ancestors, median times, work and the
    records written to disk. *)

From S2P Require Import Prelude Serialize ArithUint256 MerkleDamgard Sha2 Hash Transaction BlockIndex.

(** * Example: a first block with two children *)

#[export] Instance addable_dec m h : Decision (addable m h).
Proof.
  refine (cast_if (decide (is_uint 32 (nBits h) /\ is_uint 32 (nTime h)
    /\ CBlockHeader_GetHash h <> hashPrevBlock h
    /\ (is_Some (m !! hashPrevBlock h) \/ hashPrevBlock h = uint256_null)
    /\ Z.of_nat (size m) < 2 ^ 31))).
  - abstract (destruct_and!; constructor; assumption).
  - abstract (intros [? ? ? ? ?]; auto 7).
Defined.

(** Headers added one after the other, each checked to be addable. *)
Fixpoint add_all (bm : BlockManager) (hs : list CBlockHeader) : option BlockManager :=
  match hs with
  | [] => Some bm
  | h :: hs =>
      if decide (addable (m_block_index bm) h) then
        match AddToBlockIndex bm h with Ok (_, bm) => add_all bm hs | Err _ => None end
      else None
  end.

Lemma add_all_reaches bm hs bm' : add_all bm hs = Some bm' -> index_reaches bm -> index_reaches bm'.
Proof.
  revert bm. induction hs as [|h hs IH]; intros bm H Hr; cbn [add_all] in H; [by injection H as <-|].
  destruct (decide _); [|done]. destruct (AddToBlockIndex bm h) as [[p bm2]|] eqn:E; [|done].
  apply (IH bm2 H). by apply (reach_add bm h p).
Qed.

Definition empty_index : BlockManager := BlockMgr ∅ ∅ None.
Definition built (hs : list CBlockHeader) : BlockManager := default empty_index (add_all empty_index hs).
Definition all_added (hs : list CBlockHeader) : bool :=
  match add_all empty_index hs with Some _ => true | None => false end.

Lemma built_reaches hs : all_added hs = true -> index_reaches (built hs).
Proof.
  unfold all_added, built. destruct (add_all empty_index hs) as [bm|] eqn:E; [intros _|done].
  apply (add_all_reaches _ _ _ E), reach_empty.
Qed.

Definition sample_header (prev : bytes) (nonce : Z) : CBlockHeader :=
  BlockHeader 1 prev (replicate 32 0) (1231006505 + nonce) 0x1d00ffff nonce.
Definition sample_root : CBlockHeader := sample_header uint256_null 7.
Definition sample_root_hash : bytes := Eval vm_compute in CBlockHeader_GetHash sample_root.
Definition sample_left : CBlockHeader := sample_header sample_root_hash 1.
Definition sample_left_hash : bytes := Eval vm_compute in CBlockHeader_GetHash sample_left.
Definition sample_right : CBlockHeader := sample_header sample_root_hash 2.
Definition sample_right_hash : bytes := Eval vm_compute in CBlockHeader_GetHash sample_right.
Definition sample_headers : list CBlockHeader := [sample_root; sample_left; sample_right].
Definition sample_index : BlockManager := built sample_headers.

(** The fields of an entry fit their types. *)
Record fields_ok (b : CBlockIndex) : Prop := {
  fo_height : is_uint 31 (nHeight b);
  fo_status : is_uint 32 (nStatus b);
  fo_tx : is_uint 32 (nTx b);
  fo_file : is_uint 31 (nFile b);
  fo_data : is_uint 32 (nDataPos b);
  fo_undo : is_uint 32 (nUndoPos b);
  fo_version : is_sint 32 (bi_nVersion b);
  fo_root : blob 32 (bi_hashMerkleRoot b);
  fo_time : is_uint 32 (bi_nTime b);
  fo_bits : is_uint 32 (bi_nBits b);
  fo_nonce : is_uint 32 (bi_nNonce b);
}.

#[export] Instance fields_ok_dec b : Decision (fields_ok b).
Proof.
  refine (cast_if (decide ((is_uint 31 (nHeight b) /\ is_uint 32 (nStatus b) /\ is_uint 32 (nTx b)
    /\ is_uint 31 (nFile b) /\ is_uint 32 (nDataPos b) /\ is_uint 32 (nUndoPos b))
    /\ (is_sint 32 (bi_nVersion b) /\ blob 32 (bi_hashMerkleRoot b) /\ is_uint 32 (bi_nTime b)
    /\ is_uint 32 (bi_nBits b) /\ is_uint 32 (bi_nNonce b)))));
    [abstract (destruct_and!; constructor; assumption)|abstract (intros []; tauto)].
Defined.

(** The facts of the example that the witnesses use, evaluated once. *)
Definition entry_is (m : BlockMap) (p : ptr) (height time : Z) (prev : option ptr) : bool :=
  match m !! p with
  | Some b =>
      (nHeight b =? height) && (bi_nTime b =? time) && bool_decide (pprev b = prev)
      && bool_decide (fields_ok b)
  | None => false
  end.

Lemma sample_facts :
  all_added sample_headers
  && entry_is (m_block_index sample_index) sample_root_hash 0 1231006512 None
  && entry_is (m_block_index sample_index) sample_left_hash 1 1231006506 (Some sample_root_hash)
  && entry_is (m_block_index sample_index) sample_right_hash 1 1231006507 (Some sample_root_hash) = true.
Proof. vm_compute. reflexivity. Qed.

Lemma entry_is_spec m p height time prev :
  entry_is m p height time prev = true ->
  exists b, m !! p = Some b /\ nHeight b = height /\ bi_nTime b = time /\ pprev b = prev /\ fields_ok b.
Proof.
  unfold entry_is. destruct (m !! p) as [b|]; [|done]. intros H. exists b. bool_props.
  repeat match goal with H : bool_decide _ = true |- _ => apply bool_decide_eq_true_1 in H end. done.
Qed.

Lemma sample_reaches : index_reaches sample_index.
Proof.
  pose proof sample_facts as H. do 3 apply andb_true_iff in H as [H _].
  exact (built_reaches sample_headers H).
Qed.

Lemma sample_left_entry :
  exists b, m_block_index sample_index !! sample_left_hash = Some b /\ nHeight b = 1
            /\ bi_nTime b = 1231006506 /\ pprev b = Some sample_root_hash /\ fields_ok b.
Proof.
  pose proof sample_facts as H. apply andb_true_iff in H as [H _]. apply andb_true_iff in H as [_ H].
  exact (entry_is_spec _ _ _ _ _ H).
Qed.

Lemma sample_right_entry :
  exists b, m_block_index sample_index !! sample_right_hash = Some b /\ nHeight b = 1
            /\ bi_nTime b = 1231006507 /\ pprev b = Some sample_root_hash /\ fields_ok b.
Proof. pose proof sample_facts as H. apply andb_true_iff in H as [_ H]. exact (entry_is_spec _ _ _ _ _ H). Qed.

#[local] Opaque CBlockHeader_GetHash sample_index.

(** * Ancestors *)

(** C37: in every state of the block index, [GetAncestor] returns, for a height
    between 0 and the block's, the block at that height reached by following
    [pprev], and nullptr for any other height; it never fails an assertion. *)
Theorem GetAncestor_correct bm p b height :
  index_reaches bm -> m_block_index bm !! p = Some b ->
  (0 <= height <= nHeight b ->
   exists a ba, GetAncestor (m_block_index bm) p height = Ok (Some a)
     /\ walk (m_block_index bm) (Z.to_nat (nHeight b - height)) p = Some a
     /\ m_block_index bm !! a = Some ba /\ nHeight ba = height)
  /\ (height < 0 \/ nHeight b < height -> GetAncestor (m_block_index bm) p height = Ok None).
Proof.
  intros Hr Hp. destruct (reaches_wf bm Hr) as [Hwf _]. split; intros Hh.
  - by apply GetAncestor_in_range.
  - by apply (GetAncestor_out_of_range _ p b).
Qed.

Lemma GetAncestor_correct_witness :
  exists a, GetAncestor (m_block_index sample_index) sample_left_hash 0 = Ok (Some a)
    /\ GetAncestor (m_block_index sample_index) sample_left_hash 2 = Ok None.
Proof.
  destruct sample_left_entry as (b & Hb & Hh & _).
  destruct (GetAncestor_correct sample_index sample_left_hash b 0 sample_reaches Hb) as [H _].
  destruct (GetAncestor_correct sample_index sample_left_hash b 2 sample_reaches Hb) as [_ H'].
  destruct H as (a & ba & Ha & _); [lia|]. exists a. split; [exact Ha|]. apply H'. lia.
Defined.

(** In every state of the block index and for two of its blocks,
    [LastCommonAncestor] returns the block on both chains that every other
    common block precedes, or nullptr when the chains share no block; its
    assertion holds. *)
Theorem LastCommonAncestor_correct bm pa pb a b :
  index_reaches bm -> m_block_index bm !! pa = Some a -> m_block_index bm !! pb = Some b ->
  exists r, LastCommonAncestor (m_block_index bm) pa pb = Ok r /\ last_common (m_block_index bm) pa pb r.
Proof.
  intros Hr Ha Hb. destruct (reaches_wf bm Hr) as [Hwf _]. by apply (LastCommonAncestor_spec _ Hwf pa pb a b).
Qed.

Lemma LastCommonAncestor_correct_witness :
  exists r, LastCommonAncestor (m_block_index sample_index) sample_left_hash sample_right_hash = Ok r
    /\ last_common (m_block_index sample_index) sample_left_hash sample_right_hash r.
Proof.
  destruct sample_left_entry as (a & Ha & _). destruct sample_right_entry as (b & Hb & _).
  exact (LastCommonAncestor_correct sample_index _ _ a b sample_reaches Ha Hb).
Defined.

(** * Adding headers *)

Record index_ok (bm : BlockManager) : Prop := {
  io_key : forall p b, m_block_index bm !! p = Some b ->
    exists h, GetBlockHeader (m_block_index bm) b = Ok h /\ CBlockHeader_GetHash h = p;
  io_height : forall p b, m_block_index bm !! p = Some b ->
    nHeight b = match pprev b ≫= fun q => m_block_index bm !! q with Some bq => nHeight bq + 1 | None => 0 end;
  io_work : forall p b, m_block_index bm !! p = Some b ->
    work_of b = chain_proofs (m_block_index bm) (Z.to_nat (nHeight b)) p mod 2 ^ 256;
  io_best : best_ok bm;
}.

Lemma wf_index_ok bm : wf_tree (m_block_index bm) -> best_ok bm -> index_ok bm.
Proof.
  intros Hwf Hbest. constructor; [| | |done]; intros p b Hp.
  - apply (ew_key _ _ _ (Hwf p b Hp)).
  - destruct (pprev_cases _ Hwf p b Hp) as [[-> ->]|(q & bq & -> & Hq & -> & _)]; [done|]. cbn. by rewrite Hq.
  - by apply chain_work.
Qed.

Lemma reaches_index_ok bm : index_reaches bm -> index_ok bm.
Proof. intros Hr. destruct (reaches_wf bm Hr). by apply wf_index_ok. Qed.

(** C15: in every state reached by adding headers whose parents are known, the
    keys are the hashes of the stored headers, heights count from the first
    block, [nChainWork] is the sum of the block proofs of the chain, and
    [best_header] has the most work; adding another such header succeeds, keeps
    every entry, stores the header under its hash and marks it dirty, and adding
    a known one changes nothing. *)
Theorem AddToBlockIndex_correct bm h :
  index_reaches bm -> addable (m_block_index bm) h ->
  index_ok bm /\ exists bm', AddToBlockIndex bm h = Ok (CBlockHeader_GetHash h, bm') /\ index_ok bm'
    /\ match m_block_index bm !! CBlockHeader_GetHash h with
       | Some _ => bm' = bm
       | None => header_added bm h bm'
       end.
Proof.
  intros Hr Hadd. split; [by apply reaches_index_ok|]. destruct (reaches_wf bm Hr) as [Hwf Hbest].
  destruct (m_block_index bm !! CBlockHeader_GetHash h) as [b|] eqn:E.
  - exists bm. split; [by apply (AddToBlockIndex_known _ _ b)|]. split; [by apply reaches_index_ok|done].
  - destruct (AddToBlockIndex_new bm h Hwf Hbest Hadd E) as (bm' & Hop & _ & _ & Ha).
    exists bm'. split; [done|]. split; [|done]. by apply reaches_index_ok, (reach_add bm h _ bm' Hr Hadd Hop).
Qed.

Lemma AddToBlockIndex_correct_witness :
  exists bm', AddToBlockIndex empty_index sample_root = Ok (CBlockHeader_GetHash sample_root, bm')
    /\ index_ok bm'.
Proof.
  destruct (AddToBlockIndex_correct empty_index sample_root reach_empty) as (_ & bm' & H1 & H2 & _).
  - constructor; [by_decide|by_decide| |right; reflexivity|by_decide].
    refine (bool_decide_unpack (CBlockHeader_GetHash sample_root <> hashPrevBlock sample_root) _).
    vm_compute. exact I.
  - exists bm'. split; [exact H1|exact H2].
Defined.

(** * Times, work and status *)

#[local] Instance is_median_proper : Proper ((=) ==> (≡ₚ) ==> iff) is_median.
Proof.
  assert (forall t l l', l ≡ₚ l' -> is_median t l -> is_median t l') as H.
  { intros t l l' Hp (H1 & H2 & H3). unfold is_median. rewrite <- Hp. done. }
  intros t t' -> l l' Hp. split; apply H; [done|by symmetry].
Qed.

Lemma rev_perm (l : list Z) : rev l ≡ₚ l.
Proof. symmetry. apply Permutation_rev. Qed.

Lemma median_past m p : wf_tree m -> is_Some (m !! p) ->
  exists t, GetMedianTimePast m p = Ok t /\ is_median t (recent_times m p).
Proof.
  intros Hwf Hp. unfold GetMedianTimePast.
  rewrite past_times_spec, app_nil_r by done. cbn [mbind result_bind]. fold (recent_times m p).
  eexists. split; [done|]. set (ts := recent_times _ p).
  assert (ts <> []) as Hne.
  { destruct Hp as [b Hb]. subst ts. unfold recent_times, nMedianTimeSpan. cbn [seq omap list_omap].
    unfold time_at at 1. cbn [walk mbind option_bind]. by rewrite Hb. }
  pose proof (sorted_middle (rev ts)) as Hm. rewrite length_rev in *. rewrite <- (rev_perm ts) at 3. apply Hm.
  intros E. apply (f_equal (@length Z)) in E. rewrite length_rev in E. by destruct ts.
Qed.

(** [GetMedianTimePast] returns a median of the times of the block and its
    (at most ten) predecessors: one of those times, with more than half of them
    at or below it and at least half at or above it. *)
Theorem GetMedianTimePast_correct bm p :
  index_reaches bm -> is_Some (m_block_index bm !! p) ->
  exists t, GetMedianTimePast (m_block_index bm) p = Ok t
            /\ is_median t (recent_times (m_block_index bm) p).
Proof. intros Hr Hp. destruct (reaches_wf bm Hr) as [Hwf _]. by apply median_past. Qed.

Lemma GetMedianTimePast_correct_witness :
  exists t, GetMedianTimePast (m_block_index sample_index) sample_left_hash = Ok t
            /\ is_median t (recent_times (m_block_index sample_index) sample_left_hash).
Proof.
  apply (GetMedianTimePast_correct sample_index sample_left_hash sample_reaches).
  destruct sample_left_entry as (b & Hb & _). exists b. exact Hb.
Defined.

Lemma equivalent_time_cap q sign :
  wf256 q ->
  (if 63 <? bits q then Ok (sign * int64_max) else Ok (sign * i64 (GetLow64 q)))
  = Ok (E := string) (sign * Z.min (uval q) int64_max).
Proof.
  intros Hq. pose proof (wf256_bound q Hq) as [H0 _]. destruct Hq as [Wq Lq].
  rewrite bits_spec, GetLow64_spec by (done || (rewrite Lq; unfold WIDTH256; lia)).
  destruct (bitlen_bound (uval q) H0) as (B0 & B1 & B2). unfold int64_max.
  destruct (Z.ltb_spec 63 (bitlen (uval q))) as [Hlt|Hge]; do 2 f_equal.
  - assert (0 < uval q) by (destruct (Z.eq_dec (uval q) 0) as [E|]; [rewrite E in Hlt; cbn in Hlt; lia|lia]).
    assert (2 ^ 63 <= 2 ^ (bitlen (uval q) - 1)) by (apply Z.pow_le_mono_r; lia). lia.
  - assert (2 ^ bitlen (uval q) <= 2 ^ 63) by (apply Z.pow_le_mono_r; lia).
    rewrite Z.mod_small by lia. rewrite swrap_small by (unfold is_sint; cbn; lia). lia.
Qed.

(** [GetBlockProof] is 2^256 divided by the target plus one, rounded down
    (0 for a negative, zero or overflowing target), without overflow; and
    [GetBlockProofEquivalentTime] is the work difference times the spacing over
    the proof of the tip, with the sign of the difference, capped at the largest
    64-bit integer; it throws exactly when the tip has no work. *)
Theorem block_work_correct to from tip spacing :
  is_uint 32 (bi_nBits tip) -> wf256 (nChainWork to) -> wf256 (nChainWork from) -> is_uint 63 spacing ->
  Z.abs (work_of to - work_of from) * spacing < 2 ^ 256 ->
  (exists w, GetBlockProof tip = Ok w /\ uval w = block_proof (bi_nBits tip))
  /\ GetBlockProofEquivalentTime to from tip spacing
     = if block_proof (bi_nBits tip) =? 0 then Err "Division by zero"
       else Ok ((if work_of from <? work_of to then 1 else -1)
                * Z.min (Z.abs (work_of to - work_of from) * spacing / block_proof (bi_nBits tip)) int64_max).
Proof.
  intros Hb Wt Wf [Hs0 Hs1] Hov. destruct (GetBlockProof_spec tip Hb) as (w & Hw & Ww & Vw).
  split; [by exists w|]. unfold GetBlockProofEquivalentTime. rewrite Hw.
  pose proof (wf256_bound _ Wt) as Bt. pose proof (wf256_bound _ Wf) as Bf. unfold work_of in *.
  rewrite uint_gt_spec by (destruct Wt, Wf; congruence).
  set (r := if uval (nChainWork from) <? uval (nChainWork to)
            then uint_sub (nChainWork to) (nChainWork from) else uint_sub (nChainWork from) (nChainWork to)).
  set (sign := if uval (nChainWork from) <? uval (nChainWork to) then 1 else -1).
  assert (wf256 r /\ uval r = Z.abs (uval (nChainWork to) - uval (nChainWork from))) as [Wr Vr].
  { subst r. pose proof (wf256_nbits _ Wt) as Nt. pose proof (wf256_nbits _ Wf) as Nf.
    unfold is_uint in *. destruct Wt as [Wt Lt], Wf as [Wf Lf]. destruct (Z.ltb_spec (uval (nChainWork from)) (uval (nChainWork to))).
    - destruct (uint_sub_spec (nChainWork to) (nChainWork from)) as (V & W & L); [done|done|congruence|].
      rewrite Nt in V. rewrite Z.mod_small in V by lia. split; [split; congruence|lia].
    - destruct (uint_sub_spec (nChainWork from) (nChainWork to)) as (V & W & L); [done|done|congruence|].
      rewrite Nf in V. rewrite Z.mod_small in V by lia. split; [split; congruence|lia]. }
  replace (if uval (nChainWork from) <? uval (nChainWork to) then _ else _) with (r, sign)
    by (subst r sign; by destruct (_ <? _)).
  cbn [mbind result_bind].
  rewrite (wrap_small 64 spacing) by (unfold is_uint; lia).
  destruct (wf256_arith spacing) as [Wsp Vsp]; [unfold is_uint; lia|].
  destruct (uint_mul_spec r (arith_u64 spacing)) as (V & W & L); [apply Wr|apply Wsp|destruct Wr, Wsp; congruence|].
  rewrite (wf256_nbits r Wr), Vsp, Vr, Z.mod_small in V by (split; [apply Z.mul_nonneg_nonneg|]; lia).
  destruct (uint_div_spec (uint_mul r (arith_u64 spacing)) w) as [[-> E]|(q & -> & E & Vq & Wq & Lq)];
    [done|apply Ww|destruct Wr, Ww; congruence| |].
  - rewrite Vw in E. by rewrite E.
  - rewrite Vw in E. rewrite (proj2 (Z.eqb_neq _ _) E). cbn [mbind result_bind].
    rewrite V, Vw in Vq. rewrite <- Vq. apply equivalent_time_cap. split; [done|]. rewrite Lq, L. apply Wr.
Qed.

Lemma block_work_correct_witness :
  let b w := set_nChainWork (arith_u64 w) (CBlockIndex_new sample_root) in
  GetBlockProofEquivalentTime (b (2 ^ 40)) (b 3) (b 5) 600
  = Ok (Z.min ((2 ^ 40 - 3) * 600 / block_proof 0x1d00ffff) int64_max).
Proof.
  destruct (block_work_correct (set_nChainWork (arith_u64 (2 ^ 40)) (CBlockIndex_new sample_root))
    (set_nChainWork (arith_u64 3) (CBlockIndex_new sample_root))
    (set_nChainWork (arith_u64 5) (CBlockIndex_new sample_root)) 600) as [_ H];
    [by_decide|split; [by_decide|reflexivity]|split; [by_decide|reflexivity]|by_decide|vm_compute; reflexivity|].
  exact (eq_trans H ltac:(vm_compute; reflexivity)).
Defined.

Lemma raise_status s n :
  0 <= n <= 7 ->
  let s' := Z.lor (Z.land s (not32 BLOCK_VALID_MASK)) n in
  Z.land s' BLOCK_VALID_MASK = n
  /\ Z.land s' (not32 BLOCK_VALID_MASK) = Z.land s (not32 BLOCK_VALID_MASK).
Proof.
  intros Hn s'. subst s'. rewrite !Z.land_lor_distr_l, <- !Z.land_assoc.
  change (Z.land (not32 BLOCK_VALID_MASK) BLOCK_VALID_MASK) with 0.
  change (Z.land (not32 BLOCK_VALID_MASK) (not32 BLOCK_VALID_MASK)) with (not32 BLOCK_VALID_MASK).
  rewrite Z.land_0_r, Z.lor_0_l.
  assert (Z.land n BLOCK_VALID_MASK = n /\ Z.land n (not32 BLOCK_VALID_MASK) = 0) as [-> ->]; [|by rewrite Z.lor_0_r].
  assert (n = 0 \/ n = 1 \/ n = 2 \/ n = 3 \/ n = 4 \/ n = 5 \/ n = 6 \/ n = 7) as Hc by lia.
  by destruct_or! Hc; subst.
Qed.

(** [RaiseValidity] to a validity level leaves a failed entry alone;
    otherwise the entry is valid up to that level afterwards, its level never
    goes down, the other status bits and every other member stay, and the result
    tells whether the level changed. *)
Theorem RaiseValidity_correct b nUpTo :
  0 <= nUpTo <= 7 ->
  exists b' changed, RaiseValidity b nUpTo = Ok (b', changed)
    /\ set_nStatus (nStatus b) b' = b
    /\ Z.land (nStatus b') (not32 BLOCK_VALID_MASK) = Z.land (nStatus b) (not32 BLOCK_VALID_MASK)
    /\ Z.land (nStatus b) BLOCK_VALID_MASK <= Z.land (nStatus b') BLOCK_VALID_MASK
    /\ changed = negb (nStatus b' =? nStatus b)
    /\ IsValid b' nUpTo = Ok (Z.land (nStatus b) BLOCK_FAILED_MASK =? 0).
Proof.
  intros Hn. unfold RaiseValidity, IsValid. destruct (raise_status (nStatus b) nUpTo Hn) as [R1 R2].
  assert (Z.land nUpTo (not32 BLOCK_VALID_MASK) =? 0 = true) as ->.
  { apply Z.eqb_eq. assert (nUpTo = 0 \/ nUpTo = 1 \/ nUpTo = 2 \/ nUpTo = 3 \/ nUpTo = 4 \/ nUpTo = 5
      \/ nUpTo = 6 \/ nUpTo = 7) as Hc by lia. by destruct_or! Hc; subst. }
  cbn [negb]. destruct (Z.land (nStatus b) BLOCK_FAILED_MASK =? 0) eqn:Ef; cbn [negb].
  - destruct (Z.ltb_spec (Z.land (nStatus b) BLOCK_VALID_MASK) nUpTo) as [Hlt|Hge].
    + eexists _, _. split; [done|].
      assert (forall v, nStatus (set_nStatus v b) = v) as Hset by by destruct b. rewrite Hset.
      split; [by destruct b|]. split; [done|]. split; [rewrite R1; lia|]. split.
      * symmetry. apply negb_true_iff, Z.eqb_neq. intros E. rewrite <- E, R1 in Hlt. lia.
      * rewrite Z.land_lor_distr_l, <- Z.land_assoc.
        change (Z.land (not32 BLOCK_VALID_MASK) BLOCK_FAILED_MASK) with BLOCK_FAILED_MASK.
        apply Z.eqb_eq in Ef. rewrite Ef, Z.lor_0_l, R1, Z.leb_refl.
        assert (Z.land nUpTo BLOCK_FAILED_MASK = 0) as ->; [|done].
        change BLOCK_FAILED_MASK with (3 * 2 ^ 5). apply land_disjoint; [lia|unfold is_uint; lia].
    + exists b, false. rewrite Z.eqb_refl, Ef. split_and!; try done; [by destruct b|].
      cbn [negb]. f_equal. apply Z.leb_le. lia.
  - exists b, false. rewrite Z.eqb_refl, Ef. split_and!; try done. by destruct b.
Qed.

Lemma RaiseValidity_correct_witness :
  exists b', RaiseValidity (CBlockIndex_new sample_root) BLOCK_VALID_TREE = Ok (b', true).
Proof.
  destruct (RaiseValidity_correct (CBlockIndex_new sample_root) BLOCK_VALID_TREE) as (b' & c & H & _);
    [unfold BLOCK_VALID_TREE; lia|].
  exists b'. rewrite H. revert H. vm_compute. intros H. injection H as <- <-. reflexivity.
Defined.

(** * Records on disk *)

(** What survives on disk: the pointers, the accumulated fields and the position
    of data the entry does not have are dropped. *)
Definition on_disk (b : CBlockIndex) : CBlockIndex :=
  {| phashBlock := None; pprev := None; pskip := None; nHeight := nHeight b;
     nFile := if has_status (nStatus b) BLOCK_HAVE_MASK then nFile b else 0;
     nDataPos := if has_status (nStatus b) BLOCK_HAVE_DATA then nDataPos b else 0;
     nUndoPos := if has_status (nStatus b) BLOCK_HAVE_UNDO then nUndoPos b else 0;
     nChainWork := arith_u64 0; nTx := nTx b; m_chain_tx_count := 0; nStatus := nStatus b;
     bi_nVersion := bi_nVersion b; bi_hashMerkleRoot := bi_hashMerkleRoot b; bi_nTime := bi_nTime b;
     bi_nBits := bi_nBits b; bi_nNonce := bi_nNonce b; nSequenceId := 0; nTimeMax := 0 |}.

Lemma varint_int n rest : is_uint 31 n -> ReadVarInt int_max (ser_varint 32 n ++ rest) = Ok (n, rest).
Proof. intros [? ?]. apply varint_read_back; unfold is_uint, int_max; lia. Qed.

Lemma varint_uint n rest : is_uint 32 n -> ReadVarInt uint_max (ser_varint 32 n ++ rest) = Ok (n, rest).
Proof. intros [? ?]. apply varint_read_back; unfold is_uint, uint_max; lia. Qed.

Lemma varint_optional (c : bool) w max n rest :
  0 < w -> is_uint w n -> n <= max ->
  (if c then ReadVarInt max else mret 0) ((if c then ser_varint w n else []) ++ rest)
  = Ok (if c then n else 0, rest).
Proof. destruct c; [|done]. intros. by apply varint_read_back. Qed.

Lemma disk_index_read_back b prev rest :
  fields_ok b -> blob 32 prev ->
  unser_disk_index (ser_disk_index (DiskBlockIndex b prev) ++ rest) = Ok (DiskBlockIndex (on_disk b) prev, rest).
Proof.
  intros [Hh Hs Ht Hf Hd Hu Hv Hr Hti Hb Hn] Hp. unfold unser_disk_index, ser_disk_index.
  cbn [disk_base hashPrev]. rewrite <- !app_assoc.
  erewrite reader_bind_ok by (apply varint_int; unfold is_uint, DISK_DUMMY_VERSION; lia).
  erewrite reader_bind_ok by by apply varint_int.
  do 2 erewrite reader_bind_ok by by apply varint_uint.
  erewrite reader_bind_ok by (apply varint_optional; unfold is_uint, int_max in *; lia).
  do 2 erewrite reader_bind_ok by (apply varint_optional; unfold is_uint, uint_max in *; lia).
  by do 6 codec_write.
Qed.

Lemma key_blob m q bq : wf_tree m -> m !! q = Some bq -> blob 32 q.
Proof.
  intros Hwf Hq. destruct (ew_key _ _ _ (Hwf q bq Hq)) as (h & _ & <-). rewrite CBlockHeader_GetHash_spec.
  split; [by rewrite length_Hash|apply Hash_wf].
Qed.

(** The record written for a block index entry reads back as the entry
    without its in-memory fields, whatever follows it in the stream, and the
    hash computed from the record is the entry's key. *)
Theorem disk_index_roundtrip bm p b rest :
  index_reaches bm -> m_block_index bm !! p = Some b -> fields_ok b ->
  exists d, CDiskBlockIndex_new (m_block_index bm) b = Ok d
    /\ exists d', unser_disk_index (ser_disk_index d ++ rest) = Ok (d', rest)
       /\ disk_base d' = on_disk b /\ hashPrev d' = hashPrev d /\ ConstructBlockHash d' = p.
Proof.
  intros Hr Hp Hb. destruct (reaches_wf bm Hr) as [Hwf _].
  destruct (ew_key _ _ _ (Hwf p b Hp)) as (h & Hh & Hk). unfold GetBlockHeader in Hh.
  assert (exists prev, CDiskBlockIndex_new (m_block_index bm) b = Ok (DiskBlockIndex b prev)
    /\ h = BlockHeader (bi_nVersion b) prev (bi_hashMerkleRoot b) (bi_nTime b) (bi_nBits b) (bi_nNonce b)
    /\ blob 32 prev) as (prev & Hd & -> & Hblob).
  { unfold CDiskBlockIndex_new.
    destruct (pprev_cases _ Hwf p b Hp) as [[_ E]|(q & bq & E & Hq & _)]; rewrite E in *.
    - exists uint256_null. injection Hh as <-. split_and!; [done|done|by_decide].
    - rewrite (deref_ok _ _ _ Hq) in *. cbn [mbind result_bind] in *. unfold GetBlockHash in *.
      rewrite (ew_hash _ _ _ (Hwf q bq Hq)) in *. injection Hh as <-. exists q.
      split_and!; [done|done|by apply (key_blob _ q bq Hwf)]. }
  exists (DiskBlockIndex b prev). split; [done|]. exists (DiskBlockIndex (on_disk b) prev).
  by rewrite (disk_index_read_back b prev rest Hb Hblob).
Qed.

Lemma disk_index_roundtrip_witness :
  exists b d d', m_block_index sample_index !! sample_left_hash = Some b
    /\ unser_disk_index (ser_disk_index d ++ [1; 2]) = Ok (d', [1; 2]) /\ ConstructBlockHash d' = sample_left_hash.
Proof.
  destruct sample_left_entry as (b & Hb & _ & _ & _ & Hok).
  destruct (disk_index_roundtrip sample_index sample_left_hash b [1; 2] sample_reaches Hb Hok)
    as (d & _ & d' & H1 & _ & _ & H2).
  exists b, d, d'. split; [exact Hb|]. split; [exact H1|exact H2].
Defined.

Definition file_info_ok (f : CBlockFileInfo) : Prop :=
  is_uint 32 (nBlocks f) /\ is_uint 32 (nSize f) /\ is_uint 32 (nUndoSize f)
  /\ is_uint 32 (nHeightFirst f) /\ is_uint 32 (nHeightLast f)
  /\ is_uint 64 (nTimeFirst f) /\ is_uint 64 (nTimeLast f).

Definition add_blocks (bs : list (Z * Z)) : CBlockFileInfo :=
  foldl (fun f b => AddBlock b.1 b.2 f) CBlockFileInfo_new bs.

Definition least (xs : list Z) : Z := foldr Z.min (default 0 (head xs)) xs.
Definition greatest (xs : list Z) : Z := foldr Z.max 0 xs.

Lemma least_snoc xs x : xs <> [] -> least (xs ++ [x]) = Z.min (least xs) x.
Proof.
  destruct xs as [|y xs]; [done|]. intros _. unfold least. rewrite foldr_app. cbn.
  enough (forall a, foldr Z.min (Z.min x a) xs = Z.min (foldr Z.min a xs) x) as H by (rewrite H; lia).
  intros a. induction xs as [|z xs IH]; cbn; lia.
Qed.

Lemma greatest_snoc xs x : greatest (xs ++ [x]) = Z.max (greatest xs) x.
Proof.
  unfold greatest. rewrite foldr_app. cbn.
  induction xs as [|z xs IH]; cbn; lia.
Qed.

(** A block file's statistics after adding blocks are their number, and the
    least and greatest height and time, and the record written for them reads
    back unchanged. *)
Theorem block_file_info_correct bs rest :
  Z.of_nat (length bs) < 2 ^ 32 -> Forall (fun b => is_uint 32 b.1 /\ is_uint 64 b.2) bs ->
  add_blocks bs = BlockFileInfo (Z.of_nat (length bs)) 0 0
    (least bs.*1) (greatest bs.*1) (least bs.*2) (greatest bs.*2)
  /\ unser_file_info (ser_file_info (add_blocks bs) ++ rest) = Ok (add_blocks bs, rest).
Proof.
  intros Hlen Hall.
  assert (add_blocks bs = BlockFileInfo (Z.of_nat (length bs)) 0 0
    (least bs.*1) (greatest bs.*1) (least bs.*2) (greatest bs.*2)
    /\ file_info_ok (add_blocks bs)) as [E Hok].
  { induction bs as [|[h t] bs IH] using rev_ind; [split; [done|by_decide]|].
    apply list.Forall_app in Hall as [Hall [[Hh Ht] _]%Forall_cons_iff]. cbn in Hh, Ht.
    rewrite length_app in *. cbn [length] in Hlen. destruct IH as [E Hok]; [lia|done|].
    unfold add_blocks in *. rewrite foldl_app. cbn [foldl fst snd]. rewrite E in *.
    unfold AddBlock. cbn [nBlocks nSize nUndoSize nHeightFirst nHeightLast nTimeFirst nTimeLast].
    unfold file_info_ok, is_uint in *.
    cbn [nBlocks nSize nUndoSize nHeightFirst nHeightLast nTimeFirst nTimeLast] in *.
    rewrite wrap_small by (unfold is_uint; lia). rewrite !fmap_app. cbn [fmap list_fmap fst snd].
    rewrite !greatest_snoc. rewrite !max_if.
    replace (Z.of_nat (length bs + length [(h, t)])) with (Z.of_nat (length bs) + 1) by (cbn [length]; lia).
    destruct bs as [|b bs]; [cbn -[Z.max Z.pow]; change (Z.of_nat 0 =? 0) with true; cbn [orb]; rewrite !Z.min_id; split; [done|lia]|]. rewrite !least_snoc by done.
    rewrite (proj2 (Z.eqb_neq (Z.of_nat _) 0)) by (cbn [length]; lia). cbn [orb].
    rewrite !min_if.
    split; [done|]. lia. }
  split; [done|]. clear E. destruct (add_blocks bs) as [nb sz us hf hl tf tl].
  unfold unser_file_info, ser_file_info, file_info_ok in *. rewrite <- !app_assoc.
  cbn [nBlocks nSize nUndoSize nHeightFirst nHeightLast nTimeFirst nTimeLast] in *. destruct_and! Hok.
  do 5 erewrite reader_bind_ok by by apply varint_uint.
  do 2 erewrite reader_bind_ok by (apply varint_read_back; unfold is_uint in *; lia).
  done.
Qed.

Lemma block_file_info_correct_witness :
  add_blocks [(5, 100); (3, 120); (4, 90)] = BlockFileInfo 3 0 0 3 5 90 120.
Proof.
  exact (proj1 (block_file_info_correct [(5, 100); (3, 120); (4, 90)] [] ltac:(by_decide) ltac:(by_decide))).
Defined.
