(* ===== verification/Chain.v ===== *)
(** The active chain: [CChain] of src/bitcoin/src/chain.h and chain.cpp over the
    block index, with [SetTip], the queries by height, [FindFork],
    [FindEarliestAtLeast] and block locators. *)

From stdpp Require Import sorting.
From S2P Require Import Prelude Serialize ArithUint256 MerkleDamgard Sha2 Hash Transaction BlockIndex BlockIndexSpec.

(** * Operations *)

(** [vChain], a vector of pointers; [None] is a null pointer. *)
Abbreviation CChain := (list (option ptr)).

(** [vChain\[i\]], which the standard leaves undefined out of range. *)
Definition vec_get (v : CChain) (i : Z) : result string (option ptr) :=
  if i <? 0 then Err "vector index"
  else match v !! Z.to_nat i with Some x => Ok x | None => Err "vector index" end.

Definition Genesis (c : CChain) : option ptr := match c with x :: _ => x | [] => None end.

Definition Tip (c : CChain) : option ptr :=
  match c with [] => None | _ => default None (c !! (length c - 1)%nat) end.

Definition chain_at (c : CChain) (height : Z) : option ptr :=
  if (height <? 0) || (Z.of_nat (length c) <=? height) then None
  else default None (c !! Z.to_nat height).

Definition Height (c : CChain) : Z := Z.of_nat (length c) - 1.

Definition Contains (m : BlockMap) (c : CChain) (pindex : ptr) : result string bool :=
  b ← deref m pindex; Ok (bool_decide (chain_at c (nHeight b) = Some pindex)).

Definition Next (m : BlockMap) (c : CChain) (pindex : ptr) : result string (option ptr) :=
  has ← Contains m c pindex;
  if (has : bool) then b ← deref m pindex; Ok (chain_at c (nHeight b + 1)) else Ok None.

Fixpoint SetTip_loop (fuel : nat) (m : BlockMap) (vChain : CChain) (pindex : option ptr) :
    result string CChain :=
  match pindex with
  | None => Ok vChain
  | Some p =>
      b ← deref m p;
      x ← vec_get vChain (nHeight b);
      if bool_decide (x = Some p) then Ok vChain
      else match fuel with
      | O => Err "out of fuel"
      | S fuel => SetTip_loop fuel m (<[Z.to_nat (nHeight b) := Some p]> vChain) (pprev b)
      end
  end.

(** The loop writes at most one entry per height. *)
Definition SetTip (m : BlockMap) (vChain : CChain) (block : ptr) : result string CChain :=
  b ← deref m block;
  let vChain := resize (Z.to_nat (nHeight b + 1)) None vChain in
  SetTip_loop (Z.to_nat (nHeight b + 1)) m vChain (Some block).

Fixpoint FindFork_loop (fuel : nat) (m : BlockMap) (c : CChain) (pindex : option ptr) :
    result string (option ptr) :=
  match pindex with
  | None => Ok None
  | Some p =>
      has ← Contains m c p;
      if (has : bool) then Ok (Some p)
      else match fuel with
      | O => Err "out of fuel"
      | S fuel => q ← pprev_of m p; FindFork_loop fuel m c q
      end
  end.

(** The loop climbs at most to the root of the entry it starts from. *)
Definition FindFork (m : BlockMap) (c : CChain) (pindex : option ptr) : result string (option ptr) :=
  match pindex with
  | None => Ok None
  | Some p =>
      b ← deref m p;
      q ← (if Height c <? nHeight b then GetAncestor m p (Height c) else Ok (Some p));
      FindFork_loop (Z.to_nat (nHeight b) + 1) m c q
  end.

(** [std::lower_bound]: halve the range [first, first + len) until it is empty. *)
Fixpoint lower_bound_loop {A} (fuel : nat) (less : A -> result string bool) (v : list A) (first len : nat) :
    result string nat :=
  match len with
  | O => Ok first
  | _ =>
      match fuel with
      | O => Err "out of fuel"
      | S fuel =>
          let half := (len / 2)%nat in
          match v !! (first + half)%nat with
          | None => Err "iterator out of range"
          | Some x =>
              lt ← less x;
              if (lt : bool) then lower_bound_loop fuel less v (first + half + 1) (len - half - 1)
              else lower_bound_loop fuel less v first half
          end
      end
  end.

Definition lower_bound {A} (less : A -> result string bool) (v : list A) : result string nat :=
  lower_bound_loop (length v) less v 0 (length v).

(** The comparison [FindEarliestAtLeast] searches with. *)
Definition earlier_than (m : BlockMap) (nTime height : Z) (pBlock : option ptr) : result string bool :=
  match pBlock with
  | None => Err "null pointer"
  | Some p => b ← deref m p; Ok ((GetBlockTimeMax b <? nTime) || (nHeight b <? height))
  end.

Definition FindEarliestAtLeast (m : BlockMap) (c : CChain) (nTime height : Z) :
    result string (option ptr) :=
  i ← lower_bound (earlier_than m nTime height) c;
  Ok (default None (c !! i)).

(** ** Locators *)

Fixpoint LocatorEntries_loop (fuel : nat) (m : BlockMap) (index : option ptr) (step : Z) (have : list bytes) :
    result string (list bytes) :=
  match index with
  | None => Ok have
  | Some p =>
      b ← deref m p;
      h ← GetBlockHash b;
      let have := have ++ [h] in
      if nHeight b =? 0 then Ok have
      else
        let height := Z.max (nHeight b - step) 0 in
        index ← GetAncestor m p height;
        let step := if 10 <? Z.of_nat (length have) then i32 (step * 2) else step in
        match fuel with
        | O => Err "out of fuel"
        | S fuel => LocatorEntries_loop fuel m index step have
        end
  end.

(** Every iteration goes to a smaller height. *)
Definition LocatorEntries (m : BlockMap) (index : option ptr) : result string (list bytes) :=
  match index with
  | None => Ok []
  | Some p => b ← deref m p; LocatorEntries_loop (Z.to_nat (nHeight b)) m index 1 []
  end.

Definition GetLocator (m : BlockMap) (c : CChain) : result string (list bytes) :=
  LocatorEntries m (Tip c).

(** * Specification *)

(** The vector of a chain: entry [i] is the block at height [i] on the way from
    the tip to the root. *)
Definition chain_of (m : BlockMap) (tip : ptr) (c : CChain) : Prop :=
  exists b, m !! tip = Some b /\ length c = S (Z.to_nat (nHeight b))
    /\ forall i, (i <= Z.to_nat (nHeight b))%nat -> c !! i = Some (walk m (Z.to_nat (nHeight b) - i) tip).

Section Chain.
Context (m : BlockMap) (Hwf : wf_tree m).

(** The vector has no null pointer, and holds the block of each height. *)
Lemma chain_lookup tip c i x :
  chain_of m tip c -> c !! i = Some x ->
  exists p b, x = Some p /\ m !! p = Some b /\ nHeight b = Z.of_nat i /\ ancestor m tip p.
Proof.
  intros (b & Hb & Hl & Hc) Hx. pose proof (height_nonneg m Hwf _ _ Hb).
  pose proof (lookup_lt_Some _ _ _ Hx). rewrite Hc in Hx by lia.
  destruct (walk_down m Hwf (Z.to_nat (nHeight b) - i) tip b Hb) as (a & ba & Ha & Hba & E); [lia|].
  exists a, ba. rewrite Ha in Hx. injection Hx as <-. split_and!; try done; [lia|]. by eexists.
Qed.

Lemma chain_at_ancestor tip c p b :
  chain_of m tip c -> m !! p = Some b ->
  chain_at c (nHeight b) = Some p <-> ancestor m tip p.
Proof.
  intros Hc Hp. pose proof (height_nonneg m Hwf _ _ Hp). unfold chain_at. split.
  - destruct (_ || _) eqn:E; [done|]. bool_props. intros Hx.
    destruct (c !! Z.to_nat (nHeight b)) as [x|] eqn:Ex; [|done]. cbn in Hx. subst x.
    destruct (chain_lookup _ _ _ _ Hc Ex) as (q & bq & Eq & _ & _ & Ha). congruence.
  - intros Ha. destruct Hc as (bt & Hbt & Hl & Hc).
    destruct (ancestor_at m Hwf tip bt p Hbt Ha) as (b' & Hb' & Hle & Hw). simplify_eq.
    rewrite (proj2 (Z.ltb_ge _ _)), (proj2 (Z.leb_gt _ _)) by lia. cbn [orb].
    rewrite Hc by lia. cbn. rewrite <- Hw. f_equal. lia.
Qed.

Lemma Contains_spec tip c p b :
  chain_of m tip c -> m !! p = Some b ->
  exists has, Contains m c p = Ok has /\ (has = true <-> ancestor m tip p).
Proof.
  intros Hc Hp. unfold Contains. rewrite (deref_ok _ _ _ Hp). cbn. eexists. split; [done|].
  rewrite bool_decide_eq_true. by apply chain_at_ancestor.
Qed.

Lemma Tip_spec tip c : chain_of m tip c -> Tip c = Some tip /\ exists b, m !! tip = Some b /\ Height c = nHeight b.
Proof.
  intros (b & Hb & Hl & Hc). pose proof (height_nonneg m Hwf _ _ Hb). unfold Tip, Height. rewrite Hl. split.
  - destruct c as [|x c]; [done|]. replace (S _ - 1)%nat with (Z.to_nat (nHeight b)) by lia.
    rewrite Hc by lia. by rewrite Nat.sub_diag.
  - exists b. split; [done|]. lia.
Qed.

(** ** [SetTip] *)

(** What the loop keeps: above the current block the vector is right for the
    new tip; at and below it, an entry is null or on one chain with those
    below it. *)
Definition old_ok (c : CChain) (k : nat) : Prop :=
  forall i p b, (i < k)%nat -> c !! i = Some (Some p) -> m !! p = Some b ->
    nHeight b = Z.of_nat i -> forall j, (j <= i)%nat -> c !! j = Some (walk m (i - j) p).

Lemma SetTip_loop_spec fuel c tip bt n q :
  m !! tip = Some bt -> (Z.to_nat (nHeight bt) < length c)%nat -> length c = S (Z.to_nat (nHeight bt)) ->
  walk m n tip = q -> (n <= S (Z.to_nat (nHeight bt)))%nat ->
  (S (Z.to_nat (nHeight bt)) - n <= fuel)%nat ->
  (forall i, (S (Z.to_nat (nHeight bt)) - n <= i <= Z.to_nat (nHeight bt))%nat ->
     c !! i = Some (walk m (Z.to_nat (nHeight bt) - i) tip)) ->
  old_ok c (S (Z.to_nat (nHeight bt)) - n) ->
  exists c', SetTip_loop fuel m c q = Ok c' /\ chain_of m tip c'.
Proof.
  intros Hbt. pose proof (height_nonneg m Hwf _ _ Hbt). set (h := Z.to_nat (nHeight bt)) in *.
  revert c n q. induction fuel as [|fuel IH]; intros c n q Hlt Hl Hq Hn Hf Hup Hold.
  - replace n with (S h) in * by lia. rewrite (walk_past m Hwf (S h) tip bt Hbt) in Hq by lia. subst q.
    exists c. split; [done|]. exists bt. split_and!; try done. intros i Hi. apply Hup. lia.
  - destruct (decide (n = S h)) as [->|Hne].
    { rewrite (walk_past m Hwf (S h) tip bt Hbt) in Hq by lia. subst q.
      exists c. split; [done|]. exists bt. split_and!; try done. intros i Hi. apply Hup. lia. }
    destruct (walk_down m Hwf n tip bt Hbt) as (a & ba & Ha & Hba & Eh); [lia|].
    rewrite Ha in Hq. subst q. cbn [SetTip_loop]. rewrite (deref_ok _ _ _ Hba). cbn [mbind result_bind].
    unfold vec_get. rewrite (proj2 (Z.ltb_ge _ _)) by lia.
    replace (Z.to_nat (nHeight ba)) with (h - n)%nat by lia.
    destruct (lookup_lt_is_Some_2 c (h - n)) as [x Hx]; [lia|]. rewrite Hx. cbn [mbind result_bind].
    case_bool_decide as E.
    + subst x. exists c. split; [done|]. exists bt. split_and!; try done. intros i Hi.
      destruct (decide (S h - n <= i)%nat); [apply Hup; lia|].
      rewrite (Hold (h - n)%nat a ba ltac:(lia) Hx Hba ltac:(lia) i ltac:(lia)).
      fold h. replace (h - i)%nat with (n + (h - n - i))%nat by lia. by rewrite walk_add, Ha.
    + apply (IH _ (S n)); rewrite ?length_insert; try done; try lia.
      * replace (S n) with (n + 1)%nat by lia. rewrite walk_add, Ha. cbn. rewrite Hba. cbn. by destruct (pprev ba).
      * intros i Hi. destruct (decide (i = h - n)%nat) as [->|].
        -- rewrite list_lookup_insert_eq by lia. replace (h - (h - n))%nat with n by lia. by rewrite Ha.
        -- rewrite list_lookup_insert_ne by lia. apply Hup. lia.
      * intros i p b Hi Hp Hb Hhb j Hj. rewrite list_lookup_insert_ne in Hp by lia.
        rewrite list_lookup_insert_ne by lia. apply (Hold i p b); try done; lia.
Qed.

Lemma old_ok_resize tip c k : chain_of m tip c -> old_ok (resize k None c) k.
Proof.
  intros Hc i p b Hi Hp Hb Hhb j Hj.
  destruct (decide (i < length c)%nat) as [Hin|Hout].
  - rewrite lookup_resize in Hp by lia. destruct (chain_lookup _ _ _ _ Hc Hp) as (q & bq & [= <-] & Hq & _ & Ha).
    rewrite lookup_resize by lia. destruct Hc as (bt & Hbt & Hl & Hc). rewrite Hc in * by lia.
    injection Hp as Hp. replace (Z.to_nat (nHeight bt) - j)%nat with
      ((Z.to_nat (nHeight bt) - i) + (i - j))%nat by lia. by rewrite walk_add, Hp.
  - rewrite lookup_resize_new in Hp by lia. done.
Qed.

Lemma SetTip_spec c tip bt :
  m !! tip = Some bt -> c = [] \/ (exists t0, chain_of m t0 c) ->
  exists c', SetTip m c tip = Ok c' /\ chain_of m tip c'.
Proof.
  intros Hbt Hc. pose proof (height_nonneg m Hwf _ _ Hbt). unfold SetTip. rewrite (deref_ok _ _ _ Hbt).
  cbn [mbind result_bind]. replace (Z.to_nat (nHeight bt + 1)) with (S (Z.to_nat (nHeight bt))) by lia.
  apply (SetTip_loop_spec _ _ tip bt 0); rewrite ?length_resize; try done; try lia.
  destruct Hc as [->|[t0 Hc]]; [|by apply (old_ok_resize t0)].
  intros i p b Hi Hp. rewrite lookup_resize_new in Hp by (cbn; lia). done.
Qed.
(** ** [FindFork] *)

Lemma FindFork_loop_spec fuel c tip p b :
  chain_of m tip c -> m !! p = Some b -> (Z.to_nat (nHeight b) < fuel)%nat ->
  exists r, FindFork_loop fuel m c (Some p) = Ok r /\ last_common m tip p r.
Proof.
  intros Hc. revert p b. induction fuel as [|fuel IH]; intros p b Hp Hf; [lia|].
  cbn [FindFork_loop]. destruct (Contains_spec tip c p b Hc Hp) as (has & -> & Hhas). cbn [mbind result_bind].
  destruct has.
  - exists (Some p). split; [done|]. split; [split; [by apply Hhas|apply ancestor_refl]|].
    by intros c' [_ ?].
  - assert (~ ancestor m tip p) as Hno by (rewrite <- Hhas; done). unfold pprev_of.
    rewrite (deref_ok _ _ _ Hp). cbn [mbind result_bind].
    destruct (pprev_cases m Hwf p b Hp) as [[H0 E]|(q & bq & E & Hq & Hh & Hpq)]; rewrite E.
    + exists None. split; [by destruct fuel|]. intros c' [H1 H2].
      destruct (ancestor_step m p b c' Hp H2) as [->|(q & Eq & _)]; [done|congruence].
    + pose proof (height_nonneg m Hwf _ _ Hq). destruct (IH q bq Hq) as (r & Hr & Hl); [lia|].
      exists r. split; [done|].
      assert (forall c', common m tip p c' <-> common m tip q c') as Hiff.
      { intros c'. split; intros [H1 H2]; split; try done; [|by apply (ancestor_trans _ _ q)].
        destruct (ancestor_step m p b c' Hp H2) as [->|(q' & Eq & ?)]; [done|congruence]. }
      unfold last_common in *. destruct r as [x|]; [|intros c'; rewrite Hiff; auto].
      destruct Hl as [Hx Hall]. split; [by apply Hiff|]. intros c' Hc'. by apply Hall, Hiff.
Qed.

Lemma FindFork_spec c tip p b :
  chain_of m tip c -> m !! p = Some b ->
  exists r, FindFork m c (Some p) = Ok r /\ last_common m tip p r.
Proof.
  intros Hc Hp. destruct (Tip_spec tip c Hc) as (_ & bt & Hbt & Ht).
  pose proof (height_nonneg m Hwf _ _ Hp). pose proof (height_nonneg m Hwf _ _ Hbt).
  unfold FindFork. rewrite (deref_ok _ _ _ Hp), Ht. cbn [mbind result_bind].
  destruct (Z.ltb_spec (nHeight bt) (nHeight b)).
  - destruct (GetAncestor_in_range m Hwf p b (nHeight bt) Hp) as (x & bx & -> & Hw & Hx & Hh); [lia|].
    cbn [mbind result_bind]. destruct (FindFork_loop_spec (Z.to_nat (nHeight b) + 1) c tip x bx Hc Hx)
      as (r & -> & Hr); [lia|].
    exists r. split; [done|]. apply last_common_sym. apply (last_common_lift m Hwf p b tip bt x bx); try done.
    + by eexists.
    + by apply last_common_sym.
  - cbn [mbind result_bind]. apply (FindFork_loop_spec _ c tip p b Hc Hp). lia.
Qed.

(** ** [FindEarliestAtLeast] *)

Lemma timemax_mono p b a ba :
  m !! p = Some b -> ancestor m p a -> m !! a = Some ba -> nTimeMax ba <= nTimeMax b.
Proof.
  intros Hp [n Hn] Ha. revert p b Hp Hn. induction n as [|n IH]; intros p b Hp Hn.
  - injection Hn as ->. by simplify_eq.
  - cbn [walk] in Hn. rewrite Hp in Hn. cbn in Hn.
    pose proof (ew_links _ _ _ (Hwf p b Hp)) as Hl. unfold links_ok in Hl.
    destruct (pprev b) as [q|]; [|done]. destruct Hl as (bq & s & Hq & _ & _ & _ & Ht & _).
    specialize (IH q bq Hq Hn). lia.
Qed.
End Chain.

(** [lower_bound] on a vector partitioned by the comparison. *)
Section LowerBound.
Context {A : Type} (v : list A) (less : A -> result string bool) (f : nat -> bool).
Hypothesis less_ok : forall i x, v !! i = Some x -> less x = Ok (f i).
Hypothesis partitioned : forall i j, (i <= j < length v)%nat -> f j = true -> f i = true.

Lemma lower_bound_loop_spec fuel first len :
  (len <= fuel)%nat -> (first + len <= length v)%nat ->
  (forall i, (i < first)%nat -> f i = true) ->
  (forall i, (first + len <= i < length v)%nat -> f i = false) ->
  exists i, lower_bound_loop fuel less v first len = Ok i /\ (i <= length v)%nat
    /\ (forall j, (j < i)%nat -> f j = true) /\ (forall j, (i <= j < length v)%nat -> f j = false).
Proof.
  revert first len. induction fuel as [|fuel IH]; intros first len Hf Hr Hlo Hhi.
  { replace len with 0%nat in * by lia. exists first. cbn. split_and!; try done; [lia|].
    intros j Hj. apply Hhi. lia. }
  destruct len as [|len'] eqn:El; [|rewrite <- El in *; assert (0 < len)%nat by lia].
  { exists first. cbn. split_and!; try done; [lia|]. intros j Hj. apply Hhi. lia. }
  unfold lower_bound_loop; fold (@lower_bound_loop A).
  destruct len as [|len''] eqn:El2; [lia|]. rewrite <- El2 in *. clear El2 El.
  pose proof (Nat.div_lt len 2 ltac:(lia) ltac:(lia)). set (half := (len / 2)%nat) in *.
  destruct (lookup_lt_is_Some_2 v (first + half)) as [x Hx]; [lia|]. rewrite Hx, (less_ok _ _ Hx).
  cbn [mbind result_bind]. destruct (f (first + half)) eqn:E.
  - apply IH; [lia|lia| |].
    + intros i Hi. apply (partitioned i (first + half)); [lia|done].
    + intros i Hi. apply Hhi. lia.
  - apply IH; [lia|lia|done|]. intros i Hi. destruct (f i) eqn:Ei; [|done].
    rewrite (partitioned (first + half) i) in E by (done || lia). done.
Qed.

Lemma lower_bound_spec :
  exists i, lower_bound less v = Ok i /\ (i <= length v)%nat
    /\ (forall j, (j < i)%nat -> f j = true) /\ (forall j, (i <= j < length v)%nat -> f j = false).
Proof. apply lower_bound_loop_spec; [lia|lia|lia|lia]. Qed.
End LowerBound.

Section Earliest.
Context (m : BlockMap) (Hwf : wf_tree m) (tip : ptr) (c : CChain) (Hc : chain_of m tip c).

(** The blocks of the chain the search is for. *)
Definition late_enough (nTime height : Z) (p : ptr) : Prop :=
  exists b, m !! p = Some b /\ nTime <= nTimeMax b /\ height <= nHeight b.

Lemma chain_ancestor i j p q :
  (i <= j)%nat -> c !! i = Some (Some p) -> c !! j = Some (Some q) -> ancestor m q p.
Proof.
  intros Hij Hp Hq. destruct (chain_lookup m Hwf _ _ _ _ Hc Hp) as (p' & bp & [= <-] & Hbp & Hhp & Ap).
  destruct (chain_lookup m Hwf _ _ _ _ Hc Hq) as (q' & bq & [= <-] & Hbq & Hhq & Aq).
  destruct Hc as (bt & Hbt & _). apply (ancestor_linear m Hwf tip bt q p Hbt Aq Ap bq bp); try done. lia.
Qed.

Lemma FindEarliestAtLeast_spec nTime height :
  exists r, FindEarliestAtLeast m c nTime height = Ok r
    /\ match r with
       | Some p => ancestor m tip p /\ late_enough nTime height p
           /\ forall q, ancestor m tip q -> late_enough nTime height q -> ancestor m q p
       | None => forall q, ancestor m tip q -> ~ late_enough nTime height q
       end.
Proof.
  set (f := fun i => match earlier_than m nTime height (default None (c !! i)) with Ok r => r | Err _ => false end).
  assert (forall i x, c !! i = Some x -> earlier_than m nTime height x = Ok (f i)
    /\ exists p b, x = Some p /\ m !! p = Some b /\ nHeight b = Z.of_nat i
                   /\ f i = (GetBlockTimeMax b <? nTime) || (nHeight b <? height)) as Hf.
  { intros i x Hx. destruct (chain_lookup m Hwf _ _ _ _ Hc Hx) as (p & b & -> & Hb & Hh & _).
    subst f. cbn beta. rewrite Hx. cbn [default from_option id earlier_than].
    rewrite (deref_ok _ _ _ Hb). cbn [mbind result_bind]. split; [done|]. by exists p, b. }
  destruct (lower_bound_spec c (earlier_than m nTime height) f) as (i & Hi & Hle & Hlo & Hhi).
  - intros i x Hx. by apply Hf.
  - intros i j Hij Hj. destruct (lookup_lt_is_Some_2 c i) as [x Hx]; [lia|].
    destruct (lookup_lt_is_Some_2 c j) as [y Hy]; [lia|].
    destruct (Hf i x Hx) as (_ & p & bp & -> & Hp & Hhp & ->), (Hf j y Hy) as (_ & q & bq & -> & Hq & Hhq & Eq).
    rewrite Eq in Hj. pose proof (timemax_mono m Hwf q bq p bp Hq (chain_ancestor i j p q ltac:(lia) Hx Hy) Hp).
    unfold GetBlockTimeMax in *. bool_cases; bool_props; try done; lia.
  - assert (forall q, ancestor m tip q -> late_enough nTime height q ->
      exists j, (i <= j)%nat /\ c !! j = Some (Some q)) as Hlate.
    { intros q Aq (b & Hb & Ht & Hh). pose proof (proj2 (chain_at_ancestor m Hwf tip c q b Hc Hb) Aq) as Hat.
      unfold chain_at in Hat. destruct (_ || _) eqn:E; [done|]. bool_props.
      destruct (c !! Z.to_nat (nHeight b)) as [x|] eqn:Ex; [|done]. cbn in Hat. subst x.
      exists (Z.to_nat (nHeight b)). split; [|done]. apply Nat.le_ngt. intros Hlt.
      destruct (Hf _ _ Ex) as (_ & q' & b' & [= <-] & Hb' & _ & E'). simplify_eq.
      rewrite (Hlo _ Hlt) in E'. unfold GetBlockTimeMax in E'. symmetry in E'. bool_cases; bool_props; lia. }
    unfold FindEarliestAtLeast. rewrite Hi. cbn [mbind result_bind]. eexists. split; [done|].
    destruct (c !! i) as [x|] eqn:Ex; cbn.
    + destruct (Hf i x Ex) as (_ & p & b & -> & Hb & Hh & E).
      destruct (chain_lookup m Hwf _ _ _ _ Hc Ex) as (p' & b' & [= <-] & _ & _ & Ap).
      split; [done|]. rewrite Hhi in E by (apply lookup_lt_Some in Ex; lia). unfold GetBlockTimeMax in E.
      symmetry in E. bool_props. split; [exists b; split_and!; done || lia|].
      intros q Aq Lq. destruct (Hlate q Aq Lq) as (j & Hj & Hq). by apply (chain_ancestor i j).
    + intros q Aq Lq. destruct (Hlate q Aq Lq) as (j & Hj & Hq). apply lookup_lt_Some in Hq.
      apply lookup_ge_None in Ex. lia.
Qed.
End Earliest.

(** ** Locators *)

(** The heights of a locator: ten steps back by one, then doubling steps. *)
Fixpoint locator_heights (fuel : nat) (h step : Z) (len : nat) : list Z :=
  h :: if h =? 0 then []
       else match fuel with
            | O => []
            | S fuel => locator_heights fuel (Z.max (h - step) 0) (if (9 <? len)%nat then step * 2 else step) (S len)
            end.

Lemma locator_doubling n fuel h step len :
  (9 < len)%nat -> 0 < step -> 0 <= h <= step * (2 ^ Z.of_nat n - 1) ->
  (length (locator_heights fuel h step len) <= S n)%nat.
Proof.
  revert n h step len. induction fuel as [|fuel IH]; intros n h step len Hlen Hstep Hh; cbn [locator_heights];
    (destruct (Z.eqb_spec h 0); cbn [length]; [lia|]); [lia|].
  destruct n as [|n]; [change (2 ^ Z.of_nat 0) with 1 in Hh; lia|].
  rewrite (proj2 (Nat.ltb_lt _ _) Hlen). apply le_n_S, IH; [lia|lia|].
  rewrite Nat2Z.inj_succ, Z.pow_succ_r in Hh by lia.
  assert (0 < 2 ^ Z.of_nat n) by (apply pow2_pos; lia). nia.
Qed.

Lemma locator_length n fuel h len :
  (len <= 10)%nat -> 0 <= h < 2 ^ Z.of_nat n ->
  (length (locator_heights fuel h 1 len) <= 11 - len + n)%nat.
Proof.
  revert h len. induction fuel as [|fuel IH]; intros h len Hlen Hh; [cbn [locator_heights]; destruct (h =? 0); cbn; lia|].
  destruct (decide (len = 10)%nat) as [->|Hne].
  { pose proof (locator_doubling n (S fuel) h 1 10 ltac:(lia) ltac:(lia) ltac:(lia)). lia. }
  cbn [locator_heights]. destruct (Z.eqb_spec h 0); cbn [length]; [lia|].
  rewrite (proj2 (Nat.ltb_ge _ _)) by lia. pose proof (IH (Z.max (h - 1) 0) (S len) ltac:(lia) ltac:(lia)). lia.
Qed.

Lemma locator_heights_shape fuel h step len :
  0 < step -> 0 <= h -> (Z.to_nat h <= fuel)%nat ->
  exists hs, locator_heights fuel h step len = h :: hs /\ list.last (h :: hs) = Some 0
    /\ StronglySorted (fun x y => y < x) (h :: hs) /\ Forall (fun x => 0 <= x < h) hs.
Proof.
  revert h step len. induction fuel as [|fuel IH]; intros h step len Hs Hh Hf; cbn [locator_heights];
    destruct (Z.eqb_spec h 0) as [->|]; try lia; try (exists []; split_and!; [done..|repeat constructor|constructor]).
  destruct (IH (Z.max (h - step) 0) (if (9 <? len)%nat then step * 2 else step) (S len)) as (hs & -> & Hl & Hsort & Hall);
    [destruct (_ <? _)%nat; lia|lia|lia|].
  exists (Z.max (h - step) 0 :: hs). split; [done|]. split; [exact Hl|].
  assert (Forall (fun x => 0 <= x < h) (Z.max (h - step) 0 :: hs)) as Hall'.
  { constructor; [lia|]. apply (list.Forall_impl _ _ _ Hall). intros x Hx. cbn in Hx. lia. }
  split; [|done]. constructor; [done|]. apply (list.Forall_impl _ _ _ Hall'). intros x Hx. cbn in Hx. lia.
Qed.

Section Locator.
Context (m : BlockMap) (Hwf : wf_tree m).

Definition at_height (p : ptr) (q : ptr) (h : Z) : Prop :=
  ancestor m p q /\ exists b, m !! q = Some b /\ nHeight b = h.

Lemma LocatorEntries_loop_spec fuel p b step have H :
  m !! p = Some b -> (Z.to_nat (nHeight b) <= fuel)%nat -> 0 < step -> H < 2 ^ 30 ->
  (nHeight b = 0 \/ nHeight b + step - 1 <= H) ->
  exists hs, LocatorEntries_loop fuel m (Some p) step have = Ok (have ++ hs)
    /\ Forall2 (at_height p) hs (locator_heights fuel (nHeight b) step (length have)).
Proof.
  revert p b step have. induction fuel as [|fuel IH]; intros p b step have Hp Hf Hs HH Hinv;
    pose proof (height_nonneg m Hwf _ _ Hp); cbn [LocatorEntries_loop locator_heights];
    rewrite (deref_ok _ _ _ Hp); cbn [mbind result_bind]; unfold GetBlockHash;
    rewrite (ew_hash _ _ _ (Hwf p b Hp)); cbn [mbind result_bind];
    assert (at_height p p (nHeight b)) as Hself by (split; [apply ancestor_refl|by exists b]);
    (destruct (Z.eqb_spec (nHeight b) 0); [exists [p]; split; [done|apply Forall2_cons; [done|constructor]]|]); [lia|].
  destruct (GetAncestor_in_range m Hwf p b (Z.max (nHeight b - step) 0) Hp) as (q & bq & -> & Hw & Hq & Hh); [lia|].
  cbn [mbind result_bind]. rewrite length_app. cbn [length].
  assert ((10 <? Z.of_nat (length have + 1)) = (9 <? length have)%nat) as ->.
  { destruct (Nat.ltb_spec 9 (length have)), (Z.ltb_spec 10 (Z.of_nat (length have + 1))); done || lia. }
  set (step' := if (9 <? length have)%nat then step * 2 else step).
  assert ((if (9 <? length have)%nat then i32 (step * 2) else step) = step') as ->.
  { subst step'. destruct (_ <? _)%nat; [|done]. apply swrap_small; unfold is_sint; cbn; lia. }
  destruct (IH q bq step' (have ++ [p])) as (hs & -> & Hall); try done; [lia|subst step'; destruct (_ <? _)%nat; lia| |].
  { subst step'. destruct (_ <? _)%nat; lia. }
  exists (p :: hs). rewrite <- app_assoc. split; [done|]. apply Forall2_cons; [done|].
  rewrite <- Hh. rewrite length_app in Hall. cbn [length] in Hall. rewrite Nat.add_1_r in Hall.
  eapply Forall2_impl; [|exact Hall]. intros x y [Hx Hb]. split; [|done].
  apply (ancestor_trans _ _ q); [by eexists|done].
Qed.

Lemma LocatorEntries_spec p b :
  m !! p = Some b -> nHeight b < 2 ^ 30 ->
  exists hs, LocatorEntries m (Some p) = Ok hs
    /\ Forall2 (at_height p) hs (locator_heights (Z.to_nat (nHeight b)) (nHeight b) 1 0).
Proof.
  intros Hp Hh. unfold LocatorEntries. rewrite (deref_ok _ _ _ Hp). cbn [mbind result_bind].
  destruct (LocatorEntries_loop_spec (Z.to_nat (nHeight b)) p b 1 [] (nHeight b)) as (hs & E & Hall); try done; try lia.
  by exists hs.
Qed.
End Locator.

(** * Properties *)

(** The vectors [CChain] goes through: empty at first, then set to blocks of the
    index (which may grow in between). *)
Inductive chain_reaches : BlockManager -> CChain -> Prop :=
| chain_start bm : index_reaches bm -> chain_reaches bm []
| chain_grow bm h p bm' c :
    chain_reaches bm c -> addable (m_block_index bm) h -> AddToBlockIndex bm h = Ok (p, bm') ->
    chain_reaches bm' c
| chain_set bm c block c' :
    chain_reaches bm c -> is_Some (m_block_index bm !! block) ->
    SetTip (m_block_index bm) c block = Ok c' -> chain_reaches bm c'.

Lemma chain_of_grow m m' tip c : m ⊆ m' -> wf_tree m -> chain_of m tip c -> chain_of m' tip c.
Proof.
  intros Hm Hwf (b & Hb & Hl & Hc). exists b. split; [by apply (lookup_weaken m)|]. split; [done|].
  intros i Hi. pose proof (height_nonneg m Hwf _ _ Hb).
  destruct (walk_down m Hwf (Z.to_nat (nHeight b) - i) tip b Hb) as (a & _ & Ha & _); [lia|].
  rewrite (walk_mono m m' _ _ a Hm Ha), <- Ha. by apply Hc.
Qed.

Lemma add_grows bm h p bm' :
  index_reaches bm -> addable (m_block_index bm) h -> AddToBlockIndex bm h = Ok (p, bm') ->
  m_block_index bm ⊆ m_block_index bm'.
Proof.
  intros Hr Hadd Hop. destruct (reaches_wf bm Hr) as [Hwf Hbest].
  destruct (m_block_index bm !! CBlockHeader_GetHash h) as [b|] eqn:E.
  - rewrite (AddToBlockIndex_known bm h b E) in Hop. by injection Hop as _ <-.
  - destruct (AddToBlockIndex_new bm h Hwf Hbest Hadd E) as (bm2 & Hop2 & _ & _ & Ha).
    rewrite Hop2 in Hop. injection Hop as _ <-. apply (ha_kept _ _ _ Ha).
Qed.

Lemma chain_reaches_ok bm c :
  chain_reaches bm c -> index_reaches bm /\ (c = [] \/ exists tip, chain_of (m_block_index bm) tip c).
Proof.
  induction 1 as [bm Hr|bm h p bm' c _ [Hr Hc] Hadd Hop|bm c block c' _ [Hr Hc] [b Hb] Hop].
  - by split; [|left].
  - split; [by apply (reach_add bm h p)|]. destruct Hc as [->|[tip Hc]]; [by left|right]. exists tip.
    apply (chain_of_grow (m_block_index bm)); [by apply (add_grows bm h p)|by apply reaches_wf|done].
  - split; [done|]. right. exists block. destruct (reaches_wf bm Hr) as [Hwf _].
    destruct (SetTip_spec _ Hwf c block b Hb Hc) as (c2 & Hop2 & Hc2). congruence.
Qed.

(** From any vector the active chain can have, also one whose tip is on
    another branch or higher up, [SetTip] ends within bounds and leaves exactly
    the chain of the given block: entry [i] is its ancestor at height [i]; then
    [Tip], [Height], [Contains] and [Next] answer by that chain. *)
Theorem SetTip_correct bm c tip bt :
  chain_reaches bm c -> m_block_index bm !! tip = Some bt ->
  exists c', SetTip (m_block_index bm) c tip = Ok c' /\ chain_of (m_block_index bm) tip c'
    /\ Tip c' = Some tip /\ Height c' = nHeight bt
    /\ (forall p b, m_block_index bm !! p = Some b ->
          exists has, Contains (m_block_index bm) c' p = Ok has
            /\ (has = true <-> ancestor (m_block_index bm) tip p)
            /\ Next (m_block_index bm) c' p = Ok (if has then chain_at c' (nHeight b + 1) else None)).
Proof.
  intros Hc Hbt. destruct (chain_reaches_ok bm c Hc) as [Hr Hold]. destruct (reaches_wf bm Hr) as [Hwf _].
  destruct (SetTip_spec _ Hwf c tip bt Hbt Hold) as (c' & Hop & Hc').
  destruct (Tip_spec _ Hwf tip c' Hc') as (Ht & bt' & Hbt' & Hh). simplify_eq.
  exists c'. split_and!; try done. intros p b Hp.
  destruct (Contains_spec _ Hwf tip c' p b Hc' Hp) as (has & Hhas & Hiff). exists has. split_and!; try done.
  unfold Next. rewrite Hhas. cbn [mbind result_bind]. destruct has; [|done]. by rewrite (deref_ok _ _ _ Hp).
Qed.

#[local] Opaque sample_index.

Lemma sample_chain : exists c, chain_reaches sample_index c /\ chain_of (m_block_index sample_index) sample_left_hash c.
Proof.
  destruct sample_left_entry as (b & Hb & _). destruct (reaches_wf _ sample_reaches) as [Hwf _].
  destruct (SetTip_spec _ Hwf [] sample_left_hash b Hb (or_introl eq_refl)) as (c & Hop & Hc).
  exists c. split; [|exact Hc]. apply (chain_set _ [] sample_left_hash); [apply chain_start, sample_reaches|by eexists|done].
Qed.

Lemma SetTip_correct_witness :
  exists c c', chain_reaches sample_index c /\ SetTip (m_block_index sample_index) c sample_right_hash = Ok c'
    /\ Tip c' = Some sample_right_hash.
Proof.
  destruct sample_chain as (c & Hc & _). destruct sample_right_entry as (b & Hb & _).
  destruct (SetTip_correct sample_index c sample_right_hash b Hc Hb) as (c' & H1 & _ & H2 & _).
  exists c, c'. split; [exact Hc|]. split; [exact H1|exact H2].
Defined.

(** For a block of the index, [FindFork] returns the last block it has in
    common with the active chain, or nullptr if there is none. *)
Theorem FindFork_correct bm c tip p b :
  chain_reaches bm c -> Tip c = Some tip -> m_block_index bm !! p = Some b ->
  exists r, FindFork (m_block_index bm) c (Some p) = Ok r /\ last_common (m_block_index bm) tip p r.
Proof.
  intros Hc Ht Hp. destruct (chain_reaches_ok bm c Hc) as [Hr [->|[t Ho]]]; [done|].
  destruct (reaches_wf bm Hr) as [Hwf _]. destruct (Tip_spec _ Hwf t c Ho) as [Ht' _]. simplify_eq.
  by apply (FindFork_spec _ Hwf c tip p b).
Qed.

Lemma FindFork_correct_witness :
  exists c r, FindFork (m_block_index sample_index) c (Some sample_right_hash) = Ok r
    /\ last_common (m_block_index sample_index) sample_left_hash sample_right_hash r.
Proof.
  destruct sample_chain as (c & Hc & Ho). destruct sample_right_entry as (b & Hb & _).
  destruct (FindFork_correct sample_index c sample_left_hash sample_right_hash b Hc
    (proj1 (Tip_spec _ (proj1 (reaches_wf _ sample_reaches)) _ _ Ho)) Hb) as (r & H1 & H2).
  exists c, r. split; [exact H1|exact H2].
Defined.

(** The binary search of [FindEarliestAtLeast] finds the lowest block of the
    active chain whose maximal past time and height are at least the given ones,
    and nullptr exactly when the chain has none. *)
Theorem FindEarliestAtLeast_correct bm c tip nTime height :
  chain_reaches bm c -> Tip c = Some tip ->
  exists r, FindEarliestAtLeast (m_block_index bm) c nTime height = Ok r
    /\ match r with
       | Some p => ancestor (m_block_index bm) tip p /\ late_enough (m_block_index bm) nTime height p
           /\ forall q, ancestor (m_block_index bm) tip q -> late_enough (m_block_index bm) nTime height q ->
                ancestor (m_block_index bm) q p
       | None => forall q, ancestor (m_block_index bm) tip q -> ~ late_enough (m_block_index bm) nTime height q
       end.
Proof.
  intros Hc Ht. destruct (chain_reaches_ok bm c Hc) as [Hr [->|[t Ho]]]; [done|].
  destruct (reaches_wf bm Hr) as [Hwf _]. destruct (Tip_spec _ Hwf t c Ho) as [Ht' _]. simplify_eq.
  by apply FindEarliestAtLeast_spec.
Qed.

Lemma FindEarliestAtLeast_correct_witness :
  exists c r, Tip c = Some sample_left_hash
    /\ FindEarliestAtLeast (m_block_index sample_index) c 1231006512 1 = Ok r.
Proof.
  destruct sample_chain as (c & Hc & Ho).
  pose proof (proj1 (Tip_spec _ (proj1 (reaches_wf _ sample_reaches)) _ _ Ho)) as Ht.
  destruct (FindEarliestAtLeast_correct sample_index c sample_left_hash 1231006512 1 Hc Ht) as (r & H & _).
  exists c, r. split; [exact Ht|exact H].
Defined.

(** The locator of a block lists ancestors of it at strictly decreasing
    heights, beginning with the block and ending with the first block of its
    chain; the steps double after the first ten, without overflow, so that a
    chain of fewer than 2^n blocks has at most n + 11 entries. *)
Theorem LocatorEntries_correct bm p b n :
  index_reaches bm -> m_block_index bm !! p = Some b -> nHeight b < 2 ^ 30 -> nHeight b < 2 ^ Z.of_nat n ->
  exists hs heights, LocatorEntries (m_block_index bm) (Some p) = Ok hs
    /\ Forall2 (at_height (m_block_index bm) p) hs heights
    /\ StronglySorted (fun x y => y < x) heights
    /\ head heights = Some (nHeight b) /\ list.last heights = Some 0
    /\ (length hs <= n + 11)%nat.
Proof.
  intros Hr Hp Hh Hn. destruct (reaches_wf bm Hr) as [Hwf _]. pose proof (height_nonneg _ Hwf _ _ Hp).
  destruct (LocatorEntries_spec _ Hwf p b Hp Hh) as (hs & Hop & Hall).
  pose proof (locator_length n (Z.to_nat (nHeight b)) (nHeight b) 0 ltac:(lia) ltac:(lia)) as Hlen.
  destruct (locator_heights_shape (Z.to_nat (nHeight b)) (nHeight b) 1 0) as (tl & E & Hl & Hs & _); [lia..|].
  rewrite E in *. exists hs, (nHeight b :: tl). split_and!; try done. apply Forall2_length in Hall. lia.
Qed.

Lemma LocatorEntries_correct_witness :
  exists hs, LocatorEntries (m_block_index sample_index) (Some sample_left_hash) = Ok hs /\ (length hs <= 12)%nat.
Proof.
  destruct sample_left_entry as (b & Hb & Hh & _).
  destruct (LocatorEntries_correct sample_index sample_left_hash b 1 sample_reaches Hb) as (hs & hh & H1 & H2 & _ & _ & _ & H3);
    [rewrite Hh; reflexivity|rewrite Hh; reflexivity|].
  exists hs. split; [exact H1|exact H3].
Defined.
