(* ===== verification/Pow.v ===== *)
(** Proof of work (src/bitcoin/src/pow.cpp) over the block index: the required
    target of the next block, the bounds on a difficulty change, and the check of
    a block hash against its target. *)

From S2P Require Import Prelude Serialize ArithUint256 MerkleDamgard Sha2 Hash Transaction BlockIndex BlockIndexSpec.

(** * Operations *)

(** The members of [Consensus::Params] that proof of work uses. *)
Record PowParams := MkPowParams {
  powLimit : bytes;
  fPowAllowMinDifficultyBlocks : bool;
  enforce_BIP94 : bool;
  fPowNoRetargeting : bool;
  nPowTargetSpacing : Z;
  nPowTargetTimespan : Z;
}.

Definition DifficultyAdjustmentInterval (params : PowParams) : Z :=
  Z.quot (nPowTargetTimespan params) (nPowTargetSpacing params).

(** [GetCompact()], with its assertions. *)
Definition compact_of (v : limbs) : result string Z :=
  match GetCompact v false with Some c => Ok c | None => Err "assertion in GetCompact" end.

(** [bn *= n; bn /= d] for 64-bit [n] and [d]: the product takes a 32-bit factor,
    the quotient a 256-bit divisor. *)
Definition scale_target (bn : limbs) (n d : Z) : result string limbs :=
  uint_div (uint_mul32 bn (u32 n)) (arith_u64 (u64 d)).

Definition cap_target (bn limit : limbs) : limbs := if uint_gt bn limit then limit else bn.

(** The compact target a retarget starts from: the last block's, or under BIP94
    the one of the first block of the period. *)
Definition retarget_bits (m : BlockMap) (pindexLast : ptr) (last : CBlockIndex) (params : PowParams) :
    result string Z :=
  if enforce_BIP94 params then
    let nHeightFirst := i32 (nHeight last - (DifficultyAdjustmentInterval params - 1)) in
    first ← GetAncestor m pindexLast nHeightFirst;
    match first with
    | Some f => b ← deref m f; Ok (bi_nBits b)
    | None => Err "null pointer"
    end
  else Ok (bi_nBits last).

Definition CalculateNextWorkRequired (m : BlockMap) (pindexLast : ptr) (nFirstBlockTime : Z)
    (params : PowParams) : result string Z :=
  last ← deref m pindexLast;
  if fPowNoRetargeting params then Ok (bi_nBits last)
  else
    let nActualTimespan := i64 (GetBlockTime last - nFirstBlockTime) in
    let nActualTimespan :=
      if nActualTimespan <? Z.quot (nPowTargetTimespan params) 4
      then Z.quot (nPowTargetTimespan params) 4 else nActualTimespan in
    let nActualTimespan :=
      if nPowTargetTimespan params * 4 <? nActualTimespan
      then nPowTargetTimespan params * 4 else nActualTimespan in
    let bnPowLimit := UintToArith256 (powLimit params) in
    nBits ← retarget_bits m pindexLast last params;
    let bnNew := (SetCompact nBits).1.1 in
    bnNew ← scale_target bnNew nActualTimespan (nPowTargetTimespan params);
    compact_of (cap_target bnNew bnPowLimit).

(** The walk back to the last block that was not mined under the minimum
    difficulty rule. *)
Fixpoint last_real_block (fuel : nat) (m : BlockMap) (pindex : ptr) (interval nProofOfWorkLimit : Z) :
    result string Z :=
  b ← deref m pindex;
  match pprev b with
  | Some q =>
      if negb (Z.rem (nHeight b) interval =? 0) && (bi_nBits b =? nProofOfWorkLimit) then
        match fuel with
        | O => Err "out of fuel"
        | S fuel => last_real_block fuel m q interval nProofOfWorkLimit
        end
      else Ok (bi_nBits b)
  | None => Ok (bi_nBits b)
  end.

Definition GetNextWorkRequired (m : BlockMap) (pindexLast : ptr) (pblock : CBlockHeader)
    (params : PowParams) : result string Z :=
  nProofOfWorkLimit ← compact_of (UintToArith256 (powLimit params));
  last ← deref m pindexLast;
  if negb (Z.rem (nHeight last + 1) (DifficultyAdjustmentInterval params) =? 0) then
    if fPowAllowMinDifficultyBlocks params then
      if GetBlockTime last + nPowTargetSpacing params * 2 <? nTime pblock then Ok nProofOfWorkLimit
      else last_real_block (Z.to_nat (nHeight last)) m pindexLast (DifficultyAdjustmentInterval params)
             nProofOfWorkLimit
    else Ok (bi_nBits last)
  else
    let nHeightFirst := i32 (nHeight last - (DifficultyAdjustmentInterval params - 1)) in
    if nHeightFirst <? 0 then Err "assertion nHeightFirst >= 0"
    else
      first ← GetAncestor m pindexLast nHeightFirst;
      match first with
      | None => Err "assertion pindexFirst"
      | Some f => b ← deref m f; CalculateNextWorkRequired m pindexLast (GetBlockTime b) params
      end.

(** The target nearest to [old_nbits] scaled by [timespan], in compact precision. *)
Definition transition_limit (params : PowParams) (old_nbits timespan : Z) : result string limbs :=
  t ← scale_target (SetCompact old_nbits).1.1 timespan (nPowTargetTimespan params);
  c ← compact_of (cap_target t (UintToArith256 (powLimit params)));
  Ok (SetCompact c).1.1.

Definition PermittedDifficultyTransition (params : PowParams) (height old_nbits new_nbits : Z) :
    result string bool :=
  if fPowAllowMinDifficultyBlocks params then Ok true
  else if Z.rem height (DifficultyAdjustmentInterval params) =? 0 then
    let smallest_timespan := Z.quot (nPowTargetTimespan params) 4 in
    let largest_timespan := nPowTargetTimespan params * 4 in
    let observed_new_target := (SetCompact new_nbits).1.1 in
    maximum_new_target ← transition_limit params old_nbits largest_timespan;
    if uint_lt maximum_new_target observed_new_target then Ok false
    else
      minimum_new_target ← transition_limit params old_nbits smallest_timespan;
      if uint_gt minimum_new_target observed_new_target then Ok false else Ok true
  else if negb (old_nbits =? new_nbits) then Ok false
  else Ok true.

Definition DeriveTarget (nBits : Z) (pow_limit : bytes) : option limbs :=
  let '(bnTarget, fNegative, fOverflow) := SetCompact nBits in
  if fNegative || EqualTo bnTarget 0 || fOverflow || uint_gt bnTarget (UintToArith256 pow_limit) then None
  else Some bnTarget.

Definition CheckProofOfWorkImpl (hash : bytes) (nBits : Z) (params : PowParams) : bool :=
  match DeriveTarget nBits (powLimit params) with
  | None => false
  | Some bnTarget => if uint_gt (UintToArith256 hash) bnTarget then false else true
  end.

(** * Specification *)

(** Parameters the arithmetic is correct for. *)
Record params_ok (params : PowParams) : Prop := {
  po_limit : blob 32 (powLimit params);
  po_spacing : 0 < nPowTargetSpacing params;
  po_timespan : nPowTargetSpacing params <= nPowTargetTimespan params;
  po_small : nPowTargetTimespan params * 4 < 2 ^ 32;
  po_room : le_val (powLimit params) * (nPowTargetTimespan params * 4) < 2 ^ 256;
  po_bip94 : enforce_BIP94 params = true -> fPowAllowMinDifficultyBlocks params = true;
}.

Definition limit_of (params : PowParams) : Z := le_val (powLimit params).

(** A compact word for a target a block may claim. *)
Definition valid_target (params : PowParams) (nBits : Z) : Prop :=
  is_uint 32 nBits /\ Z.testbit nBits 23 = false /\ 0 < compact_exact nBits <= limit_of params.

Section Pow.
Context (params : PowParams) (Hp : params_ok params).

Lemma limit_arith :
  wf256 (UintToArith256 (powLimit params)) /\ uval (UintToArith256 (powLimit params)) = limit_of params.
Proof. destruct (UintToArith256_spec _ (proj2 (po_limit _ Hp))) as (? & ? & ?); [|done].
  pose proof (proj1 (po_limit _ Hp)). lia. Qed.

Lemma interval_pos : 1 <= DifficultyAdjustmentInterval params.
Proof.
  unfold DifficultyAdjustmentInterval. destruct Hp as [_ H1 H2 _ _ _].
  rewrite Z.quot_div_nonneg by lia. apply Z.div_le_lower_bound; lia.
Qed.

Lemma limit_bound : 0 <= limit_of params < 2 ^ 256.
Proof.
  unfold limit_of. destruct (po_limit _ Hp) as [L W]. pose proof (le_val_bound _ W) as H.
  unfold is_uint in H. rewrite L in H. done.
Qed.

Lemma valid_SetCompact nBits :
  valid_target params nBits ->
  exists t, SetCompact nBits = (t, false, false) /\ wf256 t /\ uval t = compact_exact nBits.
Proof.
  intros (Hu & Hs & Hb). pose proof (SetCompact_spec nBits Hu) as H. pose proof limit_bound.
  destruct (SetCompact nBits) as [[t fn] fo]. destruct H as (W & L & V & -> & ->). exists t.
  rewrite Hs, andb_false_r, (proj2 (Z.leb_gt _ _)) by lia. rewrite Z.mod_small in V by lia.
  split_and!; done.
Qed.

Lemma scale_target_spec t n :
  wf256 t -> 0 < uval t <= limit_of params -> 0 <= n <= nPowTargetTimespan params * 4 ->
  exists r, scale_target t n (nPowTargetTimespan params) = Ok r /\ wf256 r
    /\ uval r = uval t * n / nPowTargetTimespan params.
Proof.
  intros Ht Hv Hn. unfold scale_target. destruct Hp as [_ H1 H2 H3 H4 _]. fold (limit_of params) in H4.
  rewrite !wrap_small by (unfold is_uint; lia).
  destruct (wf256_arith (nPowTargetTimespan params)) as [Wd Vd]; [unfold is_uint; lia|].
  destruct (uint_mul32_spec t n) as (V & W & L); [apply Ht|unfold is_uint; lia|].
  rewrite (wf256_nbits t Ht), Z.mod_small in V by nia.
  destruct (uint_div_spec (uint_mul32 t n) (arith_u64 (nPowTargetTimespan params)))
    as [[_ E]|(q & -> & _ & Vq & Wq & Lq)]; [done|apply Wd|destruct Ht, Wd; congruence|lia|].
  exists q. split; [done|]. split; [split; [done|destruct Ht; congruence]|]. congruence.
Qed.

Lemma cap_target_spec t :
  wf256 t -> wf256 (cap_target t (UintToArith256 (powLimit params)))
  /\ uval (cap_target t (UintToArith256 (powLimit params))) = Z.min (uval t) (limit_of params).
Proof.
  intros Ht. destruct limit_arith as [Wl Vl]. unfold cap_target.
  rewrite uint_gt_spec by (destruct Ht, Wl; congruence). rewrite Vl.
  destruct (Z.ltb_spec (limit_of params) (uval t)); split; done || lia.
Qed.

(** The value of a scaled and capped target after a trip through compact form. *)
Lemma compact_cap_spec t :
  wf256 t ->
  exists c, compact_of (cap_target t (UintToArith256 (powLimit params))) = Ok c /\ is_uint 32 c
    /\ SetCompact c = (compact_round (cap_target t (UintToArith256 (powLimit params))), false, false)
    /\ Z.testbit c 23 = false.
Proof.
  intros Ht. destruct (cap_target_spec t Ht) as [W _].
  destruct (compact_round_spec _ W) as (c & k & Hc & Hu & Hs & _).
  destruct (GetCompact_spec _ (proj1 W) (proj2 W)) as (c' & _ & Hc' & _ & Hb & _).
  exists c. unfold compact_of. rewrite Hc. split_and!; try done. congruence.
Qed.

Definition clamp (t : Z) : Z := Z.min (Z.max t (Z.quot (nPowTargetTimespan params) 4)) (nPowTargetTimespan params * 4).

Lemma clamp_bound t : Z.quot (nPowTargetTimespan params) 4 <= clamp t <= nPowTargetTimespan params * 4 /\ 0 <= clamp t.
Proof.
  destruct Hp as [_ H1 H2 _ _ _]. unfold clamp. rewrite Z.quot_div_nonneg by lia.
  pose proof (Z.div_pos (nPowTargetTimespan params) 4). pose proof (Z.div_le_upper_bound (nPowTargetTimespan params) 4 (nPowTargetTimespan params)). lia.
Qed.

Lemma timespan_clamp t :
  let a := if t <? Z.quot (nPowTargetTimespan params) 4 then Z.quot (nPowTargetTimespan params) 4 else t in
  (if nPowTargetTimespan params * 4 <? a then nPowTargetTimespan params * 4 else a) = clamp t.
Proof.
  cbv zeta. unfold clamp. by rewrite max_if, min_if.
Qed.

(** Scaling is monotone in the timespan. *)
Lemma transition_limit_spec nBits n :
  valid_target params nBits -> 0 <= n <= nPowTargetTimespan params * 4 ->
  exists v, transition_limit params nBits n = Ok (compact_round v) /\ wf256 v
    /\ uval v = Z.min (compact_exact nBits * n / nPowTargetTimespan params) (limit_of params).
Proof.
  intros Hv Hn. destruct (valid_SetCompact nBits Hv) as (t & Es & Wt & Vt). destruct Hv as (_ & _ & Hb).
  unfold transition_limit. rewrite Es. cbn [fst].
  destruct (scale_target_spec t n Wt) as (r & -> & Wr & Vr); [lia|done|]. cbn [mbind result_bind].
  destruct (compact_cap_spec r Wr) as (c & -> & _ & Es' & _). cbn [mbind result_bind]. rewrite Es'. cbn [fst].
  destruct (cap_target_spec r Wr) as [W V]. exists (cap_target r (UintToArith256 (powLimit params))).
  split_and!; try done. congruence.
Qed.
Lemma compact_limit : exists c, compact_of (UintToArith256 (powLimit params)) = Ok c /\ is_uint 32 c.
Proof.
  destruct limit_arith as [W _]. destruct (compact_round_spec _ W) as (c & k & Hc & Hu & _).
  exists c. unfold compact_of. by rewrite Hc.
Qed.

Lemma scale_target_total t n :
  wf256 t -> exists r, scale_target t n (nPowTargetTimespan params) = Ok r /\ wf256 r.
Proof.
  intros Ht. unfold scale_target. destruct Hp as [_ H1 H2 H3 _ _].
  rewrite (wrap_small 64) by (unfold is_uint; lia).
  destruct (wf256_arith (nPowTargetTimespan params)) as [Wd Vd]; [unfold is_uint; lia|].
  destruct (uint_mul32_spec t (u32 n)) as (V & W & L); [apply Ht|apply wrap_range; lia|].
  destruct (uint_div_spec (uint_mul32 t (u32 n)) (arith_u64 (nPowTargetTimespan params)))
    as [[_ E]|(q & -> & _ & _ & Wq & Lq)]; [done|apply Wd|destruct Ht, Wd; congruence|lia|].
  exists q. split; [done|]. split; [done|destruct Ht; congruence].
Qed.

(** The target a block keeps lies between the two limits. *)
Lemma transition_bounds nBits v n :
  valid_target params nBits -> wf256 v ->
  Z.quot (nPowTargetTimespan params) 4 <= n <= nPowTargetTimespan params * 4 ->
  uval v = Z.min (compact_exact nBits * n / nPowTargetTimespan params) (limit_of params) ->
  exists lo hi, transition_limit params nBits (Z.quot (nPowTargetTimespan params) 4) = Ok lo /\ wf256 lo
    /\ transition_limit params nBits (nPowTargetTimespan params * 4) = Ok hi /\ wf256 hi
    /\ uval lo <= uval (compact_round v) <= uval hi.
Proof.
  intros Hv Wv Hn V. pose proof (clamp_bound 0) as Hc. destruct Hp as [_ H1 H2 _ _ _].
  assert (0 <= Z.quot (nPowTargetTimespan params) 4) by (apply Z.quot_pos; lia).
  destruct (transition_limit_spec nBits (Z.quot (nPowTargetTimespan params) 4) Hv) as (vl & -> & Wl & Vl); [lia|].
  destruct (transition_limit_spec nBits (nPowTargetTimespan params * 4) Hv) as (vh & -> & Wh & Vh); [lia|].
  exists (compact_round vl), (compact_round vh).
  destruct (compact_round_spec vl Wl) as (? & ? & _ & _ & _ & ? & _).
  destruct (compact_round_spec vh Wh) as (? & ? & _ & _ & _ & ? & _).
  destruct Hv as (_ & _ & Hb). split_and!; try done; apply compact_round_mono; try done; rewrite V, ?Vl, ?Vh;
    apply Z.min_le_compat_r, Z.div_le_mono; nia.
Qed.

Lemma valid_rounds nBits :
  valid_target params nBits ->
  exists v, wf256 v /\ uval v = compact_exact nBits /\ uval (compact_round v) = compact_exact nBits
    /\ (SetCompact nBits).1.1 = v.
Proof.
  intros Hv. destruct (valid_SetCompact nBits Hv) as (v & Es & Wv & Vv). exists v. split; [done|]. split; [done|].
  rewrite Es. split; [|done]. pose proof (compact_round_le v Wv).
  pose proof (compact_round_max v nBits Wv (proj1 Hv) ltac:(lia)). lia.
Qed.

Lemma permitted_between height old new lo hi :
  fPowAllowMinDifficultyBlocks params = false ->
  Z.rem height (DifficultyAdjustmentInterval params) = 0 ->
  transition_limit params old (Z.quot (nPowTargetTimespan params) 4) = Ok lo -> wf256 lo ->
  transition_limit params old (nPowTargetTimespan params * 4) = Ok hi -> wf256 hi ->
  wf256 (SetCompact new).1.1 -> uval lo <= uval (SetCompact new).1.1 <= uval hi ->
  PermittedDifficultyTransition params height old new = Ok true.
Proof.
  intros Ea Eh Elo Wlo Ehi Whi Wn Hb. unfold PermittedDifficultyTransition.
  rewrite Ea, (proj2 (Z.eqb_eq _ _) Eh), Elo, Ehi. cbn [mbind result_bind].
  rewrite uint_lt_spec by (destruct Whi, Wn; congruence). rewrite uint_gt_spec by (destruct Wlo, Wn; congruence).
  rewrite !(proj2 (Z.ltb_ge _ _)) by lia. done.
Qed.
Context (m : BlockMap) (Hwf : wf_tree m) (Hsize : Z.of_nat (size m) < 2 ^ 31).

Lemma next_height_first p b :
  m !! p = Some b -> Z.rem (nHeight b + 1) (DifficultyAdjustmentInterval params) = 0 ->
  i32 (nHeight b - (DifficultyAdjustmentInterval params - 1)) = nHeight b - (DifficultyAdjustmentInterval params - 1)
  /\ 0 <= nHeight b - (DifficultyAdjustmentInterval params - 1) <= nHeight b.
Proof.
  intros Hb Hr. pose proof interval_pos. pose proof (ew_height _ _ _ (Hwf p b Hb)).
  rewrite Z.rem_mod_nonneg in Hr by lia. apply Z.mod_divide in Hr; [|lia].
  apply Z.divide_pos_le in Hr; [|lia]. split; [|lia]. apply swrap_small; unfold is_sint; cbn; lia.
Qed.

Lemma CalculateNextWorkRequired_total p b t :
  m !! p = Some b -> Z.rem (nHeight b + 1) (DifficultyAdjustmentInterval params) = 0 ->
  exists new, CalculateNextWorkRequired m p t params = Ok new /\ is_uint 32 new.
Proof.
  intros Hb Hr. unfold CalculateNextWorkRequired. rewrite (deref_ok _ _ _ Hb). cbn [mbind result_bind].
  destruct (fPowNoRetargeting params); [eexists; split; [done|apply (ew_bits _ _ _ (Hwf p b Hb))]|].
  assert (exists bits, retarget_bits m p b params = Ok bits /\ is_uint 32 bits) as (bits & -> & Hbits).
  { unfold retarget_bits.
    destruct (enforce_BIP94 params); [|eexists; split; [done|apply (ew_bits _ _ _ (Hwf p b Hb))]].
    destruct (next_height_first p b Hb Hr) as [-> Hh]. cbv zeta.
    destruct (GetAncestor_in_range m Hwf p b _ Hb Hh) as (f & bf & -> & _ & Hf & _). cbn [mbind result_bind].
    rewrite (deref_ok _ _ _ Hf). eexists. split; [done|]. apply (ew_bits _ _ _ (Hwf f bf Hf)). }
  cbn [mbind result_bind]. pose proof (SetCompact_spec bits Hbits) as Hs.
  destruct (SetCompact bits) as [[v fn] fo]. destruct Hs as (W & L & _). cbn [fst].
  match goal with |- context [scale_target v ?n _] =>
    destruct (scale_target_total v n) as (r & -> & Wr); [done|] end.
  cbn [mbind result_bind]. destruct (compact_cap_spec r Wr) as (c & -> & Hc & _). by exists c.
Qed.

(** At a retarget height, without special rules. *)
Lemma next_work_at_boundary p b hdr :
  m !! p = Some b -> Z.rem (nHeight b + 1) (DifficultyAdjustmentInterval params) = 0 ->
  exists f bf, walk m (Z.to_nat (DifficultyAdjustmentInterval params - 1)) p = Some f /\ m !! f = Some bf
    /\ GetNextWorkRequired m p hdr params = CalculateNextWorkRequired m p (bi_nTime bf) params.
Proof.
  intros Hb Hr. unfold GetNextWorkRequired. destruct compact_limit as (c & -> & _). cbn [mbind result_bind].
  rewrite (deref_ok _ _ _ Hb). cbn [mbind result_bind]. rewrite (proj2 (Z.eqb_eq _ _) Hr). cbn [negb].
  destruct (next_height_first p b Hb Hr) as [-> Hh].
  destruct (GetAncestor_in_range m Hwf p b _ Hb Hh) as (f & bf & E & Hw & Hf & _).
  rewrite (proj2 (Z.ltb_ge _ _)) by lia. rewrite E. cbn [mbind result_bind]. rewrite (deref_ok _ _ _ Hf).
  exists f, bf. split_and!; try done. rewrite <- Hw. f_equal. lia.
Qed.

Lemma CalculateNextWorkRequired_exact p b t :
  m !! p = Some b -> valid_target params (bi_nBits b) -> is_uint 32 t ->
  fPowNoRetargeting params = false -> enforce_BIP94 params = false ->
  exists new v, CalculateNextWorkRequired m p t params = Ok new /\ is_uint 32 new
    /\ SetCompact new = (compact_round v, false, false) /\ wf256 v
    /\ uval v = Z.min (compact_exact (bi_nBits b) * clamp (bi_nTime b - t) / nPowTargetTimespan params)
                      (limit_of params).
Proof.
  intros Hb Hv Ht E1 E2. unfold CalculateNextWorkRequired, retarget_bits. rewrite (deref_ok _ _ _ Hb), E1, E2.
  cbn [mbind result_bind]. destruct (valid_SetCompact _ Hv) as (v & Es & Wv & Vv). rewrite Es. cbn [fst].
  pose proof (ew_time _ _ _ (Hwf p b Hb)) as Htb. unfold GetBlockTime.
  rewrite swrap_small by (unfold is_sint, is_uint in *; cbn; lia). rewrite timespan_clamp.
  destruct (clamp_bound (bi_nTime b - t)) as [Hc1 Hc2].
  destruct (scale_target_spec v (clamp (bi_nTime b - t)) Wv) as (r & -> & Wr & Vr);
    [rewrite Vv; apply Hv|lia|]. cbn [mbind result_bind].
  destruct (compact_cap_spec r Wr) as (c & -> & Hc & Es' & _). destruct (cap_target_spec r Wr) as [W V].
  exists c, (cap_target r (UintToArith256 (powLimit params))). split_and!; try done. congruence.
Qed.

End Pow.

(** * Properties *)

Section Props.
Context (params : PowParams) (Hp : params_ok params) (m : BlockMap) (Hwf : wf_tree m)
        (Hsize : Z.of_nat (size m) < 2 ^ 31).

Lemma last_real_block_spec fuel p b interval limit :
  m !! p = Some b -> (Z.to_nat (nHeight b) <= fuel)%nat ->
  exists q bq n, walk m n p = Some q /\ m !! q = Some bq
    /\ last_real_block fuel m p interval limit = Ok (bi_nBits bq)
    /\ (pprev bq = None \/ Z.rem (nHeight bq) interval = 0 \/ bi_nBits bq <> limit)
    /\ (forall k x bx, (k < n)%nat -> walk m k p = Some x -> m !! x = Some bx -> bi_nBits bx = limit).
Proof.
  revert p b. induction fuel as [|fuel IH]; intros p b Hb Hf;
    destruct (pprev_cases m Hwf p b Hb) as [[Hh E]|(q & bq & E & Hq & Hh & _)];
    cbn [last_real_block]; rewrite (deref_ok _ _ _ Hb); cbn [mbind result_bind]; rewrite E.
  - exists p, b, 0%nat. split_and!; try done; [by left|]. intros. lia.
  - pose proof (height_nonneg m Hwf _ _ Hq). lia.
  - exists p, b, 0%nat. split_and!; try done; [by left|]. intros. lia.
  - destruct (_ && _) eqn:Ec; bool_props.
    + destruct (IH q bq Hq) as (x & bx & n & Hw & Hx & -> & Hst & Hall); [lia|].
      exists x, bx, (S n). split_and!; try done.
      * cbn. rewrite Hb. cbn. rewrite E. done.
      * intros [|k] y bY Hk Hy HbY; [injection Hy as <-; by simplify_eq|].
        cbn in Hy. rewrite Hb in Hy. cbn in Hy. rewrite E in Hy. cbn in Hy.
        apply (Hall k y bY); [lia|done|done].
    + exists p, b, 0%nat. split_and!; try done; [|intros; lia]. right.
      apply andb_false_iff in Ec as [Ec|Ec]; [left|right]; bool_props; done.
Qed.

Lemma GetNextWorkRequired_total p b hdr :
  m !! p = Some b -> exists new, GetNextWorkRequired m p hdr params = Ok new /\ is_uint 32 new.
Proof.
  intros Hb. destruct (Z.eq_dec (Z.rem (nHeight b + 1) (DifficultyAdjustmentInterval params)) 0) as [Er|Er].
  - destruct (next_work_at_boundary params Hp m Hwf Hsize p b hdr Hb Er) as (f & bf & _ & _ & ->).
    by apply (CalculateNextWorkRequired_total params Hp m Hwf Hsize p b).
  - unfold GetNextWorkRequired. destruct (compact_limit params Hp) as (c & -> & Hc). cbn [mbind result_bind].
    rewrite (deref_ok _ _ _ Hb). cbn [mbind result_bind]. rewrite (proj2 (Z.eqb_neq _ _) Er). cbn [negb].
    pose proof (ew_bits _ _ _ (Hwf p b Hb)). destruct (fPowAllowMinDifficultyBlocks params); [|by eexists].
    destruct (_ <? _); [by eexists|].
    destruct (last_real_block_spec (Z.to_nat (nHeight b)) p b (DifficultyAdjustmentInterval params) c Hb)
      as (q & bq & n & _ & Hq & -> & _); [lia|]. eexists. split; [done|]. apply (ew_bits _ _ _ (Hwf q bq Hq)).
Qed.

Lemma next_work_permitted_at p b hdr new :
  m !! p = Some b -> valid_target params (bi_nBits b) -> GetNextWorkRequired m p hdr params = Ok new ->
  PermittedDifficultyTransition params (nHeight b + 1) (bi_nBits b) new = Ok true.
Proof.
  intros Hb Hv Hop. destruct (fPowAllowMinDifficultyBlocks params) eqn:Ea.
  { unfold PermittedDifficultyTransition. by rewrite Ea. }
  assert (enforce_BIP94 params = false) as E94.
  { destruct (enforce_BIP94 params) eqn:E; [|done]. rewrite (po_bip94 _ Hp E) in Ea. done. }
  destruct (Z.eq_dec (Z.rem (nHeight b + 1) (DifficultyAdjustmentInterval params)) 0) as [Er|Er].
  - destruct (next_work_at_boundary params Hp m Hwf Hsize p b hdr Hb Er) as (f & bf & _ & Hf & E).
    rewrite E in Hop. destruct (fPowNoRetargeting params) eqn:En.
    + unfold CalculateNextWorkRequired in Hop. rewrite (deref_ok _ _ _ Hb), En in Hop. injection Hop as <-.
      destruct (valid_rounds params Hp _ Hv) as (v & Wv & Vv & Rv & Ev).
      destruct (transition_bounds params Hp (bi_nBits b) v (nPowTargetTimespan params) Hv Wv)
        as (lo & hi & Hlo & Wlo & Hhi & Whi & Hb2).
      * pose proof (clamp_bound params Hp 0). pose proof (po_spacing _ Hp). pose proof (po_timespan _ Hp).
        split; [apply Z.quot_le_upper_bound|]; lia.
      * pose proof (po_spacing _ Hp). pose proof (po_timespan _ Hp). destruct Hv as (_ & _ & Hb3).
        rewrite Z.div_mul by lia. lia.
      * apply (permitted_between params _ _ _ lo hi); rewrite ?Ev; try done. lia.
    + destruct (CalculateNextWorkRequired_exact params Hp m Hwf p b (bi_nTime bf) Hb Hv
        (ew_time _ _ _ (Hwf f bf Hf)) En E94) as (new' & v & Hop' & Hu & Es & Wv & Vv).
      rewrite Hop in Hop'. injection Hop' as <-.
      destruct (transition_bounds params Hp (bi_nBits b) v _ Hv Wv (proj1 (clamp_bound params Hp _)) Vv)
        as (lo & hi & Hlo & Wlo & Hhi & Whi & Hb2).
      apply (permitted_between params _ _ _ lo hi); rewrite ?Es; try done.
      by destruct (compact_round_spec v Wv) as (? & ? & _ & _ & _ & ? & _).
  - unfold GetNextWorkRequired in Hop. destruct (compact_limit params Hp) as (c & E & _).
    rewrite E in Hop. cbn [mbind result_bind] in Hop. rewrite (deref_ok _ _ _ Hb) in Hop. cbn [mbind result_bind] in Hop.
    rewrite (proj2 (Z.eqb_neq _ _) Er), Ea in Hop. cbn [negb] in Hop. injection Hop as <-.
    unfold PermittedDifficultyTransition. by rewrite Ea, (proj2 (Z.eqb_neq _ _) Er), Z.eqb_refl.
Qed.
End Props.

(** C12: for every block of the index with a valid target, the work required of
    its successor can be computed (no assertion fails) and is a change of
    difficulty that [PermittedDifficultyTransition] accepts. *)
Theorem next_work_permitted params bm p b hdr :
  params_ok params -> index_reaches bm -> Z.of_nat (size (m_block_index bm)) < 2 ^ 31 ->
  m_block_index bm !! p = Some b -> valid_target params (bi_nBits b) ->
  exists new, GetNextWorkRequired (m_block_index bm) p hdr params = Ok new /\ is_uint 32 new
    /\ PermittedDifficultyTransition params (nHeight b + 1) (bi_nBits b) new = Ok true.
Proof.
  intros Hp Hr Hs Hb Hv. destruct (reaches_wf bm Hr) as [Hwf _].
  destruct (GetNextWorkRequired_total params Hp _ Hwf Hs p b hdr Hb) as (new & Hop & Hu).
  exists new. split_and!; try done. by apply (next_work_permitted_at params Hp _ Hwf Hs p b hdr).
Qed.

(** At a retarget height the new target is the old one times the time the
    period took, limited to a factor of four either way, over the intended time,
    no easier than the proof-of-work limit, rounded down to compact precision;
    the time is measured from the block [interval - 1] before the last. *)
Theorem next_work_exact params bm p b hdr :
  params_ok params -> index_reaches bm -> Z.of_nat (size (m_block_index bm)) < 2 ^ 31 ->
  m_block_index bm !! p = Some b -> valid_target params (bi_nBits b) ->
  Z.rem (nHeight b + 1) (DifficultyAdjustmentInterval params) = 0 ->
  fPowNoRetargeting params = false -> enforce_BIP94 params = false ->
  exists f bf new v, walk (m_block_index bm) (Z.to_nat (DifficultyAdjustmentInterval params - 1)) p = Some f
    /\ m_block_index bm !! f = Some bf
    /\ GetNextWorkRequired (m_block_index bm) p hdr params = Ok new
    /\ SetCompact new = (compact_round v, false, false) /\ wf256 v
    /\ uval v = Z.min (compact_exact (bi_nBits b) * clamp params (bi_nTime b - bi_nTime bf)
                       / nPowTargetTimespan params) (limit_of params).
Proof.
  intros Hp Hr Hs Hb Hv Er En E94. destruct (reaches_wf bm Hr) as [Hwf _].
  destruct (next_work_at_boundary params Hp _ Hwf Hs p b hdr Hb Er) as (f & bf & Hw & Hf & E).
  destruct (CalculateNextWorkRequired_exact params Hp _ Hwf p b (bi_nTime bf) Hb Hv
    (ew_time _ _ _ (Hwf f bf Hf)) En E94) as (new & v & Hop & _ & Es & Wv & Vv).
  exists f, bf, new, v. split_and!; try done. congruence.
Qed.

Lemma accept_match {A} (c : bool) (t : A) (too_big : A -> bool) :
  match (if c then None else Some t) with
  | None => false
  | Some x => if too_big x then false else true
  end = negb c && negb (too_big t).
Proof. destruct c; [done|]. by destruct (too_big t). Qed.

(** [CheckProofOfWorkImpl] accepts a hash exactly when the compact word is a
    positive, representable target no easier than the limit, and the hash, read
    as a little-endian number, is at most that target. *)
Theorem CheckProofOfWork_exact params hash nBits :
  blob 32 (powLimit params) -> blob 32 hash -> is_uint 32 nBits ->
  CheckProofOfWorkImpl hash nBits params = true <->
  (compact_word nBits <> 0 -> Z.testbit nBits 23 = false)
  /\ 0 < compact_exact nBits < 2 ^ 256 /\ compact_exact nBits <= limit_of params
  /\ le_val hash <= compact_exact nBits.
Proof.
  intros [Ll Wl] [Lh Wh] Hn. unfold CheckProofOfWorkImpl, DeriveTarget, limit_of.
  destruct (UintToArith256_spec (powLimit params) Wl ltac:(lia)) as ([Wl1 Ll1] & Vl & _).
  destruct (UintToArith256_spec hash Wh ltac:(lia)) as ([Wh1 Lh1] & Vh & _).
  pose proof (SetCompact_spec nBits Hn) as Hs. destruct (SetCompact nBits) as [[t fn] fo].
  destruct Hs as (Wt & Lt & Vt & -> & ->). rewrite accept_match.
  rewrite EqualTo_spec by (done || (rewrite Lt; unfold WIDTH256; lia)). rewrite !uint_gt_spec by congruence.
  rewrite Vl, Vh, Vt.
  assert (0 <= compact_exact nBits) as H0.
  { destruct (compact_exact_representable nBits (proj1 Hn)) as (w & e & Hw & He & ->).
    assert (0 < 2 ^ (8 * e)) by (apply pow2_pos; lia). nia. }
  destruct (Z.leb_spec (2 ^ 256) (compact_exact nBits)) as [Hov|Hov].
  - rewrite !orb_true_r. split; [done|lia].
  - rewrite Z.mod_small by lia. destruct (Z.eqb_spec (compact_word nBits) 0) as [Ew|Ew].
    all: destruct (Z.testbit nBits 23) eqn:Eb; cbn [negb andb orb].
    all: destruct (Z.eqb_spec (compact_exact nBits) 0); cbn [orb];
      try destruct (Z.ltb_spec (le_val (powLimit params)) (compact_exact nBits));
      try destruct (Z.ltb_spec (compact_exact nBits) (le_val hash)).
    all: split; intros Hx; try done; try lia; try (split; [done|lia]).
    all: destruct Hx as [Hx _]; specialize (Hx Ew); done.
Qed.

(** ** Witnesses: one-block periods over the example index *)

Definition sample_params : PowParams :=
  MkPowParams (replicate 28 255 ++ replicate 4 0) false false false 600 600.

Lemma sample_params_ok : params_ok sample_params.
Proof. constructor; by_decide. Qed.

Lemma sample_target : valid_target sample_params 0x1d00ffff.
Proof. split_and!; by_decide. Qed.

Definition sample_bits_ok : bool :=
  match m_block_index sample_index !! sample_left_hash with Some b => bi_nBits b =? 0x1d00ffff | None => false end
  && (Z.of_nat (size (m_block_index sample_index)) <? 2 ^ 31).

Lemma sample_bits : sample_bits_ok = true.
Proof. vm_compute. reflexivity. Qed.

Lemma sample_pow :
  exists b, m_block_index sample_index !! sample_left_hash = Some b /\ nHeight b = 1
    /\ valid_target sample_params (bi_nBits b) /\ Z.of_nat (size (m_block_index sample_index)) < 2 ^ 31.
Proof.
  destruct sample_left_entry as (b & Hb & Hh & _). exists b. pose proof sample_bits as H. unfold sample_bits_ok in H.
  rewrite Hb in H. apply andb_true_iff in H as [H1 H2]. apply Z.eqb_eq in H1. apply Z.ltb_lt in H2. rewrite H1.
  split_and!; [done|done|apply sample_target..|done].
Qed.

#[local] Opaque sample_index.

Lemma next_work_permitted_witness :
  exists b new, m_block_index sample_index !! sample_left_hash = Some b
    /\ GetNextWorkRequired (m_block_index sample_index) sample_left_hash sample_right sample_params = Ok new
    /\ PermittedDifficultyTransition sample_params (nHeight b + 1) (bi_nBits b) new = Ok true.
Proof.
  destruct sample_pow as (b & Hb & _ & Hv & Hs).
  destruct (next_work_permitted sample_params sample_index sample_left_hash b sample_right
    sample_params_ok sample_reaches Hs Hb Hv) as (new & H1 & _ & H2).
  exists b, new. split; [exact Hb|]. split; [exact H1|exact H2].
Defined.

Lemma next_work_exact_witness :
  exists new v, GetNextWorkRequired (m_block_index sample_index) sample_left_hash sample_right sample_params = Ok new
    /\ SetCompact new = (compact_round v, false, false).
Proof.
  destruct sample_pow as (b & Hb & Hh & Hv & Hs).
  destruct (next_work_exact sample_params sample_index sample_left_hash b sample_right
    sample_params_ok sample_reaches Hs Hb Hv) as (f & bf & new & v & _ & _ & H1 & H2 & _);
    [rewrite Hh; reflexivity|reflexivity|reflexivity|].
  exists new, v. split; [exact H1|exact H2].
Defined.

Lemma CheckProofOfWork_exact_witness :
  CheckProofOfWorkImpl (replicate 20 255 ++ replicate 12 0) 0x1d00ffff sample_params = true.
Proof.
  apply (CheckProofOfWork_exact sample_params (replicate 20 255 ++ replicate 12 0) 0x1d00ffff);
    [by_decide|by_decide|by_decide|].
  split; [intros _; reflexivity|]. split; [split; reflexivity|]. split; vm_compute; discriminate.
Defined.
