(* ===== verification/PubKey.v ===== *)
(** Public keys and signature encodings (src/bitcoin/src/pubkey.h and
    pubkey.cpp): [CPubKey], the lax DER parser, ECDSA and Schnorr verification,
    Taproot tweaks and extended public keys.  The curve arithmetic of
    libsecp256k1 is an interface. *)

From S2P Require Import Prelude Serialize MerkleDamgard Sha2 Sha1Ripemd Hash Script.

(** * libsecp256k1

    The library functions [pubkey.cpp] calls, over the library's opaque types.
    [None] and [false] stand for a return value of 0. *)

Class Secp256k1 := {
  secp256k1_pubkey : Type;
  secp256k1_ecdsa_signature : Type;
  secp256k1_xonly_pubkey : Type;
  (** compressed, uncompressed or hybrid encodings *)
  secp256k1_ec_pubkey_parse : bytes -> option secp256k1_pubkey;
  (** the second argument: [SECP256K1_EC_COMPRESSED] *)
  secp256k1_ec_pubkey_serialize : secp256k1_pubkey -> bool -> bytes;
  secp256k1_ec_pubkey_tweak_add : secp256k1_pubkey -> bytes -> option secp256k1_pubkey;
  (** 64 bytes; the signature is set also when the function returns 0 *)
  secp256k1_ecdsa_signature_parse_compact : bytes -> bool * secp256k1_ecdsa_signature;
  (** the lower-S form, and whether the input was not already in it *)
  secp256k1_ecdsa_signature_normalize : secp256k1_ecdsa_signature -> secp256k1_ecdsa_signature * bool;
  secp256k1_ecdsa_verify : secp256k1_ecdsa_signature -> bytes -> secp256k1_pubkey -> bool;
  (** the compact signature, recovery id and message hash *)
  secp256k1_ecdsa_recover : bytes -> Z -> bytes -> option secp256k1_pubkey;
  secp256k1_xonly_pubkey_parse : bytes -> option secp256k1_xonly_pubkey;
  secp256k1_schnorrsig_verify : bytes -> bytes -> secp256k1_xonly_pubkey -> bool;
  (** tweaked key, its parity, internal key, tweak *)
  secp256k1_xonly_pubkey_tweak_add_check : bytes -> bool -> secp256k1_xonly_pubkey -> bytes -> bool;
  (** the serialized tweaked key and its parity *)
  secp256k1_xonly_tweak_add : secp256k1_xonly_pubkey -> bytes -> option (bytes * bool);
}.

(** * [CPubKey]

    The array [vch] is the list of its first [size()] bytes; an invalidated key,
    whose first byte is 0xFF and whose size is 0, is the empty list. *)

Definition CPubKey : Type := bytes.

Definition PUBKEY_SIZE : Z := 65.
Definition COMPRESSED_SIZE : Z := 33.
Definition COMPACT_SIGNATURE_SIZE : Z := 65.

Definition GetLen (chHeader : Z) : Z :=
  if (chHeader =? 2) || (chHeader =? 3) then COMPRESSED_SIZE
  else if (chHeader =? 4) || (chHeader =? 6) || (chHeader =? 7) then PUBKEY_SIZE
  else 0.

Definition ValidSize (vch : bytes) : bool := (0 <? zlen vch) && (GetLen (byte_at vch 0) =? zlen vch).

Definition CPubKey_Set (data : bytes) : CPubKey :=
  let len := match data with [] => 0 | b :: _ => GetLen b end in
  if negb (len =? 0) && (len =? zlen data) then data else [].

Definition CPubKey_size (pk : CPubKey) : Z := match pk with [] => 0 | b :: _ => GetLen b end.

Definition CPubKey_IsValid (pk : CPubKey) : bool := 0 <? CPubKey_size pk.
Definition IsValidNonHybrid (pk : CPubKey) : bool :=
  (0 <? CPubKey_size pk) && ((byte_at pk 0 =? 0x02) || (byte_at pk 0 =? 0x03) || (byte_at pk 0 =? 0x04)).
Definition CPubKey_IsCompressed (pk : CPubKey) : bool := CPubKey_size pk =? COMPRESSED_SIZE.

Definition CPubKey_Serialize (pk : CPubKey) : bytes :=
  WriteCompactSize (CPubKey_size pk) ++ take (Z.to_nat (CPubKey_size pk)) pk.

Definition CPubKey_Unserialize : reader CPubKey :=
  len ← ReadCompactSize true;
  if len <=? PUBKEY_SIZE then
    vch ← stream_read len;
    mret (if len =? CPubKey_size vch then vch else [])
  else
    _ ← stream_ignore len;
    mret [].

Definition GetID (pk : CPubKey) : bytes := Hash160 (take (Z.to_nat (CPubKey_size pk)) pk).
Definition CPubKey_GetHash (pk : CPubKey) : bytes := Hash (take (Z.to_nat (CPubKey_size pk)) pk).

(** * The lax DER parser *)

(** [while (lenbyte > 0 && input[pos] == 0) { pos++; lenbyte--; }]; the caller
    has checked that [lenbyte] bytes are left. *)
Fixpoint skip_zero_lengths (lenbyte : Z) (input : bytes) : Z * bytes :=
  match input with
  | b :: rest => if (0 <? lenbyte) && (b =? 0) then skip_zero_lengths (lenbyte - 1) rest else (lenbyte, input)
  | [] => (lenbyte, input)
  end.

(** [while (lenbyte > 0) { rlen = (rlen << 8) + input[pos]; pos++; lenbyte--; }] *)
Fixpoint read_length (lenbyte : nat) (rlen : Z) (input : bytes) : Z * bytes :=
  match lenbyte, input with
  | S lenbyte, b :: rest => read_length lenbyte (Z.shiftl rlen 8 + b) rest
  | _, _ => (rlen, input)
  end.

(** The tag, length and contents of an integer, and what follows it. *)
Definition lax_integer (input : bytes) : option (bytes * bytes) :=
  match input with
  | tag :: lenbyte :: input =>
      if negb (tag =? 0x02) then None
      else
        '(rlen, input) ← (if Z.land lenbyte 0x80 =? 0 then Some (lenbyte, input)
                          else
                            let lenbyte := lenbyte - 0x80 in
                            if zlen input <? lenbyte then None
                            else
                              let '(lenbyte, input) := skip_zero_lengths lenbyte input in
                              if 4 <=? lenbyte then None
                              else Some (read_length (Z.to_nat lenbyte) 0 input));
        if zlen input <? rlen then None
        else Some (take (Z.to_nat rlen) input, drop (Z.to_nat rlen) input)
  | _ => None
  end.

Fixpoint drop_leading_zeros (v : bytes) : bytes :=
  match v with
  | b :: rest => if b =? 0 then drop_leading_zeros rest else v
  | [] => []
  end.

(** The two integers of a signature. *)
Definition lax_integers (input : bytes) : option (bytes * bytes) :=
  match input with
  | tag :: lenbyte :: input =>
      if negb (tag =? 0x30) then None
      else
        input ← (if Z.land lenbyte 0x80 =? 0 then Some input
                 else if zlen input <? lenbyte - 0x80 then None
                 else Some (drop (Z.to_nat (lenbyte - 0x80)) input));
        '(r, input) ← lax_integer input;
        '(s, _) ← lax_integer input;
        Some (r, s)
  | _ => None
  end.

(** [tmpsig]: the integers without their leading zeros, right-aligned in 32 bytes
    each; [None] if one of them is longer. *)
Definition compact_form (r s : bytes) : option bytes :=
  let r := drop_leading_zeros r in
  let s := drop_leading_zeros s in
  if (32 <? zlen r) || (32 <? zlen s) then None
  else Some (replicate (32 - length r) 0 ++ r ++ replicate (32 - length s) 0 ++ s).

Section Keys.
Context {secp : Secp256k1}.

Definition invalid_signature : secp256k1_ecdsa_signature :=
  (secp256k1_ecdsa_signature_parse_compact (replicate 64 0)).2.

Definition ecdsa_signature_parse_der_lax (input : bytes) : option secp256k1_ecdsa_signature :=
  '(r, s) ← lax_integers input;
  Some (match compact_form r s with
        | Some tmpsig =>
            let '(ok, sig) := secp256k1_ecdsa_signature_parse_compact tmpsig in
            if ok : bool then sig else invalid_signature
        | None => invalid_signature
        end).

Definition CPubKey_Verify (pk : CPubKey) (hash vchSig : bytes) : bool :=
  if negb (CPubKey_IsValid pk) then false
  else match secp256k1_ec_pubkey_parse pk with
       | None => false
       | Some pubkey =>
           match ecdsa_signature_parse_der_lax vchSig with
           | None => false
           | Some sig => secp256k1_ecdsa_verify (secp256k1_ecdsa_signature_normalize sig).1 hash pubkey
           end
       end.

Definition CheckLowS (vchSig : bytes) : bool :=
  match ecdsa_signature_parse_der_lax vchSig with
  | None => false
  | Some sig => negb (secp256k1_ecdsa_signature_normalize sig).2
  end.

Definition CPubKey_IsFullyValid (pk : CPubKey) : bool :=
  CPubKey_IsValid pk && bool_decide (is_Some (secp256k1_ec_pubkey_parse pk)).

(** [Decompress] and [RecoverCompact]: the key they set, when they return true. *)
Definition Decompress (pk : CPubKey) : option CPubKey :=
  if negb (CPubKey_IsValid pk) then None
  else pubkey ← secp256k1_ec_pubkey_parse pk;
       Some (CPubKey_Set (secp256k1_ec_pubkey_serialize pubkey false)).

Definition RecoverCompact (hash vchSig : bytes) : option CPubKey :=
  if negb (zlen vchSig =? COMPACT_SIGNATURE_SIZE) then None
  else
    let recid := Z.land (byte_at vchSig 0 - 27) 3 in
    let fComp := negb (Z.land (byte_at vchSig 0 - 27) 4 =? 0) in
    pubkey ← secp256k1_ecdsa_recover (drop 1 vchSig) recid hash;
    Some (CPubKey_Set (secp256k1_ec_pubkey_serialize pubkey fComp)).

(** [CPubKey::Derive]: the outer [Err] is an assertion; the inner pair is the
    child key, if there is one, and its chain code. *)
Definition CPubKey_Derive (pk : CPubKey) (nChild : Z) (cc : bytes) : result string (option CPubKey * bytes) :=
  if negb (CPubKey_IsValid pk) then Err "assertion: IsValid()"
  else if negb (Z.shiftr nChild 31 =? 0) then Err "assertion: (nChild >> 31) == 0"
  else if negb (CPubKey_size pk =? COMPRESSED_SIZE) then Err "assertion: size() == COMPRESSED_SIZE"
  else
    let out := BIP32Hash cc nChild (byte_at pk 0) (drop 1 pk) in
    Ok (pubkey ← secp256k1_ec_pubkey_parse pk;
        child ← secp256k1_ec_pubkey_tweak_add pubkey (take 32 out);
        Some (CPubKey_Set (secp256k1_ec_pubkey_serialize child true)),
        drop 32 out).

(** * [XOnlyPubKey], as its 32 bytes *)

Definition XOnlyPubKey_IsFullyValid (m_keydata : bytes) : bool :=
  bool_decide (is_Some (secp256k1_xonly_pubkey_parse m_keydata)).

Definition VerifySchnorr (m_keydata msg sigbytes : bytes) : result string bool :=
  if negb (zlen sigbytes =? 64) then Err "assertion: sigbytes.size() == 64"
  else Ok (match secp256k1_xonly_pubkey_parse m_keydata with
           | None => false
           | Some pubkey => secp256k1_schnorrsig_verify sigbytes msg pubkey
           end).

Definition HASHER_TAPTWEAK : CSHA256 := TaggedHash (to_bytes "TapTweak").

Definition ComputeTapTweakHash (m_keydata : bytes) (merkle_root : option bytes) : bytes :=
  HashWriter_GetSHA256
    (match merkle_root with
     | None => HashWriter_write HASHER_TAPTWEAK m_keydata
     | Some root => HashWriter_write (HashWriter_write HASHER_TAPTWEAK m_keydata) root
     end).

Definition CheckTapTweak (m_keydata internal merkle_root : bytes) (parity : bool) : bool :=
  match secp256k1_xonly_pubkey_parse internal with
  | None => false
  | Some internal_key =>
      secp256k1_xonly_pubkey_tweak_add_check m_keydata parity internal_key
        (ComputeTapTweakHash internal (Some merkle_root))
  end.

Definition CreateTapTweak (m_keydata : bytes) (merkle_root : option bytes) : option (bytes * bool) :=
  base_point ← secp256k1_xonly_pubkey_parse m_keydata;
  secp256k1_xonly_tweak_add base_point (ComputeTapTweakHash m_keydata merkle_root).

Definition GetKeyIDs (m_keydata : bytes) : list bytes :=
  [GetID (CPubKey_Set (0x02 :: m_keydata)); GetID (CPubKey_Set (0x03 :: m_keydata))].

Definition GetEvenCorrespondingCPubKey (m_keydata : bytes) : CPubKey := CPubKey_Set (0x02 :: m_keydata).

(** * Extended public keys *)

Record CExtPubKey := ExtPubKey {
  ext_version : bytes;
  ext_nDepth : Z;
  ext_vchFingerprint : bytes;
  ext_nChild : Z;
  ext_chaincode : bytes;
  ext_pubkey : CPubKey
}.

Definition CExtPubKey_Encode (k : CExtPubKey) : result string bytes :=
  if negb (CPubKey_size (ext_pubkey k) =? COMPRESSED_SIZE)
  then Err "assertion: pubkey.size() == CPubKey::COMPRESSED_SIZE"
  else Ok ([ext_nDepth k] ++ ext_vchFingerprint k ++ be_bytes 4 (ext_nChild k) ++ ext_chaincode k
           ++ take (Z.to_nat COMPRESSED_SIZE) (ext_pubkey k)).

(** [code] has [BIP32_EXTKEY_SIZE] = 74 bytes. *)
Definition CExtPubKey_Decode (version code : bytes) : CExtPubKey :=
  let nDepth := byte_at code 0 in
  let vchFingerprint := take 4 (drop 1 code) in
  let nChild := be_val (take 4 (drop 5 code)) in
  let chaincode := take 32 (drop 9 code) in
  let pubkey := CPubKey_Set (take 33 (drop 41 code)) in
  let bad := ((nDepth =? 0) && (negb (nChild =? 0) || negb (le_val vchFingerprint =? 0)))
             || negb (CPubKey_IsFullyValid pubkey) in
  ExtPubKey version nDepth vchFingerprint nChild chaincode (if bad then [] else pubkey).

Definition CExtPubKey_EncodeWithVersion (k : CExtPubKey) : result string bytes :=
  code ← CExtPubKey_Encode k; Ok (ext_version k ++ code).

Definition CExtPubKey_DecodeWithVersion (code : bytes) : CExtPubKey :=
  CExtPubKey_Decode (take 4 code) (drop 4 code).

(** [CExtPubKey::Derive]; [out.version] is the caller's. *)
Definition CExtPubKey_Derive (k : CExtPubKey) (out_version : bytes) (_nChild : Z) : result string (option CExtPubKey) :=
  if ext_nDepth k =? 255 then Ok None
  else
    match CPubKey_Derive (ext_pubkey k) _nChild (ext_chaincode k) with
    | Err e => Err e
    | Ok (child, cc) =>
        Ok (pk ← child;
            Some (ExtPubKey out_version (ext_nDepth k + 1) (take 4 (GetID (ext_pubkey k))) _nChild cc pk))
    end.

End Keys.

(** A library that accepts every well-formed key and signature. *)
Definition accepting_secp : Secp256k1 := {|
  secp256k1_pubkey := bytes;
  secp256k1_ecdsa_signature := bytes;
  secp256k1_xonly_pubkey := bytes;
  secp256k1_ec_pubkey_parse := fun b => if ValidSize b then Some b else None;
  secp256k1_ec_pubkey_serialize := fun b _ => b;
  secp256k1_ec_pubkey_tweak_add := fun b _ => Some b;
  secp256k1_ecdsa_signature_parse_compact := fun b => (true, b);
  secp256k1_ecdsa_signature_normalize := fun s => (s, false);
  secp256k1_ecdsa_verify := fun _ _ _ => true;
  secp256k1_ecdsa_recover := fun _ _ _ => None;
  secp256k1_xonly_pubkey_parse := fun b => if zlen b =? 32 then Some b else None;
  secp256k1_schnorrsig_verify := fun _ _ _ => true;
  secp256k1_xonly_pubkey_tweak_add_check := fun _ _ _ _ => true;
  secp256k1_xonly_tweak_add := fun b _ => Some (b, false)
|}.

(** Documented behaviour of libsecp256k1: an uncompressed key that parses has a
    compressed form, with the parity of the second coordinate, which parses to a key
    whose uncompressed form is the original one. *)
Class CompressedKeys (secp : Secp256k1) : Prop :=
  secp_compressed : forall x y pk,
    length x = 32%nat -> length y = 32%nat -> secp256k1_ec_pubkey_parse (0x04 :: x ++ y) = Some pk ->
    exists pk', secp256k1_ec_pubkey_parse ((2 + Z.land (byte_at y 31) 1) :: x) = Some pk' /\
      secp256k1_ec_pubkey_serialize pk' false = 0x04 :: x ++ y.

(** A group of keys whose second coordinate is 0 or 1, the parity. *)
Definition parity_key (b : Z) : bytes := replicate 31 0 ++ [b].

Definition parity_parse (vch : bytes) : option bytes :=
  match vch with
  | [] => None
  | c :: p =>
      if ((c =? 2) || (c =? 3)) && (zlen p =? 32) then Some (p ++ parity_key (c - 2))
      else if (c =? 4) && (zlen p =? 64) && bool_decide (drop 32 p = parity_key 0 \/ drop 32 p = parity_key 1) then Some p
      else None
  end.

Definition parity_secp : Secp256k1 := {|
  secp256k1_pubkey := bytes; secp256k1_ecdsa_signature := (); secp256k1_xonly_pubkey := ();
  secp256k1_ec_pubkey_parse := parity_parse;
  secp256k1_ec_pubkey_serialize := fun p compressed => if compressed then (2 + byte_at p 63) :: take 32 p else 4 :: p;
  secp256k1_ec_pubkey_tweak_add := fun _ _ => None;
  secp256k1_ecdsa_signature_parse_compact := fun _ => (true, ());
  secp256k1_ecdsa_signature_normalize := fun s => (s, false);
  secp256k1_ecdsa_verify := fun _ _ _ => true;
  secp256k1_ecdsa_recover := fun _ _ _ => None;
  secp256k1_xonly_pubkey_parse := fun _ => Some ();
  secp256k1_schnorrsig_verify := fun _ _ _ => true;
  secp256k1_xonly_pubkey_tweak_add_check := fun _ _ _ _ => true;
  secp256k1_xonly_tweak_add := fun _ _ => None |}.

#[global] Instance parity_compressed : CompressedKeys parity_secp.
Proof.
  intros x y pk Hx Hy H. cbn in H |- *. unfold zlen in *. rewrite length_app, Hx, Hy, drop_app_length' in H by lia.
  cbn in H. destruct (bool_decide _) eqn:E in H; [|done]. apply bool_decide_eq_true in E as [-> | ->];
    (eexists; split; [cbn; unfold zlen; rewrite Hx; reflexivity|done]).
Qed.
