(* ===== verification/Interpreter.v ===== *)
(** The script interpreter (src/bitcoin/src/script/interpreter.h, interpreter.cpp
    and script_error.h): encodings of signatures and keys, [EvalScript] with every
    opcode, and [VerifyScript] with P2SH, segregated witness and Taproot. *)

From S2P Require Import Prelude Serialize MerkleDamgard Sha2 Sha1Ripemd Hash Transaction Script PubKey.

(** * Errors, flags and versions *)

Inductive ScriptError :=
| SCRIPT_ERR_OK | SCRIPT_ERR_UNKNOWN_ERROR | SCRIPT_ERR_EVAL_FALSE | SCRIPT_ERR_OP_RETURN
| SCRIPT_ERR_SCRIPT_SIZE | SCRIPT_ERR_PUSH_SIZE | SCRIPT_ERR_OP_COUNT | SCRIPT_ERR_STACK_SIZE
| SCRIPT_ERR_SIG_COUNT | SCRIPT_ERR_PUBKEY_COUNT
| SCRIPT_ERR_VERIFY | SCRIPT_ERR_EQUALVERIFY | SCRIPT_ERR_CHECKMULTISIGVERIFY
| SCRIPT_ERR_CHECKSIGVERIFY | SCRIPT_ERR_NUMEQUALVERIFY
| SCRIPT_ERR_BAD_OPCODE | SCRIPT_ERR_DISABLED_OPCODE | SCRIPT_ERR_INVALID_STACK_OPERATION
| SCRIPT_ERR_INVALID_ALTSTACK_OPERATION | SCRIPT_ERR_UNBALANCED_CONDITIONAL
| SCRIPT_ERR_NEGATIVE_LOCKTIME | SCRIPT_ERR_UNSATISFIED_LOCKTIME
| SCRIPT_ERR_SIG_HASHTYPE | SCRIPT_ERR_SIG_DER | SCRIPT_ERR_MINIMALDATA | SCRIPT_ERR_SIG_PUSHONLY
| SCRIPT_ERR_SIG_HIGH_S | SCRIPT_ERR_SIG_NULLDUMMY | SCRIPT_ERR_PUBKEYTYPE | SCRIPT_ERR_CLEANSTACK
| SCRIPT_ERR_MINIMALIF | SCRIPT_ERR_SIG_NULLFAIL
| SCRIPT_ERR_DISCOURAGE_UPGRADABLE_NOPS | SCRIPT_ERR_DISCOURAGE_UPGRADABLE_WITNESS_PROGRAM
| SCRIPT_ERR_DISCOURAGE_UPGRADABLE_TAPROOT_VERSION | SCRIPT_ERR_DISCOURAGE_OP_SUCCESS
| SCRIPT_ERR_DISCOURAGE_UPGRADABLE_PUBKEYTYPE
| SCRIPT_ERR_WITNESS_PROGRAM_WRONG_LENGTH | SCRIPT_ERR_WITNESS_PROGRAM_WITNESS_EMPTY
| SCRIPT_ERR_WITNESS_PROGRAM_MISMATCH | SCRIPT_ERR_WITNESS_MALLEATED | SCRIPT_ERR_WITNESS_MALLEATED_P2SH
| SCRIPT_ERR_WITNESS_UNEXPECTED | SCRIPT_ERR_WITNESS_PUBKEYTYPE
| SCRIPT_ERR_SCHNORR_SIG_SIZE | SCRIPT_ERR_SCHNORR_SIG_HASHTYPE | SCRIPT_ERR_SCHNORR_SIG
| SCRIPT_ERR_TAPROOT_WRONG_CONTROL_SIZE | SCRIPT_ERR_TAPSCRIPT_VALIDATION_WEIGHT
| SCRIPT_ERR_TAPSCRIPT_CHECKMULTISIG | SCRIPT_ERR_TAPSCRIPT_MINIMALIF
| SCRIPT_ERR_OP_CODESEPARATOR | SCRIPT_ERR_SIG_FINDANDDELETE.

(** How a function that returns [bool] and sets [serror] fails: with an error set,
    without touching [serror], or by an assertion. *)
Inductive script_failure :=
| ScriptErr (e : ScriptError)
| Unset
| Abort (assertion : string).

Abbreviation eval := (result script_failure).

(** [if (cond) return set_error(serror, e);] *)
Definition fail_if (cond : bool) (e : ScriptError) : eval () :=
  if cond then Err (ScriptErr e) else Ok ().

Definition set_error {A} (e : ScriptError) : eval A := Err (ScriptErr e).

Definition script_assert (cond : bool) (assertion : string) : eval () :=
  if cond then Ok () else Err (Abort assertion).

(** A callee that leaves [serror] alone leaves the value it had. *)
Definition with_serror {A} (serror : ScriptError) (r : eval A) : eval A :=
  match r with Err Unset => Err (ScriptErr serror) | _ => r end.

(** An exception ends in [catch (...)] of [EvalScript]. *)
Definition throw {A} : eval A := Err (ScriptErr SCRIPT_ERR_UNKNOWN_ERROR).

Definition catching {A} (r : result string A) : eval A :=
  match r with Ok a => Ok a | Err _ => throw end.

Definition asserting {A} (r : result string A) : eval A :=
  match r with Ok a => Ok a | Err e => Err (Abort e) end.

Definition SCRIPT_VERIFY_NONE : Z := 0.
Definition SCRIPT_VERIFY_P2SH : Z := Z.shiftl 1 0.
Definition SCRIPT_VERIFY_STRICTENC : Z := Z.shiftl 1 1.
Definition SCRIPT_VERIFY_DERSIG : Z := Z.shiftl 1 2.
Definition SCRIPT_VERIFY_LOW_S : Z := Z.shiftl 1 3.
Definition SCRIPT_VERIFY_NULLDUMMY : Z := Z.shiftl 1 4.
Definition SCRIPT_VERIFY_SIGPUSHONLY : Z := Z.shiftl 1 5.
Definition SCRIPT_VERIFY_MINIMALDATA : Z := Z.shiftl 1 6.
Definition SCRIPT_VERIFY_DISCOURAGE_UPGRADABLE_NOPS : Z := Z.shiftl 1 7.
Definition SCRIPT_VERIFY_CLEANSTACK : Z := Z.shiftl 1 8.
Definition SCRIPT_VERIFY_CHECKLOCKTIMEVERIFY : Z := Z.shiftl 1 9.
Definition SCRIPT_VERIFY_CHECKSEQUENCEVERIFY : Z := Z.shiftl 1 10.
Definition SCRIPT_VERIFY_WITNESS : Z := Z.shiftl 1 11.
Definition SCRIPT_VERIFY_DISCOURAGE_UPGRADABLE_WITNESS_PROGRAM : Z := Z.shiftl 1 12.
Definition SCRIPT_VERIFY_MINIMALIF : Z := Z.shiftl 1 13.
Definition SCRIPT_VERIFY_NULLFAIL : Z := Z.shiftl 1 14.
Definition SCRIPT_VERIFY_WITNESS_PUBKEYTYPE : Z := Z.shiftl 1 15.
Definition SCRIPT_VERIFY_CONST_SCRIPTCODE : Z := Z.shiftl 1 16.
Definition SCRIPT_VERIFY_TAPROOT : Z := Z.shiftl 1 17.
Definition SCRIPT_VERIFY_DISCOURAGE_UPGRADABLE_TAPROOT_VERSION : Z := Z.shiftl 1 18.
Definition SCRIPT_VERIFY_DISCOURAGE_OP_SUCCESS : Z := Z.shiftl 1 19.
Definition SCRIPT_VERIFY_DISCOURAGE_UPGRADABLE_PUBKEYTYPE : Z := Z.shiftl 1 20.

(** [flags & f] as a condition *)
Definition has (flags f : Z) : bool := negb (Z.land flags f =? 0).

Inductive SigVersion := BASE | WITNESS_V0 | TAPROOT | TAPSCRIPT.

#[export] Instance SigVersion_eq_dec : EqDecision SigVersion.
Proof. solve_decision. Defined.

Definition is_version (a b : SigVersion) : bool := bool_decide (a = b).

(** [sigversion == SigVersion::BASE || sigversion == SigVersion::WITNESS_V0] *)
Definition pre_tapscript (sigversion : SigVersion) : bool :=
  is_version sigversion BASE || is_version sigversion WITNESS_V0.

Definition SIGHASH_ALL : Z := 1.
Definition SIGHASH_NONE : Z := 2.
Definition SIGHASH_SINGLE : Z := 3.
Definition SIGHASH_ANYONECANPAY : Z := 0x80.
Definition SIGHASH_DEFAULT : Z := 0.
Definition SIGHASH_OUTPUT_MASK : Z := 3.
Definition SIGHASH_INPUT_MASK : Z := 0x80.

(** The members without an initializer start as zeros here; each is read only
    after its [_init] companion is set. *)
Record ScriptExecutionData := ExecData {
  m_tapleaf_hash_init : bool;
  m_tapleaf_hash : bytes;
  m_codeseparator_pos_init : bool;
  m_codeseparator_pos : Z;
  m_annex_init : bool;
  m_annex_present : bool;
  m_annex_hash : bytes;
  m_validation_weight_left_init : bool;
  m_validation_weight_left : Z;
  m_output_hash : option bytes
}.

Definition ExecData_default : ScriptExecutionData :=
  ExecData false uint256_null false 0 false false uint256_null false 0 None.

Definition set_codeseparator (pos : Z) (d : ScriptExecutionData) : ScriptExecutionData :=
  ExecData (m_tapleaf_hash_init d) (m_tapleaf_hash d) true pos (m_annex_init d) (m_annex_present d)
    (m_annex_hash d) (m_validation_weight_left_init d) (m_validation_weight_left d) (m_output_hash d).

Definition set_weight_left (w : Z) (d : ScriptExecutionData) : ScriptExecutionData :=
  ExecData (m_tapleaf_hash_init d) (m_tapleaf_hash d) (m_codeseparator_pos_init d) (m_codeseparator_pos d)
    (m_annex_init d) (m_annex_present d) (m_annex_hash d) true w (m_output_hash d).

Definition set_annex (annex_hash : option bytes) (d : ScriptExecutionData) : ScriptExecutionData :=
  ExecData (m_tapleaf_hash_init d) (m_tapleaf_hash d) (m_codeseparator_pos_init d) (m_codeseparator_pos d)
    true (bool_decide (is_Some annex_hash)) (default (m_annex_hash d) annex_hash)
    (m_validation_weight_left_init d) (m_validation_weight_left d) (m_output_hash d).

Definition set_tapleaf (h : bytes) (d : ScriptExecutionData) : ScriptExecutionData :=
  ExecData true h (m_codeseparator_pos_init d) (m_codeseparator_pos d)
    (m_annex_init d) (m_annex_present d) (m_annex_hash d)
    (m_validation_weight_left_init d) (m_validation_weight_left d) (m_output_hash d).

Definition set_output_hash (h : bytes) (d : ScriptExecutionData) : ScriptExecutionData :=
  ExecData (m_tapleaf_hash_init d) (m_tapleaf_hash d) (m_codeseparator_pos_init d) (m_codeseparator_pos d)
    (m_annex_init d) (m_annex_present d) (m_annex_hash d)
    (m_validation_weight_left_init d) (m_validation_weight_left d) (Some h).

(** * What the interpreter asks of the transaction *)

Class BaseSignatureChecker := {
  (** signature, public key, scriptCode *)
  CheckECDSASignature : bytes -> bytes -> bytes -> SigVersion -> eval bool;
  (** signature, public key; the execution data it leaves, when it returns true *)
  CheckSchnorrSignature : bytes -> bytes -> SigVersion -> ScriptExecutionData -> eval ScriptExecutionData;
  CheckLockTime : Z -> bool;
  CheckSequence : Z -> bool
}.

(** The methods of the class itself, for which no signature is valid. *)
Definition BaseSignatureChecker_default : BaseSignatureChecker := {|
  CheckECDSASignature := fun _ _ _ _ => Ok false;
  CheckSchnorrSignature := fun _ _ _ _ => Err Unset;
  CheckLockTime := fun _ => false;
  CheckSequence := fun _ => false
|}.

(** [DeferringSignatureChecker] passes every call on. *)
Definition DeferringSignatureChecker (m_checker : BaseSignatureChecker) : BaseSignatureChecker := {|
  CheckECDSASignature := fun scriptSig vchPubKey scriptCode sigversion =>
    @CheckECDSASignature m_checker scriptSig vchPubKey scriptCode sigversion;
  CheckSchnorrSignature := fun sig pubkey sigversion execdata =>
    @CheckSchnorrSignature m_checker sig pubkey sigversion execdata;
  CheckLockTime := fun nLockTime => @CheckLockTime m_checker nLockTime;
  CheckSequence := fun nSequence => @CheckSequence m_checker nSequence
|}.

(** * Values *)

Fixpoint CastToBool (vch : bytes) : bool :=
  match vch with
  | [] => false
  | b :: rest =>
      if negb (b =? 0) then negb (match rest with [] => b =? 0x80 | _ => false end)
      else CastToBool rest
  end.

Definition vchFalse : bytes := [].
Definition vchTrue : bytes := [1].
Definition vchBool (b : bool) : bytes := if b then vchTrue else vchFalse.

(** * Encodings of keys and signatures *)

Definition IsCompressedOrUncompressedPubKey (vchPubKey : bytes) : bool :=
  if zlen vchPubKey <? COMPRESSED_SIZE then false
  else if byte_at vchPubKey 0 =? 0x04 then zlen vchPubKey =? PUBKEY_SIZE
  else if (byte_at vchPubKey 0 =? 0x02) || (byte_at vchPubKey 0 =? 0x03) then zlen vchPubKey =? COMPRESSED_SIZE
  else false.

Definition IsCompressedPubKey (vchPubKey : bytes) : bool :=
  if negb (zlen vchPubKey =? COMPRESSED_SIZE) then false
  else (byte_at vchPubKey 0 =? 0x02) || (byte_at vchPubKey 0 =? 0x03).

Definition IsValidSignatureEncoding (sig : bytes) : bool :=
  let at_ i := byte_at sig (Z.to_nat i) in
  if zlen sig <? 9 then false
  else if 73 <? zlen sig then false
  else if negb (at_ 0 =? 0x30) then false
  else if negb (at_ 1 =? zlen sig - 3) then false
  else
    let lenR := at_ 3 in
    if zlen sig <=? 5 + lenR then false
    else
      let lenS := at_ (5 + lenR) in
      if negb (lenR + lenS + 7 =? zlen sig) then false
      else if negb (at_ 2 =? 0x02) then false
      else if lenR =? 0 then false
      else if negb (Z.land (at_ 4) 0x80 =? 0) then false
      else if (1 <? lenR) && (at_ 4 =? 0x00) && (Z.land (at_ 5) 0x80 =? 0) then false
      else if negb (at_ (lenR + 4) =? 0x02) then false
      else if lenS =? 0 then false
      else if negb (Z.land (at_ (lenR + 6)) 0x80 =? 0) then false
      else if (1 <? lenS) && (at_ (lenR + 6) =? 0x00) && (Z.land (at_ (lenR + 7)) 0x80 =? 0) then false
      else true.

Definition IsDefinedHashtypeSignature (vchSig : bytes) : bool :=
  if zlen vchSig =? 0 then false
  else
    let nHashType := u8 (Z.land (byte_at vchSig (length vchSig - 1)) (Z.lnot SIGHASH_ANYONECANPAY)) in
    negb ((nHashType <? SIGHASH_ALL) || (SIGHASH_SINGLE <? nHashType)).

(** * [FindAndDelete] *)

(** Where the bytes at [pc] start with [b], skip it and count it; each round
    consumes [b], which is not empty. *)
Fixpoint skip_matches (fuel : nat) (b pc : bytes) (nFound : Z) : Z * bytes :=
  match fuel with
  | O => (nFound, pc)
  | S fuel =>
      if (zlen b <=? zlen pc) && bool_decide (take (length b) pc = b)
      then skip_matches fuel b (drop (length b) pc) (nFound + 1)
      else (nFound, pc)
  end.

(** The bytes from iterator [pc2] up to iterator [pc]. *)
Definition between (pc2 pc : bytes) : bytes := take (length pc2 - length pc) pc2.

Fixpoint FindAndDelete_loop (fuel : nat) (b result pc2 pc : bytes) (nFound : Z) : Z * bytes * bytes :=
  match fuel with
  | O => (nFound, result, pc2)
  | S fuel =>
      let result := result ++ between pc2 pc in
      let '(nFound, pc) := skip_matches (length pc) b pc nFound in
      let pc2 := pc in
      let '(ok, _, _, pc) := GetScriptOp pc in
      if ok : bool then FindAndDelete_loop fuel b result pc2 pc nFound else (nFound, result, pc2)
  end.

(** The number of matches and the script that is left. *)
Definition FindAndDelete (script b : bytes) : Z * bytes :=
  if bool_decide (b = []) then (0, script)
  else
    let '(nFound, result, pc2) := FindAndDelete_loop (S (length script)) b [] script script 0 in
    (nFound, if 0 <? nFound then result ++ pc2 else script).

(** * The condition stack

    An interface, which [ConditionStack] implements with two integers and a list
    of booleans implements as the vector it stands for. *)

Class Conditions (C : Type) := {
  cond_new : C;
  cond_empty : C -> bool;
  cond_all_true : C -> bool;
  cond_push_back : bool -> C -> C;
  cond_pop_back : C -> eval C;
  cond_toggle_top : C -> eval C
}.

Record ConditionStack := CondStack { m_stack_size : Z; m_first_false_pos : Z }.

Definition NO_FALSE : Z := 2 ^ 32 - 1.

Definition ConditionStack_push_back (f : bool) (s : ConditionStack) : ConditionStack :=
  CondStack (u32 (m_stack_size s + 1))
    (if (m_first_false_pos s =? NO_FALSE) && negb f then m_stack_size s else m_first_false_pos s).

Definition ConditionStack_pop_back (s : ConditionStack) : eval ConditionStack :=
  script_assert (0 <? m_stack_size s) "m_stack_size > 0";;
  let size := m_stack_size s - 1 in
  Ok (CondStack size (if m_first_false_pos s =? size then NO_FALSE else m_first_false_pos s)).

Definition ConditionStack_toggle_top (s : ConditionStack) : eval ConditionStack :=
  script_assert (0 <? m_stack_size s) "m_stack_size > 0";;
  Ok (if m_first_false_pos s =? NO_FALSE then CondStack (m_stack_size s) (m_stack_size s - 1)
      else if m_first_false_pos s =? m_stack_size s - 1 then CondStack (m_stack_size s) NO_FALSE
      else s).

#[export] Instance ConditionStack_ops : Conditions ConditionStack := {|
  cond_new := CondStack 0 NO_FALSE;
  cond_empty := fun s => m_stack_size s =? 0;
  cond_all_true := fun s => m_first_false_pos s =? NO_FALSE;
  cond_push_back := ConditionStack_push_back;
  cond_pop_back := ConditionStack_pop_back;
  cond_toggle_top := ConditionStack_toggle_top
|}.

(** * Checks of single signatures *)

Section Checks.
Context {secp : Secp256k1} {checker : BaseSignatureChecker}.
Context (flags : Z) (sigversion : SigVersion).

Definition IsLowDERSignature (vchSig : bytes) : eval () :=
  fail_if (negb (IsValidSignatureEncoding vchSig)) SCRIPT_ERR_SIG_DER;;
  fail_if (negb (CheckLowS (removelast vchSig))) SCRIPT_ERR_SIG_HIGH_S.

Definition CheckSignatureEncoding (vchSig : bytes) : eval () :=
  if zlen vchSig =? 0 then Ok ()
  else
    fail_if (has flags (Z.lor (Z.lor SCRIPT_VERIFY_DERSIG SCRIPT_VERIFY_LOW_S) SCRIPT_VERIFY_STRICTENC)
             && negb (IsValidSignatureEncoding vchSig)) SCRIPT_ERR_SIG_DER;;
    (if has flags SCRIPT_VERIFY_LOW_S then IsLowDERSignature vchSig else Ok ());;
    fail_if (has flags SCRIPT_VERIFY_STRICTENC && negb (IsDefinedHashtypeSignature vchSig)) SCRIPT_ERR_SIG_HASHTYPE.

Definition CheckPubKeyEncoding (vchPubKey : bytes) : eval () :=
  fail_if (has flags SCRIPT_VERIFY_STRICTENC && negb (IsCompressedOrUncompressedPubKey vchPubKey)) SCRIPT_ERR_PUBKEYTYPE;;
  fail_if (has flags SCRIPT_VERIFY_WITNESS_PUBKEYTYPE && is_version sigversion WITNESS_V0
           && negb (IsCompressedPubKey vchPubKey)) SCRIPT_ERR_WITNESS_PUBKEYTYPE.

(** Drop a signature from the scriptCode in pre-segwit scripts. *)
Definition drop_signature (scriptCode vchSig : bytes) : eval bytes :=
  if is_version sigversion BASE then
    let '(found, scriptCode) := FindAndDelete scriptCode (push_data [] vchSig) in
    fail_if ((0 <? found) && has flags SCRIPT_VERIFY_CONST_SCRIPTCODE) SCRIPT_ERR_SIG_FINDANDDELETE;;
    Ok scriptCode
  else Ok scriptCode.

(** An iterator to the code after the last separator is the code from there on. *)
Definition EvalChecksigPreTapscript (vchSig vchPubKey pbegincodehash : bytes) : eval bool :=
  script_assert (pre_tapscript sigversion) "sigversion == BASE || sigversion == WITNESS_V0";;
  scriptCode ← drop_signature pbegincodehash vchSig;
  CheckSignatureEncoding vchSig;;
  CheckPubKeyEncoding vchPubKey;;
  fSuccess ← CheckECDSASignature vchSig vchPubKey scriptCode sigversion;
  fail_if (negb fSuccess && has flags SCRIPT_VERIFY_NULLFAIL && negb (zlen vchSig =? 0)) SCRIPT_ERR_SIG_NULLFAIL;;
  Ok fSuccess.

Definition EvalChecksigTapscript (sig pubkey : bytes) (execdata : ScriptExecutionData)
    : eval (bool * ScriptExecutionData) :=
  script_assert (is_version sigversion TAPSCRIPT) "sigversion == SigVersion::TAPSCRIPT";;
  let success := negb (zlen sig =? 0) in
  execdata ← (if success then
                script_assert (m_validation_weight_left_init execdata) "execdata.m_validation_weight_left_init";;
                let left := m_validation_weight_left execdata - VALIDATION_WEIGHT_PER_SIGOP_PASSED in
                fail_if (left <? 0) SCRIPT_ERR_TAPSCRIPT_VALIDATION_WEIGHT;;
                Ok (set_weight_left left execdata)
              else Ok execdata);
  if zlen pubkey =? 0 then set_error SCRIPT_ERR_PUBKEYTYPE
  else if zlen pubkey =? 32 then
    execdata ← (if success then CheckSchnorrSignature sig pubkey sigversion execdata else Ok execdata);
    Ok (success, execdata)
  else
    fail_if (has flags SCRIPT_VERIFY_DISCOURAGE_UPGRADABLE_PUBKEYTYPE) SCRIPT_ERR_DISCOURAGE_UPGRADABLE_PUBKEYTYPE;;
    Ok (success, execdata).

Definition EvalChecksig (sig pubkey pbegincodehash : bytes) (execdata : ScriptExecutionData)
    : eval (bool * ScriptExecutionData) :=
  match sigversion with
  | BASE | WITNESS_V0 =>
      success ← EvalChecksigPreTapscript sig pubkey pbegincodehash;
      Ok (success, execdata)
  | TAPSCRIPT => EvalChecksigTapscript sig pubkey execdata
  | TAPROOT => Err (Abort "false")
  end.

(** * The opcodes

    A stack is a list with its top first, so that [stacktop(-1)] is its head. *)

Definition fRequireMinimal : bool := has flags SCRIPT_VERIFY_MINIMALDATA.

(** [CScriptNum(vch, fRequireMinimal, nMaxNumSize)] *)
Definition script_num (vch : bytes) (nMaxNumSize : Z) : eval Z :=
  catching (CScriptNum_new vch fRequireMinimal nMaxNumSize).

Definition script_num4 (vch : bytes) : eval Z := script_num vch nDefaultMaxNumSize.

Definition bad_stack {A} : eval A := set_error SCRIPT_ERR_INVALID_STACK_OPERATION.

Definition is_disabled (opcode : Z) : bool :=
  existsb (fun o => opcode =? op o)
    [OP_CAT; OP_SUBSTR; OP_LEFT; OP_RIGHT; OP_INVERT; OP_AND; OP_OR; OP_XOR; OP_2MUL; OP_2DIV; OP_MUL;
     OP_DIV; OP_MOD; OP_LSHIFT; OP_RSHIFT].

Definition exec_locktime (stack : list bytes) : eval () :=
  if negb (has flags SCRIPT_VERIFY_CHECKLOCKTIMEVERIFY) then Ok ()
  else match stack with
       | [] => bad_stack
       | top :: _ =>
           nLockTime ← script_num top 5;
           fail_if (nLockTime <? 0) SCRIPT_ERR_NEGATIVE_LOCKTIME;;
           fail_if (negb (CheckLockTime nLockTime)) SCRIPT_ERR_UNSATISFIED_LOCKTIME
       end.

Definition exec_sequence (stack : list bytes) : eval () :=
  if negb (has flags SCRIPT_VERIFY_CHECKSEQUENCEVERIFY) then Ok ()
  else match stack with
       | [] => bad_stack
       | top :: _ =>
           nSequence ← script_num top 5;
           fail_if (nSequence <? 0) SCRIPT_ERR_NEGATIVE_LOCKTIME;;
           if negb (Z.land nSequence SEQUENCE_LOCKTIME_DISABLE_FLAG =? 0) then Ok ()
           else fail_if (negb (CheckSequence nSequence)) SCRIPT_ERR_UNSATISFIED_LOCKTIME
       end.

(** The opcodes that only move values, on the stack and the alternative stack. *)
Definition exec_stack_op (o : opcodetype) (stack altstack : list bytes) : eval (list bytes * list bytes) :=
  match o with
  | OP_TOALTSTACK => match stack with x :: st => Ok (st, x :: altstack) | _ => bad_stack end
  | OP_FROMALTSTACK =>
      match altstack with x :: alt => Ok (x :: stack, alt) | _ => set_error SCRIPT_ERR_INVALID_ALTSTACK_OPERATION end
  | OP_2DROP => match stack with _ :: _ :: st => Ok (st, altstack) | _ => bad_stack end
  | OP_2DUP => match stack with x2 :: x1 :: st => Ok (x2 :: x1 :: x2 :: x1 :: st, altstack) | _ => bad_stack end
  | OP_3DUP =>
      match stack with
      | x3 :: x2 :: x1 :: st => Ok (x3 :: x2 :: x1 :: x3 :: x2 :: x1 :: st, altstack)
      | _ => bad_stack
      end
  | OP_2OVER =>
      match stack with
      | x4 :: x3 :: x2 :: x1 :: st => Ok (x2 :: x1 :: x4 :: x3 :: x2 :: x1 :: st, altstack)
      | _ => bad_stack
      end
  | OP_2ROT =>
      match stack with
      | x6 :: x5 :: x4 :: x3 :: x2 :: x1 :: st => Ok (x2 :: x1 :: x6 :: x5 :: x4 :: x3 :: st, altstack)
      | _ => bad_stack
      end
  | OP_2SWAP =>
      match stack with
      | x4 :: x3 :: x2 :: x1 :: st => Ok (x2 :: x1 :: x4 :: x3 :: st, altstack)
      | _ => bad_stack
      end
  | OP_IFDUP => match stack with x :: st => Ok ((if CastToBool x then [x] else []) ++ x :: st, altstack) | _ => bad_stack end
  | OP_DEPTH => Ok (CScriptNum_serialize (zlen stack) :: stack, altstack)
  | OP_DROP => match stack with _ :: st => Ok (st, altstack) | _ => bad_stack end
  | OP_DUP => match stack with x :: st => Ok (x :: x :: st, altstack) | _ => bad_stack end
  | OP_NIP => match stack with x2 :: _ :: st => Ok (x2 :: st, altstack) | _ => bad_stack end
  | OP_OVER => match stack with x2 :: x1 :: st => Ok (x1 :: x2 :: x1 :: st, altstack) | _ => bad_stack end
  | OP_PICK | OP_ROLL =>
      match stack with
      | top :: ((_ :: _) as st) =>
          bn ← script_num4 top;
          let n := getint bn in
          fail_if ((n <? 0) || (zlen st <=? n)) SCRIPT_ERR_INVALID_STACK_OPERATION;;
          match st !! Z.to_nat n with
          | Some vch => Ok (vch :: (if bool_decide (o = OP_ROLL) then delete (Z.to_nat n) st else st), altstack)
          | None => throw
          end
      | _ => bad_stack
      end
  | OP_ROT => match stack with x3 :: x2 :: x1 :: st => Ok (x1 :: x3 :: x2 :: st, altstack) | _ => bad_stack end
  | OP_SWAP => match stack with x2 :: x1 :: st => Ok (x1 :: x2 :: st, altstack) | _ => bad_stack end
  | OP_TUCK => match stack with x2 :: x1 :: st => Ok (x2 :: x1 :: x2 :: st, altstack) | _ => bad_stack end
  | OP_SIZE => match stack with x :: st => Ok (CScriptNum_serialize (zlen x) :: x :: st, altstack) | _ => bad_stack end
  | _ => set_error SCRIPT_ERR_BAD_OPCODE
  end.

(** The argument of [OP_IF] and [OP_NOTIF] must be empty or exactly 1. *)
Definition minimal_if (vch : bytes) : bool :=
  negb ((1 <? zlen vch) || ((zlen vch =? 1) && negb (byte_at vch 0 =? 1))).

Definition exec_if (o : opcodetype) (stack : list bytes) : eval (bool * list bytes) :=
  match stack with
  | [] => set_error SCRIPT_ERR_UNBALANCED_CONDITIONAL
  | vch :: st =>
      fail_if (is_version sigversion TAPSCRIPT && negb (minimal_if vch)) SCRIPT_ERR_TAPSCRIPT_MINIMALIF;;
      fail_if (is_version sigversion WITNESS_V0 && has flags SCRIPT_VERIFY_MINIMALIF && negb (minimal_if vch))
        SCRIPT_ERR_MINIMALIF;;
      let fValue := CastToBool vch in
      Ok (if bool_decide (o = OP_NOTIF) then negb fValue else fValue, st)
  end.

Definition unary_num (o : opcodetype) (bn : Z) : eval Z :=
  match o with
  | OP_1ADD => asserting (CScriptNum_add_assign bn 1)
  | OP_1SUB => asserting (CScriptNum_sub_assign bn 1)
  | OP_NEGATE => asserting (CScriptNum_neg bn)
  | OP_ABS => if bn <? 0 then asserting (CScriptNum_neg bn) else Ok bn
  | OP_NOT => Ok (Z.b2z (bn =? 0))
  | OP_0NOTEQUAL => Ok (Z.b2z (negb (bn =? 0)))
  | _ => Err (Abort "invalid opcode")
  end.

Definition binary_num (o : opcodetype) (bn1 bn2 : Z) : eval Z :=
  match o with
  | OP_ADD => Ok (bn1 + bn2)
  | OP_SUB => Ok (bn1 - bn2)
  | OP_BOOLAND => Ok (Z.b2z (negb (bn1 =? 0) && negb (bn2 =? 0)))
  | OP_BOOLOR => Ok (Z.b2z (negb (bn1 =? 0) || negb (bn2 =? 0)))
  | OP_NUMEQUAL | OP_NUMEQUALVERIFY => Ok (Z.b2z (bn1 =? bn2))
  | OP_NUMNOTEQUAL => Ok (Z.b2z (negb (bn1 =? bn2)))
  | OP_LESSTHAN => Ok (Z.b2z (bn1 <? bn2))
  | OP_GREATERTHAN => Ok (Z.b2z (bn2 <? bn1))
  | OP_LESSTHANOREQUAL => Ok (Z.b2z (bn1 <=? bn2))
  | OP_GREATERTHANOREQUAL => Ok (Z.b2z (bn2 <=? bn1))
  | OP_MIN => Ok (if bn1 <? bn2 then bn1 else bn2)
  | OP_MAX => Ok (if bn2 <? bn1 then bn1 else bn2)
  | _ => Err (Abort "invalid opcode")
  end.

Definition hash_op (o : opcodetype) (vch : bytes) : bytes :=
  match o with
  | OP_RIPEMD160 => (CRIPEMD160_Finalize (CRIPEMD160_Write CRIPEMD160_new vch)).1
  | OP_SHA1 => (CSHA1_Finalize (CSHA1_Write CSHA1_new vch)).1
  | OP_SHA256 => (CSHA256_Finalize (CSHA256_Write CSHA256_new vch)).1
  | OP_HASH160 => CHash160_Finalize (CHash160_Write CSHA256_new vch)
  | OP_HASH256 => CHash256_Finalize (CHash256_Write CSHA256_new vch)
  | _ => replicate 32 0
  end.

(** The opcodes that compute on the stack alone. *)
Definition exec_compute (o : opcodetype) (stack : list bytes) : eval (list bytes) :=
  match o with
  | OP_VERIFY =>
      match stack with
      | x :: st => fail_if (negb (CastToBool x)) SCRIPT_ERR_VERIFY;; Ok st
      | _ => bad_stack
      end
  | OP_EQUAL | OP_EQUALVERIFY =>
      match stack with
      | vch2 :: vch1 :: st =>
          let fEqual := bool_decide (vch1 = vch2) in
          if bool_decide (o = OP_EQUALVERIFY) then fail_if (negb fEqual) SCRIPT_ERR_EQUALVERIFY;; Ok st
          else Ok (vchBool fEqual :: st)
      | _ => bad_stack
      end
  | OP_1ADD | OP_1SUB | OP_NEGATE | OP_ABS | OP_NOT | OP_0NOTEQUAL =>
      match stack with
      | top :: st =>
          bn ← script_num4 top;
          bn ← unary_num o bn;
          Ok (CScriptNum_serialize bn :: st)
      | _ => bad_stack
      end
  | OP_ADD | OP_SUB | OP_BOOLAND | OP_BOOLOR | OP_NUMEQUAL | OP_NUMEQUALVERIFY | OP_NUMNOTEQUAL
  | OP_LESSTHAN | OP_GREATERTHAN | OP_LESSTHANOREQUAL | OP_GREATERTHANOREQUAL | OP_MIN | OP_MAX =>
      match stack with
      | x2 :: x1 :: st =>
          bn1 ← script_num4 x1;
          bn2 ← script_num4 x2;
          bn ← binary_num o bn1 bn2;
          if bool_decide (o = OP_NUMEQUALVERIFY)
          then fail_if (negb (CastToBool (CScriptNum_serialize bn))) SCRIPT_ERR_NUMEQUALVERIFY;; Ok st
          else Ok (CScriptNum_serialize bn :: st)
      | _ => bad_stack
      end
  | OP_WITHIN =>
      match stack with
      | x3 :: x2 :: x1 :: st =>
          bn1 ← script_num4 x1;
          bn2 ← script_num4 x2;
          bn3 ← script_num4 x3;
          Ok (vchBool ((bn2 <=? bn1) && (bn1 <? bn3)) :: st)
      | _ => bad_stack
      end
  | OP_RIPEMD160 | OP_SHA1 | OP_SHA256 | OP_HASH160 | OP_HASH256 =>
      match stack with
      | vch :: st => Ok (hash_op o vch :: st)
      | _ => bad_stack
      end
  | _ => set_error SCRIPT_ERR_BAD_OPCODE
  end.

(** ** Signatures *)

Definition exec_checksig (o : opcodetype) (pbegincodehash : bytes) (stack : list bytes)
    (execdata : ScriptExecutionData) : eval (list bytes * ScriptExecutionData) :=
  match stack with
  | vchPubKey :: vchSig :: st =>
      '(fSuccess, execdata) ← EvalChecksig vchSig vchPubKey pbegincodehash execdata;
      if bool_decide (o = OP_CHECKSIGVERIFY)
      then fail_if (negb fSuccess) SCRIPT_ERR_CHECKSIGVERIFY;; Ok (st, execdata)
      else Ok (vchBool fSuccess :: st, execdata)
  | _ => bad_stack
  end.

Definition exec_checksigadd (pbegincodehash : bytes) (stack : list bytes)
    (execdata : ScriptExecutionData) : eval (list bytes * ScriptExecutionData) :=
  fail_if (pre_tapscript sigversion) SCRIPT_ERR_BAD_OPCODE;;
  match stack with
  | pubkey :: x :: sig :: st =>
      num ← script_num4 x;
      '(success, execdata) ← EvalChecksig sig pubkey pbegincodehash execdata;
      Ok (CScriptNum_serialize (num + Z.b2z success) :: st, execdata)
  | _ => bad_stack
  end.

(** The loop that drops every signature from the scriptCode. *)
Fixpoint drop_signatures (scriptCode : bytes) (sigs : list bytes) : eval bytes :=
  match sigs with
  | [] => Ok scriptCode
  | vchSig :: sigs =>
      scriptCode ← drop_signature scriptCode vchSig;
      drop_signatures scriptCode sigs
  end.

(** The matching of signatures with keys.  [keys] and [sigs] are the entries of the
    stack from [ikey] and [isig] on, so that [nKeysCount] and [nSigsCount] are
    their lengths; [nSigsCount <= nKeysCount] holds before every round. *)
Fixpoint multisig_loop (scriptCode : bytes) (keys sigs : list bytes) : eval bool :=
  match sigs, keys with
  | [], _ => Ok true
  | _ :: _, [] => Ok false
  | vchSig :: sigs', vchPubKey :: keys =>
      CheckSignatureEncoding vchSig;;
      CheckPubKeyEncoding vchPubKey;;
      fOk ← CheckECDSASignature vchSig vchPubKey scriptCode sigversion;
      let sigs := if fOk : bool then sigs' else sigs in
      if zlen keys <? zlen sigs then Ok false else multisig_loop scriptCode keys sigs
  end.

(** [while (i-- > 1)]: pop the arguments, and once [ikey2] is down to the
    signatures require them to be empty if the operation failed. *)
Fixpoint multisig_cleanup (fSuccess : bool) (n : nat) (ikey2 : Z) (stack : list bytes) : eval (list bytes) :=
  match n with
  | O => Ok stack
  | S n =>
      match stack with
      | [] => throw
      | top :: st =>
          fail_if (negb fSuccess && has flags SCRIPT_VERIFY_NULLFAIL && (ikey2 =? 0) && negb (zlen top =? 0))
            SCRIPT_ERR_SIG_NULLFAIL;;
          multisig_cleanup fSuccess n (if 0 <? ikey2 then ikey2 - 1 else ikey2) st
      end
  end.

Definition exec_checkmultisig (o : opcodetype) (pbegincodehash : bytes) (nOpCount : Z) (stack : list bytes)
    : eval (list bytes * Z) :=
  fail_if (is_version sigversion TAPSCRIPT) SCRIPT_ERR_TAPSCRIPT_CHECKMULTISIG;;
  match stack with
  | [] => bad_stack
  | top :: rest =>
      bnKeys ← script_num4 top;
      let nKeysCount := getint bnKeys in
      fail_if ((nKeysCount <? 0) || (MAX_PUBKEYS_PER_MULTISIG <? nKeysCount)) SCRIPT_ERR_PUBKEY_COUNT;;
      let nOpCount := nOpCount + nKeysCount in
      fail_if (MAX_OPS_PER_SCRIPT <? nOpCount) SCRIPT_ERR_OP_COUNT;;
      fail_if (zlen stack <? 2 + nKeysCount) SCRIPT_ERR_INVALID_STACK_OPERATION;;
      let keys := take (Z.to_nat nKeysCount) rest in
      match drop (Z.to_nat nKeysCount) rest with
      | [] => throw
      | num :: rest =>
          bnSigs ← script_num4 num;
          let nSigsCount := getint bnSigs in
          fail_if ((nSigsCount <? 0) || (nKeysCount <? nSigsCount)) SCRIPT_ERR_SIG_COUNT;;
          let i := 3 + nKeysCount + nSigsCount in
          fail_if (zlen stack <? i) SCRIPT_ERR_INVALID_STACK_OPERATION;;
          let sigs := take (Z.to_nat nSigsCount) rest in
          scriptCode ← drop_signatures pbegincodehash sigs;
          fSuccess ← multisig_loop scriptCode keys sigs;
          stack ← multisig_cleanup fSuccess (Z.to_nat (i - 1)) (nKeysCount + 2) stack;
          match stack with
          | [] => bad_stack
          | dummy :: stack =>
              fail_if (has flags SCRIPT_VERIFY_NULLDUMMY && negb (zlen dummy =? 0)) SCRIPT_ERR_SIG_NULLDUMMY;;
              if bool_decide (o = OP_CHECKMULTISIGVERIFY)
              then fail_if (negb fSuccess) SCRIPT_ERR_CHECKMULTISIGVERIFY;; Ok (stack, nOpCount)
              else Ok (vchBool fSuccess :: stack, nOpCount)
          end
      end
  end.

(** ** One opcode *)

(** The variables of [EvalScript] that an opcode can change, [vfExec] apart. *)
Record machine := Machine {
  stack : list bytes;
  altstack : list bytes;
  pbegincodehash : bytes;
  nOpCount : Z;
  execdata : ScriptExecutionData
}.

Definition set_stack (st : list bytes) (m : machine) : machine :=
  Machine st (altstack m) (pbegincodehash m) (nOpCount m) (execdata m).

(** The cases of [switch (opcode)], the conditionals apart; [pc] is the iterator
    after the opcode. *)
Definition exec_opcode (o : opcodetype) (pc : bytes) (opcode_pos : Z) (m : machine) : eval machine :=
  match o with
  | OP_1NEGATE | OP_1 | OP_2 | OP_3 | OP_4 | OP_5 | OP_6 | OP_7 | OP_8 | OP_9 | OP_10 | OP_11 | OP_12
  | OP_13 | OP_14 | OP_15 | OP_16 =>
      Ok (set_stack (CScriptNum_serialize (op o - (op OP_1 - 1)) :: stack m) m)
  | OP_NOP => Ok m
  | OP_CHECKLOCKTIMEVERIFY => exec_locktime (stack m);; Ok m
  | OP_CHECKSEQUENCEVERIFY => exec_sequence (stack m);; Ok m
  | OP_NOP1 | OP_NOP4 | OP_NOP5 | OP_NOP6 | OP_NOP7 | OP_NOP8 | OP_NOP9 | OP_NOP10 =>
      fail_if (has flags SCRIPT_VERIFY_DISCOURAGE_UPGRADABLE_NOPS) SCRIPT_ERR_DISCOURAGE_UPGRADABLE_NOPS;; Ok m
  | OP_RETURN => set_error SCRIPT_ERR_OP_RETURN
  | OP_TOALTSTACK | OP_FROMALTSTACK | OP_2DROP | OP_2DUP | OP_3DUP | OP_2OVER | OP_2ROT | OP_2SWAP
  | OP_IFDUP | OP_DEPTH | OP_DROP | OP_DUP | OP_NIP | OP_OVER | OP_PICK | OP_ROLL | OP_ROT | OP_SWAP
  | OP_TUCK | OP_SIZE =>
      '(st, alt) ← exec_stack_op o (stack m) (altstack m);
      Ok (Machine st alt (pbegincodehash m) (nOpCount m) (execdata m))
  | OP_VERIFY | OP_EQUAL | OP_EQUALVERIFY | OP_1ADD | OP_1SUB | OP_NEGATE | OP_ABS | OP_NOT | OP_0NOTEQUAL
  | OP_ADD | OP_SUB | OP_BOOLAND | OP_BOOLOR | OP_NUMEQUAL | OP_NUMEQUALVERIFY | OP_NUMNOTEQUAL
  | OP_LESSTHAN | OP_GREATERTHAN | OP_LESSTHANOREQUAL | OP_GREATERTHANOREQUAL | OP_MIN | OP_MAX | OP_WITHIN
  | OP_RIPEMD160 | OP_SHA1 | OP_SHA256 | OP_HASH160 | OP_HASH256 =>
      st ← exec_compute o (stack m);
      Ok (set_stack st m)
  | OP_CODESEPARATOR =>
      Ok (Machine (stack m) (altstack m) pc (nOpCount m) (set_codeseparator opcode_pos (execdata m)))
  | OP_CHECKSIG | OP_CHECKSIGVERIFY =>
      '(st, d) ← exec_checksig o (pbegincodehash m) (stack m) (execdata m);
      Ok (Machine st (altstack m) (pbegincodehash m) (nOpCount m) d)
  | OP_CHECKSIGADD =>
      '(st, d) ← exec_checksigadd (pbegincodehash m) (stack m) (execdata m);
      Ok (Machine st (altstack m) (pbegincodehash m) (nOpCount m) d)
  | OP_CHECKMULTISIG | OP_CHECKMULTISIGVERIFY =>
      '(st, n) ← exec_checkmultisig o (pbegincodehash m) (nOpCount m) (stack m);
      Ok (Machine st (altstack m) (pbegincodehash m) n (execdata m))
  | _ => set_error SCRIPT_ERR_BAD_OPCODE
  end.

(** [if (opcode > OP_16 && ++nOpCount > MAX_OPS_PER_SCRIPT)] *)
Definition count_opcode (opcode : Z) (m : machine) : eval machine :=
  if pre_tapscript sigversion && (op OP_16 <? opcode) then
    let n := nOpCount m + 1 in
    fail_if (MAX_OPS_PER_SCRIPT <? n) SCRIPT_ERR_OP_COUNT;;
    Ok (Machine (stack m) (altstack m) (pbegincodehash m) n (execdata m))
  else Ok m.

Section Evaluation.
Context {C : Type} {conds : Conditions C}.

(** The conditionals, and every other opcode by [exec_opcode]. *)
Definition exec_switch (opcode : Z) (pc : bytes) (opcode_pos : Z) (fExec : bool) (m : machine) (vfExec : C)
    : eval (machine * C) :=
  match opcode_name opcode with
  | Some OP_IF | Some OP_NOTIF =>
      if fExec then
        '(fValue, st) ← exec_if (if opcode =? op OP_NOTIF then OP_NOTIF else OP_IF) (stack m);
        Ok (set_stack st m, cond_push_back fValue vfExec)
      else Ok (m, cond_push_back false vfExec)
  | Some OP_ELSE =>
      fail_if (cond_empty vfExec) SCRIPT_ERR_UNBALANCED_CONDITIONAL;;
      vfExec ← cond_toggle_top vfExec;
      Ok (m, vfExec)
  | Some OP_ENDIF =>
      fail_if (cond_empty vfExec) SCRIPT_ERR_UNBALANCED_CONDITIONAL;;
      vfExec ← cond_pop_back vfExec;
      Ok (m, vfExec)
  | Some o => m ← exec_opcode o pc opcode_pos m; Ok (m, vfExec)
  | None => set_error SCRIPT_ERR_BAD_OPCODE
  end.

(** The push, the opcode, or nothing in a branch that is not taken. *)
Definition exec_instruction (opcode : Z) (vchPushValue pc : bytes) (opcode_pos : Z) (m : machine) (vfExec : C)
    : eval (machine * C) :=
  let fExec := cond_all_true vfExec in
  if fExec && (0 <=? opcode) && (opcode <=? op OP_PUSHDATA4) then
    minimal ← (if fRequireMinimal then asserting (CheckMinimalPush vchPushValue opcode) else Ok true);
    fail_if (negb minimal) SCRIPT_ERR_MINIMALDATA;;
    Ok (set_stack (vchPushValue :: stack m) m, vfExec)
  else if fExec || ((op OP_IF <=? opcode) && (opcode <=? op OP_ENDIF)) then
    exec_switch opcode pc opcode_pos fExec m vfExec
  else Ok (m, vfExec).

(** The loop; every instruction consumes at least a byte, so the length of the
    script is enough fuel. *)
Fixpoint EvalScript_loop (fuel : nat) (pc : bytes) (opcode_pos : Z) (m : machine) (vfExec : C) : eval machine :=
  match pc, fuel with
  | [], _ =>
      fail_if (negb (cond_empty vfExec)) SCRIPT_ERR_UNBALANCED_CONDITIONAL;;
      Ok m
  | _, O => Err (Abort "out of fuel")
  | _, S fuel =>
      let '(ok, opcode, vchPushValue, pc) := GetScriptOp pc in
      fail_if (negb ok) SCRIPT_ERR_BAD_OPCODE;;
      fail_if (MAX_SCRIPT_ELEMENT_SIZE <? zlen vchPushValue) SCRIPT_ERR_PUSH_SIZE;;
      m ← count_opcode opcode m;
      fail_if (is_disabled opcode) SCRIPT_ERR_DISABLED_OPCODE;;
      fail_if ((opcode =? op OP_CODESEPARATOR) && is_version sigversion BASE
               && has flags SCRIPT_VERIFY_CONST_SCRIPTCODE) SCRIPT_ERR_OP_CODESEPARATOR;;
      '(m, vfExec) ← exec_instruction opcode vchPushValue pc opcode_pos m vfExec;
      fail_if (MAX_STACK_SIZE <? zlen (stack m) + zlen (altstack m)) SCRIPT_ERR_STACK_SIZE;;
      EvalScript_loop fuel pc (u32 (opcode_pos + 1)) m vfExec
  end.

(** The stack and the execution data that [EvalScript] leaves when it returns
    true. *)
Definition EvalScript_with (st : list bytes) (script : bytes) (d : ScriptExecutionData)
    : eval (list bytes * ScriptExecutionData) :=
  script_assert (pre_tapscript sigversion || is_version sigversion TAPSCRIPT) "sigversion is not TAPROOT";;
  fail_if (pre_tapscript sigversion && (MAX_SCRIPT_SIZE <? zlen script)) SCRIPT_ERR_SCRIPT_SIZE;;
  let d := set_codeseparator 0xFFFFFFFF d in
  m ← with_serror SCRIPT_ERR_UNKNOWN_ERROR
        (EvalScript_loop (length script) script 0 (Machine st [] script 0 d) cond_new);
  Ok (stack m, execdata m).

End Evaluation.

Definition EvalScript : list bytes -> bytes -> ScriptExecutionData -> eval (list bytes * ScriptExecutionData) :=
  EvalScript_with (C := ConditionStack).

End Checks.

(** * Taproot trees *)

Definition TAPROOT_LEAF_MASK : Z := 0xfe.
Definition TAPROOT_LEAF_TAPSCRIPT : Z := 0xc0.
Definition TAPROOT_CONTROL_BASE_SIZE : Z := 33.
Definition TAPROOT_CONTROL_NODE_SIZE : Z := 32.
Definition TAPROOT_CONTROL_MAX_NODE_COUNT : Z := 128.
Definition TAPROOT_CONTROL_MAX_SIZE : Z :=
  TAPROOT_CONTROL_BASE_SIZE + TAPROOT_CONTROL_NODE_SIZE * TAPROOT_CONTROL_MAX_NODE_COUNT.
Definition WITNESS_V0_SCRIPTHASH_SIZE : Z := 32.
Definition WITNESS_V0_KEYHASH_SIZE : Z := 20.
Definition WITNESS_V1_TAPROOT_SIZE : Z := 32.

Definition HASHER_TAPLEAF : CSHA256 := TaggedHash (to_bytes "TapLeaf").
Definition HASHER_TAPBRANCH : CSHA256 := TaggedHash (to_bytes "TapBranch").

Definition ComputeTapleafHash (leaf_version : Z) (script : bytes) : bytes :=
  HashWriter_GetSHA256
    (HashWriter_write
       (HashWriter_write (HashWriter_write HASHER_TAPLEAF (ser_writedata8 leaf_version)) (WriteCompactSize (zlen script)))
       script).

(** [std::lexicographical_compare] *)
Fixpoint lexicographical_compare (a b : bytes) : bool :=
  match a, b with
  | _, [] => false
  | [], _ :: _ => true
  | x :: a, y :: b => if x <? y then true else if y <? x then false else lexicographical_compare a b
  end.

Definition ComputeTapbranchHash (a b : bytes) : bytes :=
  HashWriter_GetSHA256
    (if lexicographical_compare a b
     then HashWriter_write (HashWriter_write HASHER_TAPBRANCH a) b
     else HashWriter_write (HashWriter_write HASHER_TAPBRANCH b) a).

(** The nodes of the path, in order. *)
Fixpoint tap_path (n : nat) (nodes : bytes) (k : bytes) : bytes :=
  match n with
  | O => k
  | S n => tap_path n (drop 32 nodes) (ComputeTapbranchHash k (take 32 nodes))
  end.

Definition control_size_ok (control : bytes) : bool :=
  negb ((zlen control <? TAPROOT_CONTROL_BASE_SIZE) || (TAPROOT_CONTROL_MAX_SIZE <? zlen control)
        || negb ((zlen control - TAPROOT_CONTROL_BASE_SIZE) mod TAPROOT_CONTROL_NODE_SIZE =? 0)).

Definition ComputeTaprootMerkleRoot (control tapleaf_hash : bytes) : eval bytes :=
  script_assert (control_size_ok control) "control.size()";;
  let path_len := (zlen control - TAPROOT_CONTROL_BASE_SIZE) / TAPROOT_CONTROL_NODE_SIZE in
  Ok (tap_path (Z.to_nat path_len) (drop 33 control) tapleaf_hash).

(** * [VerifyScript] *)

Section Verify.
Context {secp : Secp256k1} {checker : BaseSignatureChecker}.
Context (flags : Z).

Definition VerifyTaprootCommitment (control program tapleaf_hash : bytes) : eval bool :=
  script_assert (TAPROOT_CONTROL_BASE_SIZE <=? zlen control) "control.size() >= TAPROOT_CONTROL_BASE_SIZE";;
  script_assert (32 <=? zlen program) "program.size() >= uint256::size()";;
  merkle_root ← ComputeTaprootMerkleRoot control tapleaf_hash;
  Ok (CheckTapTweak program (take 32 (drop 1 control)) merkle_root (Z.odd (byte_at control 0))).

(** The scan for [OP_SUCCESSx]: whether one was found. *)
Fixpoint success_scan (fuel : nat) (pc : bytes) : eval bool :=
  match pc, fuel with
  | [], _ => Ok false
  | _, O => Err (Abort "out of fuel")
  | _, S fuel =>
      let '(ok, opcode, _, pc) := GetScriptOp pc in
      fail_if (negb ok) SCRIPT_ERR_BAD_OPCODE;;
      if IsOpSuccess opcode then
        fail_if (has flags SCRIPT_VERIFY_DISCOURAGE_OP_SUCCESS) SCRIPT_ERR_DISCOURAGE_OP_SUCCESS;;
        Ok true
      else success_scan fuel pc
  end.

(** The stack is given with its top first. *)
Definition ExecuteWitnessScript (st : list bytes) (exec_script : bytes) (sigversion : SigVersion)
    (d : ScriptExecutionData) : eval () :=
  success ← (if is_version sigversion TAPSCRIPT then
               found ← success_scan (length exec_script) exec_script;
               fail_if (negb found && (MAX_STACK_SIZE <? zlen st)) SCRIPT_ERR_STACK_SIZE;;
               Ok found
             else Ok false);
  if success : bool then Ok ()
  else
    fail_if (existsb (fun elem => MAX_SCRIPT_ELEMENT_SIZE <? zlen elem) st) SCRIPT_ERR_PUSH_SIZE;;
    '(st, _) ← EvalScript flags sigversion st exec_script d;
    match st with
    | [top] => fail_if (negb (CastToBool top)) SCRIPT_ERR_EVAL_FALSE
    | _ => set_error SCRIPT_ERR_CLEANSTACK
    end.

Definition p2wpkh_script (program : bytes) : bytes :=
  push_data [op OP_DUP; op OP_HASH160] program ++ [op OP_EQUALVERIFY; op OP_CHECKSIG].

(** Script path: [st] is the stack without the annex, top first. *)
Definition VerifyTaprootScriptPath (witness : list bytes) (program control script : bytes) (st : list bytes)
    (d : ScriptExecutionData) : eval () :=
  fail_if (negb (control_size_ok control)) SCRIPT_ERR_TAPROOT_WRONG_CONTROL_SIZE;;
  let leaf_version := Z.land (byte_at control 0) TAPROOT_LEAF_MASK in
  let tapleaf_hash := ComputeTapleafHash leaf_version script in
  committed ← VerifyTaprootCommitment control program tapleaf_hash;
  fail_if (negb committed) SCRIPT_ERR_WITNESS_PROGRAM_MISMATCH;;
  let d := set_tapleaf tapleaf_hash d in
  if leaf_version =? TAPROOT_LEAF_TAPSCRIPT then
    let d := set_weight_left (zlen (ser_stack witness) + VALIDATION_WEIGHT_OFFSET) d in
    ExecuteWitnessScript st script TAPSCRIPT d
  else
    fail_if (has flags SCRIPT_VERIFY_DISCOURAGE_UPGRADABLE_TAPROOT_VERSION)
      SCRIPT_ERR_DISCOURAGE_UPGRADABLE_TAPROOT_VERSION.

(** The annex: the last of at least two items, if it starts with [ANNEX_TAG]. *)
Definition find_annex (st : list bytes) : option bytes :=
  match st with
  | (tag :: rest) :: _ :: _ => if tag =? ANNEX_TAG then Some (tag :: rest) else None
  | _ => None
  end.

(** The Taproot case of [VerifyWitnessProgram]; [st] is the witness, top first. *)
Definition VerifyTaproot (witness : list bytes) (program : bytes) (st : list bytes) : eval () :=
  if negb (has flags SCRIPT_VERIFY_TAPROOT) then Ok ()
  else
    fail_if (zlen st =? 0) SCRIPT_ERR_WITNESS_PROGRAM_WITNESS_EMPTY;;
    let annex := find_annex st in
    let st := match annex with Some _ => drop 1 st | None => st end in
    let d := set_annex ((fun a => HashWriter_GetSHA256 (HashWriter_write CSHA256_new (ser_byte_vector a))) <$> annex)
               ExecData_default in
    match st with
    | [sig] =>
        (* [serror] holds the success of the evaluation of the scriptPubKey *)
        _ ← with_serror SCRIPT_ERR_OK (CheckSchnorrSignature sig program TAPROOT d);
        Ok ()
    | control :: script :: st => VerifyTaprootScriptPath witness program control script st d
    | [] => Err (Abort "unreachable")
    end.

Definition VerifyWitnessProgram (witness : list bytes) (witversion : Z) (program : bytes) (is_p2sh : bool) : eval () :=
  let st := rev witness in
  if witversion =? 0 then
    if zlen program =? WITNESS_V0_SCRIPTHASH_SIZE then
      match st with
      | [] => set_error SCRIPT_ERR_WITNESS_PROGRAM_WITNESS_EMPTY
      | exec_script :: st =>
          let hash_exec_script := (CSHA256_Finalize (CSHA256_Write CSHA256_new exec_script)).1 in
          fail_if (negb (bool_decide (hash_exec_script = program))) SCRIPT_ERR_WITNESS_PROGRAM_MISMATCH;;
          ExecuteWitnessScript st exec_script WITNESS_V0 ExecData_default
      end
    else if zlen program =? WITNESS_V0_KEYHASH_SIZE then
      fail_if (negb (zlen st =? 2)) SCRIPT_ERR_WITNESS_PROGRAM_MISMATCH;;
      ExecuteWitnessScript st (p2wpkh_script program) WITNESS_V0 ExecData_default
    else set_error SCRIPT_ERR_WITNESS_PROGRAM_WRONG_LENGTH
  else if (witversion =? 1) && (zlen program =? WITNESS_V1_TAPROOT_SIZE) && negb is_p2sh then
    VerifyTaproot witness program st
  else if negb is_p2sh && IsPayToAnchor_program witversion program then Ok ()
  else
    fail_if (has flags SCRIPT_VERIFY_DISCOURAGE_UPGRADABLE_WITNESS_PROGRAM)
      SCRIPT_ERR_DISCOURAGE_UPGRADABLE_WITNESS_PROGRAM.

(** [EvalScript] without execution data, and the test of its result. *)
Definition eval_base (st : list bytes) (script : bytes) : eval (list bytes) :=
  '(st, _) ← EvalScript flags BASE st script ExecData_default;
  Ok st.

Definition check_true (st : list bytes) : eval () :=
  match st with
  | [] => set_error SCRIPT_ERR_EVAL_FALSE
  | top :: _ => fail_if (negb (CastToBool top)) SCRIPT_ERR_EVAL_FALSE
  end.

(** A witness program in [script]: [malleated] is the condition on the scriptSig,
    [e] its error; the result is [hadWitness] and the stack after [resize(1)]. *)
Definition verify_program (witness : list bytes) (script : bytes) (malleated : bool) (e : ScriptError)
    (is_p2sh hadWitness : bool) (st : list bytes) : eval (bool * list bytes) :=
  if has flags SCRIPT_VERIFY_WITNESS then
    match IsWitnessProgram script with
    | Some (witnessversion, witnessprogram) =>
        fail_if malleated e;;
        VerifyWitnessProgram witness witnessversion witnessprogram is_p2sh;;
        Ok (true, drop (length st - 1) st)
    | None => Ok (hadWitness, st)
    end
  else Ok (hadWitness, st).

(** The evaluation of the serialized script of a P2SH output; [stackCopy] is the
    stack the scriptSig left. *)
Definition verify_p2sh (scriptSig : bytes) (witness : list bytes) (hadWitness : bool) (stackCopy : list bytes)
    : eval (bool * list bytes) :=
  fail_if (negb (IsPushOnly scriptSig)) SCRIPT_ERR_SIG_PUSHONLY;;
  match stackCopy with
  | [] => Err (Abort "!stack.empty()")
  | pubKey2 :: st =>
      st ← eval_base st pubKey2;
      check_true st;;
      verify_program witness pubKey2 (negb (bool_decide (scriptSig = push_data [] pubKey2)))
        SCRIPT_ERR_WITNESS_MALLEATED_P2SH true hadWitness st
  end.

Definition VerifyScript (scriptSig scriptPubKey : bytes) (witness : list bytes) : eval () :=
  fail_if (has flags SCRIPT_VERIFY_SIGPUSHONLY && negb (IsPushOnly scriptSig)) SCRIPT_ERR_SIG_PUSHONLY;;
  stackCopy ← eval_base [] scriptSig;
  st ← eval_base stackCopy scriptPubKey;
  check_true st;;
  '(hadWitness, st) ← verify_program witness scriptPubKey (negb (zlen scriptSig =? 0))
                        SCRIPT_ERR_WITNESS_MALLEATED false false st;
  '(hadWitness, st) ← (if has flags SCRIPT_VERIFY_P2SH && IsPayToScriptHash scriptPubKey
                       then verify_p2sh scriptSig witness hadWitness stackCopy
                       else Ok (hadWitness, st));
  (if has flags SCRIPT_VERIFY_CLEANSTACK then
     script_assert (has flags SCRIPT_VERIFY_P2SH) "CLEANSTACK requires P2SH";;
     script_assert (has flags SCRIPT_VERIFY_WITNESS) "CLEANSTACK requires WITNESS";;
     fail_if (negb (zlen st =? 1)) SCRIPT_ERR_CLEANSTACK
   else Ok ());;
  if has flags SCRIPT_VERIFY_WITNESS then
    script_assert (has flags SCRIPT_VERIFY_P2SH) "WITNESS requires P2SH";;
    fail_if (negb hadWitness && negb (bool_decide (witness = []))) SCRIPT_ERR_WITNESS_UNEXPECTED
  else Ok ().

End Verify.

(** The combinations of flags that the assertions of [VerifyScript] allow. *)
Definition flags_ok (flags : Z) : bool :=
  implb (has flags SCRIPT_VERIFY_CLEANSTACK) (has flags SCRIPT_VERIFY_P2SH && has flags SCRIPT_VERIFY_WITNESS)
  && implb (has flags SCRIPT_VERIFY_WITNESS) (has flags SCRIPT_VERIFY_P2SH).

(** * Signature operations in witnesses *)

Definition WitnessSigOps (witversion : Z) (witprogram : bytes) (witness : list bytes) : Z :=
  if witversion =? 0 then
    if zlen witprogram =? WITNESS_V0_KEYHASH_SIZE then 1
    else if (zlen witprogram =? WITNESS_V0_SCRIPTHASH_SIZE) && (0 <? zlen witness) then
      GetSigOpCount (List.last witness []) true
    else 0
  else 0.

Definition CountWitnessSigOps (scriptSig scriptPubKey : bytes) (witness : list bytes) (flags : Z) : result string Z :=
  if negb (has flags SCRIPT_VERIFY_WITNESS) then Ok 0
  else if negb (has flags SCRIPT_VERIFY_P2SH) then Err "assertion: (flags & SCRIPT_VERIFY_P2SH) != 0"
  else match IsWitnessProgram scriptPubKey with
       | Some (witnessversion, witnessprogram) => Ok (WitnessSigOps witnessversion witnessprogram witness)
       | None =>
           if IsPayToScriptHash scriptPubKey && IsPushOnly scriptSig then
             let data := default [] (last_push (length scriptSig) scriptSig []) in
             match IsWitnessProgram data with
             | Some (witnessversion, witnessprogram) => Ok (WitnessSigOps witnessversion witnessprogram witness)
             | None => Ok 0
             end
           else Ok 0
       end.
