(* ===== verification/SoftFork.v ===== *)
(** The soft-fork discipline of the verification flags
    (src/bitcoin/src/script/interpreter.h): adding flags never makes a script
    acceptable. *)

From S2P Require Import Prelude Serialize MerkleDamgard Sha2 Sha1Ripemd Hash Transaction Script PubKey Interpreter.

(** [strict] succeeds only where [lax] does, with the same result. *)
Definition stricter {A} (strict lax : eval A) : Prop := forall a, strict = Ok a -> lax = Ok a.

#[export] Instance stricter_preorder {A} : PreOrder (@stricter A).
Proof. split; [by intros r a|]. intros r1 r2 r3 H1 H2 a Ha. by apply H2, H1. Qed.

Lemma stricter_bind {A B} (m' m : eval A) (k' k : A -> eval B) :
  stricter m' m -> (forall a, stricter (k' a) (k a)) -> stricter (m' ≫= k') (m ≫= k).
Proof.
  intros Hm Hk b Hb. destruct m' as [a|e]; [|done]. rewrite (Hm a eq_refl). by apply Hk.
Qed.

Lemma stricter_fail_if c' c e : (c = true -> c' = true) -> stricter (fail_if c' e) (fail_if c e).
Proof. intros H [] Hr. destruct c', c; try done. by specialize (H eq_refl). Qed.

Lemma stricter_skip {A} (r : eval A) (a : A) : (forall b, r = Ok b -> b = a) -> stricter r (Ok a).
Proof. intros H b Hb. by rewrite (H b Hb). Qed.

Lemma stricter_unit (r : eval ()) : stricter r (Ok ()).
Proof. apply stricter_skip. by intros []. Qed.

Lemma stricter_err {A} f (r : eval A) : stricter (Err f) r.
Proof. done. Qed.

Lemma stricter_with_serror {A} e (r' r : eval A) :
  stricter r' r -> stricter (with_serror e r') (with_serror e r).
Proof.
  intros H a Ha. destruct r' as [b|[]]; simplify_eq/=. by rewrite (H a eq_refl).
Qed.

Create HintDb softfork discriminated.
#[export] Hint Resolve stricter_bind stricter_fail_if stricter_with_serror stricter_unit stricter_err : softfork.
#[export] Hint Extern 5 (stricter ?r ?r) => reflexivity : softfork.

Section SoftFork.
Context {secp : Secp256k1} {checker : BaseSignatureChecker}.
Context (B A : Z) (Hsub : forall f, has A f = true -> has B f = true).

(** Case analysis on the scrutinees the two runs share. *)
Ltac stricter_step :=
  match goal with
  | |- stricter ?r ?r => reflexivity
  | |- stricter (Err _) _ => apply stricter_err
  | |- stricter _ (Ok ()) => apply stricter_unit
  | |- stricter (set_error _) _ => apply stricter_err
  | |- stricter bad_stack _ => apply stricter_err
  | |- stricter (mbind _ _) (mbind _ _) => apply stricter_bind; [|intros ?]
  | |- stricter (fail_if _ _) (fail_if _ _) => apply stricter_fail_if; intros ?
  | |- stricter (if has B ?f then _ else _) (if has A ?f then _ else _) =>
      let E := fresh in destruct (has A f) eqn:E; [rewrite (Hsub f E)|destruct (has B f)]
  | |- stricter (if ?b then _ else _) (if ?b then _ else _) => destruct b
  | |- stricter (match ?x with _ => _ end) (match ?x with _ => _ end) => destruct x
  | |- (_ && _) = true => apply andb_true_intro; split
  | H : (_ && _) = true |- _ => apply andb_prop in H as [??]
  | H : has A ?f = true |- has B ?f = true => by apply Hsub
  | H : ?b = true |- ?b = true => exact H
  end.
Ltac stricter_tac := repeat stricter_step; eauto with softfork.

Lemma has_cases f (P : bool -> bool -> Prop) :
  P true true -> P true false -> P false false -> P (has B f) (has A f).
Proof. intros. pose proof (Hsub f). destruct (has A f); [by rewrite H2|]. by destruct (has B f). Qed.

Lemma stricter_encoding sig : stricter (CheckSignatureEncoding B sig) (CheckSignatureEncoding A sig).
Proof.
  unfold CheckSignatureEncoding. stricter_tac.
Qed.

Lemma stricter_pubkey v pk : stricter (CheckPubKeyEncoding B v pk) (CheckPubKeyEncoding A v pk).
Proof. unfold CheckPubKeyEncoding. stricter_tac. Qed.

Lemma stricter_drop_signature v code sig : stricter (drop_signature B v code sig) (drop_signature A v code sig).
Proof. unfold drop_signature. stricter_tac. Qed.

#[local] Hint Resolve stricter_encoding stricter_pubkey stricter_drop_signature : softfork.

Lemma stricter_checksig v sig pk code d : stricter (EvalChecksig B v sig pk code d) (EvalChecksig A v sig pk code d).
Proof.
  unfold EvalChecksig, EvalChecksigPreTapscript, EvalChecksigTapscript. destruct v; stricter_tac.
Qed.

Lemma stricter_num vch n : stricter (script_num B vch n) (script_num A vch n).
Proof.
  unfold script_num, fRequireMinimal.
  apply (has_cases SCRIPT_VERIFY_MINIMALDATA (fun b a => stricter (catching (CScriptNum_new vch b n)) (catching (CScriptNum_new vch a n))));
    [done| |done].
  unfold CScriptNum_new. intros v. destruct (n <? zlen vch); [done|]. simpl andb. by destruct (_ && _).
Qed.

#[local] Hint Resolve stricter_checksig stricter_num : softfork.

Lemma stricter_num4 vch : stricter (script_num4 B vch) (script_num4 A vch).
Proof. apply stricter_num. Qed.

#[local] Hint Resolve stricter_num4 : softfork.

Lemma stricter_locktime st : stricter (exec_locktime B st) (exec_locktime A st).
Proof.
  unfold exec_locktime. pose proof (Hsub SCRIPT_VERIFY_CHECKLOCKTIMEVERIFY) as H.
  destruct (has A _); [|by apply stricter_unit]. rewrite H by done. stricter_tac.
Qed.

Lemma stricter_sequence st : stricter (exec_sequence B st) (exec_sequence A st).
Proof.
  unfold exec_sequence. pose proof (Hsub SCRIPT_VERIFY_CHECKSEQUENCEVERIFY) as H.
  destruct (has A _); [|by apply stricter_unit]. rewrite H by done. stricter_tac.
Qed.

Lemma stricter_stack_op o st alt : stricter (exec_stack_op B o st alt) (exec_stack_op A o st alt).
Proof. destruct o; simpl exec_stack_op; stricter_tac. Qed.

Lemma stricter_if v o st : stricter (exec_if B v o st) (exec_if A v o st).
Proof. unfold exec_if. stricter_tac. Qed.

Lemma stricter_compute o st : stricter (exec_compute B o st) (exec_compute A o st).
Proof. destruct o; unfold exec_compute; stricter_tac. Qed.

Lemma stricter_drop_signatures v code sigs : stricter (drop_signatures B v code sigs) (drop_signatures A v code sigs).
Proof. revert code. induction sigs; intros code; simpl; stricter_tac. Qed.

Lemma stricter_multisig_loop v code keys sigs :
  stricter (multisig_loop B v code keys sigs) (multisig_loop A v code keys sigs).
Proof. revert sigs. induction keys; intros [|sig sigs]; simpl; stricter_tac. Qed.

Lemma stricter_cleanup ok n ikey2 st : stricter (multisig_cleanup B ok n ikey2 st) (multisig_cleanup A ok n ikey2 st).
Proof. revert ikey2 st. induction n; intros ikey2 [|top st]; simpl; stricter_tac. Qed.

#[local] Hint Resolve stricter_locktime stricter_sequence stricter_stack_op stricter_if stricter_compute
  stricter_drop_signatures stricter_multisig_loop stricter_cleanup : softfork.

Lemma stricter_checkmultisig v o code n st :
  stricter (exec_checkmultisig B v o code n st) (exec_checkmultisig A v o code n st).
Proof. unfold exec_checkmultisig. stricter_tac. Qed.

#[local] Hint Resolve stricter_checkmultisig : softfork.

Lemma stricter_opcode v o pc pos m : stricter (exec_opcode B v o pc pos m) (exec_opcode A v o pc pos m).
Proof.
  destruct o; simpl exec_opcode; unfold exec_checksig, exec_checksigadd; stricter_tac.
Qed.

#[local] Hint Resolve stricter_opcode : softfork.

Lemma stricter_switch {C} `{Conditions C} v opcode pc pos fExec m c :
  stricter (exec_switch B v opcode pc pos fExec m c) (exec_switch A v opcode pc pos fExec m c).
Proof. unfold exec_switch. stricter_tac. Qed.

#[local] Hint Resolve stricter_switch : softfork.

Lemma stricter_instruction {C} `{Conditions C} v opcode data pc pos m c :
  stricter (exec_instruction B v opcode data pc pos m c) (exec_instruction A v opcode data pc pos m c).
Proof.
  unfold exec_instruction, fRequireMinimal.
  destruct (has A SCRIPT_VERIFY_MINIMALDATA) eqn:E; [rewrite (Hsub _ E); stricter_tac|].
  destruct (has B SCRIPT_VERIFY_MINIMALDATA); [|stricter_tac].
  destruct (cond_all_true c && _ && _); [|stricter_tac].
  destruct (CheckMinimalPush data opcode) as [[]|]; done.
Qed.

#[local] Hint Resolve stricter_instruction : softfork.

Lemma stricter_loop {C} `{Conditions C} v fuel pc pos m c :
  stricter (EvalScript_loop B v fuel pc pos m c) (EvalScript_loop A v fuel pc pos m c).
Proof.
  revert pc pos m c. induction fuel; intros [|b pc] pos m c; cbn [EvalScript_loop]; stricter_tac.
Qed.

#[local] Hint Resolve stricter_loop : softfork.

Lemma stricter_EvalScript v st script d : stricter (EvalScript B v st script d) (EvalScript A v st script d).
Proof. unfold EvalScript, EvalScript_with. stricter_tac. Qed.

#[local] Hint Resolve stricter_EvalScript : softfork.

(** ** Witness programs *)

Lemma stricter_scan fuel pc : stricter (success_scan B fuel pc) (success_scan A fuel pc).
Proof. revert pc. induction fuel; intros [|b pc]; cbn [success_scan]; stricter_tac. Qed.

#[local] Hint Resolve stricter_scan : softfork.

Lemma stricter_execute st script v d :
  stricter (ExecuteWitnessScript B st script v d) (ExecuteWitnessScript A st script v d).
Proof. unfold ExecuteWitnessScript. stricter_tac. Qed.

#[local] Hint Resolve stricter_execute : softfork.

Lemma stricter_script_path w p c s st d :
  stricter (VerifyTaprootScriptPath B w p c s st d) (VerifyTaprootScriptPath A w p c s st d).
Proof. unfold VerifyTaprootScriptPath. stricter_tac. Qed.

#[local] Hint Resolve stricter_script_path : softfork.

Lemma stricter_taproot w p st : stricter (VerifyTaproot B w p st) (VerifyTaproot A w p st).
Proof.
  unfold VerifyTaproot. pose proof (Hsub SCRIPT_VERIFY_TAPROOT) as H.
  destruct (has A _); [|by apply stricter_unit]. rewrite H by done. stricter_tac.
Qed.

#[local] Hint Resolve stricter_taproot : softfork.

Lemma stricter_program w ver p is_p2sh :
  stricter (VerifyWitnessProgram B w ver p is_p2sh) (VerifyWitnessProgram A w ver p is_p2sh).
Proof. unfold VerifyWitnessProgram. stricter_tac. Qed.

#[local] Hint Resolve stricter_program : softfork.

Lemma stricter_eval_base st script : stricter (eval_base B st script) (eval_base A st script).
Proof. unfold eval_base. stricter_tac. Qed.

#[local] Hint Resolve stricter_eval_base : softfork.

(** ** [VerifyScript] *)

(** With the witness rules in both sets of flags, the two runs go the same way. *)
Lemma stricter_verify_program w script mal e p2sh had st :
  has A SCRIPT_VERIFY_WITNESS = true ->
  stricter (verify_program B w script mal e p2sh had st) (verify_program A w script mal e p2sh had st).
Proof. intros HA. unfold verify_program. rewrite HA, (Hsub _ HA). stricter_tac. Qed.

Lemma stricter_p2sh sig w had stc :
  has A SCRIPT_VERIFY_WITNESS = true -> stricter (verify_p2sh B sig w had stc) (verify_p2sh A sig w had stc).
Proof. intros HA. unfold verify_p2sh. stricter_tac. by apply stricter_verify_program. Qed.

(** Without them in [A], a P2SH script that passes under [B] passes under [A]. *)
Lemma p2sh_without_witness sig w had had' stc r :
  has A SCRIPT_VERIFY_WITNESS = false -> verify_p2sh B sig w had stc = Ok r ->
  exists r', verify_p2sh A sig w had' stc = Ok r'.
Proof.
  intros HA. unfold verify_p2sh. intros (u & Hu & H)%result_bind_inv. rewrite Hu. cbn [mbind result_bind].
  destruct stc as [|pk2 st]; [done|]. apply result_bind_inv in H as (st' & Hst & (v & Hv & _)%result_bind_inv).
  rewrite (stricter_eval_base _ _ _ Hst). cbn [mbind result_bind]. rewrite Hv. cbn [mbind result_bind].
  unfold verify_program. rewrite HA. by eexists.
Qed.

Lemma VerifyScript_stricter sig pk w :
  flags_ok A = true -> stricter (VerifyScript B sig pk w) (VerifyScript A sig pk w).
Proof.
  unfold flags_ok, VerifyScript. intros [Hc Hw]%andb_prop.
  apply stricter_bind; [stricter_tac|]. intros _. apply stricter_bind; [stricter_tac|]. intros stc.
  apply stricter_bind; [stricter_tac|]. intros st. apply stricter_bind; [reflexivity|]. intros _.
  destruct (has A SCRIPT_VERIFY_WITNESS) eqn:EW; simpl in Hw.
  - rewrite (Hsub _ EW), Hw, (Hsub _ Hw). apply stricter_bind; [by apply stricter_verify_program|]. intros [had st'].
    apply stricter_bind; [destruct (IsPayToScriptHash pk); [by apply stricter_p2sh|reflexivity]|]. intros [had' st''].
    stricter_tac.
  - destruct (has A SCRIPT_VERIFY_CLEANSTACK); [by rewrite andb_false_r in Hc|].
    intros []. intros ([had st'] & _ & H)%result_bind_inv.
    unfold verify_program. rewrite EW. cbn [mbind result_bind].
    apply result_bind_inv in H as (r & Hr & _). destruct (has A SCRIPT_VERIFY_P2SH) eqn:EP; [|done].
    rewrite (Hsub _ EP) in Hr. destruct (IsPayToScriptHash pk); [|done].
    cbn [andb] in *. by destruct (p2sh_without_witness _ _ _ false _ _ EW Hr) as [[??] ->].
Qed.

End SoftFork.

Lemma has_lor A B f : has A f = true -> has (Z.lor A B) f = true.
Proof.
  unfold has. rewrite !negb_true_iff, !Z.eqb_neq. intros H. rewrite Z.land_lor_distr_l, Z.lor_eq_0_iff. tauto.
Qed.

(** C3: verification flags are soft forks, as their declaration intends: whatever
    the transaction (the signature checker) and the curve library answer, a spend
    that [VerifyScript] accepts under the flags [A | B] it also accepts under [A],
    provided [A] is a combination the code allows (CLEANSTACK only with P2SH and
    WITNESS, WITNESS only with P2SH); and every script that [EvalScript] runs to
    the end under [A | B] it runs to the end under [A] with the same stack. *)
Theorem flags_are_soft_forks `{Secp256k1} `{BaseSignatureChecker} (A B : Z) :
  (forall scriptSig scriptPubKey witness,
     flags_ok A = true ->
     VerifyScript (Z.lor A B) scriptSig scriptPubKey witness = Ok () ->
     VerifyScript A scriptSig scriptPubKey witness = Ok ()) /\
  (forall sigversion st script d r,
     EvalScript (Z.lor A B) sigversion st script d = Ok r -> EvalScript A sigversion st script d = Ok r).
Proof.
  split.
  - intros sig pk w Hok. apply VerifyScript_stricter; [|done]. intros f. apply has_lor.
  - intros v st script d r. apply stricter_EvalScript. intros f. apply has_lor.
Qed.

Lemma flags_are_soft_forks_witness :
  flags_ok SCRIPT_VERIFY_P2SH = true /\
  @VerifyScript accepting_secp BaseSignatureChecker_default (Z.lor SCRIPT_VERIFY_P2SH SCRIPT_VERIFY_MINIMALDATA)
    [1; 17] [op OP_DUP; op OP_SIZE] [] = Ok () /\
  @VerifyScript accepting_secp BaseSignatureChecker_default SCRIPT_VERIFY_P2SH [1; 17] [op OP_DUP; op OP_SIZE] [] = Ok ().
Proof.
  split; [reflexivity|]. split; [vm_compute; reflexivity|].
  apply (proj1 (@flags_are_soft_forks accepting_secp BaseSignatureChecker_default SCRIPT_VERIFY_P2SH SCRIPT_VERIFY_MINIMALDATA));
    [reflexivity|vm_compute; reflexivity].
Defined.
