(* ===== verification/Conditions.v ===== *)
(** The condition stack of [EvalScript] (src/bitcoin/src/script/interpreter.cpp):
    the two integers [ConditionStack] keeps are as good as the vector of booleans
    it stands for. *)

From S2P Require Import Prelude Serialize Transaction Script PubKey Interpreter.

(** * The reference: a list of booleans, innermost condition first *)

Definition bools_pop (s : list bool) : eval (list bool) :=
  match s with [] => Err (Abort "m_stack_size > 0") | _ :: s => Ok s end.

Definition bools_toggle (s : list bool) : eval (list bool) :=
  match s with [] => Err (Abort "m_stack_size > 0") | b :: s => Ok (negb b :: s) end.

#[export] Instance bools_ops : Conditions (list bool) := {|
  cond_new := [];
  cond_empty := fun s => match s with [] => true | _ => false end;
  cond_all_true := fun s => forallb (fun b => b) s;
  cond_push_back := cons;
  cond_pop_back := bools_pop;
  cond_toggle_top := bools_toggle
|}.

(** * The representation *)

(** The position of the outermost false, counted from the bottom. *)
Fixpoint first_false (s : list bool) : Z :=
  match s with
  | [] => NO_FALSE
  | b :: s => if first_false s =? NO_FALSE then if b then NO_FALSE else zlen s else first_false s
  end.

Record represents (c : ConditionStack) (s : list bool) : Prop := {
  rep_size : m_stack_size c = zlen s;
  rep_small : zlen s < NO_FALSE;
  rep_pos : m_first_false_pos c = first_false s
}.

Lemma first_false_range s : first_false s = NO_FALSE \/ 0 <= first_false s < zlen s.
Proof.
  induction s as [|b s IH]; [by left|]. unfold zlen in *. simpl first_false. simpl length.
  destruct (Z.eqb_spec (first_false s) NO_FALSE); [|right; lia]. destruct b; [by left|right; unfold zlen; lia].
Qed.

Lemma first_false_all s : zlen s < NO_FALSE -> (first_false s =? NO_FALSE) = forallb (fun b => b) s.
Proof.
  intros Hs. induction s as [|b s IH]; [done|]. assert (zlen s < NO_FALSE) as Hs' by (unfold zlen in *; simpl in Hs; lia).
  simpl. rewrite <- (IH Hs'). destruct (Z.eqb_spec (first_false s) NO_FALSE) as [E|E].
  - destruct b; [done|]. simpl. apply Z.eqb_neq. lia.
  - rewrite andb_false_r. by apply Z.eqb_neq.
Qed.

Lemma represents_new : represents cond_new (cond_new : list bool).
Proof. by split. Qed.

Lemma represents_push c s f :
  represents c s -> zlen s + 1 < NO_FALSE -> represents (cond_push_back f c) (cond_push_back f s).
Proof.
  intros [H1 H2 H3] Hs. assert (zlen (f :: s) = zlen s + 1) as E by (unfold zlen; simpl; lia).
  split; cbn -[Z.eqb first_false zlen].
  - rewrite H1, E. apply wrap_small. unfold is_uint, NO_FALSE in *. unfold zlen in *. lia.
  - lia.
  - simpl first_false. rewrite H1, H3. destruct (Z.eqb_spec (first_false s) NO_FALSE) as [E'|]; [|done].
    by destruct f.
Qed.

(** Two results that are both errors, the same one, or related values. *)
Definition both {X Y} (R : X -> Y -> Prop) (r : eval X) (r' : eval Y) : Prop :=
  match r, r' with
  | Ok x, Ok y => R x y
  | Err e, Err e' => e = e'
  | _, _ => False
  end.

Lemma both_bind {X Y X' Y'} (R : X -> Y -> Prop) (R' : X' -> Y' -> Prop) m m' k k' :
  both R m m' -> (forall x y, R x y -> both R' (k x) (k' y)) -> both R' (m ≫= k) (m' ≫= k').
Proof. intros H Hk. destruct m, m'; simpl in *; auto; done. Qed.

Lemma both_refl {X} (R : X -> X -> Prop) (r : eval X) : (forall x, R x x) -> both R r r.
Proof. destruct r; simpl; auto. Qed.

Lemma represents_pop c s : represents c s -> 
  both (fun c' s' => represents c' s' /\ zlen s' <= zlen s) (cond_pop_back c) (cond_pop_back s).
Proof.
  intros [H1 H2 H3]. cbn. unfold ConditionStack_pop_back. rewrite H1. destruct s as [|b s]; [done|].
  assert (zlen (b :: s) = zlen s + 1) as E by (unfold zlen; simpl; lia). pose proof (first_false_range s).
  rewrite E in *. assert (0 <= zlen s) by (unfold zlen; lia).
  rewrite (proj2 (Z.ltb_lt 0 _)) by lia. cbn -[Z.eqb first_false zlen].
  split; [|lia]. split; cbn -[Z.eqb first_false zlen]; [lia|lia|].
  rewrite H3. replace (zlen s + 1 - 1) with (zlen s) by lia. simpl first_false.
  destruct (Z.eqb_spec (first_false s) NO_FALSE) as [E'|].
  - rewrite E'. destruct b; bool_cases; lia.
  - bool_cases; lia.
Qed.

Lemma represents_toggle c s : represents c s -> 
  both (fun c' s' => represents c' s' /\ zlen s' <= zlen s) (cond_toggle_top c) (cond_toggle_top s).
Proof.
  intros [H1 H2 H3]. cbn. unfold ConditionStack_toggle_top. rewrite H1, H3. destruct s as [|b s]; [done|].
  assert (forall x : bool, zlen (x :: s) = zlen s + 1) as E by (intros; unfold zlen; simpl; lia).
  pose proof (first_false_range s). rewrite E in *. assert (0 <= zlen s) by (unfold zlen; lia).
  rewrite (proj2 (Z.ltb_lt 0 _)) by lia. cbn -[Z.eqb zlen].
  replace (zlen s + 1 - 1) with (zlen s) by lia.
  destruct (Z.eqb_spec (first_false s) NO_FALSE) as [E'|E'].
  - destruct b; bool_cases; try lia; (split; [split|]; rewrite ?E; cbn -[zlen Z.eqb]; rewrite ?E'; simpl; lia).
  - bool_cases; try lia; (split; [split|]; rewrite ?H1, ?H3, ?E; cbn -[zlen Z.eqb]; rewrite ?(proj2 (Z.eqb_neq _ _) E'); lia).
Qed.

Lemma represents_empty c s : represents c s -> cond_empty c = cond_empty s.
Proof. intros [H1 _ _]. simpl. rewrite H1. by destruct s. Qed.

Lemma represents_all_true c s : represents c s -> cond_all_true c = cond_all_true s.
Proof. intros [_ H2 H3]. simpl. rewrite H3. by apply first_false_all. Qed.

(** * Evaluation *)

Section Evaluation.
Context {secp : Secp256k1} {checker : BaseSignatureChecker}.
Context (flags : Z) (v : SigVersion).

Definition same_machine : machine * ConditionStack -> machine * list bool -> Prop :=
  fun p q => p.1 = q.1 /\ represents p.2 q.2.

Lemma switch_both opcode pc pos fExec m c s :
  represents c s -> zlen s + 1 < NO_FALSE ->
  both (fun p q => same_machine p q /\ zlen q.2 <= zlen s + 1)
    (exec_switch flags v opcode pc pos fExec m c) (exec_switch flags v opcode pc pos fExec m s).
Proof.
  intros Hr Hs.
  assert (forall f, both (fun p q => same_machine p q /\ zlen q.2 <= zlen s + 1)
            (Ok (m, cond_push_back f c)) (Ok (m, cond_push_back f s))) as Hpush.
  { intros f. split; [split; [done|by apply represents_push]|]. unfold zlen. simpl. lia. }
  assert (forall r : eval machine, both (fun p q => same_machine p q /\ zlen q.2 <= zlen s + 1)
            (m' ← r; Ok (m', c)) (m' ← r; Ok (m', s))) as Hother.
  { intros [m'|e]; simpl; [|done]. split; [done|lia]. }
  unfold exec_switch. rewrite (represents_empty c s Hr).
  destruct (opcode_name opcode) as [[]|]; first [apply Hother | done | idtac].
  1, 2: destruct fExec; [|apply Hpush]; destruct (exec_if _ _ _ _) as [[f st]|]; [|done];
    split; [split; [done|by apply represents_push]|unfold zlen; simpl; lia].
  all: destruct (cond_empty s); [done|]; cbn [fail_if mbind result_bind];
    eapply both_bind; [by apply represents_toggle || by apply represents_pop|];
    intros c' s' [Hr' Hl]; split; [done|cbn [snd]; lia].
Qed.

Lemma instruction_both opcode data pc pos m c s :
  represents c s -> zlen s + 1 < NO_FALSE ->
  both (fun p q => same_machine p q /\ zlen q.2 <= zlen s + 1)
    (exec_instruction flags v opcode data pc pos m c) (exec_instruction flags v opcode data pc pos m s).
Proof.
  intros Hr Hs. unfold exec_instruction. rewrite (represents_all_true c s Hr).
  destruct (_ && _ && _).
  - apply (both_bind (fun x y => x = y)); [by apply both_refl|]. intros b _ <-.
    destruct b; [|done]. split; [done|cbn [snd]; lia].
  - destruct (_ || _); [by apply switch_both|]. split; [done|cbn [snd]; lia].
Qed.

Lemma loop_both fuel pc pos m c s :
  represents c s -> zlen s + zlen pc < NO_FALSE ->
  EvalScript_loop flags v fuel pc pos m c = EvalScript_loop flags v fuel pc pos m s.
Proof.
  revert pc pos m c s. induction fuel as [|fuel IH]; intros [|b pc] pos m c s Hr Hlen; cbn [EvalScript_loop];
    [by rewrite (represents_empty c s Hr)|done|by rewrite (represents_empty c s Hr)|].
  destruct (GetScriptOp (b :: pc)) as [[[ok opcode] data] pc'] eqn:E. destruct ok; [|done].
  apply GetScriptOp_shrinks in E. cbn [negb fail_if mbind result_bind].
  assert (1 <= zlen (b :: pc)) by (unfold zlen; simpl; lia).
  assert (zlen pc' + 1 <= zlen (b :: pc)) by (unfold zlen; simpl in *; lia).
  destruct (fail_if _ SCRIPT_ERR_PUSH_SIZE) as [[]|]; [|done]. cbn [mbind result_bind].
  destruct (count_opcode v opcode m) as [m'|]; [|done]. cbn [mbind result_bind].
  destruct (fail_if _ SCRIPT_ERR_DISABLED_OPCODE) as [[]|]; [|done]. cbn [mbind result_bind].
  destruct (fail_if _ SCRIPT_ERR_OP_CODESEPARATOR) as [[]|]; [|done]. cbn [mbind result_bind].
  pose proof (instruction_both opcode data pc' pos m' c s Hr ltac:(lia)) as Hi.
  destruct (exec_instruction flags v opcode data pc' pos m' c) as [[m1 c1]|e1],
    (exec_instruction flags v opcode data pc' pos m' s) as [[m2 s2]|e2]; simpl in Hi; try done; [|by subst].
  destruct Hi as [[Hm Hr'] Hl]. simpl in Hm, Hr', Hl. subst m2. cbn [mbind result_bind].
  destruct (fail_if _ SCRIPT_ERR_STACK_SIZE) as [[]|]; [|done]. cbn [mbind result_bind].
  apply IH; [done|lia].
Qed.

End Evaluation.

(** C30: [ConditionStack] refines the vector of booleans it stands for: for every
    script that is not absurdly long (below 2^32 - 1 bytes), under all flags and
    signature versions, [EvalScript] with the two integers of [ConditionStack]
    gives the same stack, the same error or the same assertion as the same
    evaluation with an explicit stack of one boolean for each level of
    IF/THEN/ELSE. *)
Theorem ConditionStack_refines `{Secp256k1} `{BaseSignatureChecker} flags v st script d :
  zlen script < NO_FALSE ->
  EvalScript flags v st script d = EvalScript_with (C := list bool) flags v st script d.
Proof.
  intros Hs. unfold EvalScript, EvalScript_with. rewrite (loop_both flags v _ _ _ _ cond_new cond_new); [done| |done].
  apply represents_new.
Qed.

Lemma ConditionStack_refines_witness :
  @EvalScript accepting_secp BaseSignatureChecker_default 0 BASE [] [op OP_0; op OP_IF; op OP_1; op OP_ELSE; op OP_2; op OP_ENDIF] ExecData_default
  = @EvalScript_with accepting_secp BaseSignatureChecker_default 0 BASE (list bool) _ [] [op OP_0; op OP_IF; op OP_1; op OP_ELSE; op OP_2; op OP_ENDIF] ExecData_default.
Proof. apply ConditionStack_refines. vm_compute. reflexivity. Defined.
