(* ===== verification/EvalSafety.v ===== *)
(** Safety of the interpreter (src/bitcoin/src/script/interpreter.cpp): no
    assertion of [EvalScript] or [VerifyScript] can fail, the evaluation
    terminates, and the resource limits hold. *)

From S2P Require Import Prelude Serialize MerkleDamgard Sha2 Sha1Ripemd Hash Transaction Script PubKey Interpreter.

(** * Results that are not assertion failures *)

(** [safe P r]: [r] is an error of the script, or a result that satisfies [P]. *)
Definition safe {A} (P : A -> Prop) (r : eval A) : Prop :=
  match r with
  | Ok a => P a
  | Err (Abort _) => False
  | Err _ => True
  end.

Lemma safe_bind {A B} (P : A -> Prop) (Q : B -> Prop) (m : eval A) (k : A -> eval B) :
  safe P m -> (forall a, P a -> safe Q (k a)) -> safe Q (m ≫= k).
Proof. destruct m as [a|[]]; simpl; auto. Qed.

Lemma safe_weaken {A} (P Q : A -> Prop) (r : eval A) : safe P r -> (forall a, P a -> Q a) -> safe Q r.
Proof. destruct r as [a|[]]; simpl; auto. Qed.

Lemma safe_fail_if c e : safe (fun _ => c = false) (fail_if c e).
Proof. by destruct c. Qed.

Lemma safe_error {A} (P : A -> Prop) e : safe P (set_error e).
Proof. done. Qed.

Lemma with_serror_safe {A} (P : A -> Prop) e r : safe P r -> safe P (with_serror e r) /\ with_serror e r <> Err Unset.
Proof. by destruct r as [a|[]]. Qed.

(** * Values *)

(** What the stack holds: byte strings of at most 520 bytes. *)
Definition value_ok (v : bytes) : Prop := wf_bytes v /\ zlen v <= MAX_SCRIPT_ELEMENT_SIZE.

Abbreviation values_ok := (Forall value_ok).

Lemma value_bool b : value_ok (vchBool b).
Proof. destruct b; split; by_decide. Qed.

Lemma value_number v : Z.abs v < 2 ^ 63 -> value_ok (CScriptNum_serialize v).
Proof.
  intros H. destruct (serialize_bound 8 v) as [H1 H2]; [lia|done|]. split; [done|].
  unfold zlen, MAX_SCRIPT_ELEMENT_SIZE. lia.
Qed.

Lemma hash_op_spec vch :
  hash_op OP_RIPEMD160 vch = ripemd160_hash vch /\ hash_op OP_SHA1 vch = sha1_hash vch
  /\ hash_op OP_SHA256 vch = sha256_hash vch /\ hash_op OP_HASH160 vch = ripemd160_hash (sha256_hash vch)
  /\ hash_op OP_HASH256 vch = sha256_hash (sha256_hash vch).
Proof.
  split; [apply (@finalize_write_new ripemd160_ops _)|]. split; [apply (@finalize_write_new sha1_ops _)|].
  split; [apply (@finalize_write_new sha256_ops _)|]. rewrite <- Hash160_spec, <- Hash_spec.
  unfold Hash160, Hash. split; reflexivity.
Qed.

Lemma value_hash o vch : value_ok (hash_op o vch).
Proof.
  assert (forall h : bytes, wf_bytes h -> (length h <= 32)%nat -> value_ok h) as Hok.
  { intros h H1 H2. split; [done|]. unfold zlen, MAX_SCRIPT_ELEMENT_SIZE. lia. }
  assert (value_ok (replicate 32 0)) as Hd by (apply Hok; [by_decide|done]).
  destruct (hash_op_spec vch) as (E1 & E2 & E3 & E4 & E5).
  pose proof (length_ripemd160_hash vch). pose proof (length_ripemd160_hash (sha256_hash vch)).
  pose proof (length_sha1_hash vch). pose proof (length_sha256_hash vch). pose proof (length_sha256_hash (sha256_hash vch)).
  destruct o; rewrite ?E1, ?E2, ?E3, ?E4, ?E5; try exact Hd;
    (apply Hok; [apply ripemd160_hash_wf || apply sha1_hash_wf || apply sha256_hash_wf|lia]).
Qed.

(** * What the evaluation needs of the signature checker *)

(** The execution data a version reads is initialized. *)
Definition ready (v : SigVersion) (d : ScriptExecutionData) : bool :=
  match v with
  | BASE | WITNESS_V0 => true
  | TAPROOT => m_annex_init d
  | TAPSCRIPT =>
      m_annex_init d && m_tapleaf_hash_init d && m_codeseparator_pos_init d && m_validation_weight_left_init d
  end.

(** The checker answers for every signature the interpreter passes to it. *)
Class CheckerSafe (checker : BaseSignatureChecker) : Prop := {
  ecdsa_safe sig pk code v : pre_tapscript v = true -> is_ok (CheckECDSASignature sig pk code v) = true;
  schnorr_safe sig pk v d :
    v = TAPROOT \/ v = TAPSCRIPT -> zlen pk = 32 -> ready v d = true ->
    safe (fun d' => ready v d' = true) (CheckSchnorrSignature sig pk v d)
}.

Record machine_ok (v : SigVersion) (m : machine) : Prop := {
  mok_stack : values_ok (stack m);
  mok_altstack : values_ok (altstack m);
  mok_ops : 0 <= nOpCount m <= MAX_OPS_PER_SCRIPT;
  mok_ready : ready v (execdata m) = true
}.

Create HintDb safety discriminated.
#[export] Hint Resolve safe_error value_bool value_hash : safety.

Section Safety.
Context {secp : Secp256k1} {checker : BaseSignatureChecker} {Hsafe : CheckerSafe checker}.
Context (flags : Z) (v : SigVersion).

Lemma num_safe vch n :
  value_ok vch -> 0 < n <= 8 -> safe (fun x => Z.abs x < 2 ^ (8 * n - 1)) (script_num flags vch n).
Proof.
  intros [Hwf _] Hn. unfold script_num, catching. destruct (CScriptNum_new _ _ _) eqn:E; [|done].
  by eapply CScriptNum_new_bound.
Qed.

Lemma num4_safe vch : value_ok vch -> safe (fun x => Z.abs x < 2 ^ 31) (script_num4 flags vch).
Proof. intros H. by apply (num_safe vch 4). Qed.

(** Run a monadic expression one statement at a time. *)
Ltac safe_step :=
  match goal with
  | |- safe _ (mbind _ (fail_if _ _)) => eapply safe_bind; [apply safe_fail_if|let H := fresh in intros [] H; cbv beta in H]
  | |- safe _ (mbind _ (script_num4 _ _)) => eapply safe_bind; [by apply num4_safe|intros ? ?]
  | |- safe _ (Ok _) => cbn [safe fst snd]
  | |- safe _ (set_error _) => exact I
  | |- safe _ bad_stack => exact I
  | |- safe _ throw => exact I
  | |- safe _ (if ?b then _ else _) => destruct b eqn:?
  | |- safe _ (match ?x with _ => _ end) => destruct x eqn:?; simplify_eq
  | H : values_ok (_ :: _) |- _ => inversion H; clear H; subst
  end.

Lemma stack_op_safe o st alt :
  values_ok st -> values_ok alt -> zlen st <= 2 ^ 32 ->
  safe (fun p => values_ok p.1 /\ values_ok p.2) (exec_stack_op flags o st alt).
Proof.
  intros Hst Halt Hlen.
  assert (forall x, value_ok x -> value_ok (CScriptNum_serialize (zlen x))) as Hsize.
  { intros x [_ Hx]. pose proof (zlen_nonneg x). apply value_number. unfold MAX_SCRIPT_ELEMENT_SIZE in *. lia. }
  assert (value_ok (CScriptNum_serialize (zlen st))) by (pose proof (zlen_nonneg st); apply value_number; lia).
  destruct o; cbn [exec_stack_op]; repeat safe_step; try (split; repeat apply Forall_cons_2; by auto with safety).
  - destruct (CastToBool l); simpl; split; repeat apply Forall_cons_2; by auto.
  - assert (values_ok (l1 :: l2)) as Hl by (by apply Forall_cons_2).
    split; [apply Forall_cons_2; [by eapply Forall_lookup_1|done]|done].
  - assert (values_ok (l1 :: l2)) as Hl by (by apply Forall_cons_2).
    split; [apply Forall_cons_2; [by eapply Forall_lookup_1|by apply Forall_delete]|done].
Qed.

Lemma unary_safe o bn :
  Z.abs bn < 2 ^ 31 ->
  match o with OP_1ADD | OP_1SUB | OP_NEGATE | OP_ABS | OP_NOT | OP_0NOTEQUAL => True | _ => False end ->
  safe (fun x => Z.abs x < 2 ^ 63) (unary_num o bn).
Proof.
  intros Hbn Ho. destruct o; try done; unfold unary_num, CScriptNum_neg, CScriptNum_add_assign, CScriptNum_sub_assign;
    bool_cases; simpl; lia.
Qed.

Lemma binary_safe o bn1 bn2 :
  Z.abs bn1 < 2 ^ 31 -> Z.abs bn2 < 2 ^ 31 ->
  match o with
  | OP_ADD | OP_SUB | OP_BOOLAND | OP_BOOLOR | OP_NUMEQUAL | OP_NUMEQUALVERIFY | OP_NUMNOTEQUAL | OP_LESSTHAN
  | OP_GREATERTHAN | OP_LESSTHANOREQUAL | OP_GREATERTHANOREQUAL | OP_MIN | OP_MAX => True
  | _ => False
  end ->
  safe (fun x => Z.abs x < 2 ^ 63) (binary_num o bn1 bn2).
Proof.
  intros H1 H2 Ho.
  assert (forall b, Z.abs (Z.b2z b) < 2 ^ 63) as Hb by (intros []; simpl; lia).
  destruct o; try done; cbn [binary_num safe]; try apply Hb; try (destruct (_ <? _)); lia.
Qed.

Lemma compute_safe o st : values_ok st -> safe values_ok (exec_compute flags o st).
Proof.
  intros Hst.
  destruct o; cbn [exec_compute]; repeat safe_step; try (repeat apply Forall_cons_2; by auto with safety).
  all: eapply safe_bind; [by apply unary_safe || by apply binary_safe|]; intros x Hx; cbv beta in Hx; repeat safe_step;
    first [done | apply Forall_cons_2; [by apply value_number|done]].
Qed.

(** ** Signatures *)

Lemma encoding_safe sig : safe (fun _ => True) (CheckSignatureEncoding flags sig).
Proof. unfold CheckSignatureEncoding, IsLowDERSignature, fail_if. repeat (case_match; try done). Qed.

Lemma pubkey_safe pk : safe (fun _ => True) (CheckPubKeyEncoding flags v pk).
Proof. unfold CheckPubKeyEncoding, fail_if. repeat (case_match; try done). Qed.

Lemma drop_signature_safe code sig : safe (fun _ => True) (drop_signature flags v code sig).
Proof. unfold drop_signature, fail_if. repeat (case_match; try done). Qed.

Lemma ecdsa_true sig pk code : pre_tapscript v = true -> safe (fun _ => True) (CheckECDSASignature sig pk code v).
Proof. intros Hv. pose proof (ecdsa_safe sig pk code v Hv). by destruct (CheckECDSASignature sig pk code v). Qed.

Lemma ready_weight w d : ready v d = true -> ready v (set_weight_left w d) = true.
Proof. destruct v; simpl; intros H; bool_props; rewrite ?andb_true_iff; auto. Qed.

Lemma ready_codesep pos d : ready v d = true -> ready v (set_codeseparator pos d) = true.
Proof. destruct v; simpl; intros H; bool_props; rewrite ?andb_true_iff; auto. Qed.

Lemma checksig_safe sig pk code d :
  v <> TAPROOT -> ready v d = true -> safe (fun p => ready v p.2 = true) (EvalChecksig flags v sig pk code d).
Proof.
  intros Hv Hd. unfold EvalChecksig.
  assert (pre_tapscript v = true -> safe (fun p => ready v p.2 = true)
            (success ← EvalChecksigPreTapscript flags v sig pk code; Ok (success, d))) as Hpre.
  { intros Hp. eapply (safe_bind (fun _ => True)); [|done]. unfold EvalChecksigPreTapscript. rewrite Hp.
    cbn [script_assert mbind result_bind]. eapply safe_bind; [apply drop_signature_safe|]. intros code' _.
    eapply safe_bind; [apply encoding_safe|]. intros _ _. eapply safe_bind; [apply pubkey_safe|]. intros _ _.
    eapply safe_bind; [by apply ecdsa_true|]. intros b _. by repeat safe_step. }
  destruct v eqn:Ev; [by apply Hpre..|done|]. unfold EvalChecksigTapscript. cbn [is_version script_assert mbind result_bind].
  eapply (safe_bind (fun d' => ready TAPSCRIPT d' = true)).
  { destruct (negb _); [|done]. assert (m_validation_weight_left_init d = true) as -> by (simpl in Hd; by bool_props).
    cbn [script_assert mbind result_bind]. repeat safe_step. rewrite <- Ev in *. by apply ready_weight. }
  intros d' Hd'. repeat safe_step; try done. eapply (safe_bind (fun d' => ready TAPSCRIPT d' = true)); [|done].
  destruct (negb _); [|done]. apply schnorr_safe; [by right| |done]. by apply Z.eqb_eq.
Qed.

Lemma drop_signatures_safe code sigs : safe (fun _ => True) (drop_signatures flags v code sigs).
Proof.
  revert code. induction sigs as [|sig sigs IH]; intros code; [done|]. cbn [drop_signatures].
  eapply safe_bind; [apply drop_signature_safe|]. intros code' _. apply IH.
Qed.

Lemma multisig_loop_safe code keys sigs :
  pre_tapscript v = true -> safe (fun _ => True) (multisig_loop flags v code keys sigs).
Proof.
  intros Hv. revert sigs. induction keys as [|key keys IH]; intros [|sig sigs]; cbn [multisig_loop]; try done.
  eapply safe_bind; [apply encoding_safe|]. intros _ _. eapply safe_bind; [apply pubkey_safe|]. intros _ _.
  eapply safe_bind; [by apply ecdsa_true|]. intros b _. cbv zeta. destruct (_ <? _); [done|]. apply IH.
Qed.

Lemma cleanup_safe ok n ikey2 st : values_ok st -> safe values_ok (multisig_cleanup flags ok n ikey2 st).
Proof.
  revert ikey2 st. induction n as [|n IH]; intros ikey2 st Hst; [done|]. cbn [multisig_cleanup].
  repeat safe_step. by apply IH.
Qed.

Lemma checkmultisig_safe o code n st :
  v <> TAPROOT -> values_ok st -> 0 <= n <= MAX_OPS_PER_SCRIPT ->
  safe (fun p => values_ok p.1 /\ 0 <= p.2 <= MAX_OPS_PER_SCRIPT) (exec_checkmultisig flags v o code n st).
Proof.
  intros Hv Hst Hn. unfold exec_checkmultisig. safe_step.
  assert (pre_tapscript v = true) as Hp by (by destruct v).
  destruct st as [|top rest]; [done|]. inversion Hst as [|?? Htop Hrest]; subst. repeat safe_step.
  assert (values_ok (drop (Z.to_nat (getint a)) rest)) as Hd by (by apply Forall_drop).
  match goal with E : drop _ _ = _ |- _ => rewrite E in Hd end. inversion Hd as [|?? Hnum Hrest']; subst.
  repeat safe_step. eapply safe_bind; [apply drop_signatures_safe|]. intros code' _.
  eapply safe_bind; [by apply multisig_loop_safe|]. intros b _.
  eapply safe_bind; [by apply cleanup_safe, Forall_cons_2|]. intros st' Hst'. cbv beta in Hst'.
  assert (0 <= n + getint a <= MAX_OPS_PER_SCRIPT) by (bool_props; lia).
  repeat safe_step; (split; [|done]); first [done | apply Forall_cons_2; by auto with safety].
Qed.

(** ** One opcode, one instruction, the loop *)

Lemma small_numbers_ok o :
  match o with
  | OP_1NEGATE | OP_1 | OP_2 | OP_3 | OP_4 | OP_5 | OP_6 | OP_7 | OP_8 | OP_9 | OP_10 | OP_11 | OP_12 | OP_13
  | OP_14 | OP_15 | OP_16 => True
  | _ => False
  end -> value_ok (CScriptNum_serialize (op o - (op OP_1 - 1))).
Proof. intros Ho. apply value_number. destruct o; done. Qed.

Lemma locktime_safe st : values_ok st -> safe (fun _ => True) (exec_locktime flags st).
Proof.
  intros Hst. unfold exec_locktime. repeat safe_step; [done|].
  eapply safe_bind; [by apply (num_safe _ 5)|]. intros n _. safe_step. by destruct (CheckLockTime n).
Qed.

Lemma sequence_safe st : values_ok st -> safe (fun _ => True) (exec_sequence flags st).
Proof.
  intros Hst. unfold exec_sequence. repeat safe_step; [done|].
  eapply safe_bind; [by apply (num_safe _ 5)|]. intros n _. repeat safe_step; [done|]. by destruct (CheckSequence n).
Qed.

Lemma exec_checksig_safe o code st d :
  v <> TAPROOT -> values_ok st -> ready v d = true ->
  safe (fun p => values_ok p.1 /\ ready v p.2 = true) (exec_checksig flags v o code st d).
Proof.
  intros Hv Hst Hd. unfold exec_checksig. repeat safe_step.
  eapply safe_bind; [by apply checksig_safe|]. intros [b d'] Hd'. cbv beta in Hd'.
  repeat safe_step; (split; [|done]); first [done | apply Forall_cons_2; by auto with safety].
Qed.

Lemma checksigadd_safe code st d :
  v <> TAPROOT -> values_ok st -> ready v d = true ->
  safe (fun p => values_ok p.1 /\ ready v p.2 = true) (exec_checksigadd flags v code st d).
Proof.
  intros Hv Hst Hd. unfold exec_checksigadd. repeat safe_step.
  eapply safe_bind; [by apply checksig_safe|]. intros [b d'] Hd'. cbv beta in *.
  cbn [safe]. split; [|done]. apply Forall_cons_2; [apply value_number; destruct b; simpl; lia|done].
Qed.

Lemma opcode_safe o pc pos m :
  v <> TAPROOT -> machine_ok v m -> zlen (stack m) <= 2 ^ 32 ->
  safe (machine_ok v) (exec_opcode flags v o pc pos m).
Proof.
  intros Hv [Hst Halt Hn Hd] Hlen.
  assert (forall st, values_ok st -> machine_ok v (set_stack st m)) as Hset by done.
  assert (safe (machine_ok v) ('(st, alt) ← exec_stack_op flags o (stack m) (altstack m);
                               Ok (Machine st alt (pbegincodehash m) (nOpCount m) (execdata m)))) as H1.
  { eapply safe_bind; [by apply stack_op_safe|]. by intros [st alt] [??]. }
  assert (safe (machine_ok v) (st ← exec_compute flags o (stack m); Ok (set_stack st m))) as H2.
  { eapply safe_bind; [by apply compute_safe|]. intros st Hst'. by apply Hset. }
  destruct o; cbn [exec_opcode]; first [exact H1 | exact H2 | done | idtac].
  all: try (apply Hset, Forall_cons_2; [by apply small_numbers_ok|done]).
  all: try (by repeat safe_step).
  1: split; [done..|by apply ready_codesep].
  1, 2: eapply safe_bind; [by apply exec_checksig_safe|by intros [st d] [??]].
  1, 2: eapply safe_bind; [by apply checkmultisig_safe|by intros [st n] [??]].
  - eapply safe_bind; [by apply locktime_safe|done].
  - eapply safe_bind; [by apply sequence_safe|done].
  - eapply safe_bind; [by apply checksigadd_safe|by intros [st d] [??]].
Qed.

Lemma if_safe o st : values_ok st -> safe (fun p => values_ok p.2) (exec_if flags v o st).
Proof. intros Hst. unfold exec_if. by repeat safe_step. Qed.

(** The condition stack of the source, kept below its bound. *)
Definition conds_ok (c : ConditionStack) : Prop := 0 <= m_stack_size c.

Lemma switch_safe opcode pc pos fExec m c :
  v <> TAPROOT -> machine_ok v m -> zlen (stack m) <= 2 ^ 32 -> conds_ok c ->
  safe (fun p => machine_ok v p.1 /\ conds_ok p.2) (exec_switch flags v opcode pc pos fExec m c).
Proof.
  intros Hv Hm Hlen Hc.
  assert (forall f, conds_ok (cond_push_back f c)) as Hpush.
  { intros f. apply (wrap_range 32 (m_stack_size c + 1)). lia. }
  assert (forall o, safe (fun p => machine_ok v p.1 /\ conds_ok p.2)
            (m' ← exec_opcode flags v o pc pos m; Ok (m', c))) as Hother.
  { intros o. eapply safe_bind; [by apply opcode_safe|]. by intros m' Hm'. }
  unfold exec_switch. destruct (opcode_name opcode) as [[]|]; first [apply Hother | done | idtac].
  1, 2: destruct fExec; [|exact (conj Hm (Hpush false))]; eapply safe_bind; [apply if_safe, Hm|];
    intros [f st] Hst; destruct Hm; (split; [by split|apply Hpush]).
  all: safe_step; unfold cond_empty in *; simpl in *; bool_props; unfold conds_ok in *;
    unfold ConditionStack_toggle_top, ConditionStack_pop_back;
    rewrite (proj2 (Z.ltb_lt 0 _)) by lia; cbn [script_assert mbind result_bind safe fst snd];
    (split; [done|]); repeat case_match; simpl; lia.
Qed.

Lemma CheckMinimalPush_ok data opcode : 0 <= opcode <= op OP_PUSHDATA4 -> is_ok (CheckMinimalPush data opcode) = true.
Proof.
  intros H. unfold CheckMinimalPush. rewrite (proj2 (Z.ltb_ge _ _)), (proj2 (Z.ltb_ge _ _)) by lia. simpl orb.
  repeat case_match; done.
Qed.

Lemma instruction_safe opcode data pc pos m c :
  v <> TAPROOT -> machine_ok v m -> zlen (stack m) <= 2 ^ 32 -> conds_ok c -> value_ok data ->
  safe (fun p => machine_ok v p.1 /\ conds_ok p.2) (exec_instruction flags v opcode data pc pos m c).
Proof.
  intros Hv Hm Hlen Hc Hdata. unfold exec_instruction. destruct (_ && _ && _) eqn:E.
  - bool_props. pose proof (CheckMinimalPush_ok data opcode ltac:(lia)) as Hok.
    eapply (safe_bind (fun _ => True)).
    { destruct (fRequireMinimal flags); [|done]. by destruct (CheckMinimalPush data opcode). }
    intros b _. repeat safe_step. destruct Hm. split; [|done]. split; try done. by apply Forall_cons_2.
  - destruct (_ || _); [by apply switch_safe|done].
Qed.

Lemma count_safe opcode m :
  machine_ok v m ->
  safe (fun m' => machine_ok v m' /\ stack m' = stack m /\ altstack m' = altstack m) (count_opcode v opcode m).
Proof.
  intros [Hst Halt Hn Hd]. unfold count_opcode. destruct (_ && _); [|done]. safe_step.
  split; [|done]. split; try done. bool_props. simpl. lia.
Qed.

Lemma GetScriptOp_wf pc ok opcode data pc' :
  wf_bytes pc -> GetScriptOp pc = (ok, opcode, data, pc') -> wf_bytes data /\ wf_bytes pc'.
Proof.
  intros Hwf. destruct pc as [|b pc]; [intros [= <- <- <- <-]; by split|]. inversion Hwf; subst.
  unfold GetScriptOp. assert (forall n pc'', push_size b pc = (n, pc'') -> wf_bytes pc'') as Hps.
  { intros n pc''. unfold push_size. intros Hp. repeat (case_match; simplify_eq; try done); try (by inversion H2);
      by apply Forall_drop. }
  destruct (b <=? op OP_PUSHDATA4); [|intros [= <- <- <- <-]; split; [constructor|done]].
  destruct (push_size b pc) as [[n|] pc''] eqn:E; specialize (Hps _ _ eq_refl).
  - destruct (_ <? _); intros [= <- <- <- <-]; [split; [constructor|done]|].
    split; [by apply Forall_take|by apply Forall_drop].
  - intros [= <- <- <- <-]. split; [constructor|done].
Qed.

(** The limit on the stacks holds after every instruction. *)
Lemma loop_safe fuel pc pos m c bound :
  v <> TAPROOT -> machine_ok v m -> conds_ok c -> wf_bytes pc -> (length pc <= fuel)%nat ->
  MAX_STACK_SIZE <= bound <= 2 ^ 32 -> zlen (stack m) + zlen (altstack m) <= bound ->
  safe (fun m' => machine_ok v m' /\ zlen (stack m') + zlen (altstack m') <= bound)
    (EvalScript_loop flags v fuel pc pos m c).
Proof.
  intros Hv. revert pc pos m c. induction fuel as [|fuel IH]; intros [|b pc] pos m c Hm Hc Hwf Hfuel Hb Hlen;
    cbn [EvalScript_loop]; try (by repeat safe_step); [simpl in Hfuel; lia|].
  destruct (GetScriptOp (b :: pc)) as [[[ok opcode] data] pc'] eqn:E. destruct ok; [|done].
  destruct (GetScriptOp_wf _ _ _ _ _ Hwf E) as [Hdata Hpc']. apply GetScriptOp_shrinks in E.
  cbn [negb fail_if mbind result_bind]. safe_step.
  eapply safe_bind; [by apply count_safe|]. intros m1 (Hm1 & Es & Ea). do 2 safe_step.
  pose proof (zlen_nonneg (altstack m)).
  eapply safe_bind; [apply instruction_safe; try done; [rewrite Es; lia|split; [done|by bool_props]]|].
  intros [m2 c2] [Hm2 Hc2]. simpl in Hm2, Hc2. safe_step. apply IH; try done; [simpl in *; lia|].
  bool_props. lia.
Qed.

Lemma EvalScript_safe st script d :
  v <> TAPROOT -> values_ok st -> zlen st <= 2 ^ 32 -> wf_bytes script ->
  ready v (set_codeseparator 0xFFFFFFFF d) = true ->
  safe (fun p => values_ok p.1 /\ zlen p.1 <= Z.max (zlen st) MAX_STACK_SIZE) (EvalScript flags v st script d)
  /\ EvalScript flags v st script d <> Err Unset.
Proof.
  intros Hv Hst Hlen Hwf Hd. unfold EvalScript, EvalScript_with.
  assert (pre_tapscript v || is_version v TAPSCRIPT = true) as -> by (by destruct v).
  cbn [script_assert mbind result_bind]. unfold fail_if. destruct (_ && _); [done|]. cbn [mbind result_bind].
  assert (safe (fun m' => machine_ok v m' /\ zlen (stack m') + zlen (altstack m') <= Z.max (zlen st) MAX_STACK_SIZE)
            (EvalScript_loop flags v (length script) script 0
               (Machine st [] script 0 (set_codeseparator 0xFFFFFFFF d)) cond_new)) as Hloop.
  { apply loop_safe; try done; change MAX_STACK_SIZE with 1000; unfold conds_ok, zlen in *; simpl; lia. }
  destruct (EvalScript_loop _ _ _ _ _ _ _) as [m|[]]; simpl in *; try done.
  destruct Hloop as [[Hs _ _ _] Hl]. pose proof (zlen_nonneg (altstack m)). repeat split; [done|lia|done].
Qed.

End Safety.

(** * [VerifyScript] *)

Section Verify.
Context {secp : Secp256k1} {checker : BaseSignatureChecker} {Hsafe : CheckerSafe checker}.
Context (flags : Z).

(** An outcome of the script: success or an error that was set. *)
Definition settled {A} (r : eval A) : Prop := safe (fun _ => True) r /\ r <> Err Unset.

Lemma settled_bind {A B} (P : A -> Prop) (m : eval A) (k : A -> eval B) :
  safe P m -> m <> Err Unset -> (forall a, P a -> settled (k a)) -> settled (m ≫= k).
Proof. intros H1 H2 H3. destruct m as [a|[]]; simpl in *; auto; done. Qed.

Lemma settled_fail_if {A} c e (k : () -> eval A) :
  (c = false -> settled (k ())) -> settled (fail_if c e ≫= k).
Proof. intros H. destruct c; [done|by apply H]. Qed.

Lemma settled_check c e : settled (fail_if c e).
Proof. by destruct c. Qed.

Lemma scan_safe fuel pc :
  (length pc <= fuel)%nat -> safe (fun _ => True) (success_scan flags fuel pc) /\ success_scan flags fuel pc <> Err Unset.
Proof.
  revert pc. induction fuel as [|fuel IH]; intros [|b pc] Hf; cbn [success_scan]; try done; [simpl in Hf; lia|].
  destruct (GetScriptOp (b :: pc)) as [[[ok opcode] data] pc'] eqn:E. destruct ok; [|done].
  apply GetScriptOp_shrinks in E. cbn [negb fail_if mbind result_bind].
  destruct (IsOpSuccess opcode); [|apply IH; simpl in *; lia]. unfold fail_if. by destruct (has _ _).
Qed.

Lemma execute_safe st script v d :
  v <> TAPROOT -> Forall wf_bytes st -> zlen st <= 2 ^ 32 -> wf_bytes script ->
  ready v (set_codeseparator 0xFFFFFFFF d) = true ->
  settled (ExecuteWitnessScript flags st script v d).
Proof.
  intros Hv Hst Hlen Hwf Hd. unfold ExecuteWitnessScript. apply (settled_bind (fun _ => True)).
  { destruct (is_version v TAPSCRIPT); [|done]. destruct (scan_safe (length script) script) as [H1 H2]; [done|].
    destruct (success_scan _ _ _) as [found|[]]; simpl in *; try done. unfold fail_if. by destruct (_ && _). }
  { destruct (is_version v TAPSCRIPT); [|done]. destruct (scan_safe (length script) script) as [H1 H2]; [done|].
    destruct (success_scan _ _ _) as [found|[]]; simpl in *; try done. unfold fail_if. by destruct (_ && _). }
  intros [] _; [done|]. apply settled_fail_if. intros He.
  assert (values_ok st) as Hvals.
  { rewrite list.Forall_forall in Hst |- *. intros x Hx. split; [by apply Hst|].
    destruct (Z.le_gt_cases (zlen x) MAX_SCRIPT_ELEMENT_SIZE) as [|Hgt]; [done|]. exfalso.
    assert (existsb (fun elem => MAX_SCRIPT_ELEMENT_SIZE <? zlen elem) st = true) as E; [|congruence].
    apply existsb_exists. exists x. split; [by apply list_elem_of_In|by apply Z.ltb_lt]. }
  destruct (EvalScript_safe flags v st script d) as [H1 H2]; try done.
  eapply settled_bind; [exact H1|exact H2|]. intros [st' d'] _. destruct st' as [|top [|]]; try done. apply settled_check.
Qed.

Lemma control_range control :
  control_size_ok control = true -> TAPROOT_CONTROL_BASE_SIZE <= zlen control.
Proof. unfold control_size_ok. intros H. bool_props. lia. Qed.

Lemma script_path_safe w program control script st d :
  zlen program = 32 -> Forall wf_bytes st -> zlen st <= 2 ^ 32 -> wf_bytes script -> m_annex_init d = true ->
  settled (VerifyTaprootScriptPath flags w program control script st d).
Proof.
  intros Hp Hst Hlen Hwf Hd. unfold VerifyTaprootScriptPath. apply settled_fail_if. intros Hc. apply negb_false_iff in Hc.
  unfold VerifyTaprootCommitment, ComputeTaprootMerkleRoot. rewrite Hc.
  rewrite (proj2 (Z.leb_le TAPROOT_CONTROL_BASE_SIZE _)) by (by apply control_range). rewrite Hp. cbn [script_assert mbind result_bind].
  apply settled_fail_if. intros _. destruct (_ =? _); [|apply settled_check].
  apply execute_safe; try done. simpl. by rewrite Hd.
Qed.

Lemma taproot_safe w program :
  zlen program = 32 -> Forall wf_bytes w -> zlen w <= 2 ^ 32 -> settled (VerifyTaproot flags w program (rev w)).
Proof.
  intros Hp Hw Hlen. unfold VerifyTaproot. destruct (has flags SCRIPT_VERIFY_TAPROOT); [|done]. simpl negb. cbv iota.
  apply settled_fail_if. intros Hne. set (annex := find_annex (rev w)). set (d := set_annex _ _).
  assert (m_annex_init d = true) as Hd by done. clearbody d.
  assert (Forall wf_bytes (rev w)) as Hrw by (by apply Forall_rev).
  assert (zlen (rev w) <= 2 ^ 32) as Hrl by (unfold zlen in *; by rewrite length_rev).
  assert (match annex with Some _ => drop 1 (rev w) | None => rev w end <> []) as Hst.
  { subst annex. unfold find_annex. destruct (rev w) as [|[|tag rest] [|x st]]; simpl; try done. by destruct (tag =? ANNEX_TAG). }
  assert (Forall wf_bytes (match annex with Some _ => drop 1 (rev w) | None => rev w end)) as Hst'
    by (destruct annex; [by apply Forall_drop|done]).
  assert (zlen (match annex with Some _ => drop 1 (rev w) | None => rev w end) <= 2 ^ 32) as Hl'
    by (destruct annex; [unfold zlen in *; rewrite length_drop; lia|done]).
  destruct (match annex with Some _ => drop 1 (rev w) | None => rev w end) as [|control [|script st]]; [done|..].
  - destruct (with_serror_safe _ SCRIPT_ERR_OK (CheckSchnorrSignature control program TAPROOT d)
                (schnorr_safe control program TAPROOT d ltac:(by left) Hp Hd)) as [H1 H2].
    eapply settled_bind; [exact H1|exact H2|done].
  - inversion Hst' as [|?? _ Hst'']; subst. inversion Hst''; subst. apply script_path_safe; try done.
    unfold zlen in *. simpl in Hl'. lia.
Qed.

Lemma byte_at_wf s i : wf_bytes s -> is_uint 8 (byte_at s i).
Proof.
  intros Hs. unfold byte_at. destruct (decide (i < length s)%nat) as [Hi|Hi].
  - unfold wf_bytes in Hs. rewrite List.Forall_forall in Hs. apply Hs, nth_In. lia.
  - by rewrite nth_overflow by lia.
Qed.

Lemma program_safe w ver program is_p2sh :
  wf_bytes program -> Forall wf_bytes w -> zlen w <= 2 ^ 32 ->
  settled (VerifyWitnessProgram flags w ver program is_p2sh).
Proof.
  intros Hp Hw Hlen. unfold VerifyWitnessProgram. cbv zeta.
  assert (Forall wf_bytes (rev w)) as Hrw by (by apply Forall_rev).
  assert (zlen (rev w) <= 2 ^ 32) as Hrl by (unfold zlen in *; by rewrite length_rev).
  destruct (ver =? 0).
  - destruct (zlen program =? WITNESS_V0_SCRIPTHASH_SIZE).
    { destruct (rev w) as [|script st]; [done|]. inversion Hrw; subst. apply settled_fail_if. intros _.
      apply execute_safe; try done. unfold zlen in *. simpl in Hrl. lia. }
    destruct (zlen program =? WITNESS_V0_KEYHASH_SIZE) eqn:Ek; [|done]. apply settled_fail_if. intros _.
    apply execute_safe; try done. apply wf_bytes_app. split; [|by_decide]. unfold push_data.
    rewrite !wf_bytes_app. bool_props. rewrite Ek. unfold WITNESS_V0_KEYHASH_SIZE. repeat split; [by_decide..|done].
  - destruct ((ver =? 1) && _ && _) eqn:Et; [|destruct (negb is_p2sh && _); [done|apply settled_check]].
    bool_props. by apply taproot_safe.
Qed.

Lemma eval_base_safe st script :
  values_ok st -> zlen st <= 2 ^ 32 -> wf_bytes script ->
  safe (fun st' => values_ok st' /\ zlen st' <= Z.max (zlen st) MAX_STACK_SIZE) (eval_base flags st script)
  /\ eval_base flags st script <> Err Unset.
Proof.
  intros Hst Hlen Hwf. unfold eval_base.
  destruct (EvalScript_safe flags BASE st script ExecData_default) as [H1 H2]; try done.
  destruct (EvalScript flags BASE st script ExecData_default) as [[st' d']|[]]; simpl in *; done.
Qed.

Lemma check_true_settled {A} st (k : () -> eval A) :
  (st <> [] -> settled (k ())) -> settled (check_true st ≫= k).
Proof. intros H. destruct st as [|top st]; [done|]. apply settled_fail_if. intros _. by apply H. Qed.

Lemma verify_program_safe w script mal e p2sh had st :
  wf_bytes script -> Forall wf_bytes w -> zlen w <= 2 ^ 32 ->
  settled (verify_program flags w script mal e p2sh had st).
Proof.
  intros Hs Hw Hlen. unfold verify_program. destruct (has flags SCRIPT_VERIFY_WITNESS); [|done].
  destruct (IsWitnessProgram script) as [[ver program]|] eqn:E; [|done]. apply settled_fail_if. intros _.
  assert (wf_bytes program) as Hp.
  { unfold IsWitnessProgram in E. repeat (case_match; simplify_eq; try done). by apply Forall_drop. }
  destruct (program_safe w ver program p2sh Hp Hw Hlen) as [H1 H2]. by eapply settled_bind.
Qed.

(** A P2SH output fails on an empty stack: [OP_HASH160] finds no argument. *)
Lemma p2sh_needs_argument pk : IsPayToScriptHash pk = true -> is_ok (eval_base flags [] pk) = false.
Proof.
  unfold IsPayToScriptHash. intros H. bool_props. destruct pk as [|b pk]; [done|]. unfold byte_at in *. simpl in *. subst b.
  unfold eval_base, EvalScript, EvalScript_with. cbn [pre_tapscript is_version orb script_assert mbind result_bind].
  unfold fail_if at 1. destruct (_ && _); [done|]. cbn [mbind result_bind length EvalScript_loop].
  reflexivity.
Qed.

Lemma VerifyScript_settled sig pk w :
  flags_ok flags = true -> wf_bytes sig -> wf_bytes pk -> Forall wf_bytes w -> zlen w <= 2 ^ 32 ->
  settled (VerifyScript flags sig pk w).
Proof.
  intros Hf Hsig Hpk Hw Hlen. unfold flags_ok in Hf. apply andb_prop in Hf as [Hf1 Hf2].
  unfold VerifyScript. apply settled_fail_if. intros _.
  destruct (eval_base_safe [] sig) as [H1 H2]; [constructor|done|done|].
  eapply settled_bind; [exact H1|exact H2|]. intros stc [Hstc Hlenc]. cbn [zlen length] in Hlenc.
  change MAX_STACK_SIZE with 1000 in Hlenc. change (zlen []) with 0 in Hlenc.
  destruct (eval_base_safe stc pk) as [H3 H4]; [done|lia|done|].
  destruct (eval_base flags stc pk) as [st|] eqn:Est; [|by destruct e]. cbn [mbind result_bind].
  apply check_true_settled. intros Hne.
  destruct (verify_program_safe w pk (negb (zlen sig =? 0)) SCRIPT_ERR_WITNESS_MALLEATED false false st Hpk Hw Hlen) as [H5 H6].
  eapply settled_bind; [exact H5|exact H6|]. intros [had st'] _.
  assert (settled (if has flags SCRIPT_VERIFY_P2SH && IsPayToScriptHash pk
                   then verify_p2sh flags sig w had stc else Ok (had, st'))) as [H7 H8].
  { destruct (has flags SCRIPT_VERIFY_P2SH && IsPayToScriptHash pk) eqn:Ep; [|by split]. apply andb_prop in Ep as [_ Ep]. unfold verify_p2sh. apply settled_fail_if. intros _.
    destruct stc as [|pk2 st2]; [apply p2sh_needs_argument in Ep; by rewrite Est in Ep|].
    inversion Hstc as [|?? [Hpk2 _] Hst2]; subst. destruct (eval_base_safe st2 pk2) as [H9 H10]; [done| |done|].
    { unfold zlen in *. simpl in Hlenc. lia. }
    eapply settled_bind; [exact H9|exact H10|]. intros st3 _. apply check_true_settled. intros _. by apply verify_program_safe. }
  eapply settled_bind; [exact H7|exact H8|]. intros [had' st''] _.
  eapply (settled_bind (fun _ => True)).
  1, 2: destruct (has flags SCRIPT_VERIFY_CLEANSTACK); [|done]; simpl in Hf1; apply andb_prop in Hf1 as [-> ->];
    cbn [script_assert mbind result_bind]; by apply settled_check.
  intros _ _. destruct (has flags SCRIPT_VERIFY_WITNESS); [|done]. simpl in Hf2. rewrite Hf2.
  cbn [script_assert mbind result_bind]. apply settled_check.
Qed.

End Verify.

#[export] Instance default_checker_safe : CheckerSafe BaseSignatureChecker_default.
Proof. by split. Qed.

(** C8: [EvalScript] always ends, within the limits of the protocol.  For every
    script, set of flags and signature version that admits scripts, started on a
    stack within the limits, it either returns an error or a stack of at most 1000
    elements of at most 520 bytes; no assertion fails, no element outgrows its
    bound and the loop needs no more rounds than the script has bytes.  The
    signature checker is any that answers the calls the interpreter makes. *)
Theorem EvalScript_bounded `{Secp256k1} `{CheckerSafe} flags v st script d :
  v <> TAPROOT -> values_ok st -> zlen st <= MAX_STACK_SIZE -> wf_bytes script ->
  ready v (set_codeseparator 0xFFFFFFFF d) = true ->
  (exists e, EvalScript flags v st script d = Err (ScriptErr e)) \/
  (exists st' d', EvalScript flags v st script d = Ok (st', d')
                  /\ values_ok st' /\ zlen st' <= MAX_STACK_SIZE).
Proof.
  intros Hv Hst Hlen Hwf Hd. change MAX_STACK_SIZE with 1000 in *.
  destruct (EvalScript_safe flags v st script d Hv Hst ltac:(lia) Hwf Hd) as [H1 H2].
  change MAX_STACK_SIZE with 1000 in H1.
  destruct (EvalScript flags v st script d) as [[st' d']|[e| |]]; simpl in *; [|by left; eexists|done..].
  right. exists st', d'. repeat split; [apply H1|lia].
Qed.

Lemma EvalScript_bounded_witness :
  exists st', @EvalScript accepting_secp BaseSignatureChecker_default SCRIPT_VERIFY_MINIMALDATA BASE
                [[2]; [3]] [op OP_2DUP; op OP_ADD; op OP_HASH160] ExecData_default = Ok st'
              /\ zlen st'.1 <= 1000.
Proof.
  destruct (@EvalScript_bounded accepting_secp BaseSignatureChecker_default _ SCRIPT_VERIFY_MINIMALDATA BASE
              [[2]; [3]] [op OP_2DUP; op OP_ADD; op OP_HASH160] ExecData_default) as [[e H]|(st' & d' & H & _ & Hl)].
  - discriminate.
  - repeat constructor; by_decide || (vm_compute; discriminate).
  - vm_compute. discriminate.
  - by_decide.
  - reflexivity.
  - vm_compute in H. discriminate.
  - exists (st', d'). split; [exact H|exact Hl].
Defined.

(** C31: [VerifyScript] never aborts: for every scriptSig, scriptPubKey and
    witness, under every combination of flags that the code allows, it returns
    success or sets an error.  In particular the stack is not empty where the P2SH
    rule takes its top (the assertion in the source), and the sizes the Taproot
    functions assert are the ones checked before they are called. *)
Theorem VerifyScript_total `{Secp256k1} `{CheckerSafe} flags scriptSig scriptPubKey witness :
  flags_ok flags = true -> wf_bytes scriptSig -> wf_bytes scriptPubKey -> Forall wf_bytes witness ->
  zlen witness <= 2 ^ 32 ->
  VerifyScript flags scriptSig scriptPubKey witness = Ok () \/
  exists e, VerifyScript flags scriptSig scriptPubKey witness = Err (ScriptErr e).
Proof.
  intros H1 H2 H3 H4 H5. destruct (VerifyScript_settled flags scriptSig scriptPubKey witness H1 H2 H3 H4 H5) as [Hs Hu].
  destruct (VerifyScript flags scriptSig scriptPubKey witness) as [[]|[e| |]]; [by left|by right; eexists|done..].
Qed.

Lemma VerifyScript_total_witness :
  exists e, @VerifyScript accepting_secp BaseSignatureChecker_default SCRIPT_VERIFY_P2SH []
              (op OP_HASH160 :: 20 :: replicate 20 0 ++ [op OP_EQUAL]) [] = Err (ScriptErr e).
Proof.
  destruct (@VerifyScript_total accepting_secp BaseSignatureChecker_default _ SCRIPT_VERIFY_P2SH []
              (op OP_HASH160 :: 20 :: replicate 20 0 ++ [op OP_EQUAL]) []) as [H|[e H]];
    [reflexivity|by_decide|by_decide|by_decide|vm_compute; discriminate|vm_compute in H; discriminate|].
  exists e. exact H.
Defined.
