(* ===== verification/Multisig.v ===== *)
(** [OP_CHECKMULTISIG] and the removal of signatures from scripts
    (src/bitcoin/src/script/interpreter.cpp): the loop that walks keys and
    signatures decides whether the signatures can be matched with keys in order,
    and [FindAndDelete] removes whole operations. *)

From S2P Require Import Prelude Serialize Transaction Script PubKey Interpreter.

Section Multisig.
Context {secp : Secp256k1} {checker : BaseSignatureChecker}.
Context (flags : Z) (v : SigVersion).

(** [sig] is a signature by [key]. *)
Definition signed_by (code sig key : bytes) : Prop := CheckECDSASignature sig key code v = Ok true.

(** The signatures belong to distinct keys, in the order of the keys. *)
Definition matchable (code : bytes) (keys sigs : list bytes) : Prop :=
  exists ks, sublist ks keys /\ Forall2 (signed_by code) sigs ks.

Lemma matchable_length code keys sigs : matchable code keys sigs -> (length sigs <= length keys)%nat.
Proof. intros (ks & Hs & Hf). apply sublist_length in Hs. apply Forall2_length in Hf. lia. Qed.

Lemma matchable_skip code key keys sigs : matchable code keys sigs -> matchable code (key :: keys) sigs.
Proof. intros (ks & Hs & Hf). exists ks. split; [by constructor|done]. Qed.

Lemma matchable_tail code keys sig sigs : matchable code keys (sig :: sigs) -> matchable code keys sigs.
Proof.
  intros (ks & Hs & Hf). inversion Hf as [|? k ? ks' _ Hf']; subst. exists ks'. split; [|done].
  etrans; [|exact Hs]. by constructor.
Qed.

Lemma matchable_cons_valid code key keys sig sigs :
  signed_by code sig key -> (matchable code (key :: keys) (sig :: sigs) <-> matchable code keys sigs).
Proof.
  intros Hs. split.
  - intros (ks & Hsub & Hf). inversion Hf as [|? k ? ks' Hk Hf']; subst.
    inversion Hsub as [|? ? ? Hsub'|? ? ? Hsub']; subst; [by exists ks'|].
    apply (matchable_tail code keys sig). by exists (k :: ks').
  - intros (ks & Hsub & Hf). exists (key :: ks). split; by constructor.
Qed.

Lemma matchable_cons_invalid code key keys sig sigs :
  ~ signed_by code sig key -> (matchable code (key :: keys) (sig :: sigs) <-> matchable code keys (sig :: sigs)).
Proof.
  intros Hs. split; [|apply matchable_skip]. intros (ks & Hsub & Hf). inversion Hf as [|? k ? ks' Hk Hf']; subst.
  inversion Hsub; subst; [done|]. by exists (k :: ks').
Qed.

(** The greedy loop is exact. *)
Lemma multisig_loop_exact code keys sigs b :
  multisig_loop flags v code keys sigs = Ok b -> (length sigs <= length keys)%nat ->
  (b = true <-> matchable code keys sigs).
Proof.
  revert sigs. induction keys as [|key keys IH]; intros [|sig sigs]; cbn [multisig_loop].
  - intros [= <-] _. split; [|done]. intros _. exists []. by split.
  - simpl. lia.
  - intros [= <-] _. split; [|done]. intros _. exists []. split; [apply sublist_nil_l|done].
  - intros (? & _ & (? & _ & (fOk & Hok & H)%result_bind_inv)%result_bind_inv)%result_bind_inv Hlen. cbv zeta in H.
    assert (forall sigs', (if zlen keys <? zlen sigs' then Ok false else multisig_loop flags v code keys sigs') = Ok b ->
              (b = true <-> matchable code keys sigs')) as Hrec.
    { intros sigs' H'. destruct (Z.ltb_spec (zlen keys) (zlen sigs')) as [Hgt|Hle].
      - simplify_eq. split; [done|]. intros Hm%matchable_length. unfold zlen in Hgt. lia.
      - apply IH; [done|]. unfold zlen in Hle. lia. }
    destruct fOk.
    + rewrite matchable_cons_valid by done. by apply Hrec.
    + rewrite matchable_cons_invalid by (unfold signed_by; congruence). by apply Hrec.
Qed.

(** The cleanup pops the arguments, and checks the signatures if they failed. *)
Lemma multisig_cleanup_ok ok n ikey2 st st' :
  multisig_cleanup flags ok n ikey2 st = Ok st' -> 0 <= ikey2 ->
  st' = drop n st /\ (n <= length st)%nat /\
  (ok = false -> has flags SCRIPT_VERIFY_NULLFAIL = true ->
   Forall (fun s => s = []) (drop (Z.to_nat ikey2) (take n st))).
Proof.
  revert ikey2 st. induction n as [|n IH]; intros ikey2 st; cbn [multisig_cleanup].
  - intros [= ->] _. rewrite drop_0. split; [done|]. split; [lia|]. intros _ _. by rewrite take_0, drop_nil.
  - intros H Hi. destruct st as [|top st]; [done|]. apply result_bind_inv in H as (? & Hf & H).
    destruct (IH _ _ H) as (-> & Hlen & Hn); [bool_cases; lia|]. split; [done|]. split; [simpl; lia|].
    intros Hok Hnull. specialize (Hn Hok Hnull). rewrite Hok, Hnull in Hf. simpl andb in Hf.
    unfold fail_if in Hf. destruct (Z.eqb_spec ikey2 0) as [->|Hne].
    + simpl. constructor; [|by rewrite drop_0 in Hn]. simpl in Hf. destruct top; [done|]. by destruct (negb _) eqn:E.
    + rewrite (proj2 (Z.ltb_lt 0 ikey2)) in Hn by lia.
      replace (Z.to_nat ikey2) with (S (Z.to_nat (ikey2 - 1))) by lia. by simpl.
Qed.

(** What a successful [OP_CHECKMULTISIG] or [OP_CHECKMULTISIGVERIFY] found on the
    stack, top first: the number of keys, the keys, the number of signatures, the
    signatures and the dummy; [code'] is the script that was signed. *)
Record multisig_args (code : bytes) (st : list bytes) (keys sigs : list bytes) (dummy : bytes) (rest : list bytes)
    (code' : bytes) : Prop := {
  margs_stack : exists numk nums, st = numk :: keys ++ nums :: sigs ++ dummy :: rest
    /\ script_num4 flags numk = Ok (zlen keys) /\ script_num4 flags nums = Ok (zlen sigs);
  margs_keys : zlen keys <= MAX_PUBKEYS_PER_MULTISIG;
  margs_sigs : zlen sigs <= zlen keys;
  margs_code : drop_signatures flags v code sigs = Ok code';
  margs_dummy : has flags SCRIPT_VERIFY_NULLDUMMY = true -> dummy = []
}.

Lemma fail_if_ok c e u : fail_if c e = Ok u -> c = false.
Proof. by destruct c. Qed.

Lemma getint_small n x : getint x = n -> 0 <= n <= 20 -> x = n.
Proof. unfold getint. intros <-. bool_cases; lia. Qed.

Lemma args_split (numk nums : bytes) (keys sigs tl : list bytes) :
  let st := numk :: keys ++ nums :: sigs ++ tl in
  let n := (length keys + length sigs + 2)%nat in
  drop n st = tl /\ drop (length keys + 2) (take n st) = sigs.
Proof.
  simpl. replace (numk :: keys ++ nums :: sigs ++ tl) with ((numk :: keys ++ nums :: sigs) ++ tl)
    by (simpl; by rewrite <- app_assoc).
  split; [apply drop_app_exact; simpl; rewrite length_app; simpl; lia|].
  rewrite take_app_exact by (simpl; rewrite length_app; simpl; lia).
  replace (numk :: keys ++ nums :: sigs) with ((numk :: keys ++ [nums]) ++ sigs) by (simpl; by rewrite <- app_assoc).
  apply drop_app_exact. simpl. rewrite length_app. simpl. lia.
Qed.

Lemma checkmultisig_inv o code n st st' n' :
  exec_checkmultisig flags v o code n st = Ok (st', n') ->
  exists keys sigs dummy rest code' b,
    multisig_args code st keys sigs dummy rest code' /\
    multisig_loop flags v code' keys sigs = Ok b /\
    n' = n + zlen keys /\ n' <= MAX_OPS_PER_SCRIPT /\
    (b = false -> has flags SCRIPT_VERIFY_NULLFAIL = true -> Forall (fun s => s = []) sigs) /\
    st' = (if bool_decide (o = OP_CHECKMULTISIGVERIFY) then rest else vchBool b :: rest) /\
    (o = OP_CHECKMULTISIGVERIFY -> b = true).
Proof.
  unfold exec_checkmultisig. intros (? & _ & H)%result_bind_inv. destruct st as [|numk st]; [done|].
  apply result_bind_inv in H as (bk & Hk & (? & Hck%fail_if_ok & H)%result_bind_inv). cbv zeta in H.
  apply result_bind_inv in H as (? & Hops%fail_if_ok & (? & Hl1%fail_if_ok & H)%result_bind_inv).
  destruct (drop (Z.to_nat (getint bk)) st) as [|nums rest1] eqn:Ed; [done|].
  apply result_bind_inv in H as (bs & Hs & (? & Hcs%fail_if_ok & H)%result_bind_inv). cbv zeta in H.
  apply result_bind_inv in H as (? & Hl2%fail_if_ok & (code' & Hcode & H)%result_bind_inv).
  apply result_bind_inv in H as (b & Hb & (stc & Hcl & H)%result_bind_inv).
  bool_props. change MAX_PUBKEYS_PER_MULTISIG with 20 in *.
  pose proof (getint_small _ bk eq_refl ltac:(lia)) as Ebk. pose proof (getint_small _ bs eq_refl ltac:(lia)) as Ebs.
  rewrite <- Ebk, <- Ebs in *. set (keys := take (Z.to_nat bk) st) in *. set (sigs := take (Z.to_nat bs) rest1) in *.
  assert (st = keys ++ nums :: rest1) as Est by (subst keys; rewrite <- Ed; by rewrite take_drop).
  assert (length keys = Z.to_nat bk) as Elk.
  { subst keys. rewrite length_take. apply (f_equal length) in Ed. rewrite length_drop in Ed. simpl in Ed. lia. }
  unfold zlen in Hl2. rewrite Est in Hl2. simpl length in Hl2. rewrite length_app in Hl2. simpl length in Hl2.
  assert (length sigs = Z.to_nat bs) as Els by (subst sigs; rewrite length_take; lia).
  assert (rest1 = sigs ++ drop (Z.to_nat bs) rest1) as Er by (subst sigs; by rewrite take_drop).
  set (tl := drop (Z.to_nat bs) rest1) in *. clearbody sigs tl keys. subst rest1 st.
  destruct (args_split numk nums keys sigs tl) as [Hd1 Hd2]. cbv zeta in Hd1, Hd2.
  apply multisig_cleanup_ok in Hcl as (-> & _ & Hnull); [|lia].
  replace (Z.to_nat (3 + bk + bs - 1)) with (length keys + length sigs + 2)%nat in * by lia.
  replace (Z.to_nat (bk + 2)) with (length keys + 2)%nat in * by lia. rewrite Hd1 in H. rewrite Hd2 in Hnull.
  destruct tl as [|dummy rest]; [done|]. apply result_bind_inv in H as (? & Hdum%fail_if_ok & H).
  exists keys, sigs, dummy, rest, code', b. unfold zlen. rewrite Elk.
  assert (n' = n + bk /\ st' = (if bool_decide (o = OP_CHECKMULTISIGVERIFY) then rest else vchBool b :: rest)
          /\ (o = OP_CHECKMULTISIGVERIFY -> b = true)) as (-> & -> & Hv).
  { destruct (bool_decide (o = OP_CHECKMULTISIGVERIFY)) eqn:Eo.
    - apply result_bind_inv in H as (? & Hv%fail_if_ok & [= <- <-]). by destruct b.
    - injection H as <- <-. split; [done|]. split; [done|]. intros ->. by rewrite bool_decide_true in Eo. }
  split; [|by repeat split; try lia]. split; unfold zlen; rewrite ?Elk, ?Els; [|change MAX_PUBKEYS_PER_MULTISIG with 20; lia|lia|done|].
  - exists numk, nums. by rewrite !Z2Nat.id by lia.
  - intros Hnd. rewrite Hnd in Hdum. by destruct dummy.
Qed.

End Multisig.

(** C23: [OP_CHECKMULTISIG] is exact.  Whenever it succeeds, it has taken from the
    stack a number of keys (at most 20), the keys, a number of signatures (at most
    that of the keys), the signatures and one extra element, it has counted the
    keys as operations, and it leaves true exactly when the signatures can be
    assigned to distinct keys in the order of the keys, each valid for its key and
    the scriptCode without the signatures; with NULLFAIL a failure has only empty
    signatures, with NULLDUMMY the extra element is empty, and the VERIFY form
    succeeds only if the assignment exists. *)
Theorem checkmultisig_exact `{Secp256k1} `{BaseSignatureChecker} flags v o code n st st' n' :
  exec_checkmultisig flags v o code n st = Ok (st', n') ->
  exists keys sigs dummy rest code' b,
    multisig_args flags v code st keys sigs dummy rest code' /\
    (b = true <-> matchable v code' keys sigs) /\
    n' = n + zlen keys /\ n' <= MAX_OPS_PER_SCRIPT /\
    (b = false -> has flags SCRIPT_VERIFY_NULLFAIL = true -> Forall (fun s => s = []) sigs) /\
    st' = (if bool_decide (o = OP_CHECKMULTISIGVERIFY) then rest else vchBool b :: rest) /\
    (o = OP_CHECKMULTISIGVERIFY -> b = true).
Proof.
  intros (keys & sigs & dummy & rest & code' & b & Hargs & Hloop & Hrest)%checkmultisig_inv.
  exists keys, sigs, dummy, rest, code', b. split; [done|]. split; [|done].
  apply (multisig_loop_exact flags v _ _ _ _ Hloop). destruct Hargs as [_ _ Hs _ _]. unfold zlen in Hs. lia.
Qed.

(** A checker for which a signature is valid for the key it repeats. *)
Definition echo_checker : BaseSignatureChecker := {|
  CheckECDSASignature := fun sig pk _ _ => Ok (bool_decide (sig = pk));
  CheckSchnorrSignature := fun _ _ _ d => Ok d;
  CheckLockTime := fun _ => true;
  CheckSequence := fun _ => true
|}.

Lemma checkmultisig_exact_witness :
  exec_checkmultisig (secp := accepting_secp) (checker := echo_checker) 0 WITNESS_V0 OP_CHECKMULTISIG [] 1
    [[3]; [7]; [8]; [9]; [2]; [7]; [9]; []; [5]] = Ok ([vchTrue; [5]], 4) /\
  exists keys sigs dummy rest code' b,
    multisig_args 0 WITNESS_V0 [] [[3]; [7]; [8]; [9]; [2]; [7]; [9]; []; [5]]
      keys sigs dummy rest code' /\ (b = true <-> matchable (checker := echo_checker) WITNESS_V0 code' keys sigs).
Proof.
  split; [vm_compute; reflexivity|].
  destruct (@checkmultisig_exact accepting_secp echo_checker 0 WITNESS_V0 OP_CHECKMULTISIG [] 1
              [[3]; [7]; [8]; [9]; [2]; [7]; [9]; []; [5]] [vchTrue; [5]] 4 ltac:(vm_compute; reflexivity))
    as (keys & sigs & dummy & rest & code' & b & H1 & H2 & _).
  exists keys, sigs, dummy, rest, code', b. split; [exact H1|exact H2].
Defined.

(** * [FindAndDelete] *)

(** The bytes of one operation: they parse as that operation whatever follows. *)
Definition operation (b : bytes) : Prop :=
  exists opcode data, forall rest, GetScriptOp (b ++ rest) = (true, opcode, data, rest).

Lemma push_operation sig : zlen sig < 2 ^ 32 -> operation (push_data [] sig).
Proof.
  intros H. destruct (best_opcode_pushes _ H) as [[H0 _] Hp]. rewrite push_data_best by done.
  exists (best_opcode sig), sig. intros rest. by apply GetScriptOp_push.
Qed.

Lemma operation_nonempty b : operation b -> b <> [].
Proof. intros (o & d & H) ->. specialize (H []). by simpl in H. Qed.

Lemma GetScriptOp_operation s opcode data s' :
  wf_bytes s -> GetScriptOp s = (true, opcode, data, s') -> exists ch, operation ch /\ s = ch ++ s'.
Proof.
  intros Hwf H. destruct (Z.le_gt_cases opcode (op OP_PUSHDATA4)) as [Hle|Hgt].
  - destruct (GetScriptOp_push_inv _ _ _ _ Hwf H Hle) as (H0 & Hp & ->). exists (push_bytes opcode data).
    split; [|done]. exists opcode, data. intros rest. by apply GetScriptOp_push.
  - destruct s as [|b s]; [done|]. assert (b <=? op OP_PUSHDATA4 = false) as Hb.
    { apply Z.leb_gt. destruct (Z.le_gt_cases b (op OP_PUSHDATA4)) as [Hb|]; [exfalso|lia].
      unfold GetScriptOp in H. rewrite (proj2 (Z.leb_le _ _)) in H by done. repeat case_match; simplify_eq; lia. }
    unfold GetScriptOp in H. rewrite Hb in H. simplify_eq. exists [opcode]. split; [|done].
    exists opcode, []. intros rest. cbn [app GetScriptOp]. by rewrite Hb.
Qed.

(** A script as the operations it consists of and a rest without one. *)
Inductive chunks : bytes -> list bytes -> bytes -> Prop :=
| chunks_nil s : stuck s -> chunks s [] s
| chunks_cons ch s chs rest : operation ch -> chunks s chs rest -> chunks (ch ++ s) (ch :: chs) rest.

Lemma chunks_exist s : wf_bytes s -> exists chs rest, chunks s chs rest.
Proof.
  remember (length s) as n eqn:Hn. revert s Hn. induction n as [n IH] using lt_wf_ind. intros s -> Hwf.
  destruct (GetScriptOp s) as [[[ok opcode] data] s'] eqn:E. destruct ok.
  - destruct (GetScriptOp_operation _ _ _ _ Hwf E) as (ch & Hch & ->). apply wf_bytes_app in Hwf as [_ Hwf].
    destruct (IH (length s') ltac:(by eapply GetScriptOp_shrinks) s' eq_refl Hwf) as (chs & rest & Hc).
    exists (ch :: chs), rest. by constructor.
  - exists [], s. constructor. unfold stuck. by rewrite E.
Qed.

Lemma chunks_concat s chs rest : chunks s chs rest -> s = concat chs ++ rest.
Proof. induction 1 as [|ch s chs rest Hop Hc IH]; [done|]. simpl. by rewrite IH, app_assoc. Qed.

(** Where the script starts with [b], [b] is its first operation. *)
Lemma operation_prefix b ch s t : operation b -> operation ch -> ch ++ s = b ++ t -> ch = b /\ s = t.
Proof.
  intros (o & d & Hb) (o' & d' & Hch) E. specialize (Hb t). rewrite <- E, Hch in Hb. simplify_eq.
  split; [|done]. by apply app_inv_tail in E.
Qed.

Lemma starts_with (b s : bytes) : ((zlen b <=? zlen s) && bool_decide (take (length b) s = b)) = true <-> exists t, s = b ++ t.
Proof.
  rewrite andb_true_iff, bool_decide_eq_true. split.
  - intros [_ H]. exists (drop (length b) s). rewrite <- H at 1. by rewrite take_drop.
  - intros [t ->]. rewrite take_app_exact by done. split; [|done]. apply Z.leb_le. unfold zlen. rewrite length_app. lia.
Qed.

Definition kept (b : bytes) (chs : list bytes) : list bytes := filter (fun ch => ch <> b) chs.
Definition deleted (b : bytes) (chs : list bytes) : Z := zlen (filter (fun ch => ch = b) chs).

Lemma kept_cons b ch chs : kept b (ch :: chs) = if decide (ch = b) then kept b chs else ch :: kept b chs.
Proof. unfold kept. rewrite filter_cons. by repeat case_decide. Qed.

Lemma deleted_cons b ch chs : deleted b (ch :: chs) = (if decide (ch = b) then 1 else 0) + deleted b chs.
Proof. unfold deleted, zlen. rewrite filter_cons. repeat case_decide; simpl; lia. Qed.

Lemma skip_matches_chunks fuel b s chs rest n :
  operation b -> chunks s chs rest -> (length chs <= fuel)%nat ->
  exists k chs' s', chs = replicate k b ++ chs' /\ chunks s' chs' rest /\
    (forall ch chs'', chs' = ch :: chs'' -> ch <> b) /\
    skip_matches fuel b s n = (n + Z.of_nat k, s').
Proof.
  intros Hb Hc. revert fuel n. induction Hc as [s Hs|ch s chs rest Hop Hc IH]; intros fuel n Hf.
  - exists 0%nat, [], s. split; [done|]. split; [by constructor|]. split; [done|]. rewrite Z.add_0_r.
    destruct fuel as [|fuel]; [done|]. simpl. destruct (_ && _) eqn:E; [|done]. exfalso.
    apply starts_with in E as [t ->]. destruct Hb as (o & d & Hb). unfold stuck in Hs. by rewrite Hb in Hs.
  - destruct fuel as [|fuel]; [simpl in Hf; lia|]. cbn [skip_matches]. destruct (_ && _) eqn:E.
    + apply starts_with in E as [t Et]. destruct (operation_prefix b ch s t Hb Hop Et) as [-> ->].
      rewrite drop_app_exact by done. destruct (IH fuel (n + 1)) as (k & chs' & s' & -> & Hc' & Hne & ->); [simpl in Hf; lia|].
      exists (S k), chs', s'. repeat split; [done|done|]. f_equal. lia.
    + exists 0%nat, (ch :: chs), (ch ++ s). repeat split; [by constructor| |f_equal; lia].
      intros ch' chs'' [= <- <-] ->. assert (exists t, b ++ s = b ++ t) as Ht%starts_with by (by eexists). congruence.
Qed.

Lemma deleted_replicate b k chs : deleted b (replicate k b ++ chs) = Z.of_nat k + deleted b chs.
Proof. induction k as [|k IH]; simpl app; [lia|]. rewrite deleted_cons, decide_True, IH by done. lia. Qed.

Lemma kept_replicate b k chs : kept b (replicate k b ++ chs) = kept b chs.
Proof. induction k as [|k IH]; simpl app; [done|]. by rewrite kept_cons, decide_True, IH by done. Qed.

Lemma chunks_length s chs rest : chunks s chs rest -> (length chs + length rest <= length s)%nat.
Proof.
  induction 1 as [|ch s chs rest Hop Hc IH]; [simpl; lia|]. apply operation_nonempty in Hop.
  rewrite length_app. destruct ch; [done|]. simpl. lia.
Qed.

Lemma between_app ch s : between (ch ++ s) s = ch.
Proof. unfold between. rewrite length_app. apply take_app_exact. lia. Qed.

Lemma FindAndDelete_loop_chunks fuel b result ch pc chs rest n :
  operation b -> chunks pc chs rest -> (length chs < fuel)%nat ->
  let '(n', result', pc2') := FindAndDelete_loop fuel b result (ch ++ pc) pc n in
  n' = n + deleted b chs /\ result' ++ pc2' = result ++ ch ++ concat (kept b chs) ++ rest.
Proof.
  intros Hb. revert result ch pc chs n. induction fuel as [|fuel IH]; intros result ch pc chs n Hc Hf; [lia|].
  cbn [FindAndDelete_loop]. rewrite between_app.
  pose proof (chunks_length _ _ _ Hc) as Hl.
  destruct (skip_matches_chunks (length pc) b pc chs rest n Hb Hc) as (k & chs' & s' & -> & Hc' & Hne & ->); [lia|].
  rewrite deleted_replicate, kept_replicate. rewrite length_app, length_replicate in Hf.
  destruct Hc' as [s' Hs|ch' s' chs' rest Hop Hc'].
  - unfold stuck in Hs. destruct (GetScriptOp s') as [[[ok ?] ?] ?]. simpl in Hs. subst ok.
    split; [unfold deleted, zlen; simpl; lia|]. unfold kept. simpl. by rewrite <- app_assoc.
  - destruct (Hop) as (o & d & Hg). rewrite Hg. specialize (IH (result ++ ch) ch' s' chs' (n + Z.of_nat k) Hc' ltac:(simpl in Hf; lia)).
    destruct (FindAndDelete_loop _ _ _ _ _ _) as [[n' result'] pc2']. destruct IH as [-> ->].
    specialize (Hne ch' chs' eq_refl). rewrite deleted_cons, kept_cons, !decide_False by done.
    split; [lia|]. simpl. by rewrite <- !app_assoc.
Qed.

Lemma FindAndDelete_chunks script b chs rest :
  operation b -> chunks script chs rest ->
  FindAndDelete script b = (deleted b chs, concat (kept b chs) ++ rest).
Proof.
  intros Hb Hc. pose proof (chunks_concat _ _ _ Hc) as Hcat.
  unfold FindAndDelete. rewrite bool_decide_false by (by apply operation_nonempty).
  pose proof (chunks_length _ _ _ Hc) as Hl.
  pose proof (FindAndDelete_loop_chunks (S (length script)) b [] [] script chs rest 0 Hb Hc ltac:(lia)) as H.
  simpl app in H. destruct (FindAndDelete_loop _ _ _ _ _ _) as [[n' result'] pc2']. destruct H as [-> H].
  rewrite Z.add_0_l. f_equal. destruct (Z.ltb_spec 0 (deleted b chs)) as [_|Hle]; [done|].
  assert (filter (fun ch => ch = b) chs = []) as Hnil.
  { unfold deleted, zlen in Hle. destruct (filter _ chs); [done|simpl in Hle; lia]. }
  rewrite Hcat at 1. f_equal. f_equal. clear -Hnil.
  induction chs as [|ch chs IH]; [done|]. rewrite filter_cons in Hnil. rewrite kept_cons.
  case_decide; [done|]. by rewrite <- IH.
Qed.

(** [FindAndDelete] of a pushed signature removes exactly the operations of the
    script that are that push: the script splits into operations and a rest from
    which none can be read; the result is the script without the operations equal
    to the push, and the count is their number.  No bytes inside another push are
    touched. *)
Theorem FindAndDelete_push (script sig : bytes) :
  wf_bytes script -> zlen sig < 2 ^ 32 ->
  exists chs rest, chunks script chs rest /\ script = concat chs ++ rest /\
    FindAndDelete script (push_data [] sig)
    = (deleted (push_data [] sig) chs, concat (kept (push_data [] sig) chs) ++ rest).
Proof.
  intros Hwf Hsig. destruct (chunks_exist script Hwf) as (chs & rest & Hc). exists chs, rest.
  split; [done|]. split; [by apply chunks_concat|]. apply FindAndDelete_chunks; [by apply push_operation|done].
Qed.

Lemma FindAndDelete_push_witness :
  wf_bytes [2; 7; 7; 1; 7; 0xac] /\ zlen [7] < 2 ^ 32 /\
  exists chs rest, chunks [2; 7; 7; 1; 7; 0xac] chs rest /\
    FindAndDelete [2; 7; 7; 1; 7; 0xac] (push_data [] [7])
    = (deleted (push_data [] [7]) chs, concat (kept (push_data [] [7]) chs) ++ rest) /\
    FindAndDelete [2; 7; 7; 1; 7; 0xac] (push_data [] [7]) = (1, [2; 7; 7; 0xac]).
Proof.
  split; [by_decide|]. split; [vm_compute; reflexivity|].
  destruct (FindAndDelete_push [2; 7; 7; 1; 7; 0xac] [7]) as (chs & rest & H1 & _ & H2);
    [by_decide|vm_compute; reflexivity|].
  exists chs, rest. split; [exact H1|]. split; [exact H2|]. vm_compute. reflexivity.
Defined.
