(* ===== verification/StandardScripts.v ===== *)
(** What the interpreter (src/bitcoin/src/script/interpreter.cpp) makes of the
    standard output types: unspendable outputs, pay-to-pubkey-hash and
    pay-to-witness-pubkey-hash. *)

From S2P Require Import Prelude Serialize MerkleDamgard Sha2 Sha1Ripemd Hash Transaction Script PubKey Interpreter EvalSafety.

Lemma hash160_op vch : hash_op OP_HASH160 vch = Hash160 vch.
Proof. unfold Hash160. reflexivity. Qed.

#[local] Opaque hash_op Hash160.

Section Run.
Context {secp : Secp256k1} {checker : BaseSignatureChecker}.
Context (flags : Z) (v : SigVersion).

(** * Single steps *)

(** More fuel than bytes makes no difference. *)
Lemma loop_fuel fuel fuel' pc pos m (c : ConditionStack) :
  (length pc <= fuel)%nat -> (length pc <= fuel')%nat ->
  EvalScript_loop flags v fuel pc pos m c = EvalScript_loop flags v fuel' pc pos m c.
Proof.
  revert fuel' pc pos m c. induction fuel as [|fuel IH]; intros [|fuel'] [|b pc] pos m c H1 H2; try (simpl in *; lia); try done.
  cbn [EvalScript_loop]. destruct (GetScriptOp (b :: pc)) as [[[ok opcode] data] pc'] eqn:E. destruct ok; [|done].
  apply GetScriptOp_shrinks in E. cbn [negb fail_if mbind result_bind].
  destruct (fail_if _ SCRIPT_ERR_PUSH_SIZE) as [[]|]; [|done]. cbn [mbind result_bind].
  destruct (count_opcode v opcode m) as [m1|]; [|done]. cbn [mbind result_bind].
  destruct (fail_if _ SCRIPT_ERR_DISABLED_OPCODE) as [[]|]; [|done]. cbn [mbind result_bind].
  destruct (fail_if _ SCRIPT_ERR_OP_CODESEPARATOR) as [[]|]; [|done]. cbn [mbind result_bind].
  destruct (exec_instruction _ _ _ _ _ _ _ _) as [[m2 c2]|]; [|done]. cbn [mbind result_bind].
  destruct (fail_if _ SCRIPT_ERR_STACK_SIZE) as [[]|]; [|done]. cbn [mbind result_bind].
  apply IH; simpl in *; lia.
Qed.

(** The evaluation of the rest of a script outside of conditionals. *)
Definition run (pc : bytes) (pos : Z) (m : machine) : eval machine :=
  EvalScript_loop flags v (length pc) pc pos m (cond_new : ConditionStack).

Lemma run_nil pos m : run [] pos m = Ok m.
Proof. done. Qed.

Lemma run_push opcode data pc pos m :
  0 <= opcode <= op OP_PUSHDATA4 -> pushes opcode data -> zlen data <= MAX_SCRIPT_ELEMENT_SIZE ->
  (fRequireMinimal flags = true -> CheckMinimalPush data opcode = Ok true) ->
  zlen (stack m) + zlen (altstack m) < MAX_STACK_SIZE ->
  run (push_bytes opcode data ++ pc) pos m = run pc (u32 (pos + 1)) (set_stack (data :: stack m) m).
Proof.
  intros Ho Hp Hlen Hmin Hst. pose proof (GetScriptOp_push opcode data pc (proj1 Ho) Hp) as Hg.
  pose proof (GetScriptOp_shrinks _ _ _ _ Hg) as Hsh. unfold run.
  destruct (push_bytes opcode data ++ pc) as [|b s] eqn:E; [done|]. cbn [length EvalScript_loop]. rewrite Hg.
  change (op OP_PUSHDATA4) with 78 in *. unfold count_opcode. change (op OP_16) with 96.
  rewrite (proj2 (Z.ltb_ge MAX_SCRIPT_ELEMENT_SIZE _)), (proj2 (Z.ltb_ge 96 opcode)), andb_false_r by lia.
  cbn [negb fail_if mbind result_bind].
  assert (is_disabled opcode = false) as ->.
  { unfold is_disabled. apply not_true_iff_false. rewrite existsb_exists. intros (o & Hin & He). bool_props.
    repeat (destruct Hin as [<-|Hin]; [vm_compute in He; lia|]). destruct Hin. }
  change (op OP_CODESEPARATOR) with 171. rewrite (proj2 (Z.eqb_neq opcode 171)) by lia.
  cbn [andb fail_if mbind result_bind]. unfold exec_instruction. change (op OP_PUSHDATA4) with 78.
  rewrite (proj2 (Z.leb_le 0 opcode)), (proj2 (Z.leb_le opcode 78)) by lia. cbn [cond_all_true cond_new ConditionStack_ops andb].
  change (m_first_false_pos (CondStack 0 NO_FALSE) =? NO_FALSE) with true. cbn [andb].
  assert ((if fRequireMinimal flags then asserting (CheckMinimalPush data opcode) else Ok true) = Ok true) as ->.
  { destruct (fRequireMinimal flags); [|done]. by rewrite Hmin. }
  cbn [mbind result_bind negb fail_if].
  replace (MAX_STACK_SIZE <? _) with false by (symmetry; apply Z.ltb_ge; unfold zlen in *; simpl; lia).
  cbn [mbind result_bind fail_if]. apply loop_fuel; simpl in *; lia.
Qed.

(** An executed opcode without data, other than the conditionals. *)
Lemma run_op o pc pos m :
  opcode_name (op o) = Some o -> op OP_PUSHDATA4 < op o -> is_disabled (op o) = false ->
  match o with OP_IF | OP_NOTIF | OP_ELSE | OP_ENDIF | OP_CODESEPARATOR => False | _ => True end ->
  run (op o :: pc) pos m
  = m ← count_opcode v (op o) m;
    m ← exec_opcode flags v o pc pos m;
    fail_if (MAX_STACK_SIZE <? zlen (stack m) + zlen (altstack m)) SCRIPT_ERR_STACK_SIZE;;
    run pc (u32 (pos + 1)) m.
Proof.
  intros Hname Hop Hdis Ho. unfold run at 1. cbn [length EvalScript_loop GetScriptOp].
  rewrite (proj2 (Z.leb_gt _ _)) by done. cbn [negb fail_if mbind result_bind]. rewrite Hdis.
  change (MAX_SCRIPT_ELEMENT_SIZE <? zlen []) with false. cbn [fail_if mbind result_bind].
  destruct (count_opcode v (op o) m) as [m1|]; [|done]. cbn [fail_if mbind result_bind].
  assert (op o =? op OP_CODESEPARATOR = false) as -> by (by destruct o). cbn [andb fail_if mbind result_bind].
  unfold exec_instruction. rewrite (proj2 (Z.leb_gt (op o) _)) by done. rewrite andb_false_r.
  change (cond_all_true (cond_new : ConditionStack)) with true. cbn [orb]. unfold exec_switch. rewrite Hname.
  assert (forall r : eval machine,
    (x ← (m' ← r; Ok (m', cond_new : ConditionStack));
     let '(m', c') := x in
     fail_if (MAX_STACK_SIZE <? zlen (stack m') + zlen (altstack m')) SCRIPT_ERR_STACK_SIZE;;
     EvalScript_loop flags v (length pc) pc (u32 (pos + 1)) m' c')
    = m' ← r; fail_if (MAX_STACK_SIZE <? zlen (stack m') + zlen (altstack m')) SCRIPT_ERR_STACK_SIZE;;
      run pc (u32 (pos + 1)) m') as Hr by (by intros []).
  destruct o; try done; apply Hr.
Qed.

(** The same for an opcode that counts towards the limit of operations. *)
Definition counted (m : machine) : machine :=
  Machine (stack m) (altstack m) (pbegincodehash m) (nOpCount m + 1) (execdata m).

Definition plain_opcode (o : opcodetype) : bool :=
  bool_decide (opcode_name (op o) = Some o) && (op OP_16 <? op o) && negb (is_disabled (op o))
  && negb (existsb (fun o' => bool_decide (o = o')) [OP_IF; OP_NOTIF; OP_ELSE; OP_ENDIF; OP_CODESEPARATOR]).

Lemma run_counted o pc pos m :
  plain_opcode o = true -> pre_tapscript v = true -> nOpCount m < MAX_OPS_PER_SCRIPT ->
  run (op o :: pc) pos m
  = m' ← exec_opcode flags v o pc pos (counted m);
    fail_if (MAX_STACK_SIZE <? zlen (stack m') + zlen (altstack m')) SCRIPT_ERR_STACK_SIZE;;
    run pc (u32 (pos + 1)) m'.
Proof.
  unfold plain_opcode. intros H Hv Hn. bool_props. apply bool_decide_eq_true in H.
  change (op OP_16) with 96 in *. rewrite run_op; [|done|change (op OP_PUSHDATA4) with 78; lia|done|by destruct o].
  unfold count_opcode. rewrite Hv, (proj2 (Z.ltb_lt (op OP_16) _)) by (change (op OP_16) with 96; lia).
  rewrite (proj2 (Z.ltb_ge MAX_OPS_PER_SCRIPT _)) by lia. done.
Qed.

Lemma run_step o pc pos m m' :
  plain_opcode o = true -> pre_tapscript v = true -> nOpCount m < MAX_OPS_PER_SCRIPT ->
  exec_opcode flags v o pc pos (counted m) = Ok m' -> zlen (stack m') + zlen (altstack m') <= MAX_STACK_SIZE ->
  run (op o :: pc) pos m = run pc (u32 (pos + 1)) m'.
Proof.
  intros Ho Hv Hn He Hl. rewrite run_counted, He by done. cbn [mbind result_bind].
  by rewrite (proj2 (Z.ltb_ge _ _)) by done.
Qed.

Lemma run_error o pc pos m e :
  plain_opcode o = true -> pre_tapscript v = true -> nOpCount m < MAX_OPS_PER_SCRIPT ->
  exec_opcode flags v o pc pos (counted m) = Err e -> run (op o :: pc) pos m = Err e.
Proof. intros Ho Hv Hn He. by rewrite run_counted, He by done. Qed.

(** * Pay to public key hash *)

(** [DUP HASH160 <h> EQUALVERIFY CHECKSIG] on a stack with a key and a signature:
    the key is hashed and compared, then the signature is checked. *)
Lemma run_p2pkh h pk sig code d :
  v = BASE \/ v = WITNESS_V0 -> zlen h = 20 ->
  run (p2wpkh_script h) 0 (Machine [pk; sig] [] code 0 d)
  = if bool_decide (Hash160 pk = h) then
      b ← EvalChecksigPreTapscript flags v sig pk code;
      Ok (Machine [vchBool b] [] code 4 d)
    else set_error SCRIPT_ERR_EQUALVERIFY.
Proof.
  intros Hv Hh. assert (pre_tapscript v = true) as Hpre by (by destruct Hv; subst).
  assert (p2wpkh_script h = op OP_DUP :: op OP_HASH160 :: push_bytes 20 h ++ [op OP_EQUALVERIFY; op OP_CHECKSIG]) as ->.
  { unfold p2wpkh_script, push_data, push_bytes. rewrite Hh. reflexivity. }
  erewrite run_step by (done || reflexivity). erewrite run_step; [|done|done|done| |].
  2: { unfold counted. cbn [exec_opcode exec_compute stack set_stack mbind result_bind]. reflexivity. }
  2: done.
  rewrite hash160_op.
  rewrite run_push; [|done|done|rewrite Hh; done|intros _|done].
  2: { unfold CheckMinimalPush. rewrite Hh. reflexivity. }
  cbn [set_stack stack altstack pbegincodehash nOpCount execdata counted].
  destruct (decide (Hash160 pk = h)) as [E|E].
  - rewrite bool_decide_true by done. erewrite run_step; [|done|done|done| |].
    2: { unfold counted. cbn [exec_opcode exec_compute stack set_stack mbind result_bind].
         rewrite (bool_decide_true (Hash160 pk = h)) by done. reflexivity. }
    2: done.
    rewrite run_counted by done. unfold counted.
    cbn [set_stack stack altstack pbegincodehash nOpCount execdata exec_opcode exec_checksig].
    assert (EvalChecksig flags v sig pk code d = (b ← EvalChecksigPreTapscript flags v sig pk code; Ok (b, d))) as ->
      by (by destruct Hv; subst).
    destruct (EvalChecksigPreTapscript flags v sig pk code) as [b|]; [|done].
    cbn [mbind result_bind]. rewrite bool_decide_false by done. reflexivity.
  - rewrite bool_decide_false by done. apply run_error; [done|done|done|]. unfold counted.
    cbn [exec_opcode exec_compute set_stack stack altstack pbegincodehash nOpCount execdata mbind result_bind]. by rewrite (bool_decide_false (Hash160 pk = h)) by done.
Qed.

Lemma eval_run st script d :
  pre_tapscript v = true -> zlen script <= MAX_SCRIPT_SIZE ->
  EvalScript flags v st script d
  = m ← with_serror SCRIPT_ERR_UNKNOWN_ERROR (run script 0 (Machine st [] script 0 (set_codeseparator 0xFFFFFFFF d)));
    Ok (stack m, execdata m).
Proof.
  intros Hv Hl. unfold EvalScript, EvalScript_with. rewrite Hv. cbn [orb script_assert mbind result_bind].
  by rewrite (proj2 (Z.ltb_ge _ _)) by done.
Qed.

End Run.

(** * Whole spends *)

Section Spends.
Context {secp : Secp256k1} {checker : BaseSignatureChecker}.
Context (flags : Z).

Lemma with_serror_ok {A} e (r : eval A) a : with_serror e r = Ok a <-> r = Ok a.
Proof. by destruct r as [|[]]. Qed.

(** The checks after the evaluation of the scripts. *)
Lemma final_checks (st : list bytes) (had : bool) (w : list bytes) :
  flags_ok flags = true -> zlen st = 1 -> (had = true \/ w = []) ->
  ((if has flags SCRIPT_VERIFY_CLEANSTACK then
      script_assert (has flags SCRIPT_VERIFY_P2SH) "CLEANSTACK requires P2SH";;
      script_assert (has flags SCRIPT_VERIFY_WITNESS) "CLEANSTACK requires WITNESS";;
      fail_if (negb (zlen st =? 1)) SCRIPT_ERR_CLEANSTACK
    else Ok ());;
   if has flags SCRIPT_VERIFY_WITNESS then
     script_assert (has flags SCRIPT_VERIFY_P2SH) "WITNESS requires P2SH";;
     fail_if (negb had && negb (bool_decide (w = []))) SCRIPT_ERR_WITNESS_UNEXPECTED
   else Ok ()) = Ok ().
Proof.
  unfold flags_ok. intros [H1 H2]%andb_prop Hst Hw. rewrite Hst.
  assert (negb had && negb (bool_decide (w = [])) = false) as -> by (destruct Hw as [->| ->]; [done|by rewrite andb_false_r]).
  destruct (has flags SCRIPT_VERIFY_CLEANSTACK); simpl in H1.
  - apply andb_prop in H1 as [-> ->]. done.
  - destruct (has flags SCRIPT_VERIFY_WITNESS); [|done]. simpl in H2. by rewrite H2.
Qed.

Lemma CastToBool_vchBool b : CastToBool (vchBool b) = b.
Proof. by destruct b. Qed.

Lemma CheckMinimalPush_hash h : zlen h = 20 -> CheckMinimalPush h 20 = Ok true.
Proof. intros E. unfold CheckMinimalPush. by rewrite E. Qed.

Lemma eval_p2wpkh_program h :
  zlen h = 20 -> eval_base flags [] (op OP_0 :: 20 :: h) = Ok [h; []].
Proof.
  intros Hh. unfold eval_base. rewrite eval_run; [|done|unfold zlen in *; simpl; unfold MAX_SCRIPT_SIZE; lia].
  change (op OP_0 :: 20 :: h) with (push_bytes 0 [] ++ push_bytes 20 h). rewrite <- (app_nil_r (push_bytes 20 h)).
  rewrite run_push by done. rewrite run_push; [|done|done|by rewrite Hh|intros _; by apply CheckMinimalPush_hash|done].
  reflexivity.
Qed.

Lemma p2wpkh_is_program h : zlen h = 20 -> IsWitnessProgram (op OP_0 :: 20 :: h) = Some (0, h).
Proof.
  intros Hh. unfold IsWitnessProgram. assert (zlen (op OP_0 :: 20 :: h) = 22) as -> by (unfold zlen in *; simpl; lia).
  done.
Qed.

Lemma zlen_p2pkh h : zlen h = 20 -> zlen (p2wpkh_script h) = 25.
Proof.
  intros Hh. unfold p2wpkh_script, push_data. rewrite Hh. unfold zlen in *. rewrite !length_app. simpl. lia.
Qed.

Lemma eval_p2pkh v h pk sig d r :
  v = BASE \/ v = WITNESS_V0 -> zlen h = 20 ->
  EvalScript flags v [pk; sig] (p2wpkh_script h) d = Ok r <->
  Hash160 pk = h /\ exists b,
    EvalChecksigPreTapscript flags v sig pk (p2wpkh_script h) = Ok b /\
    r = ([vchBool b], set_codeseparator 0xFFFFFFFF d).
Proof.
  intros Hv Hh. rewrite eval_run; [|by destruct Hv; subst|by rewrite zlen_p2pkh].
  rewrite run_p2pkh by done. destruct (decide (Hash160 pk = h)) as [E|E].
  - rewrite bool_decide_true by done. destruct (EvalChecksigPreTapscript _ _ _ _ _) as [b|e].
    + cbn [mbind result_bind with_serror stack execdata]. split; [intros [= <-]; eauto|]. by intros (_ & ? & [= <-] & ->).
    + split; [by destruct e|]. by intros (_ & ? & [=] & _).
  - rewrite bool_decide_false by done. split; [done|]. by intros [? _].
Qed.

Lemma execute_p2pkh h pk sig :
  zlen h = 20 ->
  ExecuteWitnessScript flags [pk; sig] (p2wpkh_script h) WITNESS_V0 ExecData_default = Ok () <->
  zlen sig <= MAX_SCRIPT_ELEMENT_SIZE /\ zlen pk <= MAX_SCRIPT_ELEMENT_SIZE /\ Hash160 pk = h /\
  EvalChecksigPreTapscript flags WITNESS_V0 sig pk (p2wpkh_script h) = Ok true.
Proof.
  intros Hh. unfold ExecuteWitnessScript. change (is_version WITNESS_V0 TAPSCRIPT) with false.
  cbn [mbind result_bind existsb].
  pose proof (fun r => eval_p2pkh WITNESS_V0 h pk sig ExecData_default r ltac:(by right) Hh) as He.
  destruct (Z.ltb_spec MAX_SCRIPT_ELEMENT_SIZE (zlen pk)); [split; [done|lia]|].
  destruct (Z.ltb_spec MAX_SCRIPT_ELEMENT_SIZE (zlen sig)); [split; [done|lia]|]. cbn [orb fail_if mbind result_bind].
  destruct (EvalScript _ _ _ _ _) as [r|e].
  - destruct (proj1 (He r) eq_refl) as (E & b & Eb & ->). cbn [mbind result_bind]. rewrite CastToBool_vchBool, Eb.
    destruct b; split; try done. by intros (_ & _ & _ & [=]).
  - split; [done|]. intros (_ & _ & E & Eb).
    discriminate (proj2 (He ([vchBool true], set_codeseparator 0xFFFFFFFF ExecData_default))).
    split; [done|]. eauto.
Qed.

End Spends.

(** C32: pay to witness public key hash is exact.  With segregated witness in force,
    an output [OP_0 <h>] with a 20-byte [h] is spent by an empty scriptSig and the
    witness [sig, pk] exactly when [h] is true as a number (the all-zero hash, also
    with its sign bit set, is unspendable), both items have at most 520 bytes, the
    key hashes to [h] and the signature passes the checks of [OP_CHECKSIG] for the
    implied P2PKH script. *)
Theorem p2wpkh_exact `{Secp256k1} `{BaseSignatureChecker} flags h sig pk :
  flags_ok flags = true -> has flags SCRIPT_VERIFY_WITNESS = true -> zlen h = 20 ->
  VerifyScript flags [] (op OP_0 :: 20 :: h) [sig; pk] = Ok () <->
  CastToBool h = true /\ zlen sig <= MAX_SCRIPT_ELEMENT_SIZE /\ zlen pk <= MAX_SCRIPT_ELEMENT_SIZE /\
  Hash160 pk = h /\ EvalChecksigPreTapscript flags WITNESS_V0 sig pk (p2wpkh_script h) = Ok true.
Proof.
  intros Hf Hw Hh. rewrite <- execute_p2pkh by done. unfold VerifyScript.
  change (IsPushOnly []) with true. rewrite andb_false_r. cbn [fail_if mbind result_bind].
  change (eval_base flags [] []) with (Ok [] : eval (list bytes)). cbn [mbind result_bind].
  rewrite eval_p2wpkh_program by done. cbn [mbind result_bind check_true].
  destruct (CastToBool h); [|by split; [|intros [[=] _]]]. cbn [negb fail_if mbind result_bind].
  unfold verify_program. rewrite Hw, p2wpkh_is_program by done.
  change (zlen [] =? 0) with true. cbn [negb fail_if mbind result_bind]. unfold VerifyWitnessProgram. rewrite Hh.
  change (0 =? 0) with true. change (20 =? WITNESS_V0_SCRIPTHASH_SIZE) with false.
  change (20 =? WITNESS_V0_KEYHASH_SIZE) with true. cbn [rev app].
  change (zlen [pk; sig] =? 2) with true. cbn [negb fail_if mbind result_bind].
  destruct (ExecuteWitnessScript _ _ _ _ _) as [[]|e]; [|by split; [|intros [_ [=]]]]. cbn [mbind result_bind].
  assert (IsPayToScriptHash (op OP_0 :: 20 :: h) = false) as -> by (unfold IsPayToScriptHash; by destruct (_ =? 23)).
  rewrite andb_false_r. cbn [mbind result_bind]. split; [done|]. intros _.
  pose proof (final_checks flags [[]] true [sig; pk] Hf eq_refl ltac:(by left)) as Hfin. by rewrite Hw in Hfin.
Qed.

(** A checker that accepts every signature and lock time. *)
Definition accepting_checker : BaseSignatureChecker := {|
  CheckECDSASignature := fun _ _ _ _ => Ok true;
  CheckSchnorrSignature := fun _ _ _ d => Ok d;
  CheckLockTime := fun _ => true;
  CheckSequence := fun _ => true
|}.

Definition sample_key : bytes := 2 :: replicate 32 7.

Lemma p2wpkh_exact_witness :
  @VerifyScript accepting_secp accepting_checker (Z.lor SCRIPT_VERIFY_P2SH SCRIPT_VERIFY_WITNESS)
    [] (op OP_0 :: 20 :: Hash160 sample_key) [[1; 2; 3]; sample_key] = Ok ().
Proof.
  apply (@p2wpkh_exact accepting_secp accepting_checker); [reflexivity|reflexivity|vm_compute; reflexivity|].
  repeat split; vm_compute; discriminate || reflexivity.
Defined.

Section P2PKH.
Context {secp : Secp256k1} {checker : BaseSignatureChecker}.
Context (flags : Z) (sig pk h : bytes).
Context (Hsig : zlen sig <= MAX_SCRIPT_ELEMENT_SIZE) (Hpk : zlen pk <= MAX_SCRIPT_ELEMENT_SIZE) (Hh : zlen h = 20).
Context (Hmin : small_number sig || small_number pk = false).

Definition p2pkh_input : bytes := push_data [] sig ++ push_data [] pk.

Lemma best_minimal data : small_number data = false -> zlen data < 2 ^ 32 -> CheckMinimalPush data (best_opcode data) = Ok true.
Proof.
  intros Hs Hl. destruct (best_opcode_pushes data Hl) as [[H0 H1] Hp].
  rewrite CheckMinimalPush_best by done. by rewrite bool_decide_true, Hs by done.
Qed.

Lemma small_size (data : bytes) : zlen data <= MAX_SCRIPT_ELEMENT_SIZE -> zlen data < 2 ^ 32.
Proof. unfold MAX_SCRIPT_ELEMENT_SIZE. lia. Qed.

Lemma eval_p2pkh_input : eval_base flags [] p2pkh_input = Ok [pk; sig].
Proof.
  apply orb_false_elim in Hmin as [Hm1 Hm2].
  pose proof (small_size _ Hsig) as Hs1. pose proof (small_size _ Hpk) as Hs2.
  destruct (best_opcode_pushes sig Hs1) as [Ho1 Hp1]. destruct (best_opcode_pushes pk Hs2) as [Ho2 Hp2].
  unfold p2pkh_input, eval_base. rewrite !push_data_best by done. rewrite eval_run; [|done|].
  2: { unfold push_bytes, zlen, MAX_SCRIPT_ELEMENT_SIZE, MAX_SCRIPT_SIZE in *. rewrite !length_app. simpl.
       rewrite !length_app, !length_le_bytes. unfold length_field. repeat case_match; lia. }
  rewrite <- (app_nil_r (push_bytes (best_opcode pk) pk)).
  rewrite run_push by (done || (intros _; by apply best_minimal)).
  rewrite run_push by (done || (intros _; by apply best_minimal)). reflexivity.
Qed.

Lemma p2pkh_input_push_only : IsPushOnly p2pkh_input = true.
Proof.
  pose proof (small_size _ Hsig) as Hs1. pose proof (small_size _ Hpk) as Hs2.
  destruct (best_opcode_pushes sig Hs1) as [Ho1 Hp1]. destruct (best_opcode_pushes pk Hs2) as [Ho2 Hp2].
  assert (parses p2pkh_input [(best_opcode sig, sig); (best_opcode pk, pk)] []) as Hp.
  { unfold p2pkh_input. rewrite !push_data_best by done. rewrite <- (app_nil_r (push_bytes (best_opcode pk) pk)).
    econstructor; [apply GetScriptOp_push; [apply Ho1|done]|].
    econstructor; [apply GetScriptOp_push; [apply Ho2|done]|]. constructor. }
  unfold IsPushOnly. rewrite (IsPushOnly_loop_parses _ _ _ _ Hp) by done. simpl.
  change (op OP_16) with 96. change (op OP_PUSHDATA4) with 78 in *. rewrite !(proj2 (Z.leb_le _ 96)) by lia. done.
Qed.

Lemma p2pkh_no_program : IsWitnessProgram (p2wpkh_script h) = None /\ IsPayToScriptHash (p2wpkh_script h) = false.
Proof.
  pose proof (zlen_p2pkh h Hh) as El. unfold IsWitnessProgram, IsPayToScriptHash. by rewrite El.
Qed.

End P2PKH.

(** Pay to public key hash is exact.  An output [DUP HASH160 <h> EQUALVERIFY
    CHECKSIG] is spent by a scriptSig that pushes [sig] and [pk] (of at most 520
    bytes, neither a single byte that would need a number opcode), and no witness,
    exactly when the key hashes to [h] and the signature passes the checks of
    [OP_CHECKSIG], under every combination of flags that the code allows. *)
Theorem p2pkh_exact `{Secp256k1} `{BaseSignatureChecker} flags sig pk h :
  flags_ok flags = true -> zlen sig <= MAX_SCRIPT_ELEMENT_SIZE -> zlen pk <= MAX_SCRIPT_ELEMENT_SIZE -> zlen h = 20 ->
  small_number sig || small_number pk = false ->
  VerifyScript flags (p2pkh_input sig pk) (p2wpkh_script h) [] = Ok () <->
  Hash160 pk = h /\ EvalChecksigPreTapscript flags BASE sig pk (p2wpkh_script h) = Ok true.
Proof.
  intros Hf Hsig Hpk Hh Hmin. unfold VerifyScript. rewrite p2pkh_input_push_only by done. rewrite andb_false_r.
  cbn [fail_if mbind result_bind]. rewrite eval_p2pkh_input by done. cbn [mbind result_bind].
  pose proof (fun r => eval_p2pkh flags BASE h pk sig ExecData_default r ltac:(by left) Hh) as He.
  unfold eval_base. destruct (EvalScript _ _ _ _ _) as [r|e].
  - destruct (proj1 (He r) eq_refl) as (E & b & Eb & ->). cbn [mbind result_bind check_true].
    rewrite CastToBool_vchBool, Eb. destruct b; [|by split; [|intros [_ [=]]]]. cbn [negb fail_if mbind result_bind].
    unfold verify_program. destruct (p2pkh_no_program h Hh) as [-> ->]. rewrite andb_false_r.
    split; [done|]. intros _.
    pose proof (final_checks flags [vchBool true] false [] Hf eq_refl ltac:(by right)) as Hfin.
    by destruct (has flags SCRIPT_VERIFY_WITNESS).
  - split; [done|]. intros (E & Eb).
    discriminate (proj2 (He ([vchBool true], set_codeseparator 0xFFFFFFFF ExecData_default))).
    split; [done|]. eauto.
Qed.

Lemma p2pkh_exact_witness :
  @VerifyScript accepting_secp accepting_checker (Z.lor SCRIPT_VERIFY_P2SH SCRIPT_VERIFY_MINIMALDATA)
    (p2pkh_input [1; 2; 3] sample_key) (p2wpkh_script (Hash160 sample_key)) [] = Ok ().
Proof.
  apply (@p2pkh_exact accepting_secp accepting_checker); [reflexivity|vm_compute; discriminate|vm_compute; discriminate|
    vm_compute; reflexivity|reflexivity|].
  split; vm_compute; reflexivity.
Defined.

(** The outputs that the coin database drops as unspendable are unspendable: if
    [IsUnspendable] holds of a scriptPubKey (it starts with [OP_RETURN] or is longer
    than 10000 bytes), no scriptSig, witness, flags, transaction or curve library
    make [VerifyScript] succeed. *)
Theorem unspendable_rejected `{Secp256k1} `{BaseSignatureChecker} flags scriptSig scriptPubKey witness :
  IsUnspendable scriptPubKey = true -> VerifyScript flags scriptSig scriptPubKey witness <> Ok ().
Proof.
  intros Hu Hok. unfold VerifyScript in Hok.
  apply result_bind_inv in Hok as (? & _ & (stc & _ & (st & Hst & _)%result_bind_inv)%result_bind_inv).
  unfold eval_base in Hst. apply result_bind_inv in Hst as (r & Hr & _).
  destruct (Z.le_gt_cases (zlen scriptPubKey) MAX_SCRIPT_SIZE) as [Hl|Hl].
  - rewrite eval_run in Hr by done. unfold IsUnspendable in Hu. rewrite (proj2 (Z.ltb_ge _ _)) in Hu by done.
    destruct scriptPubKey as [|b pk]; [done|]. rewrite orb_false_r in Hu. bool_props. subst b.
    by rewrite (run_error flags BASE OP_RETURN pk 0 _ (ScriptErr SCRIPT_ERR_OP_RETURN)) in Hr.
  - unfold EvalScript, EvalScript_with in Hr. by rewrite (proj2 (Z.ltb_lt _ _)) in Hr.
Qed.

Lemma unspendable_rejected_witness :
  IsUnspendable [op OP_RETURN; 1; 7] = true /\
  @VerifyScript accepting_secp accepting_checker 0 [1; 1] [op OP_RETURN; 1; 7] [] <> Ok ().
Proof. split; [reflexivity|]. by apply (@unspendable_rejected accepting_secp accepting_checker). Defined.
