(* ===== verification/SigHash.v ===== *)
(** Signature hashes and the signature checker of a transaction
    (src/bitcoin/src/script/interpreter.cpp): the legacy hash, BIP143, BIP341,
    the precomputed data, and [GenericTransactionSignatureChecker].  The
    reference for the legacy hash is [SignatureHashOld] of
    src/bitcoin/src/test/sighash_tests.cpp. *)

From S2P Require Import Prelude Serialize MerkleDamgard Sha2 Sha1Ripemd Hash Transaction Script PubKey Interpreter EvalSafety Multisig.

(** * The legacy hash *)

(** A [HashWriter] that is written several times. *)
Definition HashWriter_stream (ss : CSHA256) (chunks : list bytes) : CSHA256 := foldl HashWriter_write ss chunks.

(** The first loop of [SerializeScriptCode]. *)
Fixpoint count_separators (fuel : nat) (it : bytes) (nCodeSeparators : Z) : Z :=
  match fuel with
  | O => nCodeSeparators
  | S fuel =>
      let '(ok, opcode, _, it) := GetScriptOp it in
      if ok : bool
      then count_separators fuel it (if opcode =? op OP_CODESEPARATOR then u32 (nCodeSeparators + 1) else nCodeSeparators)
      else nCodeSeparators
  end.

(** The second loop: what is written, [itBegin] and [it] at its end. *)
Fixpoint write_code (fuel : nat) (itBegin it out : bytes) : bytes * bytes * bytes :=
  match fuel with
  | O => (out, itBegin, it)
  | S fuel =>
      let '(ok, opcode, _, it) := GetScriptOp it in
      if ok : bool then
        if opcode =? op OP_CODESEPARATOR
        then write_code fuel it it (out ++ take (length itBegin - length it - 1) itBegin)
        else write_code fuel itBegin it out
      else (out, itBegin, it)
  end.

Definition SerializeScriptCode (scriptCode : bytes) : bytes :=
  let nCodeSeparators := count_separators (S (length scriptCode)) scriptCode 0 in
  let '(out, itBegin, it) := write_code (S (length scriptCode)) scriptCode scriptCode [] in
  WriteCompactSize (zlen scriptCode - nCodeSeparators)
  ++ out ++ (match itBegin with [] => [] | _ => between itBegin it end).

Section Serializer.
(** The members of [CTransactionSignatureSerializer]. *)
Context (txTo : CTransaction) (scriptCode : bytes) (nIn : nat) (nHashType : Z).

Definition fAnyoneCanPay : bool := negb (Z.land nHashType SIGHASH_ANYONECANPAY =? 0).
Definition fHashSingle : bool := Z.land nHashType 0x1f =? SIGHASH_SINGLE.
Definition fHashNone : bool := Z.land nHashType 0x1f =? SIGHASH_NONE.

(** [txTo.vin[i]]; the callers stay within the range. *)
Definition vin_at (i : nat) : CTxIn := nth i (vin txTo) (TxIn (OutPoint uint256_null NULL_INDEX) [] SEQUENCE_FINAL []).
Definition vout_at (i : nat) : CTxOut := nth i (vout txTo) CTxOut_null.

Definition SerializeInput (nInput : nat) : bytes :=
  let nInput := if fAnyoneCanPay then nIn else nInput in
  ser_outpoint (prevout (vin_at nInput))
  ++ (if negb (nInput =? nIn)%nat then ser_byte_vector [] else SerializeScriptCode scriptCode)
  ++ (if negb (nInput =? nIn)%nat && (fHashSingle || fHashNone) then ser_int32 0
      else ser_writedata32 (nSequence (vin_at nInput))).

Definition SerializeOutput (nOutput : nat) : bytes :=
  if fHashSingle && negb (nOutput =? nIn)%nat then ser_txout CTxOut_null else ser_txout (vout_at nOutput).

Definition SignatureSerializer_Serialize : bytes :=
  let nInputs := if fAnyoneCanPay then 1%nat else length (vin txTo) in
  let nOutputs := if fHashNone then 0%nat else if fHashSingle then (nIn + 1)%nat else length (vout txTo) in
  ser_writedata32 (version txTo)
  ++ WriteCompactSize (Z.of_nat nInputs) ++ flat_map SerializeInput (seq 0 nInputs)
  ++ WriteCompactSize (Z.of_nat nOutputs) ++ flat_map SerializeOutput (seq 0 nOutputs)
  ++ ser_writedata32 (nLockTime txTo).

End Serializer.

Definition uint256_ONE : bytes := 1 :: replicate 31 0.

(** * Precomputed data *)

Record PrecomputedTransactionData := Precomputed {
  m_prevouts_single_hash : bytes;
  m_sequences_single_hash : bytes;
  m_outputs_single_hash : bytes;
  m_spent_amounts_single_hash : bytes;
  m_spent_scripts_single_hash : bytes;
  m_bip341_taproot_ready : bool;
  hashPrevouts : bytes;
  hashSequence : bytes;
  hashOutputs : bytes;
  m_bip143_segwit_ready : bool;
  m_spent_outputs : list CTxOut;
  m_spent_outputs_ready : bool
}.

Definition Precomputed_default : PrecomputedTransactionData :=
  Precomputed uint256_null uint256_null uint256_null uint256_null uint256_null false
    uint256_null uint256_null uint256_null false [] false.

Definition GetPrevoutsSHA256 (txTo : CTransaction) : bytes :=
  HashWriter_GetSHA256 (HashWriter_stream CSHA256_new (ser_outpoint ∘ prevout <$> vin txTo)).
Definition GetSequencesSHA256 (txTo : CTransaction) : bytes :=
  HashWriter_GetSHA256 (HashWriter_stream CSHA256_new (ser_writedata32 ∘ nSequence <$> vin txTo)).
Definition GetOutputsSHA256 (txTo : CTransaction) : bytes :=
  HashWriter_GetSHA256 (HashWriter_stream CSHA256_new (ser_txout <$> vout txTo)).
Definition GetSpentAmountsSHA256 (outputs_spent : list CTxOut) : bytes :=
  HashWriter_GetSHA256 (HashWriter_stream CSHA256_new (ser_int64 ∘ nValue <$> outputs_spent)).
Definition GetSpentScriptsSHA256 (outputs_spent : list CTxOut) : bytes :=
  HashWriter_GetSHA256 (HashWriter_stream CSHA256_new (ser_byte_vector ∘ scriptPubKey <$> outputs_spent)).

(** The loop over the inputs: [uses_bip143_segwit] and [uses_bip341_taproot]. *)
Fixpoint scan_inputs (ready : bool) (spent : list CTxOut) (ins : list CTxIn) (segwit taproot : bool) : bool * bool :=
  match ins with
  | [] => (segwit, taproot)
  | i :: ins =>
      if segwit && taproot then (segwit, taproot)
      else
        let script := match spent with o :: _ => scriptPubKey o | [] => [] end in
        let '(segwit, taproot) :=
          if bool_decide (scriptWitness i = []) then (segwit, taproot)
          else if ready && (zlen script =? 2 + WITNESS_V1_TAPROOT_SIZE) && (byte_at script 0 =? op OP_1)
          then (segwit, true) else (true, taproot) in
        scan_inputs ready (drop 1 spent) ins segwit taproot
  end.

(** [PrecomputedTransactionData::Init] on a default object. *)
Definition Precomputed_Init (txTo : CTransaction) (spent_outputs : list CTxOut) (force : bool)
    : result string PrecomputedTransactionData :=
  let ready := negb (bool_decide (spent_outputs = [])) in
  if ready && negb (bool_decide (length spent_outputs = length (vin txTo)))
  then Err "assertion: m_spent_outputs.size() == txTo.vin.size()"
  else
    let '(segwit, taproot) := scan_inputs ready spent_outputs (vin txTo) force force in
    let either := segwit || taproot in
    let prevouts := if either then GetPrevoutsSHA256 txTo else uint256_null in
    let sequences := if either then GetSequencesSHA256 txTo else uint256_null in
    let outputs := if either then GetOutputsSHA256 txTo else uint256_null in
    Ok (Precomputed prevouts sequences outputs
          (if taproot && ready then GetSpentAmountsSHA256 spent_outputs else uint256_null)
          (if taproot && ready then GetSpentScriptsSHA256 spent_outputs else uint256_null)
          (taproot && ready)
          (if segwit then SHA256Uint256 prevouts else uint256_null)
          (if segwit then SHA256Uint256 sequences else uint256_null)
          (if segwit then SHA256Uint256 outputs else uint256_null)
          segwit spent_outputs ready).

(** * [SignatureHash] *)

Definition SignatureHash (scriptCode : bytes) (txTo : CTransaction) (nIn : nat) (nHashType amount : Z)
    (sigversion : SigVersion) (cache : option PrecomputedTransactionData) : eval bytes :=
  script_assert (nIn <? length (vin txTo))%nat "nIn < txTo.vin.size()";;
  if is_version sigversion WITNESS_V0 then
    let ready := match cache with Some c => if m_bip143_segwit_ready c then Some c else None | None => None end in
    let anyone := fAnyoneCanPay nHashType in
    let plain := negb (fHashSingle nHashType) && negb (fHashNone nHashType) in
    let prevouts := if negb anyone
                    then match ready with Some c => hashPrevouts c | None => SHA256Uint256 (GetPrevoutsSHA256 txTo) end
                    else uint256_null in
    let sequence := if negb anyone && plain
                    then match ready with Some c => hashSequence c | None => SHA256Uint256 (GetSequencesSHA256 txTo) end
                    else uint256_null in
    let outputs := if plain
                   then match ready with Some c => hashOutputs c | None => SHA256Uint256 (GetOutputsSHA256 txTo) end
                   else if fHashSingle nHashType && (nIn <? length (vout txTo))%nat
                   then HashWriter_GetHash (HashWriter_write CSHA256_new (ser_txout (vout_at txTo nIn)))
                   else uint256_null in
    Ok (HashWriter_GetHash (HashWriter_stream CSHA256_new
          [ser_writedata32 (version txTo); ser_hash prevouts; ser_hash sequence;
           ser_outpoint (prevout (vin_at txTo nIn)); ser_byte_vector scriptCode; ser_int64 amount;
           ser_writedata32 (nSequence (vin_at txTo nIn)); ser_hash outputs; ser_writedata32 (nLockTime txTo);
           ser_int32 nHashType]))
  else if fHashSingle nHashType && (length (vout txTo) <=? nIn)%nat then Ok uint256_ONE
  else
    Ok (HashWriter_GetHash (HashWriter_stream CSHA256_new
          [SignatureSerializer_Serialize txTo scriptCode nIn nHashType; ser_int32 nHashType])).

(** The old [SignatureHash]. *)
Definition clear_sequences (nIn : nat) (ins : list CTxIn) : list CTxIn :=
  imap (fun i inp => if (i =? nIn)%nat then inp else TxIn (prevout inp) (scriptSig inp) 0 (scriptWitness inp)) ins.

Definition SignatureHashOld (scriptCode : bytes) (txTo : CTransaction) (nIn : nat) (nHashType : Z) : bytes :=
  if (length (vin txTo) <=? nIn)%nat then uint256_ONE
  else
    let scriptCode := (FindAndDelete scriptCode [op OP_CODESEPARATOR]).2 in
    let ins := imap (fun i inp => TxIn (prevout inp) (if (i =? nIn)%nat then scriptCode else []) (nSequence inp) (scriptWitness inp))
                 (vin txTo) in
    let blanked :=
      if Z.land nHashType 0x1f =? SIGHASH_NONE then Some (clear_sequences nIn ins, [])
      else if Z.land nHashType 0x1f =? SIGHASH_SINGLE then
        if (length (vout txTo) <=? nIn)%nat then None
        else Some (clear_sequences nIn ins,
                   imap (fun i o => if (i <? nIn)%nat then CTxOut_null else o) (take (nIn + 1) (vout txTo)))
      else Some (ins, vout txTo) in
    match blanked with
    | None => uint256_ONE
    | Some (ins, outs) =>
        let ins := if negb (Z.land nHashType SIGHASH_ANYONECANPAY =? 0) then take 1 (drop nIn ins) else ins in
        HashWriter_GetHash (HashWriter_stream CSHA256_new
          [SerializeTransaction false (Tx ins outs (version txTo) (nLockTime txTo)); ser_int32 nHashType])
    end.

(** * BIP341 *)

Inductive MissingDataBehavior := ASSERT_FAIL | FAIL.

(** [None]: [return false]. *)
Definition HandleMissingData (mdb : MissingDataBehavior) : eval () :=
  match mdb with
  | ASSERT_FAIL => Err (Abort "Missing data")
  | FAIL => Ok ()
  end.

Definition HASHER_TAPSIGHASH : CSHA256 := TaggedHash (to_bytes "TapSighash").

(** The hash and the execution data, or [None] where the function returns false. *)
Definition SignatureHashSchnorr (execdata : ScriptExecutionData) (tx_to : CTransaction) (in_pos : nat) (hash_type : Z)
    (sigversion : SigVersion) (cache : PrecomputedTransactionData) (mdb : MissingDataBehavior)
    : eval (option (bytes * ScriptExecutionData)) :=
  ext_flag ← (match sigversion with TAPROOT => Ok 0 | TAPSCRIPT => Ok 1 | _ => Err (Abort "false") end);
  script_assert (in_pos <? length (vin tx_to))%nat "in_pos < tx_to.vin.size()";;
  if negb (m_bip341_taproot_ready cache && m_spent_outputs_ready cache) then HandleMissingData mdb;; Ok None
  else
    let output_type := if hash_type =? SIGHASH_DEFAULT then SIGHASH_ALL else Z.land hash_type SIGHASH_OUTPUT_MASK in
    let input_type := Z.land hash_type SIGHASH_INPUT_MASK in
    if negb ((hash_type <=? 0x03) || ((0x81 <=? hash_type) && (hash_type <=? 0x83))) then Ok None
    else
      script_assert (m_annex_init execdata) "execdata.m_annex_init";;
      let have_annex := m_annex_present execdata in
      let spend_type := Z.shiftl ext_flag 1 + (if have_annex then 1 else 0) in
      if (output_type =? SIGHASH_SINGLE) && (length (vout tx_to) <=? in_pos)%nat then Ok None
      else
        let execdata :=
          if output_type =? SIGHASH_SINGLE then
            match m_output_hash execdata with
            | Some _ => execdata
            | None => set_output_hash (HashWriter_GetSHA256 (HashWriter_write CSHA256_new (ser_txout (vout_at tx_to in_pos)))) execdata
            end
          else execdata in
        (if is_version sigversion TAPSCRIPT then
           script_assert (m_tapleaf_hash_init execdata) "execdata.m_tapleaf_hash_init";;
           script_assert (m_codeseparator_pos_init execdata) "execdata.m_codeseparator_pos_init"
         else Ok ());;
        Ok (Some (HashWriter_GetSHA256 (HashWriter_stream HASHER_TAPSIGHASH
          ([ser_writedata8 0; ser_writedata8 hash_type; ser_writedata32 (version tx_to); ser_writedata32 (nLockTime tx_to)]
           ++ (if negb (input_type =? SIGHASH_ANYONECANPAY)
               then [m_prevouts_single_hash cache; m_spent_amounts_single_hash cache;
                     m_spent_scripts_single_hash cache; m_sequences_single_hash cache] else [])
           ++ (if output_type =? SIGHASH_ALL then [m_outputs_single_hash cache] else [])
           ++ [ser_writedata8 spend_type]
           ++ (if input_type =? SIGHASH_ANYONECANPAY
               then [ser_outpoint (prevout (vin_at tx_to in_pos)); ser_txout (nth in_pos (m_spent_outputs cache) CTxOut_null);
                     ser_writedata32 (nSequence (vin_at tx_to in_pos))]
               else [ser_writedata32 (Z.of_nat in_pos)])
           ++ (if have_annex then [m_annex_hash execdata] else [])
           ++ (if output_type =? SIGHASH_SINGLE then [default [] (m_output_hash execdata)] else [])
           ++ (if is_version sigversion TAPSCRIPT
               then [m_tapleaf_hash execdata; ser_writedata8 0; ser_writedata32 (m_codeseparator_pos execdata)] else []))),
          execdata)).

(** * [GenericTransactionSignatureChecker] *)

Section Checker.
Context {secp : Secp256k1}.
Context (txTo : CTransaction) (nIn : nat) (amount : Z) (txdata : option PrecomputedTransactionData)
  (m_mdb : MissingDataBehavior).

Definition Generic_CheckECDSASignature (vchSigIn vchPubKey scriptCode : bytes) (sigversion : SigVersion) : eval bool :=
  let pubkey := CPubKey_Set vchPubKey in
  if negb (CPubKey_IsValid pubkey) then Ok false
  else match vchSigIn with
       | [] => Ok false
       | _ =>
           let nHashType := back vchSigIn in
           let vchSig := removelast vchSigIn in
           if is_version sigversion WITNESS_V0 && (amount <? 0) then HandleMissingData m_mdb;; Ok false
           else
             sighash ← SignatureHash scriptCode txTo nIn nHashType amount sigversion txdata;
             Ok (CPubKey_Verify pubkey sighash vchSig)
       end.

Definition Generic_CheckSchnorrSignature (sig pubkey_in : bytes) (sigversion : SigVersion) (d : ScriptExecutionData)
    : eval ScriptExecutionData :=
  script_assert (is_version sigversion TAPROOT || is_version sigversion TAPSCRIPT) "sigversion";;
  script_assert (zlen pubkey_in =? 32) "pubkey_in.size() == 32";;
  fail_if (negb (zlen sig =? 64) && negb (zlen sig =? 65)) SCRIPT_ERR_SCHNORR_SIG_SIZE;;
  let hashtype := if zlen sig =? 65 then back sig else SIGHASH_DEFAULT in
  fail_if ((zlen sig =? 65) && (hashtype =? SIGHASH_DEFAULT)) SCRIPT_ERR_SCHNORR_SIG_HASHTYPE;;
  let sig := if zlen sig =? 65 then removelast sig else sig in
  match txdata with
  | None => HandleMissingData m_mdb;; Err Unset
  | Some cache =>
      r ← SignatureHashSchnorr d txTo nIn hashtype sigversion cache m_mdb;
      match r with
      | None => set_error SCRIPT_ERR_SCHNORR_SIG_HASHTYPE
      | Some (sighash, d) =>
          valid ← asserting (VerifySchnorr pubkey_in sighash sig);
          fail_if (negb valid) SCRIPT_ERR_SCHNORR_SIG;;
          Ok d
      end
  end.

(** [nLockTime] is a script number, compared as a 64-bit integer. *)
Definition Generic_CheckLockTime (lockTime : Z) : bool :=
  if negb (((nLockTime txTo <? LOCKTIME_THRESHOLD) && (lockTime <? LOCKTIME_THRESHOLD))
           || ((LOCKTIME_THRESHOLD <=? nLockTime txTo) && (LOCKTIME_THRESHOLD <=? lockTime))) then false
  else if nLockTime txTo <? lockTime then false
  else negb (SEQUENCE_FINAL =? nSequence (vin_at txTo nIn)).

Definition Generic_CheckSequence (sequence : Z) : bool :=
  let txToSequence := nSequence (vin_at txTo nIn) in
  if version txTo <? 2 then false
  else if negb (Z.land txToSequence SEQUENCE_LOCKTIME_DISABLE_FLAG =? 0) then false
  else
    let nLockTimeMask := Z.lor SEQUENCE_LOCKTIME_TYPE_FLAG SEQUENCE_LOCKTIME_MASK in
    let txToSequenceMasked := Z.land txToSequence nLockTimeMask in
    let nSequenceMasked := Z.land sequence nLockTimeMask in
    if negb (((txToSequenceMasked <? SEQUENCE_LOCKTIME_TYPE_FLAG) && (nSequenceMasked <? SEQUENCE_LOCKTIME_TYPE_FLAG))
             || ((SEQUENCE_LOCKTIME_TYPE_FLAG <=? txToSequenceMasked) && (SEQUENCE_LOCKTIME_TYPE_FLAG <=? nSequenceMasked)))
    then false
    else negb (txToSequenceMasked <? nSequenceMasked).

Definition GenericTransactionSignatureChecker : BaseSignatureChecker := {|
  CheckECDSASignature := Generic_CheckECDSASignature;
  CheckSchnorrSignature := Generic_CheckSchnorrSignature;
  CheckLockTime := Generic_CheckLockTime;
  CheckSequence := Generic_CheckSequence
|}.

End Checker.

(** * The serialized scriptCode *)

Definition separator : bytes := [op OP_CODESEPARATOR].

Lemma separator_operation : operation separator.
Proof. by exists (op OP_CODESEPARATOR), []. Qed.

(** An operation is a separator exactly when its opcode says so. *)
Lemma separator_opcode ch opcode data s :
  operation ch -> GetScriptOp (ch ++ s) = (true, opcode, data, s) ->
  (opcode =? op OP_CODESEPARATOR) = bool_decide (ch = separator).
Proof.
  intros (o & d & Hop) Hg. rewrite Hop in Hg. simplify_eq. specialize (Hop []). rewrite app_nil_r in Hop.
  destruct ch as [|b ch]; [done|]. destruct (Z.eqb_spec opcode (op OP_CODESEPARATOR)) as [E|E]; symmetry.
  - apply bool_decide_eq_true. subst opcode. unfold GetScriptOp in Hop.
    destruct (Z.leb_spec b (op OP_PUSHDATA4)) as [Hb|Hb].
    + repeat case_match; simplify_eq. change (op OP_PUSHDATA4) with 78 in *. change (op OP_CODESEPARATOR) with 171 in *. lia.
    + by simplify_eq.
  - apply bool_decide_eq_false. intros [= -> ->]. apply E. by simplify_eq/=.
Qed.

Lemma count_separators_chunks fuel s chs rest n :
  chunks s chs rest -> (length chs < fuel)%nat -> is_uint 32 (n + deleted separator chs) -> 0 <= n ->
  count_separators fuel s n = n + deleted separator chs.
Proof.
  intros Hc. revert fuel n. induction Hc as [s Hs|ch s chs rest Hop Hc IH]; intros fuel n Hf Hu Hn.
  - destruct fuel as [|fuel]; [simpl in Hf; lia|]. cbn [count_separators]. unfold stuck in Hs.
    destruct (GetScriptOp s) as [[[ok ?] ?] ?]. simpl in Hs. subst ok. unfold deleted, zlen. simpl. lia.
  - destruct fuel as [|fuel]; [simpl in Hf; lia|]. cbn [count_separators]. destruct (Hop) as (o & d & Hg). rewrite Hg.
    rewrite (separator_opcode ch o d s Hop (Hg s)), deleted_cons. rewrite deleted_cons in Hu.
    assert (0 <= deleted separator chs) by (unfold deleted, zlen; lia). unfold is_uint in Hu.
    case_decide as Hd.
    + rewrite bool_decide_true by done. rewrite wrap_small by (unfold is_uint; lia).
      rewrite IH; [lia|simpl in Hf; lia|unfold is_uint; lia|lia].
    + rewrite bool_decide_false by done. rewrite IH; [lia|simpl in Hf; lia|unfold is_uint; lia|lia].
Qed.

Lemma write_code_chunks fuel pre s chs out :
  chunks s chs [] -> (length chs < fuel)%nat ->
  let '(out', itBegin, it) := write_code fuel (pre ++ s) s out in
  out' ++ (match itBegin with [] => [] | _ => between itBegin it end) = out ++ pre ++ concat (kept separator chs).
Proof.
  intros Hc. remember [] as rest eqn:Hr in Hc. revert fuel pre out.
  induction Hc as [s Hs|ch s chs rest Hop Hc IH]; intros fuel pre out Hf; subst.
  - destruct fuel as [|fuel]; [simpl in Hf; lia|]. simpl. rewrite !app_nil_r. f_equal.
    unfold between. destruct pre as [|b pre]; [done|]. apply firstn_all2. simpl. lia.
  - destruct fuel as [|fuel]; [simpl in Hf; lia|]. cbn [write_code]. destruct (Hop) as (o & d & Hg). rewrite Hg.
    rewrite (separator_opcode ch o d s Hop (Hg s)), kept_cons. case_decide as Hd.
    + rewrite bool_decide_true by done. subst ch.
      specialize (IH eq_refl fuel [] (out ++ take (length (pre ++ separator ++ s) - length s - 1) (pre ++ separator ++ s))
                    ltac:(simpl in Hf; lia)). simpl app in IH.
      destruct (write_code _ _ _ _) as [[out' itBegin] it]. rewrite IH. rewrite <- app_assoc. f_equal. f_equal.
      apply take_app_exact. rewrite length_app. simpl. lia.
    + rewrite bool_decide_false by done. specialize (IH eq_refl fuel (pre ++ ch) out ltac:(simpl in Hf; lia)).
      rewrite <- app_assoc in IH. destruct (write_code _ _ _ _) as [[out' itBegin] it]. rewrite IH. simpl.
      by rewrite <- app_assoc.
Qed.

(** The total length of the operations that are kept. *)
Lemma kept_length b chs : length b = 1%nat -> (zlen (concat (kept b chs)) + deleted b chs = zlen (concat chs)).
Proof.
  intros Hb. induction chs as [|ch chs IH]; [done|]. rewrite kept_cons, deleted_cons. unfold zlen in *. simpl concat.
  case_decide as Hd; rewrite ?length_app; [subst; lia|]. simpl concat. rewrite length_app. lia.
Qed.

Lemma SerializeScriptCode_chunks code chs :
  chunks code chs [] -> zlen code < 2 ^ 32 ->
  SerializeScriptCode code = ser_byte_vector (FindAndDelete code separator).2.
Proof.
  intros Hc Hlen. pose proof (chunks_length _ _ _ Hc) as Hl. simpl in Hl.
  pose proof (chunks_concat _ _ _ Hc) as Hcat. rewrite app_nil_r in Hcat.
  rewrite (FindAndDelete_chunks _ _ _ _ separator_operation Hc). cbn [snd]. rewrite app_nil_r.
  pose proof (kept_length separator chs eq_refl) as Hk. rewrite <- Hcat in Hk.
  assert (0 <= zlen (concat (kept separator chs))) by (unfold zlen; lia).
  assert (0 <= deleted separator chs) by (unfold deleted, zlen; lia).
  unfold SerializeScriptCode. rewrite (count_separators_chunks _ _ _ _ _ Hc); [|lia|unfold is_uint; lia|lia].
  pose proof (write_code_chunks (S (length code)) [] code chs [] Hc ltac:(lia)) as Hw. simpl app in Hw.
  destruct (write_code _ _ _ _) as [[out itBegin] it]. rewrite Hw. unfold ser_byte_vector. f_equal. f_equal.
  unfold zlen in *. lia.
Qed.

(** * The legacy hash is the old one *)

Lemma flat_map_seq {A} (f : nat -> bytes) (g : A -> bytes) (l : list A) (n : nat) :
  n = length l -> (forall i x, l !! i = Some x -> f i = g x) -> flat_map f (seq 0 n) = flat_map g l.
Proof.
  intros ->. revert f. induction l as [|a l IH]; intros f Hf; [done|]. simpl. f_equal; [by apply (Hf 0%nat)|].
  rewrite <- seq_shift, !flat_map_concat_map, map_map, <- flat_map_concat_map, <- (flat_map_concat_map g).
  apply IH. intros i x Hx. by apply (Hf (S i)).
Qed.

Lemma vin_at_lookup tx i x : vin tx !! i = Some x -> vin_at tx i = x.
Proof. intros H. unfold vin_at. by apply nth_lookup_Some. Qed.

Lemma vout_at_lookup tx i x : vout tx !! i = Some x -> vout_at tx i = x.
Proof. intros H. unfold vout_at. by apply nth_lookup_Some. Qed.

Section Legacy.
Context (tx : CTransaction) (code : bytes) (nIn : nat) (ht : Z) (chs : list bytes).
Context (Hcode : chunks code chs []) (Hlen : zlen code < 2 ^ 32) (Hin : (nIn < length (vin tx))%nat).

(** The scriptCode without separators, and the blanked inputs and outputs. *)
Definition code' : bytes := (FindAndDelete code separator).2.

Definition blank_input (i : nat) (inp : CTxIn) : CTxIn :=
  TxIn (prevout inp) (if (i =? nIn)%nat then code' else [])
    (if negb (i =? nIn)%nat && (fHashSingle ht || fHashNone ht) then 0 else nSequence inp) (scriptWitness inp).

Definition blank_outputs : list CTxOut :=
  if fHashNone ht then []
  else if fHashSingle ht then imap (fun i o => if (i <? nIn)%nat then CTxOut_null else o) (take (nIn + 1) (vout tx))
  else vout tx.

Lemma blank_inputs_old :
  imap blank_input (vin tx)
  = let ins := imap (fun i inp => TxIn (prevout inp) (if (i =? nIn)%nat then code' else []) (nSequence inp) (scriptWitness inp)) (vin tx) in
    if fHashSingle ht || fHashNone ht then clear_sequences nIn ins else ins.
Proof.
  cbv zeta. apply list_eq. intros i. unfold clear_sequences.
  destruct (fHashSingle ht || fHashNone ht) eqn:E; rewrite !list_lookup_imap; destruct (vin tx !! i) as [inp|]; simpl; try done;
    unfold blank_input; rewrite E; rewrite ?andb_true_r, ?andb_false_r; by destruct (i =? nIn)%nat.
Qed.

Lemma SerializeInput_blank i inp :
  vin tx !! i = Some inp -> (fAnyoneCanPay ht = true -> i = nIn) ->
  SerializeInput tx code nIn ht i = ser_txin (blank_input i inp).
Proof.
  intros Hi Ha. unfold SerializeInput.
  assert ((if fAnyoneCanPay ht then nIn else i) = i) as -> by (destruct (fAnyoneCanPay ht); [symmetry; by apply Ha|done]).
  rewrite (vin_at_lookup _ _ _ Hi). unfold ser_txin, blank_input. cbn [prevout scriptSig nSequence].
  rewrite (SerializeScriptCode_chunks _ _ Hcode Hlen). fold code'.
  destruct (i =? nIn)%nat; cbn [negb andb]; [done|]. by destruct (_ || _).
Qed.

Lemma SerializeOutput_blank :
  (fHashSingle ht = true -> (nIn < length (vout tx))%nat) ->
  length blank_outputs = (if fHashNone ht then 0%nat else if fHashSingle ht then (nIn + 1)%nat else length (vout tx)) /\
  forall i o, blank_outputs !! i = Some o -> SerializeOutput tx nIn ht i = ser_txout o.
Proof.
  intros Hs. unfold blank_outputs, SerializeOutput. destruct (fHashNone ht); [by split|].
  destruct (fHashSingle ht).
  - specialize (Hs eq_refl). split; [rewrite length_imap, length_take; lia|]. intros i o.
    rewrite list_lookup_imap. destruct (take (nIn + 1) (vout tx) !! i) as [o'|] eqn:E; [|done]. simpl. intros [= <-].
    apply lookup_take_Some in E as [E Hi]. rewrite (vout_at_lookup _ _ _ E).
    destruct (Nat.eqb_spec i nIn), (Nat.ltb_spec i nIn); simpl; (done || lia).
  - split; [done|]. intros i o Hi. simpl. by rewrite (vout_at_lookup _ _ _ Hi).
Qed.

Definition blank_inputs : list CTxIn :=
  if fAnyoneCanPay ht then take 1 (drop nIn (imap blank_input (vin tx))) else imap blank_input (vin tx).

Lemma SerializeInputs_blank :
  let nInputs := if fAnyoneCanPay ht then 1%nat else length (vin tx) in
  WriteCompactSize (Z.of_nat nInputs) ++ flat_map (SerializeInput tx code nIn ht) (seq 0 nInputs) = ser_vin blank_inputs.
Proof.
  cbv zeta. unfold blank_inputs, ser_vin, VectorFormatter_Ser. destruct (fAnyoneCanPay ht) eqn:Ea.
  - destruct (lookup_lt_is_Some_2 (vin tx) nIn Hin) as [inp Hinp].
    assert (take 1 (drop nIn (imap blank_input (vin tx))) = [blank_input nIn inp]) as ->.
    { assert (imap blank_input (vin tx) !! nIn = Some (blank_input nIn inp)) as Hl by (rewrite list_lookup_imap; by rewrite Hinp).
      by rewrite (drop_S _ _ _ Hl). }
    cbn [flat_map seq length]. rewrite !app_nil_r. f_equal.
    assert (SerializeInput tx code nIn ht 0 = SerializeInput tx code nIn ht nIn) as -> by (unfold SerializeInput; by rewrite Ea).
    by apply SerializeInput_blank.
  - rewrite length_imap. f_equal. apply flat_map_seq; [by rewrite length_imap|]. intros i x.
    rewrite list_lookup_imap. destruct (vin tx !! i) as [inp|] eqn:Ei; [|done]. simpl. intros [= <-].
    apply SerializeInput_blank; [done|congruence].
Qed.

Lemma Serializer_blank :
  (fHashSingle ht = true -> (nIn < length (vout tx))%nat) ->
  SignatureSerializer_Serialize tx code nIn ht
  = SerializeTransaction false (Tx blank_inputs blank_outputs (version tx) (nLockTime tx)).
Proof.
  intros Hs. destruct (SerializeOutput_blank Hs) as [Hol Hos].
  unfold SignatureSerializer_Serialize, SerializeTransaction. cbn [andb Z.eqb Z.land app vin vout version nLockTime].
  rewrite <- SerializeInputs_blank. unfold ser_vout, VectorFormatter_Ser.
  rewrite Hol, <- (flat_map_seq _ _ _ _ (eq_sym Hol) Hos). cbv zeta. by rewrite <- !app_assoc.
Qed.

End Legacy.

(** C9: the signature hash for scripts before segregated witness, which serializes
    the modified transaction in place, is the one of the old implementation, which
    copies the transaction, blanks the parts a hash type leaves open and serializes
    the copy: for every transaction, input and hash type, and every scriptCode that
    can be read to its end, [SignatureHash] returns [SignatureHashOld]. *)
Theorem SignatureHash_legacy tx code chs nIn ht amount v cache :
  v <> WITNESS_V0 -> (nIn < length (vin tx))%nat -> chunks code chs [] -> zlen code < 2 ^ 32 ->
  SignatureHash code tx nIn ht amount v cache = Ok (SignatureHashOld code tx nIn ht).
Proof.
  intros Hv Hin Hcode Hlen. unfold SignatureHash, SignatureHashOld.
  rewrite (proj2 (Nat.ltb_lt nIn (length (vin tx))) Hin), (proj2 (Nat.leb_gt (length (vin tx)) nIn) Hin). cbn [script_assert mbind result_bind].
  unfold is_version. rewrite bool_decide_false by done.
  pose proof (Serializer_blank tx code nIn ht chs Hcode Hlen Hin) as Hser. pose proof (blank_inputs_old tx code nIn ht) as Hold.
  unfold blank_outputs, blank_inputs in Hser. unfold fHashSingle, fHashNone, fAnyoneCanPay, code', separator in *. cbv zeta in *.
  destruct (Z.eqb_spec (Z.land ht 0x1f) SIGHASH_NONE) as [En|En].
  - rewrite En in *. change (SIGHASH_NONE =? SIGHASH_SINGLE) with false in *. cbn [andb orb] in *.
    rewrite Hser by done. rewrite Hold. done.
  - destruct (Z.eqb_spec (Z.land ht 0x1f) SIGHASH_SINGLE) as [Es|Es]; cbn [andb orb] in *.
    + destruct (Nat.leb_spec (length (vout tx)) nIn); [done|]. rewrite Hser by done. rewrite Hold. done.
    + rewrite Hser by done. rewrite Hold. done.
Qed.

Lemma SignatureHash_legacy_witness :
  let tx := Tx [TxIn (OutPoint (replicate 32 1) 0) [] 5 []; TxIn (OutPoint (replicate 32 2) 1) [9] 6 []]
               [TxOut 10 [1]; TxOut 20 [2]] 2 0 in
  let code := [0x51; op OP_CODESEPARATOR; 0xac] in
  chunks code [[0x51]; separator; [0xac]] [] /\
  SignatureHash code tx 1 (Z.lor SIGHASH_SINGLE SIGHASH_ANYONECANPAY) 0 BASE None
  = Ok (SignatureHashOld code tx 1 (Z.lor SIGHASH_SINGLE SIGHASH_ANYONECANPAY)).
Proof.
  cbv zeta. assert (chunks [0x51; op OP_CODESEPARATOR; 0xac] [[0x51]; separator; [0xac]] []) as Hc.
  { apply (chunks_cons [0x51]); [by exists 0x51, []|]. apply (chunks_cons separator); [apply separator_operation|].
    apply (chunks_cons [0xac]); [by exists 0xac, []|]. by constructor. }
  split; [exact Hc|]. apply (SignatureHash_legacy _ _ [[0x51]; separator; [0xac]]);
    [discriminate|simpl; lia|exact Hc|vm_compute; reflexivity].
Defined.

(** * Streams *)

Lemma stream_hashed chunks h m : @hashed sha256_ops h m -> @hashed sha256_ops (HashWriter_stream h chunks) (m ++ concat chunks).
Proof. apply hashed_writes. Qed.

Lemma stream_SHA256 chunks : HashWriter_GetSHA256 (HashWriter_stream CSHA256_new chunks) = sha256_hash (concat chunks).
Proof. apply (hasher_finalize_spec _ _ (stream_hashed chunks _ [] hashed_new)). Qed.

Lemma stream_Hash chunks : HashWriter_GetHash (HashWriter_stream CSHA256_new chunks) = sha256_hash (sha256_hash (concat chunks)).
Proof. apply (hash_finalize _ _ (stream_hashed chunks _ [] hashed_new)). Qed.

(** The hash of BIP340 for a tag. *)
Definition tagged_hash (tag m : bytes) : bytes := sha256_hash (sha256_hash tag ++ sha256_hash tag ++ m).

Lemma stream_tagged tag chunks : HashWriter_GetSHA256 (HashWriter_stream (TaggedHash tag) chunks) = tagged_hash tag (concat chunks).
Proof.
  assert ((CSHA256_Finalize (CSHA256_Write CSHA256_new tag)).1 = sha256_hash tag) as E
    by exact (@finalize_write_new sha256_ops _ tag).
  unfold TaggedHash. rewrite E. exact (hasher_stream (sha256_hash tag :: sha256_hash tag :: chunks)).
Qed.

Lemma SHA256Uint256_spec m : SHA256Uint256 m = sha256_hash m.
Proof. apply (@finalize_write_new sha256_ops _). Qed.

(** * The precomputed data *)

(** What [Init] leaves: every field that is marked as ready has the value the
    uncached functions compute. *)
Record precomputed_for (tx : CTransaction) (spent : list CTxOut) (c : PrecomputedTransactionData) : Prop := {
  pre_segwit : m_bip143_segwit_ready c = true ->
    hashPrevouts c = SHA256Uint256 (GetPrevoutsSHA256 tx) /\ hashSequence c = SHA256Uint256 (GetSequencesSHA256 tx)
    /\ hashOutputs c = SHA256Uint256 (GetOutputsSHA256 tx);
  pre_taproot : m_bip341_taproot_ready c = true ->
    m_prevouts_single_hash c = GetPrevoutsSHA256 tx /\ m_sequences_single_hash c = GetSequencesSHA256 tx
    /\ m_outputs_single_hash c = GetOutputsSHA256 tx /\ m_spent_amounts_single_hash c = GetSpentAmountsSHA256 spent
    /\ m_spent_scripts_single_hash c = GetSpentScriptsSHA256 spent /\ m_spent_outputs_ready c = true;
  pre_spent : m_spent_outputs c = spent
}.

Lemma Init_precomputed tx spent force c : Precomputed_Init tx spent force = Ok c -> precomputed_for tx spent c.
Proof.
  unfold Precomputed_Init. destruct (_ && negb _); [done|]. destruct (scan_inputs _ _ _ _ _) as [segwit taproot].
  intros [= <-]. split; simpl.
  - intros ->. done.
  - intros [-> Hr]%andb_prop. rewrite orb_true_r. simpl. by rewrite Hr.
  - done.
Qed.

(** ** The messages of BIP143 and BIP341, computed from the transaction alone *)

Definition dsha (m : bytes) : bytes := sha256_hash (sha256_hash m).

Definition bip143_message (code : bytes) (tx : CTransaction) (nIn : nat) (ht amount : Z) : bytes :=
  let single := Z.land ht 0x1f =? SIGHASH_SINGLE in
  let none := Z.land ht 0x1f =? SIGHASH_NONE in
  let anyone := negb (Z.land ht SIGHASH_ANYONECANPAY =? 0) in
  ser_writedata32 (version tx)
  ++ (if anyone then uint256_null else dsha (flat_map (fun i => ser_outpoint (prevout i)) (vin tx)))
  ++ (if anyone || single || none then uint256_null else dsha (flat_map (fun i => ser_writedata32 (nSequence i)) (vin tx)))
  ++ ser_outpoint (prevout (vin_at tx nIn)) ++ ser_byte_vector code ++ ser_int64 amount
  ++ ser_writedata32 (nSequence (vin_at tx nIn))
  ++ (if negb (single || none) then dsha (flat_map ser_txout (vout tx))
      else if single && (nIn <? length (vout tx))%nat then dsha (ser_txout (vout_at tx nIn)) else uint256_null)
  ++ ser_writedata32 (nLockTime tx) ++ ser_int32 ht.

Definition bip341_message (d : ScriptExecutionData) (tx : CTransaction) (spent : list CTxOut) (nIn : nat) (ht : Z)
    (tapscript : bool) : bytes :=
  let anyone := Z.land ht 0x80 =? 0x80 in
  let out := if ht =? 0 then 1 else Z.land ht 3 in
  [0] ++ [ht] ++ ser_writedata32 (version tx) ++ ser_writedata32 (nLockTime tx)
  ++ (if anyone then []
      else sha256_hash (flat_map (fun i => ser_outpoint (prevout i)) (vin tx))
           ++ sha256_hash (flat_map (fun o => ser_int64 (nValue o)) spent)
           ++ sha256_hash (flat_map (fun o => ser_byte_vector (scriptPubKey o)) spent)
           ++ sha256_hash (flat_map (fun i => ser_writedata32 (nSequence i)) (vin tx)))
  ++ (if out =? 1 then sha256_hash (flat_map ser_txout (vout tx)) else [])
  ++ [(if tapscript then 2 else 0) + (if m_annex_present d then 1 else 0)]
  ++ (if anyone then ser_outpoint (prevout (vin_at tx nIn)) ++ ser_txout (nth nIn spent CTxOut_null)
                     ++ ser_writedata32 (nSequence (vin_at tx nIn))
      else ser_writedata32 (Z.of_nat nIn))
  ++ (if m_annex_present d then m_annex_hash d else [])
  ++ (if out =? 3 then sha256_hash (ser_txout (vout_at tx nIn)) else [])
  ++ (if tapscript then m_tapleaf_hash d ++ [0] ++ ser_writedata32 (m_codeseparator_pos d) else []).

Lemma concat_fmap {A} (f : A -> bytes) l : concat (f <$> l) = flat_map f l.
Proof. symmetry. apply flat_map_concat_map. Qed.

Lemma hashes_spec tx spent :
  GetPrevoutsSHA256 tx = sha256_hash (flat_map (fun i => ser_outpoint (prevout i)) (vin tx))
  /\ GetSequencesSHA256 tx = sha256_hash (flat_map (fun i => ser_writedata32 (nSequence i)) (vin tx))
  /\ GetOutputsSHA256 tx = sha256_hash (flat_map ser_txout (vout tx))
  /\ GetSpentAmountsSHA256 spent = sha256_hash (flat_map (fun o => ser_int64 (nValue o)) spent)
  /\ GetSpentScriptsSHA256 spent = sha256_hash (flat_map (fun o => ser_byte_vector (scriptPubKey o)) spent).
Proof.
  unfold GetPrevoutsSHA256, GetSequencesSHA256, GetOutputsSHA256, GetSpentAmountsSHA256, GetSpentScriptsSHA256.
  rewrite !stream_SHA256, !concat_fmap. done.
Qed.

Lemma write_stream m : HashWriter_write CSHA256_new m = HashWriter_stream CSHA256_new [m].
Proof. done. Qed.

(** C11: the BIP143 signature hash does not depend on the cache: for every
    transaction, input, hash type and amount, with no precomputed data or with the
    data [PrecomputedTransactionData::Init] computes for the transaction (ready for
    segregated witness or not), [SignatureHash] returns the double SHA-256 of the
    message of BIP143. *)
Theorem SignatureHash_bip143 code tx nIn ht amount cache :
  (nIn < length (vin tx))%nat ->
  match cache with Some c => exists spent force, Precomputed_Init tx spent force = Ok c | None => True end ->
  SignatureHash code tx nIn ht amount WITNESS_V0 cache = Ok (dsha (bip143_message code tx nIn ht amount)).
Proof.
  intros Hin Hc. unfold SignatureHash. rewrite (proj2 (Nat.ltb_lt nIn (length (vin tx))) Hin).
  cbn [script_assert mbind result_bind]. change (is_version WITNESS_V0 WITNESS_V0) with true. cbv iota.
  set (ready := match cache with Some c => _ | None => None end).
  assert (forall c, ready = Some c -> hashPrevouts c = SHA256Uint256 (GetPrevoutsSHA256 tx)
            /\ hashSequence c = SHA256Uint256 (GetSequencesSHA256 tx) /\ hashOutputs c = SHA256Uint256 (GetOutputsSHA256 tx)) as Hr.
  { intros c' Hr. subst ready. destruct cache as [c|]; [|done]. destruct Hc as (spent & force & Hc%Init_precomputed).
    destruct (m_bip143_segwit_ready c) eqn:E; [|done]. injection Hr as <-. by apply Hc. }
  assert (match ready with Some c => hashPrevouts c | None => SHA256Uint256 (GetPrevoutsSHA256 tx) end
          = SHA256Uint256 (GetPrevoutsSHA256 tx)) as -> by (destruct ready; [by apply Hr|done]).
  assert (match ready with Some c => hashSequence c | None => SHA256Uint256 (GetSequencesSHA256 tx) end
          = SHA256Uint256 (GetSequencesSHA256 tx)) as -> by (destruct ready; [by apply Hr|done]).
  assert (match ready with Some c => hashOutputs c | None => SHA256Uint256 (GetOutputsSHA256 tx) end
          = SHA256Uint256 (GetOutputsSHA256 tx)) as -> by (destruct ready; [by apply Hr|done]).
  rewrite write_stream, !stream_Hash, !SHA256Uint256_spec. destruct (hashes_spec tx []) as (-> & -> & -> & _).
  unfold bip143_message, dsha, fAnyoneCanPay, fHashSingle, fHashNone. cbn [concat]. rewrite !app_nil_r.
  do 3 f_equal. destruct (Z.land ht SIGHASH_ANYONECANPAY =? 0), (Z.land ht 31 =? SIGHASH_SINGLE), (Z.land ht 31 =? SIGHASH_NONE); done.
Qed.

Definition sample_spend : CTransaction :=
  Tx [TxIn (OutPoint (replicate 32 1) 0) [] 5 [[1]]; TxIn (OutPoint (replicate 32 2) 1) [9] 6 []]
     [TxOut 10 [1]; TxOut 20 [2]] 2 0.

Lemma SignatureHash_bip143_witness :
  exists c, Precomputed_Init sample_spend [] false = Ok c /\ m_bip143_segwit_ready c = true /\
    SignatureHash [0xac] sample_spend 1 SIGHASH_ALL 7 WITNESS_V0 (Some c)
    = Ok (dsha (bip143_message [0xac] sample_spend 1 SIGHASH_ALL 7)).
Proof.
  eexists. split; [reflexivity|]. split; [reflexivity|].
  apply SignatureHash_bip143; [simpl; lia|]. exists [], false. reflexivity.
Defined.

(** The hash types of BIP341, and the output one of them needs. *)
Definition bip341_valid (tx : CTransaction) (nIn : nat) (ht : Z) : bool :=
  bool_decide (ht ∈ [0; 1; 2; 3; 0x81; 0x82; 0x83])
  && implb (bool_decide (ht ∈ [3; 0x83])) (nIn <? length (vout tx))%nat.

(** The cached hash of the output, if there is one, is that of this input. *)
Definition output_hash_ok (tx : CTransaction) (nIn : nat) (d : ScriptExecutionData) : Prop :=
  match m_output_hash d with Some h => h = sha256_hash (ser_txout (vout_at tx nIn)) | None => True end.

Lemma bip341_types ht :
  is_uint 8 ht ->
  ((ht <=? 0x03) || ((0x81 <=? ht) && (ht <=? 0x83))) = bool_decide (ht ∈ [0; 1; 2; 3; 0x81; 0x82; 0x83]).
Proof.
  intros [H1 H2]. destruct (bool_decide _) eqn:E.
  - apply bool_decide_eq_true in E. repeat (apply elem_of_cons in E as [->|E]; [done|]). by apply not_elem_of_nil in E.
  - apply bool_decide_eq_false in E. apply not_true_iff_false. intros H. apply E. apply orb_prop in H as [H|H]; bool_props.
    + assert (ht = 0 \/ ht = 1 \/ ht = 2 \/ ht = 3) as [->|[->|[->| ->]]] by lia; by_decide.
    + assert (ht = 0x81 \/ ht = 0x82 \/ ht = 0x83) as [->|[->| ->]] by lia; by_decide.
Qed.

Lemma ready_set_output v h d : ready v (set_output_hash h d) = ready v d.
Proof. by destruct v. Qed.

Lemma bip341_single ht :
  bool_decide (ht ∈ [0; 1; 2; 3; 0x81; 0x82; 0x83]) = true ->
  ((if ht =? 0 then 1 else Z.land ht 3) =? 3) = bool_decide (ht ∈ [3; 0x83]).
Proof.
  intros E%bool_decide_eq_true. repeat (apply elem_of_cons in E as [->|E]; [done|]). by apply not_elem_of_nil in E.
Qed.

(** Caching the hash of the output changes no other field. *)
Lemma cached_output tx nIn d h (single : bool) d' v :
  h = sha256_hash (ser_txout (vout_at tx nIn)) -> output_hash_ok tx nIn d ->
  d' = (if single then match m_output_hash d with Some _ => d | None => set_output_hash h d end else d) ->
  ready v d' = ready v d /\ output_hash_ok tx nIn d' /\ (single = true -> m_output_hash d' = Some h)
  /\ m_annex_hash d' = m_annex_hash d /\ m_tapleaf_hash d' = m_tapleaf_hash d
  /\ m_codeseparator_pos d' = m_codeseparator_pos d
  /\ m_tapleaf_hash_init d' = m_tapleaf_hash_init d /\ m_codeseparator_pos_init d' = m_codeseparator_pos_init d.
Proof.
  intros Hh Ho ->. unfold output_hash_ok in *. destruct single; [|by split_and!].
  destruct (m_output_hash d) eqn:E; [rewrite E; split_and!; congruence|].
  rewrite ready_set_output. by split_and!.
Qed.

Lemma writedata8_small b : is_uint 8 b -> ser_writedata8 b = [b].
Proof. intros. unfold ser_writedata8. rewrite wrap_small by done. simpl. by rewrite Z.mod_small. Qed.

(** The chunks the code streams, for any values of its flags, concatenate to the message. *)
Lemma bip341_chunks d tx spent nIn ht (tapscript single : bool) h :
  is_uint 8 ht -> ((if ht =? 0 then 1 else Z.land ht 3) =? 3) = single ->
  (single = true -> h = Some (sha256_hash (ser_txout (vout_at tx nIn)))) ->
  concat
    ([ser_writedata8 0; ser_writedata8 ht; ser_writedata32 (version tx); ser_writedata32 (nLockTime tx)]
     ++ (if negb (Z.land ht 128 =? 128)
         then [GetPrevoutsSHA256 tx; GetSpentAmountsSHA256 spent; GetSpentScriptsSHA256 spent; GetSequencesSHA256 tx] else [])
     ++ (if (if ht =? 0 then 1 else Z.land ht 3) =? 1 then [GetOutputsSHA256 tx] else [])
     ++ [ser_writedata8 (Z.shiftl (if tapscript then 1 else 0) 1 + (if m_annex_present d then 1 else 0))]
     ++ (if Z.land ht 128 =? 128
         then [ser_outpoint (prevout (vin_at tx nIn)); ser_txout (nth nIn spent CTxOut_null);
               ser_writedata32 (nSequence (vin_at tx nIn))]
         else [ser_writedata32 (Z.of_nat nIn)])
     ++ (if m_annex_present d then [m_annex_hash d] else [])
     ++ (if single then [default [] h] else [])
     ++ (if tapscript then [m_tapleaf_hash d; ser_writedata8 0; ser_writedata32 (m_codeseparator_pos d)] else []))
  = bip341_message d tx spent nIn ht tapscript.
Proof.
  intros Hht Hs Hh. unfold bip341_message. rewrite Hs.
  destruct (hashes_spec tx spent) as (-> & -> & -> & -> & ->).
  rewrite (writedata8_small ht), (writedata8_small 0) by done.
  rewrite (writedata8_small (_ + _)) by (by destruct tapscript, (m_annex_present d)).
  assert (Z.shiftl (if tapscript then 1 else 0) 1 = if tapscript then 2 else 0) as -> by by destruct tapscript.
  destruct single; [rewrite Hh by done|].
  all: destruct (Z.land ht 128 =? 128), (_ =? 1), (m_annex_present d), tapscript;
    cbn [negb app concat default]; by rewrite ?app_nil_r, <-?app_assoc.
Qed.

(** C10: the BIP341 signature hash, computed from the precomputed data, is the tagged
    hash of the message of BIP341 computed from the transaction and the spent
    outputs alone, for key path and script path spends, every hash type of the BIP
    (others are refused, as is SIGHASH_SINGLE without an output), and also when the
    hash of the single output is already cached in the execution data, where it
    stays correct. *)
Theorem SignatureHashSchnorr_bip341 tx spent force c d nIn ht v mdb :
  Precomputed_Init tx spent force = Ok c -> m_bip341_taproot_ready c = true ->
  v = TAPROOT \/ v = TAPSCRIPT -> ready v d = true -> output_hash_ok tx nIn d ->
  (nIn < length (vin tx))%nat -> is_uint 8 ht ->
  exists d', ready v d' = true /\ output_hash_ok tx nIn d' /\
    SignatureHashSchnorr d tx nIn ht v c mdb
    = Ok (if bip341_valid tx nIn ht
          then Some (tagged_hash (to_bytes "TapSighash") (bip341_message d tx spent nIn ht (is_version v TAPSCRIPT)), d')
          else None).
Proof.
  intros Hc%Init_precomputed Hr Hv Hd Ho Hin Hht.
  destruct (pre_taproot _ _ _ Hc Hr) as (E1 & E2 & E3 & E4 & E5 & E6). pose proof (pre_spent _ _ _ Hc) as E7.
  set (single := sha256_hash (ser_txout (vout_at tx nIn))).
  assert (HashWriter_GetSHA256 (HashWriter_write CSHA256_new (ser_txout (vout_at tx nIn))) = single) as Es.
  { rewrite write_stream, stream_SHA256. subst single. f_equal. apply app_nil_r. }
  assert (m_annex_init d = true) as Ha by (destruct Hv; subst v; simpl in Hd; by bool_props).
  unfold SignatureHashSchnorr, bip341_valid.
  assert (match v with TAPROOT => Ok 0 | TAPSCRIPT => Ok 1 | _ => Err (Abort "false") end
          = Ok (if is_version v TAPSCRIPT then 1 else 0) :> eval Z) as -> by (by destruct Hv; subst v).
  rewrite (proj2 (Nat.ltb_lt nIn (length (vin tx))) Hin), Hr, E6, bip341_types by done.
  cbn [mbind result_bind script_assert andb negb].
  destruct (bool_decide (ht ∈ [0; 1; 2; 3; 0x81; 0x82; 0x83])) eqn:Et; [|by exists d].
  cbn [negb andb]. rewrite Ha. cbn [mbind result_bind script_assert].
  unfold SIGHASH_DEFAULT, SIGHASH_ALL, SIGHASH_OUTPUT_MASK, SIGHASH_SINGLE, SIGHASH_INPUT_MASK, SIGHASH_ANYONECANPAY.
  rewrite bip341_single by done. set (sgl := bool_decide (ht ∈ [3; 0x83])) in *.
  match goal with |- context [script_assert (m_tapleaf_hash_init ?x)] => remember x as d' eqn:Hd' end.
  destruct (cached_output tx nIn d _ sgl d' v Es Ho Hd') as (Er & Ho' & Eo & Ea & El & Ec & Eli & Eci).
  exists d'. rewrite Er. split; [done|]. split; [done|].
  assert ((if is_version v TAPSCRIPT
           then script_assert (m_tapleaf_hash_init d') "execdata.m_tapleaf_hash_init";;
                script_assert (m_codeseparator_pos_init d') "execdata.m_codeseparator_pos_init"
           else Ok ()) = Ok () :> eval ()) as ->.
  { rewrite Eli, Eci. destruct Hv; subst v; cbn in Hd |- *; [done|]. bool_props.
    by repeat match goal with H : _ = true |- _ => rewrite H; clear H end. }
  cbn [mbind result_bind]. rewrite Nat.leb_antisym.
  replace (implb sgl (nIn <? length (vout tx))%nat) with (negb (sgl && negb (nIn <? length (vout tx))%nat))
    by (by destruct sgl, (nIn <? length (vout tx))%nat).
  destruct (sgl && _); [done|]. cbn [negb]. unfold HASHER_TAPSIGHASH. rewrite stream_tagged. do 3 f_equal.
  rewrite E1, E2, E3, E4, E5, E7, Ea, El, Ec. f_equal.
  apply bip341_chunks; [done|by apply bip341_single|]. intros. by rewrite Eo, Es.
Qed.

Lemma SignatureHashSchnorr_bip341_witness :
  exists c d', Precomputed_Init sample_spend [TxOut 30 [7]; TxOut 5 [8]] true = Ok c /\
    SignatureHashSchnorr (set_annex (Some (replicate 32 3)) ExecData_default) sample_spend 1 0x83 TAPROOT c ASSERT_FAIL
    = Ok (Some (tagged_hash (to_bytes "TapSighash")
                  (bip341_message (set_annex (Some (replicate 32 3)) ExecData_default) sample_spend
                     [TxOut 30 [7]; TxOut 5 [8]] 1 0x83 false), d')).
Proof.
  assert (exists c, Precomputed_Init sample_spend [TxOut 30 [7]; TxOut 5 [8]] true = Ok c
                    /\ m_bip341_taproot_ready c = true) as (c & Ec & Hr) by (eexists; split; reflexivity).
  destruct (SignatureHashSchnorr_bip341 sample_spend [TxOut 30 [7]; TxOut 5 [8]] true c
              (set_annex (Some (replicate 32 3)) ExecData_default) 1 0x83 TAPROOT ASSERT_FAIL Ec Hr) as (d' & _ & _ & E).
  - by left.
  - reflexivity.
  - exact I.
  - simpl. lia.
  - by_decide.
  - exists c, d'. split; [exact Ec|exact E].
Defined.

(** * The checker keeps the promise the interpreter relies on *)

(** Either missing data is a failure, or no data is missing. *)
Definition checker_data_ok (amount : Z) (txdata : option PrecomputedTransactionData) (mdb : MissingDataBehavior) : bool :=
  match mdb with
  | FAIL => true
  | ASSERT_FAIL =>
      (0 <=? amount) && match txdata with Some c => m_bip341_taproot_ready c && m_spent_outputs_ready c | None => false end
  end.

Lemma SignatureHash_total code tx nIn ht amount v cache :
  (nIn < length (vin tx))%nat -> exists h, SignatureHash code tx nIn ht amount v cache = Ok h.
Proof.
  intros H%Nat.ltb_lt. unfold SignatureHash. rewrite H. cbn [mbind result_bind script_assert].
  destruct (is_version v WITNESS_V0); [by eexists|]. destruct (fHashSingle ht && _); by eexists.
Qed.

Lemma SignatureHashSchnorr_safe d tx nIn ht v c mdb :
  (nIn < length (vin tx))%nat -> v = TAPROOT \/ v = TAPSCRIPT -> ready v d = true ->
  mdb = FAIL \/ (m_bip341_taproot_ready c && m_spent_outputs_ready c = true) ->
  safe (fun r => match r with Some (_, d') => ready v d' = true | None => True end)
    (SignatureHashSchnorr d tx nIn ht v c mdb).
Proof.
  intros H%Nat.ltb_lt Hv Hd Hm. unfold SignatureHashSchnorr. rewrite H.
  assert (m_annex_init d = true) as Ha by (destruct Hv; subst v; simpl in Hd; by bool_props).
  destruct Hv; subst v; cbn [mbind result_bind script_assert is_version]; rewrite Ha.
  all: destruct (m_bip341_taproot_ready c && m_spent_outputs_ready c); cbn [negb];
    [|by destruct Hm as [->|[=]]].
  all: destruct (negb _); [done|]; cbn [mbind result_bind script_assert].
  all: match goal with |- context [?x && (?a <=? ?b)%nat] => destruct (x && (a <=? b)%nat); [done|] end.
  all: set (single := (_ =? SIGHASH_SINGLE)); destruct single, (m_output_hash d).
  all: cbn [ready] in Hd |- *; cbn [m_tapleaf_hash_init m_codeseparator_pos_init set_output_hash]; try done.
  all: change (is_version TAPSCRIPT TAPSCRIPT) with true; bool_props.
  all: repeat match goal with H : ?x = true |- context [?x] => rewrite H end; cbn [script_assert mbind result_bind safe].
  all: cbn [m_tapleaf_hash_init m_codeseparator_pos_init m_annex_init m_validation_weight_left_init set_output_hash].
  all: by repeat match goal with H : ?x = true |- context [?x] => rewrite H end.
Qed.

Section CheckerPromise.
Context {secp : Secp256k1} (tx : CTransaction) (nIn : nat) (amount : Z) (txdata : option PrecomputedTransactionData).
Context (mdb : MissingDataBehavior).
Context (Hin : (nIn < length (vin tx))%nat) (Hdata : checker_data_ok amount txdata mdb = true).

Lemma transaction_checker_safe : CheckerSafe (GenericTransactionSignatureChecker tx nIn amount txdata mdb).
Proof.
  split; cbn [CheckECDSASignature CheckSchnorrSignature GenericTransactionSignatureChecker].
  - intros sig pk code v _. unfold Generic_CheckECDSASignature.
    destruct (CPubKey_IsValid _); [|done]. destruct sig as [|b sig]; [done|]. cbn [negb].
    destruct (is_version v WITNESS_V0 && (amount <? 0)) eqn:E.
    + destruct mdb; [|done]. simpl in Hdata. bool_props. lia.
    + by destruct (SignatureHash_total code tx nIn (back (b :: sig)) amount v txdata Hin) as [h ->].
  - intros sig pk v d Hv Hpk Hd. unfold Generic_CheckSchnorrSignature.
    rewrite Hpk. assert (is_version v TAPROOT || is_version v TAPSCRIPT = true) as -> by (by destruct Hv; subst v).
    cbn [script_assert mbind result_bind]. change (32 =? 32) with true. cbn [script_assert mbind result_bind].
    eapply safe_bind; [apply safe_fail_if|]. intros [] Hs. cbv beta in Hs.
    eapply safe_bind; [apply safe_fail_if|]. intros [] _.
    destruct txdata as [c|]; [|by destruct mdb; [simpl in Hdata; bool_props|]].
    eapply safe_bind.
    { apply SignatureHashSchnorr_safe; [done..|]. destruct mdb; [right|by left]. by apply andb_prop in Hdata as [_ ?]. }
    intros [[h d']|] Hd'; [|done]. unfold VerifySchnorr.
    replace (zlen (if zlen sig =? 65 then removelast sig else sig)) with 64.
    { simpl. destruct (secp256k1_xonly_pubkey_parse pk); [|done]. by destruct (secp256k1_schnorrsig_verify _ _ _). }
    destruct (Z.eqb_spec (zlen sig) 65) as [E|E]; [|destruct (Z.eqb_spec (zlen sig) 64); [done|discriminate Hs]].
    unfold zlen in *. rewrite removelast_firstn_len, length_take. lia.
Qed.

(** A spend is verified without an assertion failing, whatever its scripts and
    witness, when the checker has the data it needs. *)
Theorem VerifyScript_transaction_total flags scriptSig scriptPubKey witness :
  flags_ok flags = true -> wf_bytes scriptSig -> wf_bytes scriptPubKey -> Forall wf_bytes witness ->
  zlen witness <= 2 ^ 32 ->
  let r := @VerifyScript _ (GenericTransactionSignatureChecker tx nIn amount txdata mdb) flags scriptSig scriptPubKey witness in
  r = Ok () \/ exists e, r = Err (ScriptErr e).
Proof.
  intros H1 H2 H3 H4 H5 r. pose proof transaction_checker_safe as Hc.
  destruct (VerifyScript_settled (Hsafe := Hc) flags scriptSig scriptPubKey witness H1 H2 H3 H4 H5) as [Hs Hu].
  fold r in Hs, Hu. destruct r as [[]|[e| |]]; [by left|by right; eexists|done..].
Qed.
End CheckerPromise.
