(* ===== verification/Solver.v ===== *)
(** Standard scripts and destinations (src/bitcoin/src/script/solver.h, solver.cpp,
    addresstype.h, addresstype.cpp): the classification of output scripts, and the
    scripts of destinations.  A script and its destination determine each other, and the
    scripts of multisig are recognized. *)

From S2P Require Import Prelude Serialize MerkleDamgard Sha2 Hash Script PubKey Interpreter.

(** * The classification *)

Inductive TxoutType :=
  NONSTANDARD | ANCHOR | PUBKEY | PUBKEYHASH | SCRIPTHASH | MULTISIG | NULL_DATA
| WITNESS_V0_SCRIPTHASH | WITNESS_V0_KEYHASH | WITNESS_V1_TAPROOT | WITNESS_UNKNOWN.

Definition IsPushdataOp (opcode : Z) : bool := (op OP_0 <? opcode) && (opcode <=? op OP_PUSHDATA4).

(** The key, where the function returns true. *)
Definition MatchPayToPubkey (script : bytes) : option bytes :=
  if (zlen script =? PUBKEY_SIZE + 2) && (byte_at script 0 =? PUBKEY_SIZE) && (back script =? op OP_CHECKSIG) then
    let pubkey := take 65 (drop 1 script) in
    if ValidSize pubkey then Some pubkey else None
  else if (zlen script =? COMPRESSED_SIZE + 2) && (byte_at script 0 =? COMPRESSED_SIZE) && (back script =? op OP_CHECKSIG) then
    let pubkey := take 33 (drop 1 script) in
    if ValidSize pubkey then Some pubkey else None
  else None.

Definition MatchPayToPubkeyHash (script : bytes) : option bytes :=
  if (zlen script =? 25) && (byte_at script 0 =? op OP_DUP) && (byte_at script 1 =? op OP_HASH160) && (byte_at script 2 =? 20)
     && (byte_at script 23 =? op OP_EQUALVERIFY) && (byte_at script 24 =? op OP_CHECKSIG)
  then Some (take 20 (drop 3 script)) else None.

Definition IsSmallInteger (opcode : Z) : bool := (op OP_1 <=? opcode) && (opcode <=? op OP_16).

(** The exception of [CScriptNum] is caught; [Err] is a failed assertion. *)
Definition GetScriptNumber (opcode : Z) (data : bytes) (min max : Z) : result string (option Z) :=
  let within count := if (count <? min) || (max <? count) then None else Some count in
  if IsSmallInteger opcode then count ← DecodeOP_N opcode; Ok (within count)
  else if IsPushdataOp opcode then
    minimal ← CheckMinimalPush data opcode;
    if negb minimal then Ok None
    else match CScriptNum_new data true nDefaultMaxNumSize with
         | Err _ => Ok None
         | Ok n => Ok (within (getint n))
         end
  else Ok None.

(** The loop over the keys: the keys, and the last opcode, data and iterator. *)
Fixpoint multisig_keys (fuel : nat) (it : bytes) (pubkeys : list bytes) : result string (list bytes * Z * bytes * bytes) :=
  match GetScriptOp it with
  | (true, opcode, data, it) =>
      if ValidSize data then
        match fuel with
        | O => Err "out of fuel"
        | S fuel => multisig_keys fuel it (pubkeys ++ [data])
        end
      else Ok (pubkeys, opcode, data, it)
  | (false, opcode, data, it) => Ok (pubkeys, opcode, data, it)
  end.

Definition MatchMultisig (script : bytes) : result string (option (Z * list bytes)) :=
  if (zlen script <? 1) || negb (back script =? op OP_CHECKMULTISIG) then Ok None
  else
    match GetScriptOp script with
    | (false, _, _, _) => Ok None
    | (true, opcode, data, it) =>
        req_sigs ← GetScriptNumber opcode data 1 MAX_PUBKEYS_PER_MULTISIG;
        match req_sigs with
        | None => Ok None
        | Some required_sigs =>
            '(pubkeys, opcode, data, it) ← multisig_keys (length it) it [];
            num_keys ← GetScriptNumber opcode data required_sigs MAX_PUBKEYS_PER_MULTISIG;
            match num_keys with
            | None => Ok None
            | Some num_keys =>
                if negb (zlen pubkeys =? num_keys) then Ok None
                else if zlen it =? 1 then Ok (Some (required_sigs, pubkeys)) else Ok None
            end
        end
    end.

(** The type and [vSolutionsRet]. *)
Definition Solver (scriptPubKey : bytes) : result string (TxoutType * list bytes) :=
  if IsPayToScriptHash scriptPubKey then Ok (SCRIPTHASH, [take 20 (drop 2 scriptPubKey)])
  else
    match IsWitnessProgram scriptPubKey with
    | Some (witnessversion, witnessprogram) =>
        Ok (if (witnessversion =? 0) && (zlen witnessprogram =? WITNESS_V0_KEYHASH_SIZE) then (WITNESS_V0_KEYHASH, [witnessprogram])
            else if (witnessversion =? 0) && (zlen witnessprogram =? WITNESS_V0_SCRIPTHASH_SIZE) then (WITNESS_V0_SCRIPTHASH, [witnessprogram])
            else if (witnessversion =? 1) && (zlen witnessprogram =? WITNESS_V1_TAPROOT_SIZE) then (WITNESS_V1_TAPROOT, [witnessprogram])
            else if IsPayToAnchor scriptPubKey then (ANCHOR, [])
            else if negb (witnessversion =? 0) then (WITNESS_UNKNOWN, [[u8 witnessversion]; witnessprogram])
            else (NONSTANDARD, []))
    | None =>
        if (1 <=? zlen scriptPubKey) && (byte_at scriptPubKey 0 =? op OP_RETURN) && IsPushOnly (drop 1 scriptPubKey) then Ok (NULL_DATA, [])
        else
          match MatchPayToPubkey scriptPubKey with
          | Some data => Ok (PUBKEY, [data])
          | None =>
              match MatchPayToPubkeyHash scriptPubKey with
              | Some data => Ok (PUBKEYHASH, [data])
              | None =>
                  m ← MatchMultisig scriptPubKey;
                  match m with
                  | Some (required, keys) => Ok (MULTISIG, [u8 required] :: keys ++ [[u8 (zlen keys)]])
                  | None => Ok (NONSTANDARD, [])
                  end
              end
          end
    end.

(** The integers of [script << n] are [push_int64]. *)
Definition GetScriptForMultisig (nRequired : Z) (keys : list bytes) : bytes :=
  push_int64 (foldl push_data (push_int64 [] nRequired) keys) (zlen keys) ++ [op OP_CHECKMULTISIG].

Definition GetScriptForRawPubKey (pubKey : bytes) : bytes := push_data [] pubKey ++ [op OP_CHECKSIG].

(** * Destinations *)

Inductive CTxDestination :=
| CNoDestination (script : bytes)
| PubKeyDestination (pubkey : CPubKey)
| PKHash (hash : bytes)
| ScriptHash (hash : bytes)
| WitnessV0ScriptHash (hash : bytes)
| WitnessV0KeyHash (hash : bytes)
| WitnessV1Taproot (key : bytes)
| PayToAnchor
| WitnessUnknown (version : Z) (program : bytes).

Definition anchor_program : bytes := [0x4e; 0x73].

(** Whether the destination has an address, and the destination. *)
Definition ExtractDestination (scriptPubKey : bytes) : result string (bool * CTxDestination) :=
  '(whichType, vSolutions) ← Solver scriptPubKey;
  let solution i := nth i vSolutions [] in
  Ok match whichType with
     | PUBKEY =>
         let pubKey := CPubKey_Set (solution 0%nat) in
         (false, if negb (CPubKey_IsValid pubKey) then CNoDestination scriptPubKey else PubKeyDestination pubKey)
     | PUBKEYHASH => (true, PKHash (solution 0%nat))
     | SCRIPTHASH => (true, ScriptHash (solution 0%nat))
     | WITNESS_V0_KEYHASH => (true, WitnessV0KeyHash (solution 0%nat))
     | WITNESS_V0_SCRIPTHASH => (true, WitnessV0ScriptHash (solution 0%nat))
     | WITNESS_V1_TAPROOT => (true, WitnessV1Taproot (solution 0%nat))
     | ANCHOR => (true, PayToAnchor)
     | WITNESS_UNKNOWN => (true, WitnessUnknown (byte_at (solution 0%nat) 0) (solution 1%nat))
     | MULTISIG | NULL_DATA | NONSTANDARD => (false, CNoDestination scriptPubKey)
     end.

Definition GetScriptForDestination (dest : CTxDestination) : result string bytes :=
  match dest with
  | CNoDestination script => Ok script
  | PubKeyDestination pubkey => Ok (push_data [] pubkey ++ [op OP_CHECKSIG])
  | PKHash keyID => Ok (push_data [op OP_DUP; op OP_HASH160] keyID ++ [op OP_EQUALVERIFY; op OP_CHECKSIG])
  | ScriptHash scriptID => Ok (push_data [op OP_HASH160] scriptID ++ [op OP_EQUAL])
  | WitnessV0KeyHash id | WitnessV0ScriptHash id => Ok (push_data [op OP_0] id)
  | WitnessV1Taproot tap => Ok (push_data [op OP_1] tap)
  | PayToAnchor => n ← EncodeOP_N 1; Ok (push_data [n] anchor_program)
  | WitnessUnknown version program => n ← EncodeOP_N version; Ok (push_data [n] program)
  end.

Definition IsValidDestination (dest : CTxDestination) : bool :=
  match dest with CNoDestination _ | PubKeyDestination _ => false | _ => true end.

(** * Shapes of scripts *)

Lemma push_short s d : zlen d < 76 -> push_data s d = s ++ zlen d :: d.
Proof.
  intros H. unfold push_data, AppendDataSize. assert (0 <= zlen d) by (unfold zlen; lia).
  rewrite wrap_small by (unfold is_uint; lia). change (op OP_PUSHDATA1) with 76. rewrite (proj2 (Z.ltb_lt _ _)) by done.
  by rewrite wrap_small by (unfold is_uint; lia).
Qed.

Lemma IsPayToScriptHash_inv s : IsPayToScriptHash s = true ->
  exists h, length h = 20%nat /\ s = op OP_HASH160 :: 20 :: h ++ [op OP_EQUAL].
Proof.
  unfold IsPayToScriptHash. intros H. bool_props. unfold zlen, byte_at in *. exists (take 20 (drop 2 s)).
  do 23 (destruct s as [|? s]; [done|]). destruct s; [|simpl in *; lia]. cbn in *. subst. done.
Qed.

Lemma MatchPayToPubkeyHash_inv s h : MatchPayToPubkeyHash s = Some h ->
  length h = 20%nat /\ s = op OP_DUP :: op OP_HASH160 :: 20 :: h ++ [op OP_EQUALVERIFY; op OP_CHECKSIG].
Proof.
  unfold MatchPayToPubkeyHash. intros H. destruct (_ && _) eqn:E in H; [|done]. injection H as <-. bool_props. unfold zlen, byte_at in *.
  do 25 (destruct s as [|? s]; [done|]). destruct s; [|simpl in *; lia]. cbn in *. subst. done.
Qed.

Lemma IsWitnessProgram_inv s v p : IsWitnessProgram s = Some (v, p) ->
  0 <= v <= 16 /\ 2 <= zlen p <= 40 /\ exists n, EncodeOP_N v = Ok n /\ s = n :: zlen p :: p.
Proof.
  unfold IsWitnessProgram. case_match eqn:E; [done|]. case_match eqn:E1; [done|]. case_match eqn:E2; [|done].
  destruct (DecodeOP_N _) as [v'|] eqn:E3; [|done]. intros [= -> <-]. bool_props. destruct s as [|n [|l p]]; [done|done|].
  unfold byte_at, zlen in *. cbn [nth length drop] in *. rewrite drop_0. unfold DecodeOP_N in E3. change (op OP_0) with 0 in *. change (op OP_1) with 81 in *. change (op OP_16) with 96 in *.
  destruct (Z.eqb_spec n 0) as [->|Hn].
  - simplify_eq. split; [lia|]. split; [lia|]. exists 0. split; [done|]. do 2 f_equal. lia.
  - destruct (_ && _) eqn:E4 in E3; [|done]. bool_props. simplify_eq. split; [lia|]. split; [lia|]. exists n. unfold EncodeOP_N.
    change (op OP_1) with 81. rewrite (proj2 (Z.leb_le 0 _)), (proj2 (Z.leb_le _ 16)), (proj2 (Z.eqb_neq _ 0)) by lia. cbn [andb].
    split; [f_equal; lia|]. do 2 f_equal. lia.
Qed.

Lemma witness_program v n p : EncodeOP_N v = Ok n -> 2 <= zlen p <= 40 -> IsWitnessProgram (n :: zlen p :: p) = Some (v, p).
Proof.
  unfold EncodeOP_N. intros H Hp. destruct (_ && _) eqn:E in H; [|done]. bool_props. injection H as <-.
  unfold IsWitnessProgram, byte_at, zlen in *. cbn [nth length drop]. rewrite drop_0. unfold DecodeOP_N. change (op OP_0) with 0. change (op OP_1) with 81. change (op OP_16) with 96.
  rewrite (proj2 (Z.ltb_ge _ 4)), (proj2 (Z.ltb_ge 42 _)), (proj2 (Z.eqb_eq (Z.of_nat (length p) + 2) _)) by lia. cbn [orb].
  destruct (Z.eqb_spec v 0) as [->|Hv]; [done|]. rewrite (proj2 (Z.eqb_neq _ 0)), (proj2 (Z.ltb_ge _ 81)), (proj2 (Z.ltb_ge 96 _)) by lia. cbn [negb andb orb].
  rewrite (proj2 (Z.leb_le 81 _)), (proj2 (Z.leb_le _ 96)) by lia. cbn [andb]. do 2 f_equal. lia.
Qed.

(** A pay-to-pubkey script. *)
Definition p2pk (pk : bytes) : bytes := zlen pk :: pk ++ [op OP_CHECKSIG].

Lemma back_snoc l x : back (l ++ [x]) = x.
Proof. unfold back. apply last_last. Qed.

Lemma MatchPayToPubkey_inv s pk : MatchPayToPubkey s = Some pk -> ValidSize pk = true /\ zlen pk < 76 /\ s = p2pk pk.
Proof.
  assert (forall k, (zlen s =? Z.of_nat k + 2) && (byte_at s 0 =? Z.of_nat k) && (back s =? op OP_CHECKSIG) = true ->
    length (take k (drop 1 s)) = k /\ s = p2pk (take k (drop 1 s))) as Hshape.
  { intros k H. bool_props. unfold zlen in *. destruct s as [|a s]; [cbn in *; lia|]. unfold byte_at in *. cbn [nth drop length] in *. subst a.
    rewrite drop_0. destruct s as [|y r _] using rev_ind; [cbn in *; lia|]. rewrite length_app in *. cbn [length] in *.
    rewrite app_comm_cons, back_snoc in *. subst y. rewrite take_app_length' by lia. unfold p2pk, zlen. split; [lia|]. rewrite <- app_comm_cons. f_equal. lia. }
  unfold MatchPayToPubkey, PUBKEY_SIZE, COMPRESSED_SIZE. case_match eqn:E.
  - destruct (Hshape 65%nat E) as [Hl Hs]. destruct (ValidSize _) eqn:Ev; [|done]. intros [= <-]. unfold zlen. rewrite Hl. done.
  - case_match eqn:E2; [|done]. destruct (Hshape 33%nat E2) as [Hl Hs]. destruct (ValidSize _) eqn:Ev; [|done]. intros [= <-]. unfold zlen. rewrite Hl. done.
Qed.

Lemma ValidSize_set pk : ValidSize pk = true -> CPubKey_Set pk = pk /\ CPubKey_IsValid pk = true /\ (zlen pk = 33 \/ zlen pk = 65).
Proof.
  unfold ValidSize, CPubKey_Set, CPubKey_IsValid, CPubKey_size. intros H. apply andb_prop in H as [H0 H]. bool_props.
  destruct pk as [|c pk]; [done|]. unfold byte_at in H. cbn [nth] in H. rewrite H.
  rewrite (proj2 (Z.eqb_neq _ 0)), Z.eqb_refl, (proj2 (Z.ltb_lt _ _)) by lia. split; [done|]. split; [done|].
  rewrite <- H in *. unfold GetLen, COMPRESSED_SIZE, PUBKEY_SIZE in *. repeat case_match; lia.
Qed.

(** * No assertion fails *)

Lemma GetScriptNumber_total opcode data min max : exists r, GetScriptNumber opcode data min max = Ok r.
Proof.
  unfold GetScriptNumber. destruct (IsSmallInteger opcode) eqn:E.
  - unfold IsSmallInteger in E. unfold DecodeOP_N. rewrite E. destruct (opcode =? op OP_0); cbn; eauto.
  - destruct (IsPushdataOp opcode) eqn:E2; [|eauto]. unfold IsPushdataOp in E2. bool_props. change (op OP_0) with 0 in *.
    unfold CheckMinimalPush. rewrite (proj2 (Z.ltb_ge opcode 0)), (proj2 (Z.ltb_ge _ opcode)) by lia. cbn [orb].
    repeat (case_match; cbn [mbind result_bind]; eauto).
Qed.

Lemma multisig_keys_total fuel : forall it pubkeys, (length it <= fuel)%nat -> exists r, multisig_keys fuel it pubkeys = Ok r.
Proof.
  induction fuel as [|fuel IH]; intros it pubkeys Hl; cbn [multisig_keys]; destruct (GetScriptOp it) as [[[ok opcode] data] it'] eqn:E; destruct ok; eauto.
  - apply GetScriptOp_shrinks in E. lia.
  - destruct (ValidSize data); [|by eauto]. apply IH. apply GetScriptOp_shrinks in E. lia.
Qed.

Lemma MatchMultisig_total s : exists r, MatchMultisig s = Ok r.
Proof.
  unfold MatchMultisig. destruct (_ || _); [by eauto|]. destruct (GetScriptOp s) as [[[ok opcode] data] it]. destruct ok; [|by eauto].
  destruct (GetScriptNumber_total opcode data 1 MAX_PUBKEYS_PER_MULTISIG) as [[m|] ->]; cbn [mbind result_bind]; [|by eauto].
  destruct (multisig_keys_total (length it) it []) as [[[[keys opcode'] data'] it'] ->]; [done|]. cbn [mbind result_bind].
  destruct (GetScriptNumber_total opcode' data' m MAX_PUBKEYS_PER_MULTISIG) as [[n|] ->]; cbn [mbind result_bind]; [|by eauto].
  repeat case_match; eauto.
Qed.

(** * Scripts and destinations *)

Lemma anchor_inv s : IsPayToAnchor s = true -> s = [op OP_1; 2] ++ anchor_program.
Proof.
  unfold IsPayToAnchor. intros H. bool_props. unfold zlen, byte_at in *.
  do 4 (destruct s as [|? s]; [done|]). destruct s; [|simpl in *; lia]. cbn in *. by subst.
Qed.

Lemma destination_script s : exists valid d, ExtractDestination s = Ok (valid, d) /\ IsValidDestination d = valid /\ GetScriptForDestination d = Ok s.
Proof.
  unfold ExtractDestination, Solver. destruct (IsPayToScriptHash s) eqn:E1.
  { apply IsPayToScriptHash_inv in E1 as (h & Hh & ->). cbn [mbind result_bind nth drop]. rewrite drop_0, (take_app_length' h) by lia.
    eexists _, _. split; [done|]. split; [done|]. cbn [GetScriptForDestination]. rewrite push_short by (unfold zlen; lia). unfold zlen. by rewrite Hh. }
  destruct (IsWitnessProgram s) as [[v p]|] eqn:E2.
  { destruct (IsWitnessProgram_inv s v p E2) as (Hv & Hp & n & Hn & Hs). cbn [mbind result_bind].
    assert (push_data [n] p = s) as Hpush by (rewrite push_short by lia; by rewrite Hs).
    destruct ((v =? 0) && (zlen p =? WITNESS_V0_KEYHASH_SIZE)) eqn:E3.
    { bool_props. subst v. injection Hn as <-. eexists _, _. split; [done|]. split; [done|]. exact (f_equal Ok Hpush). }
    destruct ((v =? 0) && (zlen p =? WITNESS_V0_SCRIPTHASH_SIZE)) eqn:E4.
    { bool_props. subst v. injection Hn as <-. eexists _, _. split; [done|]. split; [done|]. exact (f_equal Ok Hpush). }
    destruct ((v =? 1) && (zlen p =? WITNESS_V1_TAPROOT_SIZE)) eqn:E5.
    { bool_props. subst v. injection Hn as <-. eexists _, _. split; [done|]. split; [done|]. exact (f_equal Ok Hpush). }
    destruct (IsPayToAnchor s) eqn:E6; [apply anchor_inv in E6 as ->; by eexists _, _|].
    destruct (Z.eqb_spec v 0) as [->|H0]; [by eexists _, _|]. eexists _, _. split; [done|]. split; [done|].
    cbn [negb GetScriptForDestination nth byte_at]. rewrite wrap_small by (unfold is_uint; lia). rewrite Hn. exact (f_equal Ok Hpush). }
  destruct (_ && _); [by eexists _, _|]. destruct (MatchPayToPubkey s) as [pk|] eqn:E3.
  { apply MatchPayToPubkey_inv in E3 as (Hv & Hl & ->). destruct (ValidSize_set pk Hv) as (Es & Ev & _). cbn [mbind result_bind nth]. rewrite Es, Ev.
    eexists _, _. split; [done|]. split; [done|]. cbn [negb GetScriptForDestination]. rewrite push_short by done. done. }
  destruct (MatchPayToPubkeyHash s) as [h|] eqn:E4.
  { apply MatchPayToPubkeyHash_inv in E4 as [Hh ->]. eexists _, _. split; [done|]. split; [done|]. cbn [GetScriptForDestination nth].
    rewrite push_short by (unfold zlen; lia). unfold zlen. by rewrite Hh. }
  destruct (MatchMultisig_total s) as [[[m keys]|] ->]; by eexists _, _.
Qed.

(** Destinations as [ExtractDestination] makes them. *)
Definition destination_ok (d : CTxDestination) : Prop :=
  match d with
  | CNoDestination _ => False
  | PubKeyDestination pk => ValidSize pk = true
  | PKHash h | ScriptHash h | WitnessV0KeyHash h => length h = 20%nat
  | WitnessV0ScriptHash h | WitnessV1Taproot h => length h = 32%nat
  | PayToAnchor => True
  | WitnessUnknown v p => 1 <= v <= 16 /\ 2 <= zlen p <= 40 /\ ~ (v = 1 /\ zlen p = 32) /\ ~ (v = 1 /\ p = anchor_program)
  end.

Lemma not_p2sh n l : n <> op OP_HASH160 -> IsPayToScriptHash (n :: l) = false.
Proof.
  intros H. unfold IsPayToScriptHash, byte_at. cbn [nth]. rewrite (proj2 (Z.eqb_neq n _)) by done. by rewrite andb_false_r.
Qed.

Lemma EncodeOP_N_range v n : EncodeOP_N v = Ok n -> 0 <= v <= 16 /\ n = (if v =? 0 then 0 else 80 + v).
Proof.
  unfold EncodeOP_N. intros H. destruct (_ && _) eqn:E in H; [|done]. bool_props. injection H as <-. split; [lia|].
  destruct (v =? 0); [done|]. change (op OP_1) with 81. lia.
Qed.

Lemma Solver_witness v n p : EncodeOP_N v = Ok n -> 2 <= zlen p <= 40 ->
  Solver (push_data [n] p) =
  Ok (if (v =? 0) && (zlen p =? WITNESS_V0_KEYHASH_SIZE) then (WITNESS_V0_KEYHASH, [p])
      else if (v =? 0) && (zlen p =? WITNESS_V0_SCRIPTHASH_SIZE) then (WITNESS_V0_SCRIPTHASH, [p])
      else if (v =? 1) && (zlen p =? WITNESS_V1_TAPROOT_SIZE) then (WITNESS_V1_TAPROOT, [p])
      else if IsPayToAnchor (n :: zlen p :: p) then (ANCHOR, [])
      else if negb (v =? 0) then (WITNESS_UNKNOWN, [[u8 v]; p]) else (NONSTANDARD, [])).
Proof.
  intros Hn Hp. rewrite push_short by lia. unfold Solver. cbn [app]. rewrite not_p2sh; [by rewrite (witness_program v n p Hn Hp)|].
  destruct (EncodeOP_N_range v n Hn) as [Hv ->]. change (op OP_HASH160) with 169. destruct (v =? 0); lia.
Qed.

Lemma not_witness n l : n <> 0 -> n < 81 \/ 96 < n -> IsWitnessProgram (n :: l) = None.
Proof.
  intros H0 H. unfold IsWitnessProgram, byte_at. cbn [nth]. case_match; [done|]. change (op OP_0) with 0. change (op OP_1) with 81. change (op OP_16) with 96.
  rewrite (proj2 (Z.eqb_neq n 0)) by done. destruct H.
  - by rewrite (proj2 (Z.ltb_lt n 81)).
  - rewrite (proj2 (Z.ltb_lt 96 n)) by done. by rewrite orb_true_r.
Qed.

Lemma not_null_data n l : n <> op OP_RETURN -> (1 <=? zlen (n :: l)) && (byte_at (n :: l) 0 =? op OP_RETURN) && IsPushOnly (drop 1 (n :: l)) = false.
Proof. intros H. unfold byte_at. cbn [nth]. rewrite (proj2 (Z.eqb_neq n _)) by done. by rewrite andb_false_r. Qed.

Lemma MatchPayToPubkey_p2pk pk : ValidSize pk = true -> MatchPayToPubkey (p2pk pk) = Some pk.
Proof.
  intros Hv. destruct (ValidSize_set pk Hv) as (_ & _ & Hl). unfold MatchPayToPubkey, p2pk, PUBKEY_SIZE, COMPRESSED_SIZE.
  rewrite app_comm_cons, back_snoc, Z.eqb_refl. unfold byte_at. cbn [nth app]. unfold zlen in *. cbn [length drop]. rewrite length_app, drop_0. cbn [length].
  change (65 + 2) with 67. change (33 + 2) with 35. destruct Hl as [Hl|Hl]; rewrite !Hl.
  - replace (Z.of_nat (S (length pk + 1))) with 35 by lia. cbn -[take]. rewrite take_app_length' by lia. by rewrite Hv.
  - replace (Z.of_nat (S (length pk + 1))) with 67 by lia. cbn -[take]. rewrite take_app_length' by lia. by rewrite Hv.
Qed.

Lemma Solver_p2pk pk : ValidSize pk = true -> Solver (p2pk pk) = Ok (PUBKEY, [pk]).
Proof.
  intros Hv. pose proof (MatchPayToPubkey_p2pk pk Hv) as Hm. destruct (ValidSize_set pk Hv) as (_ & _ & Hl).
  unfold Solver. rewrite Hm. unfold p2pk. rewrite not_p2sh, not_witness, not_null_data; [done|..]; change (op OP_RETURN) with 106; change (op OP_HASH160) with 169; lia.
Qed.

Lemma Solver_p2pkh h : length h = 20%nat -> Solver (push_data [op OP_DUP; op OP_HASH160] h ++ [op OP_EQUALVERIFY; op OP_CHECKSIG]) = Ok (PUBKEYHASH, [h]).
Proof.
  intros Hh. rewrite push_short by (unfold zlen; lia). unfold zlen. rewrite Hh.
  do 20 (destruct h as [|? h]; [done|]). destruct h; [|done]. reflexivity.
Qed.

Lemma Solver_p2sh h : length h = 20%nat -> Solver (push_data [op OP_HASH160] h ++ [op OP_EQUAL]) = Ok (SCRIPTHASH, [h]).
Proof.
  intros Hh. rewrite push_short by (unfold zlen; lia). unfold zlen. rewrite Hh.
  do 20 (destruct h as [|? h]; [done|]). destruct h; [|done]. reflexivity.
Qed.

(** * Multisig scripts *)

Lemma small_int_op n rest : 1 <= n <= 20 ->
  exists opcode data, GetScriptOp (push_int64 [] n ++ rest) = (true, opcode, data, rest) /\ ValidSize data = false
    /\ (opcode <> op OP_0 /\ length (push_int64 [] n) = if n <=? 16 then 1%nat else 2%nat)
    /\ forall lo hi, lo <= n <= hi -> GetScriptNumber opcode data lo hi = Ok (Some n).
Proof.
  intros Hn. assert (forall lo hi n, lo <= n <= hi -> (if (n <? lo) || (hi <? n) then None else Some n) = Some n) as Hw.
  { intros lo hi k H. rewrite (proj2 (Z.ltb_ge k lo)), (proj2 (Z.ltb_ge hi k)) by lia. done. }
  destruct (Z.le_gt_cases n 16).
  - assert (In n [1; 2; 3; 4; 5; 6; 7; 8; 9; 10; 11; 12; 13; 14; 15; 16]) as Hin by (simpl; lia). simpl in Hin.
    repeat (destruct Hin as [<-|Hin]; [eexists _, _; (split; [reflexivity|]); (split; [reflexivity|]); (split; [split; [discriminate|reflexivity]|]);
      intros lo hi Hlh; etrans; [|apply (f_equal Ok), (Hw lo hi _ Hlh)]; reflexivity|]). destruct Hin.
  - assert (In n [17; 18; 19; 20]) as Hin by (simpl; lia). simpl in Hin.
    repeat (destruct Hin as [<-|Hin]; [eexists 1, [_]; (split; [refine (GetScriptOp_push 1 [_] rest _ _); [lia|reflexivity]|]); (split; [reflexivity|]); (split; [split; [discriminate|reflexivity]|]);
      intros lo hi Hlh; etrans; [|apply (f_equal Ok), (Hw lo hi _ Hlh)]; reflexivity|]). destruct Hin.
Qed.

Lemma foldl_push keys : forall s, foldl push_data s keys = s ++ concat (map (push_data []) keys).
Proof.
  induction keys as [|k keys IH]; intros s; cbn [foldl map concat]; [by rewrite app_nil_r|]. rewrite IH.
  unfold push_data at 1 3. cbn [app]. by rewrite <- !app_assoc.
Qed.

Lemma key_op k rest : ValidSize k = true -> GetScriptOp (push_data [] k ++ rest) = (true, zlen k, k, rest) /\ (length k < length (push_data [] k))%nat.
Proof.
  intros Hk. destruct (ValidSize_set k Hk) as (_ & _ & Hl). rewrite push_short by lia. cbn [app length]. split; [|lia].
  unfold GetScriptOp, push_size. change (op OP_PUSHDATA4) with 78. change (op OP_PUSHDATA1) with 76.
  rewrite (proj2 (Z.leb_le _ _)), (proj2 (Z.ltb_lt _ 76)) by lia.
  rewrite (proj2 (Z.ltb_ge _ _)) by (unfold zlen; rewrite length_app; lia).
  replace (Z.to_nat (zlen k)) with (length k) by (unfold zlen; lia). by rewrite take_app_length, drop_app_length.
Qed.

Lemma multisig_keys_spec keys : Forall (fun k => ValidSize k = true) keys -> forall fuel acc rest opcode data it,
  (length keys < fuel)%nat -> GetScriptOp rest = (true, opcode, data, it) -> ValidSize data = false ->
  multisig_keys fuel (concat (map (push_data []) keys) ++ rest) acc = Ok (acc ++ keys, opcode, data, it).
Proof.
  induction 1 as [|k keys Hk _ IH]; intros fuel acc rest opcode data it Hf Hop Hd; cbn [map concat app].
  - rewrite app_nil_r. by destruct fuel; cbn [multisig_keys]; rewrite Hop, Hd.
  - cbn [length] in Hf. destruct fuel as [|fuel]; [lia|]. cbn [multisig_keys]. rewrite <- app_assoc.
    destruct (key_op k (concat (map (push_data []) keys) ++ rest) Hk) as [-> _]. rewrite Hk.
    rewrite (IH fuel (acc ++ [k]) rest opcode data it) by (done || lia). by rewrite <- app_assoc.
Qed.

Lemma multisig_length keys : Forall (fun k => ValidSize k = true) keys -> (34 * length keys <= length (concat (map (push_data []) keys)))%nat.
Proof.
  induction 1 as [|k keys Hk _ IH]; [done|]. cbn [map concat length]. rewrite length_app. destruct (ValidSize_set k Hk) as (_ & _ & Hl).
  destruct (key_op k [] Hk) as [_ Hlen]. unfold zlen in Hl. lia.
Qed.

Lemma MatchMultisig_script m keys : 1 <= m <= zlen keys -> zlen keys <= 20 -> Forall (fun k => ValidSize k = true) keys ->
  MatchMultisig (GetScriptForMultisig m keys) = Ok (Some (m, keys)).
Proof.
  intros Hm Hn Hk. unfold MatchMultisig, GetScriptForMultisig.
  rewrite back_snoc, Z.eqb_refl, (proj2 (Z.ltb_ge _ 1)) by (unfold zlen; rewrite length_app; cbn [length]; lia). cbn [orb negb].
  assert (forall s n, push_int64 s n = s ++ push_int64 [] n) as Hpush.
  { intros s n. unfold push_int64, push_data. repeat case_match; done. }
  rewrite Hpush, foldl_push, <- !app_assoc.
  destruct (small_int_op m (concat (map (push_data []) keys) ++ push_int64 [] (zlen keys) ++ [op OP_CHECKMULTISIG]) ltac:(lia)) as (o & d & -> & _ & _ & Hnum).
  rewrite Hnum by (unfold MAX_PUBKEYS_PER_MULTISIG; lia). cbn [mbind result_bind].
  destruct (small_int_op (zlen keys) [op OP_CHECKMULTISIG] ltac:(lia)) as (o2 & d2 & Hop & Hvs & _ & Hnum2).
  rewrite (multisig_keys_spec keys Hk _ [] _ o2 d2 [op OP_CHECKMULTISIG]); [|rewrite length_app; pose proof (multisig_length keys Hk); unfold zlen in *; lia|done|done].
  cbn [mbind result_bind app]. rewrite Hnum2 by (unfold MAX_PUBKEYS_PER_MULTISIG; lia). cbn [mbind result_bind]. by rewrite Z.eqb_refl.
Qed.

Lemma multisig_shape m keys : 1 <= m <= zlen keys -> zlen keys <= 20 -> Forall (fun k => ValidSize k = true) keys ->
  exists a k0 rest, k0 <> [] /\ rest <> [] /\ (35 < zlen (GetScriptForMultisig m keys))
    /\ back (GetScriptForMultisig m keys) = op OP_CHECKMULTISIG /\ a <> op OP_RETURN
    /\ ((81 <= a /\ GetScriptForMultisig m keys = a :: zlen k0 :: k0 ++ rest) \/ (a = 1 /\ GetScriptForMultisig m keys = a :: k0 ++ rest)).
Proof.
  intros Hm Hn Hk. pose proof (multisig_length keys Hk) as Hlen. unfold GetScriptForMultisig. rewrite back_snoc.
  assert (forall s n, push_int64 s n = s ++ push_int64 [] n) as Hpush by (intros s n; unfold push_int64, push_data; repeat case_match; done).
  rewrite Hpush, foldl_push, <- !app_assoc. set (tl := push_int64 [] (zlen keys) ++ [op OP_CHECKMULTISIG]).
  assert (35 < zlen (push_int64 [] m ++ concat (map (push_data []) keys) ++ tl)) as Hl.
  { assert (1 <= length (push_int64 [] m))%nat by (unfold push_int64; repeat case_match; rewrite ?length_app; cbn [length]; try lia; unfold push_data; rewrite !length_app; unfold AppendDataSize; repeat case_match; cbn [length]; lia).
    unfold tl, zlen in *. rewrite !length_app. cbn [length]. lia. }
  destruct keys as [|k keys]; [unfold zlen in Hm; cbn in Hm; lia|]. apply Forall_cons_iff in Hk as [Hk0 Hk]. destruct (ValidSize_set k Hk0) as (_ & _ & Hkl).
  destruct (Z.le_gt_cases m 16) as [H16|H16].
  - assert (push_int64 [] m = [80 + m]) as E.
    { unfold push_int64. rewrite (proj2 (Z.leb_le 1 m)), (proj2 (Z.leb_le m 16)), orb_true_r by lia. change (op OP_1) with 81. cbn [app]. f_equal. lia. }
    rewrite E in *. exists (80 + m), k, (concat (map (push_data []) keys) ++ tl). split; [by intros ->|]. split; [by destruct (concat (map (push_data []) keys)); [unfold tl; destruct (push_int64 [] _)|]|].
    split; [done|]. split; [done|]. split; [change (op OP_RETURN) with 106; lia|]. left. split; [lia|]. cbn [map concat app]. rewrite push_short by lia. cbn [app]. by rewrite <- app_assoc.
  - exists 1, [m], (concat (map (push_data []) (k :: keys)) ++ tl). split; [done|]. split; [by cbn [map concat]; rewrite push_short by lia|].
    split; [done|]. split; [done|]. split; [done|]. right. split; [done|].
    assert (m = 17 \/ m = 18 \/ m = 19 \/ m = 20) as [-> |[-> |[-> | ->]]] by lia; done.
Qed.

(** A multisig script is recognized, with its keys. *)
Lemma Solver_multisig m keys : 1 <= m <= zlen keys -> zlen keys <= 20 -> Forall (fun k => ValidSize k = true) keys ->
  Solver (GetScriptForMultisig m keys) = Ok (MULTISIG, [m] :: keys ++ [[zlen keys]]).
Proof.
  intros Hm Hn Hk. destruct (multisig_shape m keys Hm Hn Hk) as (a & k0 & rest & Hk0 & Hrest & Hl & Hback & Ha & Hs).
  pose proof (MatchMultisig_script m keys Hm Hn Hk) as Hmatch. set (s := GetScriptForMultisig m keys) in *. unfold Solver.
  destruct (IsPayToScriptHash s) eqn:E1; [apply IsPayToScriptHash_inv in E1 as (h & Hh & Es); rewrite Es in Hl; unfold zlen in Hl; cbn [length] in Hl; rewrite length_app, Hh in Hl; cbn in Hl; lia|].
  destruct (IsWitnessProgram s) as [[v p]|] eqn:E2.
  { exfalso. apply IsWitnessProgram_inv in E2 as (Hv & Hp & n & En & Es). destruct (EncodeOP_N_range v n En) as [_ ->]. destruct Hs as [[Ha' Hs]|[-> Hs]].
    - rewrite Hs in Es. injection Es as _ Ez Ep. rewrite <- Ep in Ez. unfold zlen in Ez. rewrite length_app in Ez. destruct rest; [done|]. cbn in Ez. lia.
    - rewrite Hs in Es. injection Es as E _. destruct (v =? 0) eqn:E0; bool_props; lia. }
  assert (exists l, s = a :: l) as [l El] by (destruct Hs as [[_ ->]|[_ ->]]; eauto).
  replace ((1 <=? zlen s) && _ && _) with false by (by rewrite El, not_null_data).
  destruct (MatchPayToPubkey s) as [pk|] eqn:E3.
  { apply MatchPayToPubkey_inv in E3 as (_ & _ & Es). rewrite Es in Hback. unfold p2pk in Hback. by rewrite app_comm_cons, back_snoc in Hback. }
  destruct (MatchPayToPubkeyHash s) as [h|] eqn:E4.
  { apply MatchPayToPubkeyHash_inv in E4 as [Hh Es]. rewrite Es in Hl. unfold zlen in Hl. cbn [length] in Hl. rewrite length_app, Hh in Hl. cbn in Hl. lia. }
  rewrite Hmatch. cbn [mbind result_bind]. rewrite !wrap_small by (unfold is_uint, zlen in *; lia). done.
Qed.

(** C28: Output scripts and destinations determine each other.  For every script,
    [ExtractDestination] fails no assertion, says truly whether the destination has an
    address, and [GetScriptForDestination] of the destination is the script again; and
    the script of a destination has that destination.  The script for a multisig of up
    to 20 keys is recognized, with the number of signatures and the keys. *)
Theorem script_destination_roundtrip :
  (forall s, exists valid d, ExtractDestination s = Ok (valid, d) /\ IsValidDestination d = valid /\ GetScriptForDestination d = Ok s)
  /\ (forall d, destination_ok d -> exists s, GetScriptForDestination d = Ok s /\ ExtractDestination s = Ok (IsValidDestination d, d))
  /\ forall m keys, 1 <= m <= zlen keys -> zlen keys <= 20 -> Forall (fun k => ValidSize k = true) keys ->
       Solver (GetScriptForMultisig m keys) = Ok (MULTISIG, [m] :: keys ++ [[zlen keys]]).
Proof.
  split; [exact destination_script|]. split; [|exact Solver_multisig]. intros d Hd. unfold ExtractDestination. destruct d as [|pk|h|h|h|h|h| |v p]; cbn [destination_ok GetScriptForDestination] in *; [done|..].
  - destruct (ValidSize_set pk Hd) as (Es & Ev & Hl). eexists. split; [done|]. rewrite push_short by lia.
    change (Solver _) with (Solver (p2pk pk)). rewrite Solver_p2pk by done. cbn [mbind result_bind nth]. by rewrite Es, Ev.
  - eexists. split; [done|]. by rewrite Solver_p2pkh.
  - eexists. split; [done|]. by rewrite Solver_p2sh.
  - eexists. split; [done|]. rewrite (Solver_witness 0) by (done || unfold zlen; lia). unfold zlen. by rewrite Hd.
  - eexists. split; [done|]. rewrite (Solver_witness 0) by (done || unfold zlen; lia). unfold zlen. by rewrite Hd.
  - eexists. split; [done|]. rewrite (Solver_witness 1) by (done || unfold zlen; lia). unfold zlen. by rewrite Hd.
  - by eexists.
  - destruct Hd as (Hv & Hp & H32 & Ha). destruct (EncodeOP_N v) as [n|] eqn:En.
    + eexists. split; [done|]. rewrite (Solver_witness v) by done. destruct (EncodeOP_N_range v n En) as [_ Hn].
      rewrite (proj2 (Z.eqb_neq v 0)) in * by lia. cbn [andb negb].
      replace ((v =? 1) && (zlen p =? WITNESS_V1_TAPROOT_SIZE)) with false by (symmetry; apply not_true_iff_false; intros H; bool_props; by apply H32).
      destruct (IsPayToAnchor (n :: zlen p :: p)) eqn:Ea; [apply anchor_inv in Ea; exfalso; apply Ha|].
      * injection Ea as -> _ ->. change (op OP_1) with 81 in Hn. split; [lia|done].
      * cbn. by rewrite wrap_small by (unfold is_uint; lia).
    + unfold EncodeOP_N in En. by rewrite (proj2 (Z.leb_le 0 v)), (proj2 (Z.leb_le v 16)) in En by lia.
Qed.

Lemma script_destination_roundtrip_witness :
  (exists s, GetScriptForDestination (WitnessUnknown 2 [1; 2]) = Ok s /\ ExtractDestination s = Ok (true, WitnessUnknown 2 [1; 2]))
  /\ Solver (GetScriptForMultisig 1 [2 :: replicate 32 7; 3 :: replicate 32 9]) = Ok (MULTISIG, [1] :: [2 :: replicate 32 7; 3 :: replicate 32 9] ++ [[2]]).
Proof.
  destruct script_destination_roundtrip as (_ & H2 & H3). split.
  - apply (H2 (WitnessUnknown 2 [1; 2])). repeat split; try (vm_compute; discriminate); intros [? _]; discriminate.
  - apply (H3 1 [2 :: replicate 32 7; 3 :: replicate 32 9]); [split; vm_compute; discriminate|vm_compute; discriminate|repeat constructor].
Defined.
