(* ===== verification/TxVerify.v ===== *)
(** Checks of a transaction that need the chain or the unspent coins
    (src/bitcoin/src/consensus/tx_verify.cpp): finality, relative lock times,
    signature operations, and the amounts and maturity of the inputs.  The coins
    cache is threaded through, since reading a coin fills it. *)

From S2P Require Import Prelude Serialize ArithUint256 MerkleDamgard Sha2 Hash Transaction Script Coins CoinsProofs CoinsDB CoinsSpec.
From S2P Require Import BlockIndex BlockIndexSpec PubKey Interpreter SigHash.

Definition LOCKTIME_VERIFY_SEQUENCE : Z := 1.
Definition COINBASE_MATURITY : Z := 100.
Definition MAX_BLOCK_SIGOPS_COST : Z := 80000.

(** * Lock times *)

Definition IsFinalTx (tx : CTransaction) (nBlockHeight nBlockTime : Z) : bool :=
  if nLockTime tx =? 0 then true
  else if nLockTime tx <? (if nLockTime tx <? LOCKTIME_THRESHOLD then nBlockHeight else nBlockTime) then true
  else forallb (fun txin => nSequence txin =? SEQUENCE_FINAL) (vin tx).

(** The loop of [CalculateSequenceLocks]: the two minima and the heights it leaves. *)
Fixpoint sequence_locks_loop (m : BlockMap) (block : ptr) (ins : list CTxIn) (prevHeights : list Z)
    (nMinHeight nMinTime : Z) : result string (Z * Z * list Z) :=
  match ins, prevHeights with
  | txin :: ins, nCoinHeight :: prevHeights =>
      if negb (Z.land (nSequence txin) SEQUENCE_LOCKTIME_DISABLE_FLAG =? 0) then
        '(h, t, hs) ← sequence_locks_loop m block ins prevHeights nMinHeight nMinTime;
        Ok (h, t, 0 :: hs)
      else
        '(nMinHeight, nMinTime) ←
          (if negb (Z.land (nSequence txin) SEQUENCE_LOCKTIME_TYPE_FLAG =? 0) then
             a ← GetAncestor m block (Z.max (nCoinHeight - 1) 0);
             p ← match a with Some p => Ok p | None => Err "Assert(block.GetAncestor(...))" end;
             nCoinTime ← GetMedianTimePast m p;
             Ok (nMinHeight,
                 Z.max nMinTime
                   (nCoinTime + u32 (Z.shiftl (Z.land (nSequence txin) SEQUENCE_LOCKTIME_MASK) SEQUENCE_LOCKTIME_GRANULARITY) - 1))
           else
             Ok (Z.max nMinHeight (nCoinHeight + Z.land (nSequence txin) SEQUENCE_LOCKTIME_MASK - 1), nMinTime));
        '(h, t, hs) ← sequence_locks_loop m block ins prevHeights nMinHeight nMinTime;
        Ok (h, t, nCoinHeight :: hs)
  | _, _ => Ok (nMinHeight, nMinTime, prevHeights)
  end.

Definition CalculateSequenceLocks (m : BlockMap) (tx : CTransaction) (flags : Z) (prevHeights : list Z) (block : ptr)
    : result string (Z * Z * list Z) :=
  if negb (zlen prevHeights =? zlen (vin tx)) then Err "assert(prevHeights.size() == tx.vin.size())"
  else if negb ((2 <=? version tx) && negb (Z.land flags LOCKTIME_VERIFY_SEQUENCE =? 0)) then Ok (-1, -1, prevHeights)
  else sequence_locks_loop m block (vin tx) prevHeights (-1) (-1).

Definition EvaluateSequenceLocks (m : BlockMap) (block : ptr) (lockPair : Z * Z) : result string bool :=
  b ← deref m block;
  prev ← match pprev b with Some p => Ok p | None => Err "assert(block.pprev)" end;
  nBlockTime ← GetMedianTimePast m prev;
  Ok (negb ((nHeight b <=? lockPair.1) || (nBlockTime <=? lockPair.2))).

Definition SequenceLocks (m : BlockMap) (tx : CTransaction) (flags : Z) (prevHeights : list Z) (block : ptr)
    : result string (bool * list Z) :=
  '(h, t, hs) ← CalculateSequenceLocks m tx flags prevHeights block;
  b ← EvaluateSequenceLocks m block (h, t);
  Ok (b, hs).

(** * Signature operations *)

Definition GetLegacySigOpCount (tx : CTransaction) : Z :=
  let nSigOps := foldl (fun n txin => u32 (n + GetSigOpCount (scriptSig txin) false)) 0 (vin tx) in
  foldl (fun n txout => u32 (n + GetSigOpCount (scriptPubKey txout) false)) nSigOps (vout tx).

Section Inputs.
Context (DynamicUsage : bytes -> Z).
Context {V : Type} {OPS : CoinsViewOps V}.

(** [AccessCoin] followed by [assert(!coin.IsSpent())]. *)
Definition access_unspent (inputs : CCoinsViewCache V) (prevout : COutPoint) : result string (Coin * CCoinsViewCache V) :=
  let '(co, inputs) := AccessCoin DynamicUsage inputs prevout in
  if IsSpent co then Err "assert(!coin.IsSpent())" else Ok (co, inputs).

Fixpoint p2sh_sigops (inputs : CCoinsViewCache V) (ins : list CTxIn) (nSigOps : Z) : result string (Z * CCoinsViewCache V) :=
  match ins with
  | [] => Ok (nSigOps, inputs)
  | txin :: ins =>
      '(co, inputs) ← access_unspent inputs (prevout txin);
      let script := scriptPubKey (out co) in
      p2sh_sigops inputs ins
        (if IsPayToScriptHash script then u32 (nSigOps + GetSigOpCount_p2sh script (scriptSig txin)) else nSigOps)
  end.

Definition GetP2SHSigOpCount (tx : CTransaction) (inputs : CCoinsViewCache V) : result string (Z * CCoinsViewCache V) :=
  if IsCoinBase tx then Ok (0, inputs) else p2sh_sigops inputs (vin tx) 0.

Fixpoint witness_sigops (inputs : CCoinsViewCache V) (ins : list CTxIn) (flags nSigOps : Z)
    : result string (Z * CCoinsViewCache V) :=
  match ins with
  | [] => Ok (nSigOps, inputs)
  | txin :: ins =>
      '(co, inputs) ← access_unspent inputs (prevout txin);
      n ← CountWitnessSigOps (scriptSig txin) (scriptPubKey (out co)) (scriptWitness txin) flags;
      witness_sigops inputs ins flags (nSigOps + n)
  end.

(** The products are of 32-bit unsigned integers. *)
Definition GetTransactionSigOpCost (tx : CTransaction) (inputs : CCoinsViewCache V) (flags : Z)
    : result string (Z * CCoinsViewCache V) :=
  let nSigOps := u32 (GetLegacySigOpCount tx * WITNESS_SCALE_FACTOR) in
  if IsCoinBase tx then Ok (nSigOps, inputs)
  else
    '(nSigOps, inputs) ←
      (if has flags SCRIPT_VERIFY_P2SH then
         '(n, inputs) ← GetP2SHSigOpCount tx inputs;
         Ok (nSigOps + u32 (n * WITNESS_SCALE_FACTOR), inputs)
       else Ok (nSigOps, inputs));
    witness_sigops inputs (vin tx) flags nSigOps.

(** * The amounts *)

(** The loop over the inputs: the value so far, or the reason why it is invalid. *)
Fixpoint input_values (inputs : CCoinsViewCache V) (ins : list CTxIn) (nSpendHeight nValueIn : Z)
    : result string (result (TxValidationResult * string) Z * CCoinsViewCache V) :=
  match ins with
  | [] => Ok (Ok nValueIn, inputs)
  | txin :: ins =>
      '(co, inputs) ← access_unspent inputs (prevout txin);
      if fCoinBase co && (nSpendHeight - coin_nHeight co <? COINBASE_MATURITY)
      then Ok (Err (TX_PREMATURE_SPEND, "bad-txns-premature-spend-of-coinbase"), inputs)
      else
        let nValueIn := i64 (nValueIn + nValue (out co)) in
        if negb (MoneyRange (nValue (out co))) || negb (MoneyRange nValueIn)
        then Ok (Err (TX_CONSENSUS, "bad-txns-inputvalues-outofrange"), inputs)
        else input_values inputs ins nSpendHeight nValueIn
  end.

(** [CheckTxInputs]: the fee, or the reason of the rejection. *)
Definition CheckTxInputs (tx : CTransaction) (inputs : CCoinsViewCache V) (nSpendHeight : Z)
    : result string (result (TxValidationResult * string) Z * CCoinsViewCache V) :=
  let '(have, inputs) := HaveInputs DynamicUsage inputs tx in
  if negb have then Ok (Err (TX_MISSING_INPUTS, "bad-txns-inputs-missingorspent"), inputs)
  else
    '(r, inputs) ← input_values inputs (vin tx) nSpendHeight 0;
    match r with
    | Err e => Ok (Err e, inputs)
    | Ok nValueIn =>
        value_out ← GetValueOut tx;
        if nValueIn <? value_out then Ok (Err (TX_CONSENSUS, "bad-txns-in-belowout"), inputs)
        else
          let txfee_aux := nValueIn - value_out in
          if negb (MoneyRange txfee_aux) then Ok (Err (TX_CONSENSUS, "bad-txns-fee-outofrange"), inputs)
          else Ok (Ok txfee_aux, inputs)
    end.

End Inputs.

(** * Lock times: what they enforce *)

(** The relative lock of an input that spends a coin of height [coin_height], in a
    block of height [height] whose parent has the median time [mtp]. *)
Definition lock_met (m : BlockMap) (block : ptr) (height mtp : Z) (txin : CTxIn) (coin_height : Z) : Prop :=
  let span := Z.land (nSequence txin) SEQUENCE_LOCKTIME_MASK in
  if negb (Z.land (nSequence txin) SEQUENCE_LOCKTIME_DISABLE_FLAG =? 0) then True
  else if negb (Z.land (nSequence txin) SEQUENCE_LOCKTIME_TYPE_FLAG =? 0) then
    forall a t, GetAncestor m block (Z.max (coin_height - 1) 0) = Ok (Some a) -> GetMedianTimePast m a = Ok t ->
      t + 512 * span <= mtp
  else coin_height + span <= height.

Lemma span_seconds s : 0 <= s ->
  u32 (Z.shiftl (Z.land s SEQUENCE_LOCKTIME_MASK) SEQUENCE_LOCKTIME_GRANULARITY) = 512 * Z.land s SEQUENCE_LOCKTIME_MASK.
Proof.
  intros Hs. change SEQUENCE_LOCKTIME_MASK with (2 ^ 16 - 1). rewrite land_mask by lia.
  pose proof (Z.mod_pos_bound s (2 ^ 16) ltac:(lia)).
  rewrite Z.shiftl_mul_pow2 by (unfold SEQUENCE_LOCKTIME_GRANULARITY; lia).
  change (2 ^ SEQUENCE_LOCKTIME_GRANULARITY) with 512. rewrite wrap_small; [lia|]. unfold is_uint. lia.
Qed.

Lemma sequence_locks_loop_spec m block height mtp ins : forall hs minh mint h t hs',
  Forall (fun i => 0 <= nSequence i) ins -> length hs = length ins ->
  sequence_locks_loop m block ins hs minh mint = Ok (h, t, hs') ->
  (h < height /\ t < mtp) <-> (minh < height /\ mint < mtp /\ Forall2 (lock_met m block height mtp) ins hs).
Proof.
  induction ins as [|i ins IH]; intros [|ch hs] minh mint h t hs' Hs Hl E; try done.
  - cbn in E. simplify_eq. split; [intros []; split_and!; try done; constructor|tauto].
  - apply Forall_cons_iff in Hs as [Hi Hs]. cbn [length] in Hl. injection Hl as Hl.
    cbn [sequence_locks_loop] in E. rewrite Forall2_cons_iff. unfold lock_met at 1.
    destruct (Z.land (nSequence i) SEQUENCE_LOCKTIME_DISABLE_FLAG =? 0); cbn [negb] in E |- *.
    + apply result_bind_inv in E as ([minh' mint'] & E1 & E).
      apply result_bind_inv in E as ([[h1 t1] hs1] & E2 & E). simplify_eq.
      rewrite (IH _ _ _ _ _ _ Hs Hl E2). clear E2 IH.
      destruct (Z.land (nSequence i) SEQUENCE_LOCKTIME_TYPE_FLAG =? 0); cbn [negb] in E1 |- *.
      * simplify_eq. intuition lia.
      * apply result_bind_inv in E1 as (a & Ea & E1). apply result_bind_inv in E1 as (p & Ep & E1).
        apply result_bind_inv in E1 as (ct & Ect & E1). destruct a as [a|]; simplify_eq.
        rewrite span_seconds by done. rewrite Ea. split.
        -- intros (? & ? & ?). split_and!; [lia|lia| |done]. intros a' t' Ha' Ht'. simplify_eq. rewrite Ect in Ht'.
           simplify_eq. lia.
        -- intros (? & ? & H1 & ?). specialize (H1 p ct eq_refl Ect). split_and!; [lia|lia|done].
    + apply result_bind_inv in E as ([[h1 t1] hs1] & E2 & E). simplify_eq.
      rewrite (IH _ _ _ _ _ _ Hs Hl E2). tauto.
Qed.

(** A sequence number is its type bit and its span. *)
Lemma sequence_masked s : 0 <= s ->
  let masked := Z.land s (Z.lor SEQUENCE_LOCKTIME_TYPE_FLAG SEQUENCE_LOCKTIME_MASK) in
  let span := Z.land s SEQUENCE_LOCKTIME_MASK in
  0 <= span < 2 ^ 16 /\
  if Z.land s SEQUENCE_LOCKTIME_TYPE_FLAG =? 0 then masked = span
  else masked = SEQUENCE_LOCKTIME_TYPE_FLAG + span.
Proof.
  intros Hs. cbv zeta. rewrite Z.land_lor_distr_r. unfold SEQUENCE_LOCKTIME_TYPE_FLAG. rewrite land_pow2 by lia.
  change SEQUENCE_LOCKTIME_MASK with (2 ^ 16 - 1). rewrite land_mask by lia.
  pose proof (Z.mod_pos_bound s (2 ^ 16) ltac:(lia)). split; [done|].
  destruct (Z.testbit s 22); cbn [Z.b2z].
  - rewrite Z.mul_1_l. replace (2 ^ 22 =? 0) with false by done.
    rewrite Z.lor_comm, <- (Z.mul_1_l (2 ^ 22)), lor_pow2_add; [lia..|]. unfold is_uint. lia.
  - by rewrite Z.mul_0_l, Z.lor_0_l.
Qed.

(** What [OP_CHECKSEQUENCEVERIFY] has compared. *)
Lemma CheckSequence_spec tx nIn sequence : 0 <= sequence -> 0 <= nSequence (vin_at tx nIn) ->
  Generic_CheckSequence tx nIn sequence = true ->
  2 <= version tx /\ Z.land (nSequence (vin_at tx nIn)) SEQUENCE_LOCKTIME_DISABLE_FLAG = 0
  /\ Z.land (nSequence (vin_at tx nIn)) SEQUENCE_LOCKTIME_MASK >= Z.land sequence SEQUENCE_LOCKTIME_MASK
  /\ (Z.land (nSequence (vin_at tx nIn)) SEQUENCE_LOCKTIME_TYPE_FLAG =? 0)
     = (Z.land sequence SEQUENCE_LOCKTIME_TYPE_FLAG =? 0).
Proof.
  unfold Generic_CheckSequence. intros Hs Ht.
  destruct (sequence_masked _ Hs) as [Hr1 Hm1], (sequence_masked _ Ht) as [Hr2 Hm2].
  revert Hr1 Hr2 Hm1 Hm2. generalize (Z.lor SEQUENCE_LOCKTIME_TYPE_FLAG SEQUENCE_LOCKTIME_MASK). intros M Hr1 Hr2 Hm1 Hm2.
  bool_cases; cbn [negb andb orb]; intros H'; try discriminate H';
    unfold SEQUENCE_LOCKTIME_TYPE_FLAG in *; (split; [done|]); (split; [done|]); (split; [lia|]); try done; lia.
Qed.

Lemma SequenceLocks_spec m tx flags hs block hs' b prev mtp r :
  SequenceLocks m tx flags hs block = Ok (r, hs') ->
  m !! block = Some b -> pprev b = Some prev -> GetMedianTimePast m prev = Ok mtp ->
  0 <= nHeight b -> 0 <= mtp -> Forall (fun i => 0 <= nSequence i) (vin tx) ->
  length hs = length (vin tx)
  /\ (r = true <-> (2 <= version tx -> Z.land flags LOCKTIME_VERIFY_SEQUENCE <> 0 ->
                   Forall2 (lock_met m block (nHeight b) mtp) (vin tx) hs)).
Proof.
  intros H Hb Hp Hmtp Hh0 Ht0 Hseq. unfold SequenceLocks in H. apply result_bind_inv in H as ([[h t] hs1] & Ec & H).
  apply result_bind_inv in H as (r1 & Ee & H). simplify_eq.
  unfold EvaluateSequenceLocks, deref in Ee. rewrite Hb in Ee. cbn [mbind result_bind] in Ee.
  rewrite Hp in Ee. cbn [mbind result_bind] in Ee. rewrite Hmtp in Ee. cbn [mbind result_bind fst snd] in Ee. simplify_eq.
  rewrite negb_true_iff, orb_false_iff, !Z.leb_gt.
  unfold CalculateSequenceLocks in Ec. destruct (Z.eqb_spec (zlen hs) (zlen (vin tx))) as [El|]; cbn [negb] in Ec; [|done].
  apply Nat2Z.inj in El. split; [done|].
  destruct (Z.leb_spec 2 (version tx)), (Z.eqb_spec (Z.land flags LOCKTIME_VERIFY_SEQUENCE) 0); cbn [andb negb] in Ec;
    simplify_eq; try (split; [intros _ ? ?|]; lia).
  rewrite (sequence_locks_loop_spec _ _ _ _ _ _ _ _ _ _ _ Hseq El Ec).
  split; [tauto|]. intros HF. split_and!; [lia|lia|]. by apply HF.
Qed.

(** C22: Script lock times hold back the spend. A transaction that is final for a block
    and passed [OP_CHECKLOCKTIMEVERIFY] with a positive operand is in a block beyond
    that height or time.  [SequenceLocks] accepts exactly when BIP68 is not enforced or
    every relative lock has expired; an input that passed [OP_CHECKSEQUENCEVERIFY] is
    then at least the operand's blocks above its coin, or, for a lock in units of 512
    seconds, that much later in median time. *)
Theorem script_locks_enforced tx nIn : 0 <= nSequence (vin_at tx nIn) -> (nIn < length (vin tx))%nat ->
  (forall nBlockHeight nBlockTime lockTime, 0 < lockTime ->
     IsFinalTx tx nBlockHeight nBlockTime = true -> Generic_CheckLockTime tx nIn lockTime = true ->
     lockTime < (if lockTime <? LOCKTIME_THRESHOLD then nBlockHeight else nBlockTime))
  /\ (forall m flags hs block hs' b prev mtp r,
        SequenceLocks m tx flags hs block = Ok (r, hs') ->
        m !! block = Some b -> pprev b = Some prev -> GetMedianTimePast m prev = Ok mtp ->
        0 <= nHeight b -> 0 <= mtp -> Forall (fun i => 0 <= nSequence i) (vin tx) ->
        (r = true <-> (2 <= version tx -> Z.land flags LOCKTIME_VERIFY_SEQUENCE <> 0 ->
                       Forall2 (lock_met m block (nHeight b) mtp) (vin tx) hs))
        /\ (r = true -> Z.land flags LOCKTIME_VERIFY_SEQUENCE <> 0 ->
            forall sequence, 0 <= sequence -> Generic_CheckSequence tx nIn sequence = true ->
              let span := Z.land sequence SEQUENCE_LOCKTIME_MASK in
              let coin_height := nth nIn hs 0 in
              if Z.land sequence SEQUENCE_LOCKTIME_TYPE_FLAG =? 0 then coin_height + span <= nHeight b
              else forall a t, GetAncestor m block (Z.max (coin_height - 1) 0) = Ok (Some a) ->
                     GetMedianTimePast m a = Ok t -> t + 512 * span <= mtp)).
Proof.
  intros Hs0 HnIn. split.
  - intros bh bt lock Hl Hf Hc. unfold IsFinalTx in Hf. unfold Generic_CheckLockTime in Hc.
    assert (forallb (fun txin => nSequence txin =? SEQUENCE_FINAL) (vin tx) = true ->
      (SEQUENCE_FINAL =? nSequence (vin_at tx nIn)) = true) as Hfin.
    { intros Ha. rewrite Z.eqb_sym. apply (proj1 (forallb_forall _ _) Ha). by apply nth_In. }
    destruct (forallb _ (vin tx)); [rewrite (Hfin eq_refl) in Hc|clear Hfin]; revert Hf Hc; bool_cases; cbn; try done; lia.
  - intros m flags hs block hs' b prev mtp r H Hb Hp Hm Hh Ht Hseq.
    destruct (SequenceLocks_spec _ _ _ _ _ _ _ _ _ _ H Hb Hp Hm Hh Ht Hseq) as [Hlen Hr]. split; [done|].
    intros -> Hfl sequence Hsq Hcs. destruct (CheckSequence_spec _ _ _ Hsq Hs0 Hcs) as (Hv & Hd & Hspan & Hty).
    pose proof (proj1 Hr eq_refl Hv Hfl) as HF.
    destruct (lookup_lt_is_Some_2 (vin tx) nIn HnIn) as [i Ei].
    destruct (Forall2_lookup_l _ _ _ _ _ HF Ei) as (ch & Ech & Hmet).
    assert (vin_at tx nIn = i) as Evi by (unfold vin_at; by rewrite nth_lookup, Ei). rewrite Evi in *.
    assert (nth nIn hs 0 = ch) as Eh by (by rewrite nth_lookup, Ech). cbv zeta. rewrite Eh.
    unfold lock_met in Hmet. rewrite Hd in Hmet. cbn [Z.eqb negb] in Hmet. rewrite Hty in Hmet.
    destruct (Z.land sequence SEQUENCE_LOCKTIME_TYPE_FLAG =? 0); cbn [negb] in Hmet; [lia|].
    intros a t Ha Ht'. specialize (Hmet a t Ha Ht'). lia.
Qed.

(** A chain of two blocks for the examples. *)
Definition ex_root : CBlockIndex :=
  set_phashBlock (Some [0]) (CBlockIndex_new (BlockHeader 1 uint256_null uint256_null 100 0 0)).
Definition ex_tip : CBlockIndex :=
  set_phashBlock (Some [1]) (set_pprev (Some [0]) (set_nHeight 10
    (CBlockIndex_new (BlockHeader 1 uint256_null uint256_null 200 0 0)))).
Definition ex_chain : BlockMap := {[ [0] := ex_root; [1] := ex_tip ]}.
Definition ex_locked : CTransaction := Tx [TxIn (OutPoint (replicate 32 1) 0) [] 4 []] [TxOut 1 [81]] 2 7.

Lemma script_locks_enforced_witness : 7 < 8 /\ 5 + 4 <= 10.
Proof.
  destruct (script_locks_enforced ex_locked 0) as [H1 H2]; [discriminate|cbn; lia|]. split.
  - exact (H1 8 0 7 ltac:(lia) eq_refl eq_refl).
  - refine (proj2 (H2 ex_chain 1 [5] [1] [5] ex_tip [0] 100 true _ _ _ _ _ _ _) _ _ 4 _ _);
      try (vm_compute; reflexivity); try (vm_compute; discriminate). repeat constructor; discriminate.
Defined.

(** * The checks on the map of unspent coins *)

(** The coin that an input spends. *)
Definition coin_of (u : gmap COutPoint Coin) (i : CTxIn) : Coin := default coinEmpty (u !! prevout i).

Definition inputs_there (u : gmap COutPoint Coin) (ins : list CTxIn) : Prop := Forall (fun i => is_Some (u !! prevout i)) ins.

Definition total_in (u : gmap COutPoint Coin) (ins : list CTxIn) : Z := foldr (fun i acc => nValue (out (coin_of u i)) + acc) 0 ins.

Definition matured (height : Z) (co : Coin) : Prop := fCoinBase co = true -> COINBASE_MATURITY <= height - coin_nHeight co.

(** The rules for the inputs, and the fee. *)
Definition inputs_ok (u : gmap COutPoint Coin) (tx : CTransaction) (height : Z) : Prop :=
  inputs_there u (vin tx)
  /\ Forall (fun i => matured height (coin_of u i) /\ 0 <= nValue (out (coin_of u i)) <= MAX_MONEY) (vin tx)
  /\ total_out (vout tx) <= total_in u (vin tx) <= MAX_MONEY.

(** The cost of the signature operations. *)
Definition p2sh_count (u : gmap COutPoint Coin) (ins : list CTxIn) (n : Z) : Z :=
  foldl (fun n i => let script := scriptPubKey (out (coin_of u i)) in
                    if IsPayToScriptHash script then u32 (n + GetSigOpCount_p2sh script (scriptSig i)) else n) n ins.

Fixpoint witness_count (u : gmap COutPoint Coin) (ins : list CTxIn) (flags n : Z) : result string Z :=
  match ins with
  | [] => Ok n
  | i :: ins =>
      k ← CountWitnessSigOps (scriptSig i) (scriptPubKey (out (coin_of u i))) (scriptWitness i) flags;
      witness_count u ins flags (n + k)
  end.

Definition sigop_cost (u : gmap COutPoint Coin) (tx : CTransaction) (flags : Z) : result string Z :=
  let n := u32 (GetLegacySigOpCount tx * WITNESS_SCALE_FACTOR) in
  if IsCoinBase tx then Ok n
  else witness_count u (vin tx) flags
         (if has flags SCRIPT_VERIFY_P2SH then n + u32 (p2sh_count u (vin tx) 0 * WITNESS_SCALE_FACTOR) else n).

Lemma total_in_nonneg u ins :
  Forall (fun i => 0 <= nValue (out (coin_of u i)) <= MAX_MONEY) ins -> 0 <= total_in u ins.
Proof. induction 1 as [|i ins Hi _ IH]; cbn; [lia|]. fold (total_in u ins). lia. Qed.

Lemma CheckTransaction_outputs tx : CheckTransaction tx = Ok () ->
  outputs_in_range (vout tx) /\ total_out (vout tx) <= MAX_MONEY.
Proof.
  unfold CheckTransaction. do 3 (destruct (_ : bool); [done|]). intros H.
  apply result_bind_inv in H as ([] & H & _). apply check_outputs_spec in H; [|by unfold MAX_MONEY, COIN]. lia || tauto.
Qed.

Section Refine.
Context (DynamicUsage : bytes -> Z).
Context {V : Type} {OPS : CoinsViewOps V} {CV : CoinsView DynamicUsage V}.

(** The cache is in order and shows the coins [u] and the best block. *)
Record shows (c : CCoinsViewCache V) (u : gmap COutPoint Coin) (best : bytes) : Prop := {
  sh_ok : cache_ok DynamicUsage c;
  sh_coins : cache_coins DynamicUsage c = u;
  sh_best : cache_best DynamicUsage c = best;
}.

Lemma AccessCoin_shows c u best o : shows c u best ->
  exists c', AccessCoin DynamicUsage c o = (default coinEmpty (u !! o), c') /\ shows c' u best.
Proof.
  intros [Hok <- <-]. pose proof (AccessCoin_spec DynamicUsage c o Hok) as H.
  destruct (AccessCoin DynamicUsage c o) as [r c']. destruct H as (-> & ? & ? & ?). eexists. split; [done|]. by constructor.
Qed.

Lemma HaveCoin_shows c u best o : shows c u best ->
  exists c', HaveCoin DynamicUsage c o = (bool_decide (is_Some (u !! o)), c') /\ shows c' u best.
Proof.
  intros [Hok <- <-]. pose proof (HaveCoin_spec DynamicUsage c o Hok) as H.
  destruct (HaveCoin DynamicUsage c o) as [r c']. destruct H as (-> & ? & ? & ?). eexists. split; [done|]. by constructor.
Qed.

Lemma HaveInputs_shows c u best tx : shows c u best -> IsCoinBase tx = false ->
  exists c', HaveInputs DynamicUsage c tx = (forallb (fun i => bool_decide (is_Some (u !! prevout i))) (vin tx), c')
    /\ shows c' u best.
Proof.
  intros [Hok <- <-] Hcb. unfold HaveInputs. rewrite Hcb. cbn [negb].
  pose proof (have_all_spec DynamicUsage (vin tx) c Hok) as H.
  destruct (have_all DynamicUsage c (vin tx)) as [r c']. destruct H as (-> & ? & ? & ?). eexists. split; [done|]. by constructor.
Qed.

Lemma access_unspent_shows c u best i : shows c u best -> is_Some (u !! prevout i) ->
  exists c', access_unspent DynamicUsage c (prevout i) = Ok (coin_of u i, c') /\ shows c' u best.
Proof.
  intros Hs [co Hco]. destruct (AccessCoin_shows c u best (prevout i) Hs) as (c' & E & Hs').
  unfold access_unspent, coin_of. rewrite E, Hco. cbn [from_option id].
  rewrite (cache_coins_unspent DynamicUsage c (prevout i) co); [by eauto|apply Hs|]. by rewrite (sh_coins _ _ _ Hs).
Qed.

Lemma p2sh_sigops_shows ins : forall c u best n, shows c u best -> inputs_there u ins ->
  exists c', p2sh_sigops DynamicUsage c ins n = Ok (p2sh_count u ins n, c') /\ shows c' u best.
Proof.
  induction ins as [|i ins IH]; intros c u best n Hs Hin; cbn [p2sh_sigops p2sh_count foldl]; [by eauto|].
  apply Forall_cons_iff in Hin as [Hi Hin].
  destruct (access_unspent_shows c u best i Hs Hi) as (c1 & -> & Hs1). cbn [mbind result_bind]. by apply IH.
Qed.

Lemma witness_sigops_shows ins flags : forall c u best n, shows c u best -> inputs_there u ins ->
  match witness_count u ins flags n with
  | Ok k => exists c', witness_sigops DynamicUsage c ins flags n = Ok (k, c') /\ shows c' u best
  | Err e => witness_sigops DynamicUsage c ins flags n = Err e
  end.
Proof.
  induction ins as [|i ins IH]; intros c u best n Hs Hin; cbn [witness_sigops witness_count]; [by eauto|].
  apply Forall_cons_iff in Hin as [Hi Hin].
  destruct (access_unspent_shows c u best i Hs Hi) as (c1 & -> & Hs1). cbn [mbind result_bind].
  destruct (CountWitnessSigOps _ _ _ _); cbn [mbind result_bind]; [|done]. by apply IH.
Qed.

Lemma GetTransactionSigOpCost_shows c u best tx flags : shows c u best ->
  (IsCoinBase tx = false -> inputs_there u (vin tx)) ->
  match sigop_cost u tx flags with
  | Ok k => exists c', GetTransactionSigOpCost DynamicUsage tx c flags = Ok (k, c') /\ shows c' u best
  | Err e => GetTransactionSigOpCost DynamicUsage tx c flags = Err e
  end.
Proof.
  intros Hs Hin. unfold sigop_cost, GetTransactionSigOpCost, GetP2SHSigOpCount.
  destruct (IsCoinBase tx); [by eauto|]. specialize (Hin eq_refl). destruct (has flags SCRIPT_VERIFY_P2SH).
  - destruct (p2sh_sigops_shows (vin tx) c u best 0 Hs Hin) as (c1 & -> & Hs1). cbn [mbind result_bind].
    by apply witness_sigops_shows.
  - cbn [mbind result_bind]. by apply witness_sigops_shows.
Qed.

(** The loop over the inputs accepts exactly the matured ones in range. *)
Lemma input_values_shows ins height : forall c u best acc, shows c u best -> inputs_there u ins -> 0 <= acc <= MAX_MONEY ->
  exists r c', input_values DynamicUsage c ins height acc = Ok (r, c') /\ shows c' u best
    /\ forall v, r = Ok v <->
         (Forall (fun i => matured height (coin_of u i) /\ 0 <= nValue (out (coin_of u i)) <= MAX_MONEY) ins
          /\ acc + total_in u ins <= MAX_MONEY /\ v = acc + total_in u ins).
Proof.
  induction ins as [|i ins IH]; intros c u best acc Hs Hin Hacc; cbn [input_values].
  - eexists _, _. split; [done|]. split; [done|]. intros v. cbn. split; [intros [= <-]; split_and!; [done|lia|lia]|].
    intros (_ & _ & ->). f_equal. lia.
  - apply Forall_cons_iff in Hin as [Hi Hin].
    destruct (access_unspent_shows c u best i Hs Hi) as (c1 & -> & Hs1). cbn [mbind result_bind].
    change (total_in u (i :: ins)) with (nValue (out (coin_of u i)) + total_in u ins). setoid_rewrite Forall_cons_iff.
    destruct (fCoinBase (coin_of u i) && _) eqn:Em.
    { eexists _, _. split; [done|]. split; [done|]. intros v. split; [done|]. intros (((Hm & _) & _) & _).
      bool_props. unfold matured in Hm. specialize (Hm H). lia. }
    assert (matured height (coin_of u i)) as Hmat.
    { intros Hcb. rewrite Hcb in Em. cbn in Em. bool_props. lia. }
    destruct (MoneyRange (nValue (out (coin_of u i)))) eqn:Er; cbn [negb orb].
    2:{ eexists _, _. split; [done|]. split; [done|]. intros v. split; [done|].
        intros (((_ & Hr%MoneyRange_spec) & _) & _). congruence. }
    apply MoneyRange_spec in Er. rewrite i64_money by lia. destruct (MoneyRange (acc + _)) eqn:Et; cbn [negb].
    + apply MoneyRange_spec in Et. destruct (IH c1 u best (acc + nValue (out (coin_of u i))) Hs1 Hin Et) as (r & c' & E & Hs' & Hr).
      exists r, c'. split; [done|]. split; [done|]. intros v. rewrite Hr, !Z.add_assoc. tauto.
    + eexists _, _. split; [done|]. split; [done|]. intros v. split; [done|]. intros ((_ & Hf) & Hle & _).
      pose proof (total_in_nonneg u ins ltac:(eapply List.Forall_impl; [|exact Hf]; cbn; tauto)).
      assert (MoneyRange (acc + nValue (out (coin_of u i))) = true) by (apply MoneyRange_spec; lia). congruence.
Qed.

Lemma CheckTxInputs_shows c u best tx height : shows c u best -> IsCoinBase tx = false ->
  outputs_in_range (vout tx) -> total_out (vout tx) <= MAX_MONEY ->
  exists r c', CheckTxInputs DynamicUsage tx c height = Ok (r, c') /\ shows c' u best
    /\ forall fee, r = Ok fee <-> (inputs_ok u tx height /\ fee = total_in u (vin tx) - total_out (vout tx)).
Proof.
  intros Hs Hcb Hr Hm. unfold CheckTxInputs, inputs_ok.
  destruct (HaveInputs_shows c u best tx Hs Hcb) as (c1 & -> & Hs1).
  destruct (forallb _ _) eqn:Eh; cbn [negb].
  2:{ eexists _, _. split; [done|]. split; [done|]. intros fee. split; [done|]. intros ((Hin & _) & _).
      assert (forallb (fun i => bool_decide (is_Some (u !! prevout i))) (vin tx) = true) as Hall; [|congruence].
      apply forallb_forall. intros i Hi. apply bool_decide_eq_true_2. exact (proj1 (Forall_forall _ _) Hin i Hi). }
  assert (inputs_there u (vin tx)) as Hin.
  { apply Forall_forall. intros i Hi. exact (bool_decide_eq_true_1 _ (proj1 (forallb_forall _ _) Eh i Hi)). }
  destruct (input_values_shows (vin tx) height c1 u best 0 Hs1 Hin) as (r & c' & -> & Hs' & Hv); [by unfold MAX_MONEY, COIN|].
  cbn [mbind result_bind].
  assert (0 <= total_out (vout tx)) as Hnn by (by apply total_out_nonneg).
  destruct r as [v|e].
  2:{ eexists _, _. split; [done|]. split; [done|]. intros fee. split; [done|]. intros ((_ & Hf & Ht) & _).
      exfalso. assert (Err e = Ok (0 + total_in u (vin tx))) as Hc; [|done]. apply Hv. split_and!; [done|lia|done]. }
  destruct (proj1 (Hv v) eq_refl) as (Hf & Hle & ->). rewrite Z.add_0_l in *.
  unfold GetValueOut. rewrite GetValueOut_loop_spec by (done || unfold MAX_MONEY, COIN in *; lia). cbn [mbind result_bind].
  rewrite Z.add_0_l. destruct (Z.ltb_spec (total_in u (vin tx)) (total_out (vout tx))).
  { eexists _, _. split; [done|]. split; [done|]. intros fee. split; [done|]. lia. }
  rewrite (proj2 (MoneyRange_spec _)) by lia. cbn [negb].
  eexists _, _. split; [done|]. split; [done|]. intros fee. split; [intros [= <-]; split_and!; done|]. by intros (_ & ->).
Qed.

End Refine.

(** C33: [CheckTxInputs] accepts a transaction whose outputs are in range exactly when
    every input spends an unspent coin of the view, a coinbase being at least 100 blocks
    deep, with all amounts and their sum in the money range and the outputs not above
    the inputs; the fee it returns is the difference.  No assertion fails, and the view
    keeps its coins. *)
Theorem CheckTxInputs_exact (DU : bytes -> Z) (V : Type) (OPS : CoinsViewOps V) (CV : CoinsView DU V)
    (c : CCoinsViewCache V) (tx : CTransaction) (height : Z) :
  cache_ok DU c -> IsCoinBase tx = false -> CheckTransaction tx = Ok () ->
  exists r c', CheckTxInputs DU tx c height = Ok (r, c')
    /\ cache_ok DU c' /\ cache_coins DU c' = cache_coins DU c
    /\ forall fee, r = Ok fee <->
         (inputs_ok (cache_coins DU c) tx height
          /\ fee = total_in (cache_coins DU c) (vin tx) - total_out (vout tx)).
Proof.
  intros Hok Hcb Hct. destruct (CheckTransaction_outputs tx Hct) as [Hr Hm].
  destruct (CheckTxInputs_shows DU c (cache_coins DU c) (cache_best DU c) tx height) as (r & c' & E & [? ? ?] & Hv);
    [by constructor|done..|]. exists r, c'. done.
Qed.

Lemma CheckTxInputs_exact_witness :
  exists c', CheckTxInputs (OPS := CCoinsViewDB_ops ex_usage ex_size 3) ex_usage ex_tx (CCoinsViewCache_new ex_db) 200
             = Ok (Ok 0, c').
Proof.
  destruct (CheckTxInputs_exact ex_usage coins_db (CCoinsViewDB_ops ex_usage ex_size 3)
    (CCoinsViewDB_view ex_usage ex_size 3 eq_refl) (CCoinsViewCache_new ex_db) ex_tx 200) as (r & c' & E & _ & _ & H).
  - apply cache_new_ok, ex_db_ok.
  - reflexivity.
  - vm_compute. reflexivity.
  - exists c'. rewrite E. do 2 f_equal. apply H.
    destruct (cache_new_ok ex_usage (OPS := CCoinsViewDB_ops ex_usage ex_size 3)
      (CV := CCoinsViewDB_view ex_usage ex_size 3 eq_refl) ex_db ex_db_ok) as (_ & -> & _).
    split; [|reflexivity]. split; [|split].
    + repeat constructor. exists (ex_coin 5). reflexivity.
    + repeat constructor; discriminate.
    + vm_compute. split; discriminate.
Defined.
