(* ===== verification/BlockChecks.v ===== *)
(** The checks of a block that need no coins (src/bitcoin/src/validation.cpp,
    consensus/validation.h, consensus/params.h, deploymentstatus.h, signet.cpp): the
    proof of work, both Merkle commitments, sizes, the transactions by themselves, and
    the rules that depend on the previous headers. *)

From S2P Require Import Prelude Serialize ArithUint256 MerkleDamgard Sha2 Hash Transaction Merkle Script Coins CoinsProofs.
From S2P Require Import BlockIndex BlockIndexSpec Pow PubKey Interpreter SigHash TxVerify.

(** * Parameters and deployments *)

Inductive BuriedDeployment :=
| DEPLOYMENT_HEIGHTINCB | DEPLOYMENT_CLTV | DEPLOYMENT_DERSIG | DEPLOYMENT_CSV | DEPLOYMENT_SEGWIT.

(** [Consensus::Params], but for the version bits deployments. *)
Record Params := MkParams {
  hashGenesisBlock : bytes;
  nSubsidyHalvingInterval : Z;
  script_flag_exceptions : gmap bytes Z;
  BIP34Height : Z;
  BIP34Hash : bytes;
  BIP65Height : Z;
  BIP66Height : Z;
  CSVHeight : Z;
  SegwitHeight : Z;
  pow : PowParams;
  signet_blocks : bool;
  signet_challenge : bytes;
}.

Definition DeploymentHeight (params : Params) (dep : BuriedDeployment) : Z :=
  match dep with
  | DEPLOYMENT_HEIGHTINCB => BIP34Height params
  | DEPLOYMENT_CLTV => BIP65Height params
  | DEPLOYMENT_DERSIG => BIP66Height params
  | DEPLOYMENT_CSV => CSVHeight params
  | DEPLOYMENT_SEGWIT => SegwitHeight params
  end.

Definition DeploymentActiveAfter (pindexPrev : option CBlockIndex) (params : Params) (dep : BuriedDeployment) : bool :=
  DeploymentHeight params dep <=? match pindexPrev with None => 0 | Some b => nHeight b + 1 end.

Definition DeploymentActiveAt (index : CBlockIndex) (params : Params) (dep : BuriedDeployment) : bool :=
  DeploymentHeight params dep <=? nHeight index.

(** * Results *)

Inductive BlockValidationResult :=
| BLOCK_RESULT_UNSET
| BLOCK_CONSENSUS
| BLOCK_CACHED_INVALID
| BLOCK_INVALID_HEADER
| BLOCK_MUTATED
| BLOCK_MISSING_PREV
| BLOCK_INVALID_PREV
| BLOCK_TIME_FUTURE
| BLOCK_CHECKPOINT
| BLOCK_HEADER_LOW_WORK.

(** An invalid state: the result and the reject reason. *)
Definition block_check : Type := result (BlockValidationResult * string) ().

(** The memory-only members of [CBlock]. *)
Record block_flags := BlockFlags {
  fChecked : bool;
  m_checked_witness_commitment : bool;
  m_checked_merkle_root : bool;
}.
Definition unchecked : block_flags := BlockFlags false false false.

(** * Sizes *)

Definition GetTransactionWeight (tx : CTransaction) : Z :=
  zlen (SerializeTransaction false tx) * (WITNESS_SCALE_FACTOR - 1) + zlen (SerializeTransaction true tx).

Definition GetBlockWeight (block : CBlock) : Z :=
  zlen (ser_block false block) * (WITNESS_SCALE_FACTOR - 1) + zlen (ser_block true block).

(** * The witness commitment *)

Definition NO_WITNESS_COMMITMENT : Z := -1.
Definition MINIMUM_WITNESS_COMMITMENT : Z := 38.

Definition is_commitment (script : bytes) : bool :=
  (MINIMUM_WITNESS_COMMITMENT <=? zlen script) && (byte_at script 0 =? op OP_RETURN) && (byte_at script 1 =? 0x24)
  && (byte_at script 2 =? 0xaa) && (byte_at script 3 =? 0x21) && (byte_at script 4 =? 0xa9) && (byte_at script 5 =? 0xed).

Fixpoint commitment_index (outs : list CTxOut) (o commitpos : Z) : Z :=
  match outs with
  | [] => commitpos
  | vout :: outs => commitment_index outs (o + 1) (if is_commitment (scriptPubKey vout) then o else commitpos)
  end.

Definition GetWitnessCommitmentIndex (block : CBlock) : Z :=
  match vtx block with
  | [] => NO_WITNESS_COMMITMENT
  | cb :: _ => commitment_index (vout cb) 0 NO_WITNESS_COMMITMENT
  end.

Section Checks.
(** The batch routines of SHA-256 that the processor has. *)
Context (way8 way4 way2 : option (bytes -> bytes)).

Definition CheckMerkleRoot (block : CBlock) (fl : block_flags) : block_check * block_flags :=
  if m_checked_merkle_root fl then (Ok (), fl)
  else
    let '(merkle_root, mutated) := BlockMerkleRoot way8 way4 way2 block in
    if negb (bool_decide (hashMerkleRoot (block_header block) = merkle_root)) then (Err (BLOCK_MUTATED, "bad-txnmrklroot"), fl)
    else if mutated then (Err (BLOCK_MUTATED, "bad-txns-duplicate"), fl)
    else (Ok (), BlockFlags (fChecked fl) (m_checked_witness_commitment fl) true).

(** The end of [CheckWitnessMalleation]. *)
Definition no_witness (block : CBlock) : block_check :=
  if existsb HasWitness (vtx block) then Err (BLOCK_MUTATED, "unexpected-witness") else Ok ().

Definition CheckWitnessMalleation (block : CBlock) (expect_witness_commitment : bool) (fl : block_flags)
    : result string (block_check * block_flags) :=
  if negb expect_witness_commitment then Ok (no_witness block, fl)
  else if m_checked_witness_commitment fl then Ok (Ok (), fl)
  else
    let commitpos := GetWitnessCommitmentIndex block in
    if commitpos =? NO_WITNESS_COMMITMENT then Ok (no_witness block, fl)
    else
      match vtx block with
      | cb :: _ =>
          match vin cb with
          | i :: _ =>
              match scriptWitness i with
              | [nonce] =>
                  if negb (zlen nonce =? 32) then Ok (Err (BLOCK_MUTATED, "bad-witness-nonce-size"), fl)
                  else
                    '(hash_witness, _) ← BlockWitnessMerkleRoot way8 way4 way2 block;
                    let hash_witness := CHash256_Finalize (CHash256_Write (CHash256_Write CSHA256_new hash_witness) nonce) in
                    let commitment := scriptPubKey (nth (Z.to_nat commitpos) (vout cb) CTxOut_null) in
                    if negb (bool_decide (hash_witness = take 32 (drop 6 commitment)))
                    then Ok (Err (BLOCK_MUTATED, "bad-witness-merkle-match"), fl)
                    else Ok (Ok (), BlockFlags (fChecked fl) true (m_checked_merkle_root fl))
              | _ => Ok (Err (BLOCK_MUTATED, "bad-witness-nonce-size"), fl)
              end
          | [] => Err "assert(!block.vtx.empty() && !block.vtx[0]->vin.empty())"
          end
      | [] => Err "assert(!block.vtx.empty() && !block.vtx[0]->vin.empty())"
      end.

Definition IsBlockMutated (block : CBlock) (check_witness_root : bool) (fl : block_flags) : result string (bool * block_flags) :=
  let '(r, fl) := CheckMerkleRoot block fl in
  match r with
  | Err _ => Ok (true, fl)
  | Ok _ =>
      match vtx block with
      | cb :: _ =>
          if negb (IsCoinBase cb) then Ok (existsb (fun tx => zlen (SerializeTransaction false tx) =? 64) (vtx block), fl)
          else
            '(r, fl) ← CheckWitnessMalleation block check_witness_root fl;
            Ok (match r with Ok _ => false | Err _ => true end, fl)
      | [] => Ok (false, fl)
      end
  end.

(** * Making the commitment *)

Definition set_coinbase (block : CBlock) (tx : CTransaction) : CBlock :=
  Block (block_header block) (match vtx block with [] => [] | _ :: txs => tx :: txs end).

(** [UpdateUncommittedBlockStructures]: the default witness nonce. *)
Definition UpdateUncommittedBlockStructures (params : Params) (block : CBlock) (pindexPrev : option CBlockIndex)
    : result string CBlock :=
  let commitpos := GetWitnessCommitmentIndex block in
  match vtx block with
  | cb :: _ =>
      if negb (commitpos =? NO_WITNESS_COMMITMENT) && DeploymentActiveAfter pindexPrev params DEPLOYMENT_SEGWIT
         && negb (HasWitness cb) then
        match vin cb with
        | i :: ins =>
            Ok (set_coinbase block
                  (Tx (TxIn (prevout i) (scriptSig i) (nSequence i) [replicate 32 0] :: ins) (vout cb) (version cb) (nLockTime cb)))
        | [] => Err "tx.vin[0]"
        end
      else Ok block
  | [] => Ok block
  end.

Definition commitment_script (witnessroot : bytes) : bytes := [op OP_RETURN; 0x24; 0xaa; 0x21; 0xa9; 0xed] ++ witnessroot.

Definition GenerateCoinbaseCommitment (params : Params) (block : CBlock) (pindexPrev : option CBlockIndex)
    : result string (bytes * CBlock) :=
  let commitpos := GetWitnessCommitmentIndex block in
  '(commitment, block) ←
    (if commitpos =? NO_WITNESS_COMMITMENT then
       '(witnessroot, _) ← BlockWitnessMerkleRoot way8 way4 way2 block;
       let witnessroot := CHash256_Finalize (CHash256_Write (CHash256_Write CSHA256_new witnessroot) (replicate 32 0)) in
       let commitment := commitment_script witnessroot in
       match vtx block with
       | cb :: _ =>
           Ok (commitment,
               set_coinbase block (Tx (vin cb) (vout cb ++ [TxOut 0 commitment]) (version cb) (nLockTime cb)))
       | [] => Err "block.vtx[0]"
       end
     else Ok ([], block));
  block ← UpdateUncommittedBlockStructures params block pindexPrev;
  Ok (commitment, block).

(** * Signet *)

Definition SIGNET_HEADER : bytes := [0xec; 0xc7; 0xda; 0xa2].

Fixpoint commitment_section (fuel : nat) (header pc replacement : bytes) (found : option bytes) : result string (bytes * option bytes) :=
  match fuel with
  | O => Ok (replacement, found)
  | S fuel =>
      let '(ok, opcode, pushdata, pc) := GetScriptOp pc in
      if negb ok then Ok (replacement, found)
      else if 0 <? zlen pushdata then
        if bool_decide (found = None) && (zlen header <? zlen pushdata)
           && bool_decide (take (length header) pushdata = header) then
          commitment_section fuel header pc (push_data replacement header) (Some (drop (length header) pushdata))
        else commitment_section fuel header pc (push_data replacement pushdata) found
      else
        replacement ← push_op replacement opcode;
        commitment_section fuel header pc replacement found
  end.

(** The commitment without the section, and the section, if there is one. *)
Definition FetchAndClearCommitmentSection (header witness_commitment : bytes) : result string (bytes * option bytes) :=
  '(replacement, found) ← commitment_section (length witness_commitment) header witness_commitment [] None;
  Ok (match found with Some _ => replacement | None => witness_commitment end, found).

Definition ComputeModifiedMerkleRoot (cb : CTransaction) (block : CBlock) : bytes :=
  (ComputeMerkleRoot way8 way4 way2 (ComputeHash cb :: (ComputeHash <$> tail (vtx block)))).1.

Definition COutPoint_null : COutPoint := OutPoint uint256_null NULL_INDEX.

(** The scriptSig and witness of a signet solution; an exception or extraneous data is [None]. *)
Definition parse_solution (solution : bytes) : option (bytes * list bytes) :=
  match (sig ← unser_byte_vector; w ← unser_stack; mret (sig, w)) solution with
  | Ok (r, []) => Some r
  | _ => None
  end.

Definition SignetTxs_Create (block : CBlock) (challenge : bytes) : result string (option (CTransaction * CTransaction)) :=
  match vtx block with
  | [] => Ok None
  | cb :: _ =>
      let cidx := GetWitnessCommitmentIndex block in
      if cidx =? NO_WITNESS_COMMITMENT then Ok None
      else
        let o := nth (Z.to_nat cidx) (vout cb) CTxOut_null in
        '(witness_commitment, found) ← FetchAndClearCommitmentSection SIGNET_HEADER (scriptPubKey o);
        match match found with None => Some ([], []) | Some solution => parse_solution solution end with
        | None => Ok None
        | Some (sig, w) =>
            let modified_cb := Tx (vin cb) (<[Z.to_nat cidx := TxOut (nValue o) witness_commitment]> (vout cb)) (version cb) (nLockTime cb) in
            let signet_merkle := ComputeModifiedMerkleRoot modified_cb block in
            let h := block_header block in
            let block_data := ser_writedata32 (u32 (nVersion h)) ++ ser_hash (hashPrevBlock h) ++ ser_hash signet_merkle
                              ++ ser_writedata32 (nTime h) in
            let to_spend := Tx [TxIn COutPoint_null (push_data [op OP_0] block_data) 0 []] [TxOut 0 challenge] 0 0 in
            let spending := Tx [TxIn (OutPoint (ComputeHash to_spend) 0) sig 0 w] [TxOut 0 [op OP_RETURN]] 0 0 in
            Ok (Some (to_spend, spending))
        end
  end.

Definition BLOCK_SCRIPT_VERIFY_FLAGS : Z :=
  Z.lor SCRIPT_VERIFY_P2SH (Z.lor SCRIPT_VERIFY_WITNESS (Z.lor SCRIPT_VERIFY_DERSIG SCRIPT_VERIFY_NULLDUMMY)).

Context {secp : Secp256k1}.

(** [VerifyScript] as a condition. *)
Definition script_holds (r : eval ()) : result string bool :=
  match r with
  | Ok _ => Ok true
  | Err (Abort s) => Err s
  | Err _ => Ok false
  end.

Definition CheckSignetBlockSolution (block : CBlock) (params : Params) : result string bool :=
  if bool_decide (CBlockHeader_GetHash (block_header block) = hashGenesisBlock params) then Ok true
  else
    txs ← SignetTxs_Create block (signet_challenge params);
    match txs with
    | Some (to_spend, ({| vin := [i] |} as to_sign)) =>
        let spent := TxOut 0 (signet_challenge params) in
        txdata ← Precomputed_Init to_sign [spent] false;
        script_holds (VerifyScript (checker := GenericTransactionSignatureChecker to_sign 0 (nValue spent) (Some txdata) ASSERT_FAIL)
                        BLOCK_SCRIPT_VERIFY_FLAGS (scriptSig i) (scriptPubKey spent) (scriptWitness i))
    | _ => Ok false
    end.

(** * [CheckBlock] *)

(** [CheckProofOfWork], outside of fuzzing builds. *)
Definition CheckBlockHeader (block : CBlockHeader) (params : Params) (fCheckPOW : bool) : block_check :=
  if fCheckPOW && negb (CheckProofOfWorkImpl (CBlockHeader_GetHash block) (nBits block) (pow params))
  then Err (BLOCK_INVALID_HEADER, "high-hash") else Ok ().

Fixpoint check_transactions (txs : list CTransaction) : result string block_check :=
  match txs with
  | [] => Ok (Ok ())
  | tx :: txs =>
      match CheckTransaction tx with
      | Ok _ => check_transactions txs
      | Err (r, reason) =>
          if bool_decide (r = TX_CONSENSUS) then Ok (Err (BLOCK_CONSENSUS, reason))
          else Err "assert(tx_state.GetResult() == TxValidationResult::TX_CONSENSUS)"
      end
  end.

(** The checks of the transactions, after those of the header. *)
Definition check_block_body (block : CBlock) : result string block_check :=
  match vtx block with
  | [] => Ok (Err (BLOCK_CONSENSUS, "bad-blk-length"))
  | cb :: txs =>
      if (MAX_BLOCK_WEIGHT <? zlen (vtx block) * WITNESS_SCALE_FACTOR)
         || (MAX_BLOCK_WEIGHT <? zlen (ser_block false block) * WITNESS_SCALE_FACTOR)
      then Ok (Err (BLOCK_CONSENSUS, "bad-blk-length"))
      else if negb (IsCoinBase cb) then Ok (Err (BLOCK_CONSENSUS, "bad-cb-missing"))
      else if existsb IsCoinBase txs then Ok (Err (BLOCK_CONSENSUS, "bad-cb-multiple"))
      else
        r ← check_transactions (vtx block);
        match r with
        | Err e => Ok (Err e)
        | Ok _ =>
            let nSigOps := foldl (fun n tx => u32 (n + GetLegacySigOpCount tx)) 0 (vtx block) in
            if MAX_BLOCK_SIGOPS_COST <? u32 (nSigOps * WITNESS_SCALE_FACTOR)
            then Ok (Err (BLOCK_CONSENSUS, "bad-blk-sigops")) else Ok (Ok ())
        end
  end.

Definition CheckBlock (block : CBlock) (params : Params) (fCheckPOW fCheckMerkleRoot : bool) (fl : block_flags)
    : result string (block_check * block_flags) :=
  if fChecked fl then Ok (Ok (), fl)
  else
    match CheckBlockHeader (block_header block) params fCheckPOW with
    | Err e => Ok (Err e, fl)
    | Ok _ =>
        signet ← (if signet_blocks params && fCheckPOW then CheckSignetBlockSolution block params else Ok true);
        if negb signet then Ok (Err (BLOCK_CONSENSUS, "bad-signet-blksig"), fl)
        else
          let '(r, fl) := if fCheckMerkleRoot then CheckMerkleRoot block fl else (Ok (), fl) in
          match r with
          | Err e => Ok (Err e, fl)
          | Ok _ =>
              r ← check_block_body block;
              match r with
              | Err e => Ok (Err e, fl)
              | Ok _ =>
                  Ok (Ok (), if fCheckPOW && fCheckMerkleRoot
                             then BlockFlags true (m_checked_witness_commitment fl) (m_checked_merkle_root fl) else fl)
              end
          end
    end.

End Checks.

(** * The rules that depend on the previous headers *)

Definition MAX_TIMEWARP : Z := 600.
Definition MAX_FUTURE_BLOCK_TIME : Z := 2 * 60 * 60.

(** [GetLastCheckpoint]: the checkpoints by increasing height. *)
Definition GetLastCheckpoint (bm : BlockManager) (checkpoints : list (Z * bytes)) : option ptr :=
  head (omap (fun c => LookupBlockIndex bm c.2) (rev checkpoints)).

(** [%08x] *)
Fixpoint hex_digits (n : nat) (v : Z) : string :=
  match n with
  | O => EmptyString
  | S n => String.append (hex_digits n (Z.shiftr v 4))
             (String.substring (Z.to_nat (Z.land v 15)) 1 "0123456789abcdef")
  end.

(** A fork below the last checkpoint that is known. *)
Definition before_checkpoint (bm : BlockManager) (checkpoints : option (list (Z * bytes))) (height : Z) : result string bool :=
  match checkpoints with
  | Some cps =>
      match GetLastCheckpoint bm cps with
      | Some p => b ← deref (m_block_index bm) p; Ok (height <? nHeight b)
      | None => Ok false
      end
  | None => Ok false
  end.

(** [checkpoints] is [None] where they are disabled; [now] is in whole seconds. *)
Definition ContextualCheckBlockHeader (block : CBlockHeader) (bm : BlockManager) (params : Params)
    (checkpoints : option (list (Z * bytes))) (now : Z) (pindexPrev : ptr) : result string block_check :=
  let m := m_block_index bm in
  prev ← deref m pindexPrev;
  let height := nHeight prev + 1 in
  bits ← GetNextWorkRequired m pindexPrev block (pow params);
  if negb (nBits block =? bits) then Ok (Err (BLOCK_INVALID_HEADER, "bad-diffbits"))
  else
    '(old : bool) ← before_checkpoint bm checkpoints height;
    if old then Ok (Err (BLOCK_CHECKPOINT, "bad-fork-prior-to-checkpoint"))
    else
      mtp ← GetMedianTimePast m pindexPrev;
      if nTime block <=? mtp then Ok (Err (BLOCK_INVALID_HEADER, "time-too-old"))
      else if enforce_BIP94 (pow params) && (Z.rem height (DifficultyAdjustmentInterval (pow params)) =? 0)
              && (nTime block <? GetBlockTime prev - MAX_TIMEWARP)
      then Ok (Err (BLOCK_INVALID_HEADER, "time-timewarp-attack"))
      else if now + MAX_FUTURE_BLOCK_TIME <? nTime block then Ok (Err (BLOCK_TIME_FUTURE, "time-too-new"))
      else if ((nVersion block <? 2) && DeploymentActiveAfter (Some prev) params DEPLOYMENT_HEIGHTINCB)
              || ((nVersion block <? 3) && DeploymentActiveAfter (Some prev) params DEPLOYMENT_DERSIG)
              || ((nVersion block <? 4) && DeploymentActiveAfter (Some prev) params DEPLOYMENT_CLTV)
      then Ok (Err (BLOCK_INVALID_HEADER, String.append "bad-version(0x" (String.append (hex_digits 8 (u32 (nVersion block))) ")")))
      else Ok (Ok ()).

Definition ContextualCheckBlock (way8 way4 way2 : option (bytes -> bytes)) (block : CBlock) (m : BlockMap) (params : Params)
    (pindexPrev : option ptr) (fl : block_flags) : result string (block_check * block_flags) :=
  prev ← match pindexPrev with Some p => b ← deref m p; Ok (Some b) | None => Ok None end;
  let height := match prev with None => 0 | Some b => nHeight b + 1 end in
  nLockTimeCutoff ←
    (if DeploymentActiveAfter prev params DEPLOYMENT_CSV then
       match pindexPrev with Some p => GetMedianTimePast m p | None => Err "assert(pindexPrev != nullptr)" end
     else Ok (nTime (block_header block)));
  if negb (forallb (fun tx => IsFinalTx tx height nLockTimeCutoff) (vtx block))
  then Ok (Err (BLOCK_CONSENSUS, "bad-txns-nonfinal"), fl)
  else
    height_ok ←
      (if DeploymentActiveAfter prev params DEPLOYMENT_HEIGHTINCB then
         match vtx block with
         | {| vin := i :: _ |} :: _ =>
             let expect := push_int64 [] height in
             Ok (bool_decide (take (length expect) (scriptSig i) = expect))
         | _ => Err "block.vtx[0]->vin[0]"
         end
       else Ok true);
    if negb height_ok then Ok (Err (BLOCK_CONSENSUS, "bad-cb-height"), fl)
    else
      '(r, fl) ← CheckWitnessMalleation way8 way4 way2 block (DeploymentActiveAfter prev params DEPLOYMENT_SEGWIT) fl;
      match r with
      | Err e => Ok (Err e, fl)
      | Ok _ => if MAX_BLOCK_WEIGHT <? GetBlockWeight block then Ok (Err (BLOCK_CONSENSUS, "bad-blk-weight"), fl)
                else Ok (Ok (), fl)
      end.

(** * What a header commits to *)

Definition txids (block : CBlock) : list bytes := ComputeHash <$> vtx block.
Definition witness_leaves (block : CBlock) : list bytes := uint256_null :: (ComputeWitnessHash <$> tail (vtx block)).

(** The witness reserved value. *)
Definition witness_nonce (block : CBlock) : bytes :=
  match vtx block with
  | {| vin := {| scriptWitness := [nonce] |} :: _ |} :: _ => nonce
  | _ => []
  end.

(** Everything that is hashed twice to check the commitments of a block. *)
Definition commitment_inputs (block : CBlock) : list bytes :=
  (SerializeTransaction false <$> vtx block) ++ merkle_blocks (txids block) (levels (txids block))
  ++ (SerializeTransaction true <$> vtx block) ++ merkle_blocks (witness_leaves block) (levels (witness_leaves block))
  ++ [node (witness_leaves block) (levels (witness_leaves block)) 0 ++ witness_nonce block].

Lemma serialize_no_witness tx : HasWitness tx = false -> SerializeTransaction true tx = SerializeTransaction false tx.
Proof. intros E. unfold SerializeTransaction. by rewrite E. Qed.

Lemma ComputeWitnessHash_spec tx : ComputeWitnessHash tx = Hash (SerializeTransaction true tx).
Proof.
  unfold ComputeWitnessHash. destruct (HasWitness tx) eqn:E; cbn [negb]; [apply write_GetHash|].
  by rewrite serialize_no_witness, ComputeHash_spec.
Qed.

Lemma txids_wf txs : Forall (fun h => length h = 32%nat) (ComputeHash <$> txs).
Proof. apply Forall_forall. intros h Hh. apply list_elem_of_In, list_elem_of_fmap in Hh as (tx & -> & _). rewrite ComputeHash_spec. apply length_Hash. Qed.

Lemma witness_leaves_wf b : Forall (fun h => length h = 32%nat) (witness_leaves b).
Proof.
  constructor; [done|]. apply Forall_forall. intros h Hh. apply list_elem_of_In, list_elem_of_fmap in Hh as (tx & -> & _).
  rewrite ComputeWitnessHash_spec. apply length_Hash.
Qed.

Lemma write2_Hash2 a b : CHash256_Finalize (CHash256_Write (CHash256_Write CSHA256_new a) b) = Hash2 a b.
Proof. unfold Hash2. reflexivity. Qed.

#[local] Opaque Hash Hash2 ComputeHash ComputeWitnessHash SerializeTransaction.

(** Equal hashes of transactions are those of equal serializations. *)
Lemma hashes_inj (ser : CTransaction -> bytes) txs txs' :
  no_collision ((ser <$> txs) ++ (ser <$> txs')) ->
  (fun tx => Hash (ser tx)) <$> txs = (fun tx => Hash (ser tx)) <$> txs' -> ser <$> txs = ser <$> txs'.
Proof.
  revert txs'. induction txs as [|tx txs IH]; intros [|tx' txs'] Hc E; try done. cbn in E |- *. injection E as Eh Et.
  f_equal.
  - apply Hc; [by left| |done]. apply in_app_iff. right. by left.
  - apply IH; [|done]. eapply no_collision_sub; [|exact Hc]. cbn. intros x. rewrite !in_app_iff. cbn. tauto.
Qed.

(** A level above the leaves starts with the hash of 64 bytes. *)
Lemma pairs_head t h rest : Forall (fun h => length h = 32%nat) t -> pairs t = h :: rest ->
  exists x, length x = 64%nat /\ h = Hash x /\ In x (pair_blocks t).
Proof.
  intros Ht E. destruct t as [|a [|b t]]; cbn in E; [done| |]; injection E as <- _; decompose_Forall_hyps;
    eexists; (split; [|split; [apply Hash2_Hash|by left]]); rewrite length_app; lia.
Qed.

Section Commit.
Context (way8 way4 way2 : option (bytes -> bytes)).
Context (H8 : way_ok 8 way8) (H4 : way_ok 4 way4) (H2 : way_ok 2 way2).

Lemma CheckMerkleRoot_spec b fl : vtx b <> [] -> CheckMerkleRoot way8 way4 way2 b unchecked = (Ok (), fl) ->
  tree (txids b) (levels (txids b)) = [hashMerkleRoot (block_header b)]
  /\ existsb (fun j => equal_pair (tree (txids b) j)) (seq 0 (levels (txids b))) = false.
Proof.
  intros Hne. unfold CheckMerkleRoot, BlockMerkleRoot. cbn [m_checked_merkle_root unchecked]. fold (txids b).
  assert (txids b <> []) as Hne' by (unfold txids; by destruct (vtx b)).
  destruct (root_tree way8 way4 way2 H8 H4 H2 (txids b) _ (txids_wf _) (levels_depth _ Hne')) as (h & Et & ->).
  destruct (bool_decide _) eqn:Er; cbn [negb]; [|done]. apply bool_decide_eq_true_1 in Er. rewrite Er, Et.
  destruct (existsb _ _); [done|]. by intros [= _].
Qed.

(** The shorter tree is the longer one, unless a transaction has 64 bytes. *)
Lemma txids_of_root b b' fl fl' : vtx b <> [] -> vtx b' <> [] ->
  hashMerkleRoot (block_header b) = hashMerkleRoot (block_header b') ->
  CheckMerkleRoot way8 way4 way2 b unchecked = (Ok (), fl) -> CheckMerkleRoot way8 way4 way2 b' unchecked = (Ok (), fl') ->
  no_collision (commitment_inputs b ++ commitment_inputs b') ->
  Forall (fun tx => zlen (SerializeTransaction false tx) <> 64) (vtx b) ->
  (levels (txids b) <= levels (txids b'))%nat -> txids b = txids b'.
Proof.
  intros Hne Hne' Hr Hm Hm' Hc H64 Hle.
  destruct (CheckMerkleRoot_spec b fl Hne Hm) as [Et Ee], (CheckMerkleRoot_spec b' fl' Hne' Hm') as [Et' Ee'].
  set (d := levels (txids b)) in *. set (d' := levels (txids b')) in *.
  assert (tree (txids b) (d - d) = tree (txids b') (d' - d)) as E.
  { apply tree_down; try done; [apply txids_wf..| |by left|by rewrite Et, Et', Hr].
    eapply no_collision_sub; [|exact Hc]. intros x. unfold commitment_inputs. rewrite !in_app_iff. tauto. }
  rewrite Nat.sub_diag in E. cbn [tree] in E. destruct (d' - d)%nat as [|j] eqn:Ej; [done|]. exfalso.
  cbn [tree] in E. unfold txids in E at 1. destruct (vtx b) as [|tx txs] eqn:Ev; [done|]. cbn in E.
  destruct (pairs_head _ _ _ (tree_wf (txids b') j (txids_wf _)) (eq_sym E)) as (x & Hx & Eh & Hin).
  rewrite ComputeHash_spec in Eh. apply Forall_cons_iff in H64 as [H64 _]. apply H64. unfold zlen.
  rewrite (Hc (SerializeTransaction false tx) x); [by rewrite Hx|..|done]; unfold commitment_inputs; rewrite !in_app_iff.
  - left. left. rewrite Ev. by left.
  - right. right. left. eapply level_blocks; [|exact Hin]. fold d'. lia.
Qed.

(** What the witness check has compared, in a block with a coinbase. *)
Lemma CheckWitnessMalleation_spec b fl cb txs i : vtx b = cb :: txs -> vin cb = [i] ->
  CheckWitnessMalleation way8 way4 way2 b true unchecked = Ok (Ok (), fl) ->
  let pos := commitment_index (vout cb) 0 NO_WITNESS_COMMITMENT in
  if pos =? NO_WITNESS_COMMITMENT then Forall (fun tx => HasWitness tx = false) (vtx b)
  else scriptWitness i = [witness_nonce b]
       /\ Hash (node (witness_leaves b) (levels (witness_leaves b)) 0 ++ witness_nonce b)
          = take 32 (drop 6 (scriptPubKey (nth (Z.to_nat pos) (vout cb) CTxOut_null))).
Proof.
  intros Ev Ei. unfold CheckWitnessMalleation, GetWitnessCommitmentIndex. cbn [negb m_checked_witness_commitment unchecked].
  rewrite Ev, Ei. cbv zeta. destruct (_ =? NO_WITNESS_COMMITMENT).
  - unfold no_witness. rewrite Ev. destruct (existsb HasWitness (cb :: txs)) eqn:Ex; [done|]. intros _.
    apply Forall_forall. intros tx Htx. destruct (HasWitness tx) eqn:Et; [|done].
    assert (existsb HasWitness (cb :: txs) = true) by (apply existsb_exists; eauto). congruence.
  - destruct (scriptWitness i) as [|nonce [|]] eqn:Ew; try done. destruct (zlen nonce =? 32); cbn [negb]; [|done].
    unfold BlockWitnessMerkleRoot. rewrite Ev. cbn [mbind result_bind].
    assert (uint256_null :: (ComputeWitnessHash <$> txs) = witness_leaves b) as -> by (unfold witness_leaves; by rewrite Ev).
    destruct (root_tree way8 way4 way2 H8 H4 H2 (witness_leaves b) _ (witness_leaves_wf b) (levels_depth (witness_leaves b) ltac:(done)))
      as (h & Et & ->).
    rewrite write2_Hash2. destruct (bool_decide _) eqn:Ec; cbn [negb]; [|done]. intros _. apply bool_decide_eq_true_1 in Ec.
    assert (witness_nonce b = nonce) as -> by (unfold witness_nonce; rewrite Ev; destruct cb, i; cbn in *; by subst).
    split; [done|]. unfold node. rewrite Et. cbn [nth Z.to_nat]. by rewrite <- Hash2_Hash.
Qed.

(** The witness tree under an equal commitment. *)
Lemma witness_txs_same b b' fl fl' cb cb' txs txs' i i' : vtx b = cb :: txs -> vtx b' = cb' :: txs' ->
  vin cb = [i] -> vin cb' = [i'] -> vout cb = vout cb' -> length txs = length txs' ->
  CheckWitnessMalleation way8 way4 way2 b true unchecked = Ok (Ok (), fl) ->
  CheckWitnessMalleation way8 way4 way2 b' true unchecked = Ok (Ok (), fl') ->
  no_collision (commitment_inputs b ++ commitment_inputs b') ->
  (Forall (fun tx => HasWitness tx = false) (vtx b) /\ Forall (fun tx => HasWitness tx = false) (vtx b'))
  \/ (scriptWitness i = scriptWitness i' /\ SerializeTransaction true <$> txs = SerializeTransaction true <$> txs').
Proof.
  intros Ev Ev' Ei Ei' Eo El Hw Hw' Hc.
  pose proof (CheckWitnessMalleation_spec b fl cb txs i Ev Ei Hw) as H.
  pose proof (CheckWitnessMalleation_spec b' fl' cb' txs' i' Ev' Ei' Hw') as H'. cbv zeta in H, H'. rewrite <- Eo in H'.
  destruct (_ =? NO_WITNESS_COMMITMENT); [by left|]. right.
  destruct H as [Hn Hh], H' as [Hn' Hh']. rewrite <- Hh in Hh'. symmetry in Hh'.
  assert (length (witness_leaves b) = length (witness_leaves b')) as Ell
    by (unfold witness_leaves; rewrite Ev, Ev'; cbn [tail length]; rewrite !length_fmap; lia).
  assert (levels (witness_leaves b) = levels (witness_leaves b')) as Elv by (unfold levels; by rewrite Ell).
  pose proof (levels_depth (witness_leaves b) ltac:(done)) as [Hd _].
  pose proof (levels_depth (witness_leaves b') ltac:(done)) as [Hd' _]. unfold node, width, zlen in *.
  change (Z.to_nat 0) with 0%nat in Hh'.
  pose proof (tree_wf (witness_leaves b) (levels (witness_leaves b)) (witness_leaves_wf b)) as Hwf.
  pose proof (tree_wf (witness_leaves b') (levels (witness_leaves b')) (witness_leaves_wf b')) as Hwf'.
  destruct (tree (witness_leaves b) _) as [|h [|]] eqn:Et; cbn [length] in Hd; try lia.
  destruct (tree (witness_leaves b') _) as [|h' [|]] eqn:Et'; cbn [length] in Hd'; try lia. cbn [nth] in Hh'.
  apply Hc in Hh'; [|unfold commitment_inputs, node; change (Z.to_nat 0) with 0%nat; rewrite ?Et, ?Et', !in_app_iff; cbn [In nth]; tauto..].
  apply Forall_cons_iff in Hwf as [Hwf _], Hwf' as [Hwf' _].
  apply app_inj_1 in Hh' as [-> Enonce]; [|congruence]. split; [by rewrite Hn, Hn', Enonce|].
  assert (tree (witness_leaves b) (levels (witness_leaves b) - levels (witness_leaves b))
    = tree (witness_leaves b') (levels (witness_leaves b') - levels (witness_leaves b))) as E.
  { apply tree_down; try done; [apply witness_leaves_wf..| |by right|by rewrite Et, Et'|lia].
    eapply no_collision_sub; [|exact Hc]. intros x. unfold commitment_inputs. rewrite !in_app_iff. tauto. }
  rewrite Elv, !Nat.sub_diag in E. cbn [tree] in E. unfold witness_leaves in E. rewrite Ev, Ev' in E. injection E as E.
  apply hashes_inj.
  - eapply no_collision_sub; [|exact Hc]. intros x. unfold commitment_inputs. rewrite Ev, Ev', !fmap_cons, !in_app_iff. cbn [In]. tauto.
  - rewrite (list_fmap_ext _ ComputeWitnessHash txs), (list_fmap_ext _ ComputeWitnessHash txs'); [done|..];
      intros; symmetry; apply ComputeWitnessHash_spec.
Qed.

End Commit.

(** ** The theorem *)

Lemma check_transactions_spec txs : check_transactions txs = Ok (Ok ()) <-> Forall (fun tx => CheckTransaction tx = Ok ()) txs.
Proof.
  induction txs as [|tx txs IH]; cbn [check_transactions]; [by split|]. rewrite Forall_cons_iff.
  destruct (CheckTransaction tx) as [[]|[r reason]].
  - rewrite IH. tauto.
  - split; [|by intros [? _]]. by destruct (bool_decide _).
Qed.

(** A block whose body is in order. *)
Lemma check_block_body_spec b : check_block_body b = Ok (Ok ()) ->
  exists cb txs i, vtx b = cb :: txs /\ vin cb = [i] /\ IsCoinBase cb = true
    /\ Forall (fun tx => IsCoinBase tx = false) txs /\ Forall (fun tx => CheckTransaction tx = Ok ()) (vtx b).
Proof.
  unfold check_block_body. destruct (vtx b) as [|cb txs] eqn:Ev; [done|]. destruct (_ || _); [done|].
  destruct (IsCoinBase cb) eqn:Ec; cbn [negb]; [|done]. destruct (existsb IsCoinBase txs) eqn:Ex; [done|].
  intros H. apply result_bind_inv in H as (r & Hr & H). destruct r as [[]|]; [|done].
  assert (exists i, vin cb = [i]) as [i Ei] by (unfold IsCoinBase in Ec; destruct (vin cb) as [|i [|]]; try done; eauto).
  exists cb, txs, i. split_and!; try done.
  - apply Forall_forall. intros tx Htx. destruct (IsCoinBase tx) eqn:Et; [|done].
    assert (existsb IsCoinBase txs = true) by (apply existsb_exists; eauto). congruence.
  - by apply check_transactions_spec.
Qed.

(** Reading back makes both serializations injective. *)
Lemma serialize_inj aw txs txs' : Forall tx_ok txs -> Forall tx_ok txs' ->
  Forall (fun tx => CheckTransaction tx = Ok ()) txs -> Forall (fun tx => CheckTransaction tx = Ok ()) txs' ->
  SerializeTransaction aw <$> txs = SerializeTransaction aw <$> txs' ->
  (fun tx => if aw then tx else strip tx) <$> txs = (fun tx => if aw then tx else strip tx) <$> txs'.
Proof.
  assert (forall tx, tx_ok tx -> CheckTransaction tx = Ok () ->
    UnserializeTransaction aw (SerializeTransaction aw tx ++ []) = Ok (if aw then tx else strip tx, [])) as Hrb.
  { intros tx Hok Hct. apply tx_read_back; [done|]. intros _ Hv. unfold CheckTransaction in Hct.
    by rewrite bool_decide_eq_true_2 in Hct. }
  intros H1. revert txs'. induction H1 as [|tx txs Hok _ IH]; intros [|tx' txs'] H1' H2 H2' E; try done.
  rewrite !fmap_cons in *. apply (inj2 cons) in E as [E1 E].
  apply Forall_cons_iff in H1' as [Hok' H1'], H2 as [Hct H2], H2' as [Hct' H2']. f_equal; [|by apply IH].
  pose proof (Hrb tx Hok Hct) as R. pose proof (Hrb tx' Hok' Hct') as R'.
  rewrite E1, R' in R. by injection R as ->.
Qed.

Lemma strip_no_witness tx : HasWitness tx = false -> strip tx = tx.
Proof.
  unfold HasWitness. destruct tx as [ins outs v l]. cbn. intros H. unfold strip. cbn. f_equal.
  induction ins as [|[o s q w] ins IH]; [done|]. cbn in H |- *. apply orb_false_iff in H as [Hw H].
  apply negb_false_iff, bool_decide_eq_true_1 in Hw as ->. f_equal. by apply IH.
Qed.

Lemma strip_no_witnesses txs : Forall (fun tx => HasWitness tx = false) txs -> strip <$> txs = txs.
Proof. induction 1 as [|tx txs H _ IH]; [done|]. rewrite fmap_cons, IH, strip_no_witness by done. done. Qed.

(** C7: A block header commits to the whole block. Two blocks under the same Merkle
    root that pass [CheckMerkleRoot] and [CheckWitnessMalleation] (with the commitment
    expected) and whose bodies pass [CheckBlock] have the same transactions, witnesses
    included, unless the double hash collides on an input hashed for these checks or
    one of them has a transaction of 64 bytes. *)
Theorem header_commits_block way8 way4 way2 b b' fl fl' wfl wfl' :
  way_ok 8 way8 -> way_ok 4 way4 -> way_ok 2 way2 ->
  Forall tx_ok (vtx b) -> Forall tx_ok (vtx b') ->
  check_block_body b = Ok (Ok ()) -> check_block_body b' = Ok (Ok ()) ->
  CheckMerkleRoot way8 way4 way2 b unchecked = (Ok (), fl) ->
  CheckMerkleRoot way8 way4 way2 b' unchecked = (Ok (), fl') ->
  CheckWitnessMalleation way8 way4 way2 b true unchecked = Ok (Ok (), wfl) ->
  CheckWitnessMalleation way8 way4 way2 b' true unchecked = Ok (Ok (), wfl') ->
  Forall (fun tx => zlen (SerializeTransaction false tx) <> 64) (vtx b ++ vtx b') ->
  no_collision (commitment_inputs b ++ commitment_inputs b') ->
  hashMerkleRoot (block_header b) = hashMerkleRoot (block_header b') ->
  vtx b = vtx b'.
Proof.
  intros H8 H4 H2 Hok Hok' Hb Hb' Hm Hm' Hw Hw' H64 Hc Hr.
  destruct (check_block_body_spec b Hb) as (cb & txs & i & Ev & Ei & _ & _ & Hct).
  destruct (check_block_body_spec b' Hb') as (cb' & txs' & i' & Ev' & Ei' & _ & _ & Hct').
  apply Forall_app in H64 as [H64 H64'].
  assert (txids b = txids b') as Eids.
  { destruct (Nat.le_ge_cases (levels (txids b)) (levels (txids b'))).
    - eapply txids_of_root; try done; [by rewrite Ev|by rewrite Ev'].
    - symmetry. eapply txids_of_root; [exact H8|exact H4|exact H2|by rewrite Ev'|by rewrite Ev|done|done|done| |done|done].
      eapply no_collision_sub; [|exact Hc]. intros x. rewrite !in_app_iff. tauto. }
  assert (strip <$> vtx b = strip <$> vtx b') as Es.
  { apply (serialize_inj false); try done. apply hashes_inj.
    - eapply no_collision_sub; [|exact Hc]. intros x. unfold commitment_inputs. rewrite !in_app_iff. tauto.
    - unfold txids in Eids. rewrite (list_fmap_ext _ ComputeHash (vtx b)), (list_fmap_ext _ ComputeHash (vtx b')); [done|..];
        intros; symmetry; apply ComputeHash_spec. }
  pose proof Es as Es'. rewrite Ev, Ev', !fmap_cons in Es'. apply (inj2 cons) in Es' as [Ecb Etxs].
  assert (length txs = length txs') as El by (apply (f_equal length) in Etxs; by rewrite !length_fmap in Etxs).
  destruct (witness_txs_same way8 way4 way2 H8 H4 H2 b b' wfl wfl' cb cb' txs txs' i i') as [[Hn Hn']|[Ew Et]]; try done.
  - apply (f_equal vout) in Ecb. exact Ecb.
  - by rewrite <- (strip_no_witnesses _ Hn), <- (strip_no_witnesses _ Hn').
  - rewrite Ev, Ev' in *. apply Forall_cons_iff in Hok as [_ Hok], Hok' as [_ Hok'], Hct as [_ Hct], Hct' as [_ Hct']. f_equal.
    + destruct cb as [ins outs v l], cb' as [ins' outs' v' l'], i, i'. cbn in Ei, Ei', Ew. subst.
      unfold strip, strip_txin in Ecb. cbn in Ecb. congruence.
    + pose proof (serialize_inj true txs txs') as E. rewrite !list_fmap_id in E. by apply E.
Qed.

(** A block of one coinbase, with its commitment, for the examples. *)
Definition ex_coinbase : CTransaction :=
  Tx [TxIn COutPoint_null [1; 1] SEQUENCE_FINAL []] [TxOut 50 [81]] 1 0.
Definition ex_params : Params :=
  MkParams uint256_null 210000 ∅ 0 uint256_null 0 0 0 0 sample_params false [].
Definition ex_committed : list CTransaction := Eval vm_compute in
  match GenerateCoinbaseCommitment None None None ex_params
          (Block (BlockHeader 4 uint256_null uint256_null 0 0 0) [ex_coinbase]) None with
  | Ok (_, b) => vtx b
  | Err _ => []
  end.
Definition ex_block : CBlock := Eval vm_compute in
  Block (BlockHeader 4 uint256_null (ComputeMerkleRoot None None None (ComputeHash <$> ex_committed)).1 0 0 0) ex_committed.

Lemma header_commits_block_witness : vtx ex_block = vtx ex_block.
Proof.
  refine (header_commits_block None None None ex_block ex_block (BlockFlags false false true) (BlockFlags false false true)
    (BlockFlags false true false) (BlockFlags false true false) I I I _ _ _ _ _ _ _ _ _ _ eq_refl).
  1, 2: constructor; [|constructor]; constructor; by_decide.
  1, 2, 3, 4, 5, 6: vm_compute; reflexivity.
  - repeat constructor; vm_compute; discriminate.
  - apply collision_free_spec. vm_compute. reflexivity.
Defined.

(** * Making and checking the commitment *)

Lemma commitment_index_last outs o : forall k pos, is_commitment (scriptPubKey o) = true ->
  commitment_index (outs ++ [o]) k pos = k + zlen outs.
Proof.
  unfold zlen. induction outs as [|o' outs IH]; intros k pos Ho; cbn [app commitment_index length].
  - rewrite Ho. lia.
  - rewrite IH by done. lia.
Qed.

Lemma is_commitment_script w : length w = 32%nat ->
  is_commitment (commitment_script w) = true /\ take 32 (drop 6 (commitment_script w)) = w.
Proof.
  intros Hw. split.
  - unfold is_commitment, commitment_script, zlen. rewrite length_app, Hw. reflexivity.
  - unfold commitment_script. rewrite drop_app_length' by done. by rewrite firstn_all2 by lia.
Qed.

(** C34: A miner's commitment is accepted. For a block whose coinbase has an input, no
    witness and no commitment yet, [GenerateCoinbaseCommitment] under active segwit
    returns a block that differs only in the coinbase, and [CheckWitnessMalleation]
    accepts that block. *)
Theorem generated_commitment_accepted way8 way4 way2 params b pindexPrev cb txs i ins :
  vtx b = cb :: txs -> vin cb = i :: ins -> HasWitness cb = false ->
  GetWitnessCommitmentIndex b = NO_WITNESS_COMMITMENT ->
  DeploymentActiveAfter pindexPrev params DEPLOYMENT_SEGWIT = true ->
  exists commitment b' cb', GenerateCoinbaseCommitment way8 way4 way2 params b pindexPrev = Ok (commitment, b')
    /\ block_header b' = block_header b /\ vtx b' = cb' :: txs
    /\ vout cb' = vout cb ++ [TxOut 0 commitment]
    /\ CheckWitnessMalleation way8 way4 way2 b' true unchecked = Ok (Ok (), BlockFlags false true false).
Proof.
  intros Ev Ei Hw Hc Hd. unfold GenerateCoinbaseCommitment, BlockWitnessMerkleRoot. rewrite Hc, Ev, Z.eqb_refl. cbn [mbind result_bind].
  set (root := ComputeMerkleRoot _ _ _ _). destruct root as [r mut] eqn:Er. unfold root in Er. rewrite write2_Hash2.
  destruct (is_commitment_script (Hash2 r (replicate 32 0)) (Hash2_length _ _)) as [Hic Htk].
  set (w := Hash2 r (replicate 32 0)) in *. unfold UpdateUncommittedBlockStructures, GetWitnessCommitmentIndex, set_coinbase.
  cbn [mbind result_bind]. rewrite Ev. cbn [vtx vout].
  rewrite commitment_index_last by exact Hic.
  rewrite (proj2 (Z.eqb_neq _ NO_WITNESS_COMMITMENT)) by (unfold NO_WITNESS_COMMITMENT, zlen; lia).
  rewrite Hd. unfold HasWitness in Hw |- *. cbn [vin negb andb]. rewrite Hw. cbn [negb andb]. rewrite Ei. cbn [mbind result_bind].
  eexists _, _, _. split; [reflexivity|]. cbn [block_header vtx vout]. split; [done|]. split; [done|]. split; [done|].
  unfold CheckWitnessMalleation, GetWitnessCommitmentIndex, BlockWitnessMerkleRoot.
  cbn [negb m_checked_witness_commitment unchecked vtx vout vin version nLockTime scriptWitness block_header].
  rewrite commitment_index_last by exact Hic.
  rewrite (proj2 (Z.eqb_neq _ NO_WITNESS_COMMITMENT)) by (unfold NO_WITNESS_COMMITMENT, zlen; lia).
  change (zlen (replicate 32 0) =? 32) with true. cbn [negb mbind result_bind]. rewrite Er, write2_Hash2. fold w.
  unfold zlen. rewrite Z.add_0_l, Nat2Z.id, app_nth2, Nat.sub_diag by lia. cbn [nth scriptPubKey].
  by rewrite Htk, bool_decide_eq_true_2.
Qed.

Lemma generated_commitment_accepted_witness :
  exists commitment b', GenerateCoinbaseCommitment None None None ex_params
    (Block (BlockHeader 4 uint256_null uint256_null 0 0 0) [ex_coinbase]) None = Ok (commitment, b').
Proof.
  destruct (generated_commitment_accepted None None None ex_params
    (Block (BlockHeader 4 uint256_null uint256_null 0 0 0) [ex_coinbase]) None ex_coinbase []
    (TxIn COutPoint_null [1; 1] SEQUENCE_FINAL []) [] eq_refl eq_refl eq_refl eq_refl eq_refl)
    as (commitment & b' & cb' & E & _). exists commitment, b'. exact E.
Defined.
