(* ===== verification/Headers.v ===== *)
(** Accepting headers (src/bitcoin/src/validation.cpp): [AcceptBlockHeader],
    [ProcessNewBlockHeaders], and the checks of headers that are not yet in the tree.
    Every header of the tree has passed the checks of its place in it. *)

From S2P Require Import Prelude Serialize ArithUint256 MerkleDamgard Sha2 Hash Transaction Script BlockIndex BlockIndexSpec Pow BlockChecks.

#[local] Opaque CBlockHeader_GetHash.

(** * The code *)

(** The block index, and [m_failed_blocks] in its order of iteration. *)
Record header_state := HeaderState {
  hs_index : BlockManager;
  m_failed_blocks : list ptr;
}.

(** Marks the blocks from [invalid_walk] down to [failedit], which is excluded. *)
Fixpoint mark_failed (fuel : nat) (bm : BlockManager) (invalid_walk : option ptr) (failedit : ptr) : result string BlockManager :=
  if bool_decide (invalid_walk = Some failedit) then Ok bm
  else
    match invalid_walk, fuel with
    | Some p, S fuel =>
        b ← deref (m_block_index bm) p;
        let m := <[p := set_nStatus (Z.lor (nStatus b) BLOCK_FAILED_CHILD) b]> (m_block_index bm) in
        mark_failed fuel (BlockMgr m ({[p]} ∪ m_dirty_blockindex bm) (best_header bm)) (pprev b) failedit
    | None, _ => Err "invalid_walk"
    | _, O => Err "out of fuel"
    end.

(** Whether [pindexPrev] descends from a failed block; then the blocks between are
    marked. *)
Fixpoint mark_descendants (bm : BlockManager) (pindexPrev : ptr) (failed : list ptr) : result string (option BlockManager) :=
  match failed with
  | [] => Ok None
  | failedit :: failed =>
      f ← deref (m_block_index bm) failedit;
      a ← GetAncestor (m_block_index bm) pindexPrev (nHeight f);
      if bool_decide (a = Some failedit) then
        if negb (has_status (nStatus f) BLOCK_FAILED_VALID) then Err "assert(failedit->nStatus & BLOCK_FAILED_VALID)"
        else
          prev ← deref (m_block_index bm) pindexPrev;
          bm ← mark_failed (Z.to_nat (nHeight prev - nHeight f)) bm (Some pindexPrev) failedit;
          Ok (Some bm)
      else mark_descendants bm pindexPrev failed
  end.

Section Accept.
Context (params : Params).
(** Whether checkpoints are enabled and which, and the adjusted time. *)
Context (checkpoints : option (list (Z * bytes))) (now : Z).

(** The last part: the header is added to the index. *)
Definition add_header (st : header_state) (block : CBlockHeader) (min_pow_checked : bool)
    : result string (block_check * option ptr * header_state) :=
  if negb min_pow_checked then Ok (Err (BLOCK_HEADER_LOW_WORK, "too-little-chainwork"), None, st)
  else
    '(pindex, bm) ← AddToBlockIndex (hs_index st) block;
    Ok (Ok (), Some pindex, HeaderState bm (m_failed_blocks st)).

(** The result is the check, what is stored in [*ppindex], and the state. *)
Definition AcceptBlockHeader (st : header_state) (block : CBlockHeader) (min_pow_checked : bool)
    : result string (block_check * option ptr * header_state) :=
  let bm := hs_index st in
  let hash := CBlockHeader_GetHash block in
  if bool_decide (hash = hashGenesisBlock params) then add_header st block min_pow_checked
  else
    match m_block_index bm !! hash with
    | Some b =>
        if has_status (nStatus b) BLOCK_FAILED_MASK then Ok (Err (BLOCK_CACHED_INVALID, "duplicate-invalid"), Some hash, st)
        else Ok (Ok (), Some hash, st)
    | None =>
        match CheckBlockHeader block params true with
        | Err e => Ok (Err e, None, st)
        | Ok _ =>
            match m_block_index bm !! hashPrevBlock block with
            | None => Ok (Err (BLOCK_MISSING_PREV, "prev-blk-not-found"), None, st)
            | Some prev =>
                if has_status (nStatus prev) BLOCK_FAILED_MASK then Ok (Err (BLOCK_INVALID_PREV, "bad-prevblk"), None, st)
                else
                  r ← ContextualCheckBlockHeader block bm params checkpoints now (hashPrevBlock block);
                  match r with
                  | Err e => Ok (Err e, None, st)
                  | Ok _ =>
                      valid ← IsValid prev BLOCK_VALID_SCRIPTS;
                      marked ← (if negb valid then mark_descendants bm (hashPrevBlock block) (m_failed_blocks st) else Ok None);
                      match marked with
                      | Some bm => Ok (Err (BLOCK_INVALID_PREV, "bad-prevblk"), None, HeaderState bm (m_failed_blocks st))
                      | None => add_header st block min_pow_checked
                      end
                  end
            end
        end
    end.

(** The loop of [ProcessNewBlockHeaders]; the result has the last [*ppindex]. *)
Fixpoint ProcessNewBlockHeaders (st : header_state) (headers : list CBlockHeader) (min_pow_checked : bool) (ppindex : option ptr)
    : result string (block_check * option ptr * header_state) :=
  match headers with
  | [] => Ok (Ok (), ppindex, st)
  | header :: headers =>
      '(r, pindex, st) ← AcceptBlockHeader st header min_pow_checked;
      match r with
      | Err e => Ok (Err e, ppindex, st)
      | Ok _ => ProcessNewBlockHeaders st headers min_pow_checked pindex
      end
  end.

Definition HasValidProofOfWork (headers : list CBlockHeader) : bool :=
  forallb (fun header => CheckProofOfWorkImpl (CBlockHeader_GetHash header) (nBits header) (pow params)) headers.

Fixpoint claimed_work (headers : list CBlockHeader) (total_work : limbs) : result string limbs :=
  match headers with
  | [] => Ok total_work
  | header :: headers =>
      proof ← GetBlockProof (CBlockIndex_new header);
      claimed_work headers (uint_add total_work proof)
  end.

Definition CalculateClaimedHeadersWork (headers : list CBlockHeader) : result string limbs := claimed_work headers (arith_u64 0).

End Accept.

(** * What the tree of headers determines *)

(** The fields that no later step changes. *)
Definition core (b : CBlockIndex) :=
  (phashBlock b, pprev b, pskip b, nHeight b, nChainWork b,
   (bi_nVersion b, bi_hashMerkleRoot b, bi_nTime b, bi_nBits b, bi_nNonce b, nTimeMax b)).

(** The tree [m'] has every entry of [m], up to status and position on disk. *)
Definition tree_le (m m' : BlockMap) : Prop :=
  forall p b, m !! p = Some b -> exists b', m' !! p = Some b' /\ core b' = core b.

Lemma core_inv b' b : core b' = core b ->
  phashBlock b' = phashBlock b /\ pprev b' = pprev b /\ pskip b' = pskip b /\ nHeight b' = nHeight b
  /\ nChainWork b' = nChainWork b /\ bi_nVersion b' = bi_nVersion b /\ bi_hashMerkleRoot b' = bi_hashMerkleRoot b
  /\ bi_nTime b' = bi_nTime b /\ bi_nBits b' = bi_nBits b /\ bi_nNonce b' = bi_nNonce b /\ nTimeMax b' = nTimeMax b.
Proof. unfold core. intros H. by simplify_eq. Qed.

Section Grow.
Context (m m' : BlockMap) (Hle : tree_le m m').

Lemma deref_le p b : deref m p = Ok b -> exists b', deref m' p = Ok b' /\ core b' = core b.
Proof.
  unfold deref. destruct (m !! p) as [b0|] eqn:E; [|done]. intros [= ->].
  destruct (Hle p b E) as (b' & -> & H). eauto.
Qed.

Lemma GetAncestor_loop_le fuel : forall p hw h a, GetAncestor_loop fuel m p hw h = Ok a -> GetAncestor_loop fuel m' p hw h = Ok a.
Proof.
  induction fuel as [|fuel IH]; intros p hw h a; cbn [GetAncestor_loop]; destruct (negb _); try done. intros H.
  apply result_bind_inv in H as (b & Eb & H). destruct (deref_le _ _ Eb) as (b' & -> & Hc). cbn [mbind result_bind].
  destruct (core_inv _ _ Hc) as (_ & Ep & Es & _). unfold skip_to in *. rewrite Es, Ep.
  destruct (pskip b); [destruct (_ || _)|]; [by apply IH|destruct (pprev b); [by apply IH|done]..].
Qed.
Lemma GetAncestor_le p h a : GetAncestor m p h = Ok a -> GetAncestor m' p h = Ok a.
Proof.
  unfold GetAncestor. intros H. apply result_bind_inv in H as (b & Eb & H). destruct (deref_le _ _ Eb) as (b' & -> & Hc).
  cbn [mbind result_bind]. destruct (core_inv _ _ Hc) as (_ & _ & _ & -> & _). destruct (_ || _); [done|].
  apply result_bind_inv in H as (x & Ex & H). rewrite (GetAncestor_loop_le _ _ _ _ _ Ex). done.
Qed.

Lemma past_times_le n : forall p acc ts, past_times n m p acc = Ok ts -> past_times n m' p acc = Ok ts.
Proof.
  induction n as [|n IH]; intros p acc ts; cbn [past_times]; [done|]. destruct p as [p|]; [|done]. intros H.
  apply result_bind_inv in H as (b & Eb & H). destruct (deref_le _ _ Eb) as (b' & -> & Hc). cbn [mbind result_bind].
  destruct (core_inv _ _ Hc) as (_ & Ep & _ & _ & _ & _ & _ & Et & _). unfold GetBlockTime in *. rewrite Ep, Et. by apply IH.
Qed.

Lemma GetMedianTimePast_le p t : GetMedianTimePast m p = Ok t -> GetMedianTimePast m' p = Ok t.
Proof.
  unfold GetMedianTimePast. intros H. apply result_bind_inv in H as (ts & Et & H). by rewrite (past_times_le _ _ _ _ Et).
Qed.

Lemma last_real_block_le fuel p i l r : last_real_block fuel m p i l = Ok r -> last_real_block fuel m' p i l = Ok r.
Proof.
  revert p. induction fuel as [|fuel IH]; intros p; cbn [last_real_block]; intros H;
    apply result_bind_inv in H as (b & Eb & H); destruct (deref_le _ _ Eb) as (b' & -> & Hc); cbn [mbind result_bind];
    destruct (core_inv _ _ Hc) as (_ & -> & _ & -> & _ & _ & _ & _ & -> & _); destruct (pprev b); try done;
    destruct (_ && _); try done. by apply IH.
Qed.

Lemma CalculateNextWorkRequired_le p t params r :
  CalculateNextWorkRequired m p t params = Ok r -> CalculateNextWorkRequired m' p t params = Ok r.
Proof.
  unfold CalculateNextWorkRequired, retarget_bits, GetBlockTime. intros H. apply result_bind_inv in H as (b & Eb & H).
  destruct (deref_le _ _ Eb) as (b' & -> & Hc). cbn [mbind result_bind].
  destruct (core_inv _ _ Hc) as (_ & _ & _ & -> & _ & _ & _ & -> & -> & _).
  destruct (fPowNoRetargeting params); [done|]. destruct (enforce_BIP94 params); [|done].
  apply result_bind_inv in H as (bits & E & H). apply result_bind_inv in E as (f & Ef & E).
  rewrite (GetAncestor_le _ _ _ Ef). cbn [mbind result_bind]. destruct f as [f|]; [|done].
  apply result_bind_inv in E as (bf & Ebf & E). destruct (deref_le _ _ Ebf) as (bf' & -> & Hcf). cbn [mbind result_bind].
  destruct (core_inv _ _ Hcf) as (_ & _ & _ & _ & _ & _ & _ & _ & -> & _). by simplify_eq.
Qed.

Lemma GetNextWorkRequired_le p hdr params r :
  GetNextWorkRequired m p hdr params = Ok r -> GetNextWorkRequired m' p hdr params = Ok r.
Proof.
  unfold GetNextWorkRequired. destruct (compact_of _) as [limit|]; [|done]. cbn [mbind result_bind]. intros H.
  apply result_bind_inv in H as (b & Eb & H). destruct (deref_le _ _ Eb) as (b' & -> & Hc). cbn [mbind result_bind].
  destruct (core_inv _ _ Hc) as (_ & _ & _ & Eh & _ & _ & _ & Et & Ebits & _). unfold GetBlockTime in *. rewrite Eh, Et, Ebits.
  destruct (negb _).
  - destruct (fPowAllowMinDifficultyBlocks params); [|done]. destruct (_ <? _); [done|]. by apply last_real_block_le.
  - destruct (_ <? 0); [done|]. apply result_bind_inv in H as (f & Ef & H). rewrite (GetAncestor_le _ _ _ Ef).
    cbn [mbind result_bind]. destruct f as [f|]; [|done]. apply result_bind_inv in H as (bf & Ebf & H).
    destruct (deref_le _ _ Ebf) as (bf' & -> & Hcf). cbn [mbind result_bind].
    destruct (core_inv _ _ Hcf) as (_ & _ & _ & _ & _ & _ & _ & -> & _). by apply CalculateNextWorkRequired_le.
Qed.

Lemma GetBlockHeader_le b b' h : core b' = core b -> GetBlockHeader m b = Ok h -> GetBlockHeader m' b' = Ok h.
Proof.
  intros Hc. destruct (core_inv _ _ Hc) as (_ & Ep & _ & _ & _ & E1 & E2 & E3 & E4 & E5 & _).
  unfold GetBlockHeader. rewrite Ep, E1, E2, E3, E4, E5. destruct (pprev b) as [q|]; [|done]. intros H.
  apply result_bind_inv in H as (h0 & E & H). apply result_bind_inv in E as (bq & Eq & E).
  destruct (deref_le _ _ Eq) as (bq' & -> & Hcq). cbn [mbind result_bind]. unfold GetBlockHash in *.
  destruct (core_inv _ _ Hcq) as (-> & _). by rewrite E.
Qed.

Lemma walk_le n p a : walk m n p = Some a -> walk m' n p = Some a.
Proof.
  revert p. induction n as [|n IH]; intros p; [done|]. cbn [walk]. intros H. destruct (m !! p) as [b|] eqn:E; [|done].
  destruct (Hle p b E) as (b' & -> & Hc). destruct (core_inv _ _ Hc) as (_ & Ep & _). cbn in *. rewrite Ep.
  destruct (pprev b); [|done]. by apply IH.
Qed.

(** The invariant of the tree does not depend on the status of the blocks. *)
Lemma wf_tree_le : tree_le m' m -> wf_tree m -> wf_tree m'.
Proof.
  intros Hge Hwf p b' Hp. destruct (Hge p b' Hp) as (b & Hb & Hc). symmetry in Hc.
  destruct (core_inv _ _ Hc) as (Eh & Ep & Es & Ehh & Ew & _ & _ & Et & Ebits & _ & Etm).
  destruct (Hwf p b Hb) as [H1 (h & H2 & H3) H4 H5 H6 H7 H8]. constructor; rewrite ?Eh, ?Ehh, ?Ew, ?Et, ?Ebits; try done.
  - exists h. split; [|done]. by apply (GetBlockHeader_le b).
  - assert (size m = size m') as <-; [|done]. rewrite <- !size_dom. f_equal. apply set_eq. intros x.
    rewrite !elem_of_dom. split; intros [y Hy]; [destruct (Hle x y Hy) as (? & ? & _)|destruct (Hge x y Hy) as (? & ? & _)]; eauto.
  - unfold links_ok in *. rewrite Ep, Es, Ehh, Ew, Et, Ebits, Etm. destruct (pprev b) as [q|]; [|done].
    destruct H8 as (bq & s & Hq & E1 & E2 & E3 & E4 & E5). destruct (Hle q bq Hq) as (bq' & Hq' & Hcq).
    destruct (core_inv _ _ Hcq) as (_ & _ & _ & Eqh & Eqw & _ & _ & _ & _ & _ & Eqt).
    exists bq', s. rewrite Eqh, Eqw, Eqt. split_and!; try done. by apply walk_le.
Qed.

End Grow.

Lemma tree_le_refl m : tree_le m m.
Proof. intros p b H. eauto. Qed.

Lemma tree_le_trans m1 m2 m3 : tree_le m1 m2 -> tree_le m2 m3 -> tree_le m1 m3.
Proof. intros H1 H2 p b H. destruct (H1 p b H) as (b2 & Hb2 & E). destruct (H2 p b2 Hb2) as (b3 & ? & ?). exists b3. split; congruence. Qed.

Lemma subset_tree_le m m' : m ⊆ m' -> tree_le m m'.
Proof. intros H p b Hp. exists b. split; [|done]. by eapply lookup_weaken. Qed.

(** Changing the status of an entry. *)
Lemma status_tree_le m p b s : m !! p = Some b ->
  tree_le m (<[p := set_nStatus s b]> m) /\ tree_le (<[p := set_nStatus s b]> m) m.
Proof.
  intros Hp. split; intros q bq Hq; destruct (decide (q = p)) as [->|].
  - simplify_eq. rewrite lookup_insert_eq. eexists. split; [done|]. by destruct b.
  - rewrite lookup_insert_ne by done. eauto.
  - rewrite lookup_insert_eq in Hq. simplify_eq. eexists. split; [done|]. by destruct b.
  - rewrite lookup_insert_ne in Hq by done. eauto.
Qed.

(** * The headers of the tree are valid *)

Section Valid.
Context (params : Params) (Hpow : params_ok (pow params)).

(** The block versions that the buried deployments require. *)
Definition versions : list (BuriedDeployment * Z) := [(DEPLOYMENT_HEIGHTINCB, 2); (DEPLOYMENT_DERSIG, 3); (DEPLOYMENT_CLTV, 4)].

Definition header_ok (m : BlockMap) (p : ptr) (b : CBlockIndex) : Prop :=
  match pprev b with
  | None => p = hashGenesisBlock params
  | Some q => exists bq hdr mtp, m !! q = Some bq
      /\ (GetBlockHeader m b = Ok hdr /\ CBlockHeader_GetHash hdr = p)
      /\ CheckProofOfWorkImpl p (bi_nBits b) (pow params) = true
      /\ GetNextWorkRequired m q hdr (pow params) = Ok (bi_nBits b)
      /\ PermittedDifficultyTransition (pow params) (nHeight b) (bi_nBits bq) (bi_nBits b) = Ok true
      /\ (GetMedianTimePast m q = Ok mtp /\ mtp < bi_nTime b)
      /\ Forall (fun '(dep, v) => DeploymentActiveAfter (Some bq) params dep = true -> v <= bi_nVersion b) versions
  end.

Record headers_ok (st : header_state) : Prop := {
  ho_tree : wf_tree (m_block_index (hs_index st));
  ho_best : best_ok (hs_index st);
  ho_genesis : is_Some (m_block_index (hs_index st) !! hashGenesisBlock params);
  ho_target : map_Forall (fun _ b => valid_target (pow params) (bi_nBits b)) (m_block_index (hs_index st));
  ho_headers : map_Forall (header_ok (m_block_index (hs_index st))) (m_block_index (hs_index st));
  ho_failed : Forall (fun p => exists b, m_block_index (hs_index st) !! p = Some b
                                 /\ has_status (nStatus b) BLOCK_FAILED_VALID = true) (m_failed_blocks st);
}.

(** A target that the check of the work accepts is valid. *)
Lemma accepted_target hash bits : is_uint 32 bits -> CheckProofOfWorkImpl hash bits (pow params) = true ->
  valid_target (pow params) bits.
Proof.
  intros Hb. unfold CheckProofOfWorkImpl, DeriveTarget. pose proof (SetCompact_spec bits Hb) as Hs.
  destruct (SetCompact bits) as [[t fn] fo]. destruct Hs as (Wt & Lt & Vt & -> & ->).
  destruct (limit_arith (pow params) Hpow) as [[Wl Ll] Vl].
  rewrite EqualTo_spec by (done || (rewrite Lt; unfold WIDTH256; lia)). rewrite uint_gt_spec by congruence.
  rewrite Vl, Vt. destruct (_ || _ || _ || _) eqn:E; [done|]. intros _. bool_props.
  destruct (compact_exact_representable bits (proj1 Hb)) as (w & e & Hw & He & Ec). assert (0 < 2 ^ (8 * e)) by (apply pow2_pos; lia).
  assert (0 <= compact_exact bits) by nia. rewrite Z.mod_small in * by lia. split_and!; [done| |lia|lia].
  destruct (Z.eqb_spec (compact_word bits) 0) as [E0|]; [|done]. exfalso. unfold compact_exact in *. rewrite E0 in *.
  destruct (_ <=? 3); lia.
Qed.

Lemma contextual_ok m bm block cps now q bq : m = m_block_index bm -> m !! q = Some bq ->
  ContextualCheckBlockHeader block bm params cps now q = Ok (Ok ()) ->
  GetNextWorkRequired m q block (pow params) = Ok (nBits block)
  /\ (exists mtp, GetMedianTimePast m q = Ok mtp /\ mtp < nTime block)
  /\ Forall (fun '(dep, v) => DeploymentActiveAfter (Some bq) params dep = true -> v <= nVersion block) versions.
Proof.
  intros -> Hq H. unfold ContextualCheckBlockHeader in H. rewrite (deref_ok _ _ _ Hq) in H. cbn [mbind result_bind] in H.
  apply result_bind_inv in H as (bits & Eb & H). destruct (negb _) eqn:En in H; [done|].
  apply negb_false_iff, Z.eqb_eq in En as ->. apply result_bind_inv in H as ([] & _ & H); [done|].
  apply result_bind_inv in H as (mtp & Em & H). destruct (Z.leb_spec (nTime block) mtp); [done|].
  destruct (_ && _) in H; [done|]. destruct (_ <? nTime block); [done|].
  destruct (_ || _ || _) eqn:Ev; [done|]. apply orb_false_iff in Ev as [Ev E4]. apply orb_false_iff in Ev as [E2 E3].
  split; [done|]. split; [by exists mtp|].
  repeat constructor; intros Hd; [rewrite Hd in E2|rewrite Hd in E3|rewrite Hd in E4]; rewrite andb_true_r in *; bool_props; lia.
Qed.

(** Walking down to a failed block only changes the status. *)
Lemma mark_failed_spec fuel : forall bm w f bm', mark_failed fuel bm w f = Ok bm' ->
  tree_le (m_block_index bm) (m_block_index bm') /\ tree_le (m_block_index bm') (m_block_index bm)
  /\ best_header bm' = best_header bm
  /\ forall p b, m_block_index bm !! p = Some b -> has_status (nStatus b) BLOCK_FAILED_VALID = true ->
       exists b', m_block_index bm' !! p = Some b' /\ has_status (nStatus b') BLOCK_FAILED_VALID = true.
Proof.
  assert (forall bm : BlockManager, tree_le (m_block_index bm) (m_block_index bm)) as Hrefl by (intros; apply tree_le_refl).
  induction fuel as [|fuel IH]; intros bm w f bm'; cbn [mark_failed]; destruct (bool_decide _);
    try (intros [= <-]; split_and!; eauto; done); destruct w as [p|]; try done. intros H.
  apply result_bind_inv in H as (b & Eb & H). unfold deref in Eb. destruct (_ !! p) as [b0|] eqn:Ep in Eb; [|done].
  injection Eb as ->. destruct (status_tree_le _ p b (Z.lor (nStatus b) BLOCK_FAILED_CHILD) Ep) as [H1 H2].
  apply IH in H as (H3 & H4 & H5 & H6). cbn [m_block_index best_header] in *.
  split_and!; [by eapply tree_le_trans|by eapply tree_le_trans|done|].
  intros p' b' Hp' Hs. destruct (decide (p' = p)) as [->|]; [|by apply (H6 p' b'); [rewrite lookup_insert_ne|]].
  apply (H6 p (set_nStatus (Z.lor (nStatus b) BLOCK_FAILED_CHILD) b)); [by rewrite lookup_insert_eq|].
  simplify_eq. unfold has_status in *. destruct b. cbn in *. rewrite Z.land_lor_distr_l.
  apply negb_true_iff, Z.eqb_neq in Hs. apply negb_true_iff, Z.eqb_neq. intros E. apply Z.lor_eq_0_iff in E. tauto.
Qed.

Lemma mark_failed_total n : forall bm p f, walk (m_block_index bm) n p = Some f -> exists bm', mark_failed n bm (Some p) f = Ok bm'.
Proof.
  induction n as [|n IH]; intros bm p f Hw; cbn [mark_failed].
  - injection Hw as ->. rewrite bool_decide_true by done. eauto.
  - destruct (bool_decide _); [by eauto|]. cbn [walk] in Hw. destruct (m_block_index bm !! p) as [b|] eqn:Ep; [|done].
    rewrite (deref_ok _ _ _ Ep). cbn [mbind result_bind] in *. cbn in Hw. destruct (pprev b) as [q|]; [|done]. apply IH.
    cbn [m_block_index]. eapply walk_le; [|exact Hw]. by apply status_tree_le.
Qed.

Lemma mark_descendants_total st q bq failed : headers_ok st -> m_block_index (hs_index st) !! q = Some bq ->
  Forall (fun p => exists b, m_block_index (hs_index st) !! p = Some b /\ has_status (nStatus b) BLOCK_FAILED_VALID = true) failed ->
  exists r, mark_descendants (hs_index st) q failed = Ok r
    /\ match r with
       | None => True
       | Some bm => exists n f, mark_failed n (hs_index st) (Some q) f = Ok bm
       end.
Proof.
  intros Hst Hq. induction 1 as [|f failed (bf & Hf & Hs) _ IH]; cbn [mark_descendants]; [by exists None|].
  rewrite (deref_ok _ _ _ Hf). cbn [mbind result_bind]. pose proof (ho_tree _ Hst) as Hwf.
  destruct (decide (nHeight bf <= nHeight bq)) as [Hle|Hgt].
  - destruct (GetAncestor_in_range _ Hwf q bq (nHeight bf) Hq) as (a & ba & -> & Hw & _ & _);
      [split; [by apply (height_nonneg _ Hwf f)|done]|].
    cbn [mbind result_bind]. destruct (bool_decide _) eqn:Ea; [|exact IH]. apply bool_decide_eq_true in Ea as [= ->].
    rewrite Hs, (deref_ok _ _ _ Hq). cbn [negb mbind result_bind].
    destruct (mark_failed_total _ (hs_index st) q f Hw) as (bm' & E). rewrite E. exists (Some bm'). split; [done|]. eauto.
  - rewrite (GetAncestor_out_of_range _ q bq) by (done || lia). exact IH.
Qed.

Lemma header_ok_le m m' p b b' : tree_le m m' -> core b' = core b -> header_ok m p b -> header_ok m' p b'.
Proof.
  intros Hle Hc. destruct (core_inv _ _ Hc) as (_ & Ep & _ & Eh & _ & Ev & _ & Et & Eb & _). unfold header_ok. rewrite Ep, Eh, Ev, Et, Eb.
  destruct (pprev b) as [q|]; [|done]. intros (bq & hdr & mtp & Hq & [H1 H2] & H3 & H4 & H5 & [H6 H7] & H8).
  destruct (Hle q bq Hq) as (bq' & Hq' & Hcq). exists bq', hdr, mtp.
  destruct (core_inv _ _ Hcq) as (_ & _ & _ & Eqh & _ & _ & _ & _ & -> & _). split_and!; try done.
  - by eapply GetBlockHeader_le.
  - by eapply GetNextWorkRequired_le.
  - by eapply GetMedianTimePast_le.
  - unfold DeploymentActiveAfter in *. by rewrite Eqh.
Qed.

(** Steps that keep the tree keep the invariant. *)
Lemma headers_ok_same st bm' failed' : headers_ok st ->
  tree_le (m_block_index (hs_index st)) (m_block_index bm') -> tree_le (m_block_index bm') (m_block_index (hs_index st)) ->
  best_header bm' = best_header (hs_index st) ->
  Forall (fun p => exists b, m_block_index bm' !! p = Some b /\ has_status (nStatus b) BLOCK_FAILED_VALID = true) failed' ->
  headers_ok (HeaderState bm' failed').
Proof.
  intros [Hwf Hbest [bg Hg] Ht Hh _] H1 H2 Eb Hf. constructor; cbn [hs_index m_failed_blocks]; try done.
  - by eapply wf_tree_le.
  - unfold best_ok in *. rewrite Eb. destruct (best_header (hs_index st)) as [p|].
    + destruct Hbest as (b & Hb & Hmax). destruct (H1 p b Hb) as (b' & Hb' & Hc). exists b'. split; [done|].
      intros q bq Hq. destruct (H2 q bq Hq) as (bq0 & Hq0 & Hcq). specialize (Hmax q bq0 Hq0). cbn in Hmax. unfold work_of in *.
      destruct (core_inv _ _ Hc) as (_ & _ & _ & _ & -> & _). destruct (core_inv _ _ Hcq) as (_ & _ & _ & _ & <- & _). done.
    + apply map_empty. intros q. destruct (m_block_index bm' !! q) as [bq|] eqn:Eq; [|done].
      destruct (H2 q bq Eq) as (? & Hq & _). by rewrite Hbest, lookup_empty in Hq.
  - destruct (H1 _ bg Hg) as (? & -> & _). eauto.
  - intros p b' Hp. destruct (H2 p b' Hp) as (b & Hb & Hc). destruct (core_inv _ _ Hc) as (_ & _ & _ & _ & _ & _ & _ & _ & Eb' & _).
    rewrite <- Eb'. by apply (Ht p).
  - intros p b' Hp. destruct (H2 p b' Hp) as (b & Hb & Hc). eapply header_ok_le; [done|symmetry; exact Hc|by apply Hh].
Qed.

Lemma median_total m q : wf_tree m -> is_Some (m !! q) -> exists t, GetMedianTimePast m q = Ok t.
Proof. intros Hwf Hq. unfold GetMedianTimePast. rewrite past_times_spec by done. cbn [mbind result_bind]. eauto. Qed.

Lemma before_checkpoint_total bm cps h : exists r, before_checkpoint bm cps h = Ok r.
Proof.
  unfold before_checkpoint. destruct cps as [cps|]; [|by eauto]. destruct (GetLastCheckpoint bm cps) as [p|] eqn:E; [|by eauto].
  unfold GetLastCheckpoint in E. apply head_Some_elem_of, list_elem_of_omap in E as (c & _ & E). unfold LookupBlockIndex in E.
  destruct (m_block_index bm !! c.2) as [b|] eqn:Eb; [|done]. injection E as <-. rewrite (deref_ok _ _ _ Eb). by eexists.
Qed.

Lemma contextual_total st block cps now q bq : headers_ok st -> Z.of_nat (size (m_block_index (hs_index st))) < 2 ^ 31 ->
  m_block_index (hs_index st) !! q = Some bq -> exists r, ContextualCheckBlockHeader block (hs_index st) params cps now q = Ok r.
Proof.
  intros Hst Hsize Hq. unfold ContextualCheckBlockHeader. rewrite (deref_ok _ _ _ Hq). cbn [mbind result_bind].
  destruct (GetNextWorkRequired_total (pow params) Hpow _ (ho_tree _ Hst) Hsize q bq block Hq) as (bits & -> & _). cbn [mbind result_bind].
  destruct (negb _); [by eauto|]. destruct (before_checkpoint_total (hs_index st) cps (nHeight bq + 1)) as ([] & ->); [by eexists|].
  cbn [mbind result_bind]. destruct (median_total _ q (ho_tree _ Hst)) as (t & ->); [by rewrite Hq|]. cbn [mbind result_bind].
  repeat case_match; eauto.
Qed.

(** A header that has passed the checks is added. *)
Lemma headers_ok_add st block bq cps now : headers_ok st -> is_uint 32 (nBits block) -> is_uint 32 (nTime block) ->
  Z.of_nat (size (m_block_index (hs_index st))) < 2 ^ 31 ->
  m_block_index (hs_index st) !! CBlockHeader_GetHash block = None -> m_block_index (hs_index st) !! hashPrevBlock block = Some bq ->
  CheckProofOfWorkImpl (CBlockHeader_GetHash block) (nBits block) (pow params) = true ->
  ContextualCheckBlockHeader block (hs_index st) params cps now (hashPrevBlock block) = Ok (Ok ()) ->
  exists bm', AddToBlockIndex (hs_index st) block = Ok (CBlockHeader_GetHash block, bm')
    /\ headers_ok (HeaderState bm' (m_failed_blocks st)) /\ header_added (hs_index st) block bm'.
Proof.
  intros Hst Hbits Htime Hsize Hnew Hq Hwork Hctx. destruct Hst as [Hwf Hbest [bg Hg] Ht Hh Hf].
  destruct (AddToBlockIndex_new (hs_index st) block Hwf Hbest) as (bm' & E & Hwf' & Hbest' & Hadd); [|done|].
  { constructor; try done; [|by left]. intros Eq. rewrite <- Eq in Hq. congruence. }
  exists bm'. split; [done|]. split; [|done]. pose proof Hadd as [Hsub Honly (b & Hb & Ehdr & _ & Ep) _].
  pose proof (subset_tree_le _ _ Hsub) as Hle. rewrite Hq in Ep. cbn in Ep.
  assert (bi_nBits b = nBits block /\ bi_nTime b = nTime block /\ bi_nVersion b = nVersion block) as (E1 & E2 & E3).
  { unfold GetBlockHeader in Ehdr. apply result_bind_inv in Ehdr as (h & _ & Ehdr). destruct block. by simplify_eq. }
  constructor; cbn [hs_index m_failed_blocks]; try done.
  - exists bg. by eapply lookup_weaken.
  - intros p bp Hp. destruct (decide (p = CBlockHeader_GetHash block)) as [->|Hne].
    + simplify_eq. rewrite E1. by eapply accepted_target.
    + rewrite Honly in Hp by done. by apply (Ht p).
  - intros p bp Hp. destruct (decide (p = CBlockHeader_GetHash block)) as [->|Hne].
    + simplify_eq. destruct (contextual_ok _ _ _ _ _ _ _ eq_refl Hq Hctx) as (Hbits' & (mtp & Hm & Hlt) & Hv).
      unfold header_ok. rewrite Ep, E1, E2, E3. exists bq, block, mtp. split_and!; try done.
      * by eapply lookup_weaken.
      * by eapply GetNextWorkRequired_le.
      * pose proof (ew_links _ _ _ (Hwf' _ _ Hb)) as Hl. unfold links_ok in Hl. rewrite Ep in Hl.
        destruct Hl as (bq' & s & Hq' & -> & _). rewrite (lookup_weaken _ _ _ _ Hq Hsub) in Hq'. injection Hq' as <-.
        by apply (next_work_permitted_at (pow params) Hpow _ Hwf Hsize (hashPrevBlock block) bq block); [|apply (Ht (hashPrevBlock block))|].
      * by eapply GetMedianTimePast_le.
    + rewrite Honly in Hp by done. eapply header_ok_le; [done|done|by apply Hh].
  - eapply List.Forall_impl; [|exact Hf]. intros p (bp & Hp & Hs). exists bp. split; [by eapply lookup_weaken|done].
Qed.

Lemma add_header_ok st block bq cps now mpc : headers_ok st -> is_uint 32 (nBits block) -> is_uint 32 (nTime block) ->
  Z.of_nat (size (m_block_index (hs_index st))) < 2 ^ 31 ->
  m_block_index (hs_index st) !! CBlockHeader_GetHash block = None -> m_block_index (hs_index st) !! hashPrevBlock block = Some bq ->
  CheckProofOfWorkImpl (CBlockHeader_GetHash block) (nBits block) (pow params) = true ->
  ContextualCheckBlockHeader block (hs_index st) params cps now (hashPrevBlock block) = Ok (Ok ()) ->
  exists r pp st', add_header st block mpc = Ok (r, pp, st') /\ headers_ok st'
    /\ tree_le (m_block_index (hs_index st)) (m_block_index (hs_index st'))
    /\ match r with
       | Ok _ => pp = Some (CBlockHeader_GetHash block) /\ is_Some (m_block_index (hs_index st') !! CBlockHeader_GetHash block)
       | Err _ => tree_le (m_block_index (hs_index st')) (m_block_index (hs_index st))
       end.
Proof.
  intros Hst Hbits Htime Hsize Hnew Hq Hwork Hctx. unfold add_header.
  destruct mpc; cbn [negb]; [|eexists _, _, _; split; [done|]; split_and!; [done|apply tree_le_refl..]].
  destruct (headers_ok_add st block bq cps now Hst Hbits Htime Hsize Hnew Hq Hwork Hctx) as (bm' & -> & Hok & [Hsub _ (b & Hb & _) _]).
  cbn [mbind result_bind]. eexists _, _, _. split; [done|]. split; [done|]. split; [by apply subset_tree_le|].
  split; [done|]. cbn [hs_index]. eauto.
Qed.

(** [AcceptBlockHeader] returns, keeps the invariant and the tree, and a header it
    accepts is in the index. *)
Lemma AcceptBlockHeader_ok cps now st block mpc : headers_ok st -> is_uint 32 (nBits block) -> is_uint 32 (nTime block) ->
  Z.of_nat (size (m_block_index (hs_index st))) < 2 ^ 31 ->
  exists r pp st', AcceptBlockHeader params cps now st block mpc = Ok (r, pp, st') /\ headers_ok st'
    /\ tree_le (m_block_index (hs_index st)) (m_block_index (hs_index st'))
    /\ match r with
       | Ok _ => pp = Some (CBlockHeader_GetHash block) /\ is_Some (m_block_index (hs_index st') !! CBlockHeader_GetHash block)
       | Err _ => tree_le (m_block_index (hs_index st')) (m_block_index (hs_index st))
       end.
Proof.
  intros Hst Hbits Htime Hsize. unfold AcceptBlockHeader. pose proof (tree_le_refl (m_block_index (hs_index st))) as Hrefl.
  assert (forall e, exists r pp st', Ok (Err e, None, st) = Ok (E := string) (r, pp, st') /\ headers_ok st'
    /\ tree_le (m_block_index (hs_index st)) (m_block_index (hs_index st'))
    /\ match r : block_check with
       | Ok _ => pp = Some (CBlockHeader_GetHash block) /\ is_Some (m_block_index (hs_index st') !! CBlockHeader_GetHash block)
       | Err _ => tree_le (m_block_index (hs_index st')) (m_block_index (hs_index st))
       end) as Hreject by (intros e; eexists (Err e), None, st; done).
  destruct (bool_decide (_ = hashGenesisBlock params)) eqn:Eg.
  { apply bool_decide_eq_true in Eg. unfold add_header. destruct mpc; cbn [negb]; [|apply Hreject].
    destruct (ho_genesis _ Hst) as [bg Hg]. rewrite <- Eg in Hg. rewrite (AddToBlockIndex_known _ _ _ Hg). cbn [mbind result_bind].
    eexists _, _, _. split; [done|]. destruct st as [bm f]. cbn [hs_index m_failed_blocks] in *. by split_and!. }
  destruct (m_block_index (hs_index st) !! CBlockHeader_GetHash block) as [b|] eqn:Eb.
  { destruct (has_status _ _); eexists _, _, st; (split; [done|]); by split_and!. }
  unfold CheckBlockHeader. cbn [andb]. destruct (CheckProofOfWorkImpl _ _ _) eqn:Ew; cbn [negb]; [|apply Hreject].
  destruct (m_block_index (hs_index st) !! hashPrevBlock block) as [bq|] eqn:Eq; [|apply Hreject].
  destruct (has_status _ _); [apply Hreject|].
  destruct (contextual_total st block cps now _ bq Hst Hsize Eq) as ([[]|] & Ectx); rewrite Ectx; cbn [mbind result_bind]; [|apply Hreject].
  assert (exists valid, IsValid bq BLOCK_VALID_SCRIPTS = Ok valid) as (valid & ->).
  { unfold IsValid. change (negb (Z.land BLOCK_VALID_SCRIPTS (not32 BLOCK_VALID_MASK) =? 0)) with false. cbv iota. case_match; eauto. }
  cbn [mbind result_bind].
  assert (exists marked, (if negb valid then mark_descendants (hs_index st) (hashPrevBlock block) (m_failed_blocks st) else Ok None) = Ok marked
    /\ match marked with None => True | Some bm => exists n f, mark_failed n (hs_index st) (Some (hashPrevBlock block)) f = Ok bm end)
    as (marked & -> & Hm).
  { destruct valid; cbn [negb]; [by exists None|]. apply (mark_descendants_total st _ bq); [done|done|apply ho_failed, Hst]. }
  cbn [mbind result_bind]. destruct marked as [bm|]; [|by eapply add_header_ok].
  destruct Hm as (n & f & Hm). apply mark_failed_spec in Hm as (H1 & H2 & H3 & H4).
  eexists _, _, _. split; [done|]. split_and!; [|done|done]. apply (headers_ok_same st); try done.
  eapply List.Forall_impl; [|apply ho_failed, Hst]. intros p (bp & Hp & Hs). by eapply H4.
Qed.

(** The states of the index: it starts with the genesis block, headers arrive from
    peers, and validation changes the status of blocks and the set of failed ones. *)
Inductive headers_reach : header_state -> Prop :=
| reach_genesis genesis p bm :
    addable ∅ genesis -> CBlockHeader_GetHash genesis = hashGenesisBlock params -> valid_target (pow params) (nBits genesis) ->
    AddToBlockIndex empty_index genesis = Ok (p, bm) -> headers_reach (HeaderState bm [])
| reach_accept st block cps now mpc r pp st' :
    headers_reach st -> is_uint 32 (nBits block) -> is_uint 32 (nTime block) ->
    Z.of_nat (size (m_block_index (hs_index st))) < 2 ^ 31 ->
    AcceptBlockHeader params cps now st block mpc = Ok (r, pp, st') -> headers_reach st'
| reach_status st bm failed :
    headers_reach st ->
    tree_le (m_block_index (hs_index st)) (m_block_index bm) -> tree_le (m_block_index bm) (m_block_index (hs_index st)) ->
    best_header bm = best_header (hs_index st) ->
    Forall (fun p => exists b, m_block_index bm !! p = Some b /\ has_status (nStatus b) BLOCK_FAILED_VALID = true) failed ->
    headers_reach (HeaderState bm failed).

Lemma headers_reach_ok st : headers_reach st -> headers_ok st.
Proof.
  induction 1 as [genesis p bm Hadd Hgen Htgt Hop|st block cps now mpc r pp st' _ IH Hb Ht Hsize Hop|st bm failed _ IH H1 H2 H3 H4].
  - destruct (AddToBlockIndex_new empty_index genesis) as (bm' & E & Hwf & Hbest & [_ Honly (b & Hb & Hhdr & _ & Ep) _]);
      [apply map_Forall_empty|done|done|apply lookup_empty|]. rewrite E in Hop. injection Hop as <- <-. cbn in Ep. rewrite lookup_empty in Ep.
    assert (forall q bq, m_block_index bm' !! q = Some bq -> q = hashGenesisBlock params /\ bq = b) as Hone.
    { intros q bq Hq. destruct (decide (q = CBlockHeader_GetHash genesis)) as [->|Hne]; [by simplify_eq|].
      rewrite Honly in Hq by done. cbn in Hq. by rewrite lookup_empty in Hq. }
    constructor; cbn [hs_index m_failed_blocks]; try done.
    + rewrite <- Hgen. eauto.
    + intros q bq Hq. destruct (Hone q bq Hq) as [_ ->]. unfold GetBlockHeader in Hhdr.
      apply result_bind_inv in Hhdr as (h & _ & Hhdr). destruct genesis. by simplify_eq.
    + intros q bq Hq. destruct (Hone q bq Hq) as [-> ->]. unfold header_ok. by rewrite Ep.
  - destruct (AcceptBlockHeader_ok cps now st block mpc IH Hb Ht Hsize) as (? & ? & ? & E & Hok & _). rewrite E in Hop. by simplify_eq.
  - by apply (headers_ok_same st).
Qed.

(** C6: The tree of headers holds only valid headers.  In every state that arriving
    headers and changes of status lead to, the keys are the hashes of the stored
    headers, heights and work add up along the chains and the best header has the most
    work; and every header but the genesis block meets its target, has the target that
    the rules require after its parent (a permitted change), a time above the median of
    its predecessors and a version that is not outdated.  Accepting another header fails
    no assertion, keeps every entry, and an accepted header is in the index. *)
Theorem header_tree_valid st cps now block mpc :
  headers_reach st -> is_uint 32 (nBits block) -> is_uint 32 (nTime block) ->
  Z.of_nat (size (m_block_index (hs_index st))) < 2 ^ 31 ->
  index_ok (hs_index st)
  /\ map_Forall (header_ok (m_block_index (hs_index st))) (m_block_index (hs_index st))
  /\ exists r pp st', AcceptBlockHeader params cps now st block mpc = Ok (r, pp, st')
       /\ tree_le (m_block_index (hs_index st)) (m_block_index (hs_index st'))
       /\ match r with
          | Ok _ => pp = Some (CBlockHeader_GetHash block) /\ is_Some (m_block_index (hs_index st') !! CBlockHeader_GetHash block)
          | Err _ => tree_le (m_block_index (hs_index st')) (m_block_index (hs_index st))
          end.
Proof.
  intros Hr Hb Ht Hsize. pose proof (headers_reach_ok st Hr) as Hst.
  split; [apply wf_index_ok; apply Hst|]. split; [apply Hst|].
  destruct (AcceptBlockHeader_ok cps now st block mpc Hst Hb Ht Hsize) as (r & pp & st' & E & _ & H1 & H2). by exists r, pp, st'.
Qed.

End Valid.

(** The example index, from its first header. *)
Definition sample_chain : Params := MkParams sample_root_hash 210000 ∅ 0 uint256_null 0 0 0 0 sample_params false [].

Lemma sample_genesis : exists bm, headers_reach sample_chain (HeaderState bm [])
  /\ m_block_index bm !! sample_root_hash <> None /\ size (m_block_index bm) = 1%nat.
Proof.
  assert (addable ∅ sample_root) as Hadd.
  { constructor; [by_decide|by_decide| |right; reflexivity|by_decide].
    refine (bool_decide_unpack (CBlockHeader_GetHash sample_root <> hashPrevBlock sample_root) _). vm_compute. exact I. }
  assert (CBlockHeader_GetHash sample_root = sample_root_hash) as Hh by (vm_compute; reflexivity).
  destruct (AddToBlockIndex_new empty_index sample_root) as (bm & E & _ & _ & [Hsub Honly (b & Hb & _) _]);
    [apply map_Forall_empty|done|exact Hadd|apply lookup_empty|].
  exists bm. split; [apply (reach_genesis _ sample_root (CBlockHeader_GetHash sample_root)); [exact Hadd|exact Hh|apply sample_target|exact E]|].
  rewrite Hh in Hb, Honly. split; [by rewrite Hb|].
  assert (m_block_index bm = {[sample_root_hash := b]}) as ->; [|apply map_size_singleton].
  apply map_eq. intros q. destruct (decide (q = sample_root_hash)) as [->|Hne]; [by rewrite lookup_singleton_eq|].
  rewrite lookup_singleton_ne by done. rewrite Honly by done. apply lookup_empty.
Qed.

Lemma header_tree_valid_witness :
  exists bm r pp st', headers_reach sample_chain (HeaderState bm [])
    /\ AcceptBlockHeader sample_chain None 1300000000 (HeaderState bm []) sample_left true = Ok (r, pp, st').
Proof.
  destruct sample_genesis as (bm & Hr & _ & Hsize). exists bm.
  destruct (header_tree_valid sample_chain sample_params_ok (HeaderState bm []) None 1300000000 sample_left true Hr)
    as (_ & _ & r & pp & st' & E & _); [by_decide|by_decide|cbn [hs_index]; rewrite Hsize; reflexivity|].
  exists r, pp, st'. split; [exact Hr|exact E].
Defined.
