(* ===== verification/VersionBits.v ===== *)
(** Deployment of soft forks by version bits (src/bitcoin/src/versionbits.h and
    versionbits.cpp): the state machine of BIP9 with its cache of states per period.
    The cached computation is the state machine run from the first block, and enough
    signalling activates a deployment. *)

From S2P Require Import Prelude Serialize ArithUint256 MerkleDamgard Sha2 Hash Transaction Script BlockIndex BlockIndexSpec Pow BlockChecks Headers.

#[local] Opaque CBlockHeader_GetHash.

(** * The code *)

Inductive ThresholdState := DEFINED | STARTED | LOCKED_IN | ACTIVE | FAILED.

#[export] Instance ThresholdState_eq_dec : EqDecision ThresholdState.
Proof. solve_decision. Defined.

Record BIP9Deployment := Deployment {
  bit : Z;
  nStartTime : Z;
  nTimeout : Z;
  min_activation_height : Z;
}.

Definition ALWAYS_ACTIVE : Z := -1.
Definition NEVER_ACTIVE : Z := -2.

(** [AbstractThresholdConditionChecker]: what a subclass defines. *)
Record condition_checker := Checker {
  Condition : CBlockIndex -> bool;
  BeginTime : Z;
  EndTime : Z;
  MinActivationHeight : Z;
  Period : Z;
  Threshold : Z;
}.

(** The key is the parent of the first block of a period; nullptr is [None]. *)
Abbreviation ThresholdConditionCache := (gmap (option ptr) ThresholdState).

Section Checker.
Context (m : BlockMap) (c : condition_checker).

(** Walks back to a block whose state is known. *)
Fixpoint walk_back (fuel : nat) (cache : ThresholdConditionCache) (pindexPrev : option ptr) (vToCompute : list ptr)
    : result string (option ptr * list ptr * ThresholdConditionCache) :=
  match cache !! pindexPrev with
  | Some _ => Ok (pindexPrev, vToCompute, cache)
  | None =>
      match pindexPrev with
      | None => Ok (None, vToCompute, <[None := DEFINED]> cache)
      | Some p =>
          t ← GetMedianTimePast m p;
          if t <? BeginTime c then Ok (pindexPrev, vToCompute, <[pindexPrev := DEFINED]> cache)
          else
            match fuel with
            | O => Err "out of fuel"
            | S fuel =>
                b ← deref m p;
                a ← GetAncestor m p (nHeight b - Period c);
                walk_back fuel cache a (vToCompute ++ [p])
            end
      end
  end.

(** The blocks that meet the condition among [n] blocks back from [pindexCount]. *)
Fixpoint count_signals (n : nat) (pindexCount : option ptr) (count : Z) : result string Z :=
  match n with
  | O => Ok count
  | S n =>
      match pindexCount with
      | None => Err "null pointer"
      | Some p => b ← deref m p; count_signals n (pprev b) (if Condition c b then count + 1 else count)
      end
  end.

(** One transition, at the last block of a period. *)
Definition next_state (state : ThresholdState) (pindexPrev : ptr) : result string ThresholdState :=
  match state with
  | DEFINED => t ← GetMedianTimePast m pindexPrev; Ok (if BeginTime c <=? t then STARTED else DEFINED)
  | STARTED =>
      count ← count_signals (Z.to_nat (Period c)) (Some pindexPrev) 0;
      if Threshold c <=? count then Ok LOCKED_IN
      else t ← GetMedianTimePast m pindexPrev; Ok (if EndTime c <=? t then FAILED else STARTED)
  | LOCKED_IN => b ← deref m pindexPrev; Ok (if MinActivationHeight c <=? nHeight b + 1 then ACTIVE else LOCKED_IN)
  | FAILED => Ok FAILED
  | ACTIVE => Ok ACTIVE
  end.

(** Walks forward over the blocks that were put aside. *)
Fixpoint walk_forward (cache : ThresholdConditionCache) (state : ThresholdState) (vToCompute : list ptr)
    : result string (ThresholdState * ThresholdConditionCache) :=
  match vToCompute with
  | [] => Ok (state, cache)
  | p :: vToCompute =>
      stateNext ← next_state state p;
      walk_forward (<[Some p := stateNext]> cache) stateNext vToCompute
  end.

(** The last block of the period before the one of the block after [pindexPrev]. *)
Definition period_parent (pindexPrev : ptr) : result string (option ptr) :=
  b ← deref m pindexPrev;
  GetAncestor m pindexPrev (nHeight b - Z.rem (nHeight b + 1) (Period c)).

Definition GetStateFor (pindexPrev : option ptr) (cache : ThresholdConditionCache)
    : result string (ThresholdState * ThresholdConditionCache) :=
  if BeginTime c =? ALWAYS_ACTIVE then Ok (ACTIVE, cache)
  else if BeginTime c =? NEVER_ACTIVE then Ok (FAILED, cache)
  else
    pindexPrev ← match pindexPrev with Some p => period_parent p | None => Ok None end;
    height ← match pindexPrev with Some p => b ← deref m p; Ok (nHeight b) | None => Ok 0 end;
    '(pindexPrev, vToCompute, cache) ← walk_back (S (Z.to_nat height)) cache pindexPrev [];
    state ← match cache !! pindexPrev with Some s => Ok s | None => Err "assert(cache.count(pindexPrev))" end;
    walk_forward cache state (rev vToCompute).

Record BIP9Stats := Stats { period : Z; threshold : Z; elapsed : Z; stat_count : Z; possible : bool }.

(** The loop: from the block back to the beginning of its period.  The list is
    [signalling_blocks] from [blocks_in_period] on. *)
Fixpoint count_period (blocks_in_period : nat) (currentIndex : option ptr) (elapsed count : Z) (signalling_blocks : list bool)
    : result string (Z * Z * list bool) :=
  match currentIndex with
  | None => Err "null pointer"
  | Some p =>
      b ← deref m p;
      let hit := Condition c b in
      let count := if hit then count + 1 else count in
      match blocks_in_period with
      | O => Ok (elapsed + 1, count, hit :: signalling_blocks)
      | S n => count_period n (pprev b) (elapsed + 1) count (hit :: signalling_blocks)
      end
  end.

Definition GetStateStatisticsFor (pindex : option ptr) : result string (BIP9Stats * list bool) :=
  match pindex with
  | None => Ok (Stats (Period c) (Threshold c) 0 0 false, [])
  | Some p =>
      b ← deref m p;
      '(elapsed, count, signalling_blocks) ← count_period (Z.to_nat (Z.rem (nHeight b) (Period c))) pindex 0 0 [];
      Ok (Stats (Period c) (Threshold c) elapsed count (elapsed - count <=? Period c - Threshold c), signalling_blocks)
  end.

(** The loop of [GetStateSinceHeightFor]. *)
Fixpoint since_loop (fuel : nat) (initialState : ThresholdState) (pindexPrev : ptr) (previousPeriodParent : option ptr)
    (cache : ThresholdConditionCache) : result string (Z * ThresholdConditionCache) :=
  let done cache := b ← deref m pindexPrev; Ok (nHeight b + 1, cache) in
  match previousPeriodParent with
  | None => done cache
  | Some q =>
      '(state, cache) ← GetStateFor (Some q) cache;
      if bool_decide (state = initialState) then
        match fuel with
        | O => Err "out of fuel"
        | S fuel =>
            b ← deref m q;
            a ← GetAncestor m q (nHeight b - Period c);
            since_loop fuel initialState q a cache
        end
      else done cache
  end.

Definition GetStateSinceHeightFor (pindexPrev : option ptr) (cache : ThresholdConditionCache) : result string (Z * ThresholdConditionCache) :=
  if (BeginTime c =? ALWAYS_ACTIVE) || (BeginTime c =? NEVER_ACTIVE) then Ok (0, cache)
  else
    '(initialState, cache) ← GetStateFor pindexPrev cache;
    if bool_decide (initialState = DEFINED) then Ok (0, cache)
    else
      p ← match pindexPrev with Some p => Ok p | None => Err "null pointer" end;
      a ← period_parent p;
      p ← match a with Some p => Ok p | None => Err "Assert(pindexPrev->GetAncestor(...))" end;
      b ← deref m p;
      a ← GetAncestor m p (nHeight b - Period c);
      since_loop (S (Z.to_nat (nHeight b))) initialState p a cache.

End Checker.

(** ** The version bits *)

Definition VERSIONBITS_TOP_BITS : Z := 0x20000000.
Definition VERSIONBITS_TOP_MASK : Z := i32 0xE0000000.

(** The parameters that version bits read. *)
Record BIP9Params := MkBIP9Params {
  nRuleChangeActivationThreshold : Z;
  nMinerConfirmationWindow : Z;
  vDeployments : list BIP9Deployment;
}.

Definition deployment_mask (d : BIP9Deployment) : Z := u32 (Z.shiftl 1 (bit d)).

(** [VersionBitsConditionChecker] *)
Definition VersionBitsConditionChecker (params : BIP9Params) (d : BIP9Deployment) : condition_checker := {|
  Condition pindex := (Z.land (bi_nVersion pindex) VERSIONBITS_TOP_MASK =? VERSIONBITS_TOP_BITS)
                      && negb (Z.land (u32 (bi_nVersion pindex)) (deployment_mask d) =? 0);
  BeginTime := nStartTime d;
  EndTime := nTimeout d;
  MinActivationHeight := min_activation_height d;
  Period := nMinerConfirmationWindow params;
  Threshold := nRuleChangeActivationThreshold params |}.

(** [VersionBitsCache]: a cache per deployment. *)
Abbreviation VersionBitsCache := (list ThresholdConditionCache).

Section Cache.
Context (params : BIP9Params) (m : BlockMap).

(** The deployment at [pos] and its cache; both arrays have the same length. *)
Definition at_pos (caches : VersionBitsCache) (pos : nat) : result string (condition_checker * ThresholdConditionCache) :=
  match vDeployments params !! pos, caches !! pos with
  | Some d, Some cache => Ok (VersionBitsConditionChecker params d, cache)
  | _, _ => Err "index out of range"
  end.

Definition VersionBitsCache_State (caches : VersionBitsCache) (pindexPrev : option ptr) (pos : nat)
    : result string (ThresholdState * VersionBitsCache) :=
  '(c, cache) ← at_pos caches pos;
  '(state, cache) ← GetStateFor m c pindexPrev cache;
  Ok (state, <[pos := cache]> caches).

Definition VersionBitsCache_Statistics (pindex : option ptr) (pos : nat) : result string (BIP9Stats * list bool) :=
  match vDeployments params !! pos with
  | Some d => GetStateStatisticsFor m (VersionBitsConditionChecker params d) pindex
  | None => Err "index out of range"
  end.

Definition VersionBitsCache_StateSinceHeight (caches : VersionBitsCache) (pindexPrev : option ptr) (pos : nat)
    : result string (Z * VersionBitsCache) :=
  '(c, cache) ← at_pos caches pos;
  '(height, cache) ← GetStateSinceHeightFor m c pindexPrev cache;
  Ok (height, <[pos := cache]> caches).

(** The loop of [ComputeBlockVersion], from deployment [pos] on. *)
Fixpoint block_version (ds : list BIP9Deployment) (pos : nat) (caches : VersionBitsCache) (pindexPrev : option ptr) (nVersion : Z)
    : result string (Z * VersionBitsCache) :=
  match ds with
  | [] => Ok (nVersion, caches)
  | d :: ds =>
      '(state, caches) ← VersionBitsCache_State caches pindexPrev pos;
      block_version ds (S pos) caches pindexPrev
        (if bool_decide (state = LOCKED_IN) || bool_decide (state = STARTED)
         then i32 (Z.lor (u32 nVersion) (deployment_mask d)) else nVersion)
  end.

Definition ComputeBlockVersion (caches : VersionBitsCache) (pindexPrev : option ptr) : result string (Z * VersionBitsCache) :=
  block_version (vDeployments params) 0 caches pindexPrev VERSIONBITS_TOP_BITS.

Definition VersionBitsCache_Clear (caches : VersionBitsCache) : VersionBitsCache := (fun _ => ∅) <$> caches.

End Cache.

(** * The state machine *)

Section Spec.
Context (m : BlockMap) (c : condition_checker).

Definition mtp (p : ptr) : Z := match GetMedianTimePast m p with Ok t => t | Err _ => 0 end.
Definition height_of (p : ptr) : Z := match m !! p with Some b => nHeight b | None => 0 end.

(** The signalling blocks among the [n] blocks that end with [p]. *)
Fixpoint signals (n : nat) (p : option ptr) : Z :=
  match n, p ≫= (m !!.) with
  | S n, Some b => (if Condition c b then 1 else 0) + signals n (pprev b)
  | _, _ => 0
  end.

(** The transition at the end of a period. *)
Definition step (state : ThresholdState) (p : ptr) : ThresholdState :=
  match state with
  | DEFINED => if BeginTime c <=? mtp p then STARTED else DEFINED
  | STARTED =>
      if Threshold c <=? signals (Z.to_nat (Period c)) (Some p) then LOCKED_IN
      else if EndTime c <=? mtp p then FAILED else STARTED
  | LOCKED_IN => if MinActivationHeight c <=? height_of p + 1 then ACTIVE else LOCKED_IN
  | s => s
  end.

(** The state after [n] periods, the last of which ends with [p]. *)
Fixpoint bip9 (n : nat) (p : ptr) : ThresholdState :=
  match n with
  | O => DEFINED
  | S n => step (match walk m (Z.to_nat (Period c)) p with Some q => bip9 n q | None => DEFINED end) p
  end.

(** [p] ends the [n]-th period. *)
Definition ends_period (n : nat) (p : ptr) : Prop :=
  exists b, m !! p = Some b /\ nHeight b + 1 = Z.of_nat n * Period c.

(** The state for the block after [p]. *)
Definition state_after (o : option ptr) : ThresholdState :=
  match o with
  | None => DEFINED
  | Some p =>
      match walk m (Z.to_nat ((height_of p + 1) mod Period c)) p with
      | Some q => bip9 (Z.to_nat ((height_of p + 1) / Period c)) q
      | None => DEFINED
      end
  end.

(** The cache holds right states only. *)
Definition cache_right (cache : ThresholdConditionCache) : Prop :=
  forall k s, cache !! k = Some s ->
    match k with None => s = DEFINED | Some p => exists n, ends_period n p /\ s = bip9 n p end.

(** Times do not go back. *)
Definition mtp_mono : Prop := forall p b q, m !! p = Some b -> pprev b = Some q -> mtp q <= mtp p.

Context (Hwf : wf_tree m) (Hperiod : 0 < Period c) (Hmono : mtp_mono).

Lemma mtp_ok p : is_Some (m !! p) -> GetMedianTimePast m p = Ok (mtp p).
Proof. intros Hp. unfold mtp. by destruct (median_past m p Hwf Hp) as (t & -> & _). Qed.

Lemma mtp_walk n : forall p q, walk m n p = Some q -> mtp q <= mtp p.
Proof.
  induction n as [|n IH]; intros p q; cbn [walk]; [intros [= ->]; lia|].
  destruct (m !! p) as [b|] eqn:Ep; [|done]. cbn. destruct (pprev b) as [r|] eqn:Er; [|done]. cbn. intros Hw.
  pose proof (Hmono p b r Ep Er). specialize (IH r q Hw). lia.
Qed.

Lemma ends_prev n p : ends_period (S n) p ->
  match walk m (Z.to_nat (Period c)) p with
  | Some q => (0 < n)%nat /\ ends_period n q
  | None => n = O
  end.
Proof.
  intros (b & Hb & Hh). destruct (walk m (Z.to_nat (Period c)) p) as [q|] eqn:Ew.
  - destruct (walk_inv m Hwf _ p b q Hb Ew) as (bq & Hq & Hhq). pose proof (height_nonneg m Hwf q bq Hq).
    split; [nia|]. exists bq. split; [done|nia].
  - destruct n as [|n]; [done|]. destruct (walk_down m Hwf (Z.to_nat (Period c)) p b Hb) as (q & _ & E & _); [nia|congruence].
Qed.

(** Before the start time nothing has happened. *)
Lemma bip9_early n : forall p, mtp p < BeginTime c -> bip9 n p = DEFINED.
Proof.
  induction n as [|n IH]; intros p Hp; [done|]. cbn [bip9].
  assert (match walk m (Z.to_nat (Period c)) p with Some q => bip9 n q | None => DEFINED end = DEFINED) as ->.
  { destruct (walk m _ p) as [q|] eqn:Ew; [|done]. apply IH. pose proof (mtp_walk _ _ _ Ew). lia. }
  cbn [step]. destruct (Z.leb_spec (BeginTime c) (mtp p)); [lia|done].
Qed.

Lemma count_signals_ok n : forall p b acc, m !! p = Some b -> Z.of_nat n <= nHeight b + 1 ->
  count_signals m c n (Some p) acc = Ok (acc + signals n (Some p)).
Proof.
  induction n as [|n IH]; intros p b acc Hb Hn; cbn [count_signals signals]; [by rewrite Z.add_0_r|].
  rewrite (deref_ok _ _ _ Hb). cbn [mbind result_bind option_bind]. rewrite Hb.
  assert (forall acc', count_signals m c n (pprev b) acc' = Ok (acc' + signals n (pprev b))) as E.
  { intros acc'. destruct n as [|n']; [cbn; by rewrite Z.add_0_r|].
    destruct (pprev_cases m Hwf p b Hb) as [[Ep Eh]|(q & bq & Ep & Hq & Eh & _)]; [lia|]. rewrite Ep. apply (IH q bq); [done|lia]. }
  rewrite E. f_equal. destruct (Condition c b); lia.
Qed.

Lemma next_state_ok n p s : ends_period (S n) p -> next_state m c s p = Ok (step s p).
Proof.
  intros (b & Hb & Hh). unfold next_state, step. rewrite mtp_ok by (by rewrite Hb). cbn [mbind result_bind].
  rewrite (deref_ok _ _ _ Hb), (count_signals_ok _ p b) by (done || nia). cbn [mbind result_bind]. unfold height_of. rewrite Hb, Z.add_0_l.
  destruct s; try done. by destruct (_ <=? _).
Qed.

Lemma walk_forward_app l1 : forall l2 cache s,
  walk_forward m c cache s (l1 ++ l2) = '(s, cache) ← walk_forward m c cache s l1; walk_forward m c cache s l2.
Proof.
  induction l1 as [|p l1 IH]; intros l2 cache s; cbn [app walk_forward]; [done|].
  destruct (next_state m c s p); cbn [mbind result_bind]; [apply IH|done].
Qed.

Lemma cache_right_insert cache n p : cache_right cache -> ends_period n p -> cache_right (<[Some p := bip9 n p]> cache).
Proof.
  intros Hc Hn k s. destruct (decide (k = Some p)) as [->|]; [rewrite lookup_insert_eq; intros [= <-]; by exists n|].
  rewrite lookup_insert_ne by done. apply Hc.
Qed.

Lemma cache_right_defined cache : cache_right cache -> cache_right (<[None := DEFINED]> cache).
Proof.
  intros Hc k s. destruct (decide (k = None)) as [->|]; [rewrite lookup_insert_eq; by intros [= <-]|].
  rewrite lookup_insert_ne by done. apply Hc.
Qed.

Lemma ends_period_inj n n' p : ends_period n p -> ends_period n' p -> n = n'.
Proof. intros (b & Hb & H) (b' & Hb' & H'). simplify_eq. nia. Qed.

(** From a known state the blocks put aside lead to the state at [p]. *)
Definition leads_to (known : option ptr) (ps : list ptr) (target : ThresholdState) (cache : ThresholdConditionCache) : Prop :=
  exists s, cache !! known = Some s /\ forall cache', cache_right cache' ->
    exists cache'', walk_forward m c cache' s (rev ps) = Ok (target, cache'') /\ cache_right cache''.

Lemma walk_back_none fuel cache v : cache_right cache ->
  exists cache', walk_back m c fuel cache None v = Ok (None, v, cache') /\ cache_right cache' /\ leads_to None [] DEFINED cache'.
Proof.
  intros Hc. assert (forall cache', cache' !! None = Some DEFINED -> leads_to None [] DEFINED cache') as Hl.
  { intros cache' E. exists DEFINED. split; [done|]. intros x Hx. by exists x. }
  destruct fuel; cbn [walk_back]; destruct (cache !! None) as [s|] eqn:E.
  1, 3: exists cache; split_and!; try done; apply Hl; rewrite E; f_equal; exact (Hc _ _ E).
  all: eexists; split_and!; [done|by apply cache_right_defined|apply Hl, lookup_insert_eq].
Qed.

Lemma walk_back_spec n : forall p cache fuel v, (0 < n)%nat -> ends_period n p -> cache_right cache -> (n <= fuel)%nat ->
  exists known ps cache', walk_back m c fuel cache (Some p) v = Ok (known, v ++ ps, cache')
    /\ cache_right cache' /\ leads_to known ps (bip9 n p) cache'.
Proof.
  induction n as [|n IH]; intros p cache fuel v Hpos Hp Hc Hf; [lia|]. destruct fuel as [|fuel]; [lia|]. cbn [walk_back].
  assert (forall cache', cache' !! Some p = Some (bip9 (S n) p) -> leads_to (Some p) [] (bip9 (S n) p) cache') as Hdone.
  { intros cache' E. eexists. split; [done|]. intros x Hx. by exists x. }
  destruct (cache !! Some p) as [s|] eqn:Es.
  { exists (Some p), [], cache. rewrite app_nil_r. split_and!; try done. apply Hdone. rewrite Es. f_equal.
    destruct (Hc _ _ Es) as (n' & Hn' & ->). by rewrite (ends_period_inj _ _ _ Hn' Hp). }
  pose proof Hp as (b & Hb & Hh). rewrite mtp_ok by (by rewrite Hb). cbn [mbind result_bind].
  destruct (Z.ltb_spec (mtp p) (BeginTime c)) as [Hlt|Hge].
  { exists (Some p), [], (<[Some p := bip9 (S n) p]> cache). rewrite app_nil_r, (bip9_early (S n) p Hlt) at 1.
    split_and!; [done|by apply cache_right_insert|apply Hdone, lookup_insert_eq]. }
  rewrite (deref_ok _ _ _ Hb). cbn [mbind result_bind]. pose proof (ends_prev n p Hp) as Hprev.
  pose proof (next_state_ok n p) as Hnext. cbn [bip9]. destruct (walk m (Z.to_nat (Period c)) p) as [q|] eqn:Ew.
  - destruct Hprev as [Hn Hq]. destruct (GetAncestor_in_range m Hwf p b (nHeight b - Period c) Hb) as (a & ba & -> & Hwa & _); [nia|].
    replace (nHeight b - (nHeight b - Period c)) with (Period c) in Hwa by lia. rewrite Ew in Hwa. injection Hwa as <-. cbn [mbind result_bind].
    destruct (IH q cache fuel (v ++ [p]) Hn Hq Hc) as (known & ps & cache' & E & Hc' & s & Hs & Hlead); [lia|].
    exists known, (p :: ps), cache'. rewrite E, <- app_assoc. split_and!; try done. exists s. split; [done|]. intros x Hx.
    destruct (Hlead x Hx) as (y & Ey & Hy). cbn [rev]. rewrite walk_forward_app, Ey. cbn [mbind result_bind walk_forward].
    rewrite Hnext by done. cbn [mbind result_bind]. eexists. split; [done|].
    pose proof (cache_right_insert y (S n) p Hy Hp) as H. cbn [bip9] in H. by rewrite Ew in H.
  - subst n. rewrite (GetAncestor_out_of_range m p b) by (done || nia). cbn [mbind result_bind].
    destruct (walk_back_none fuel cache (v ++ [p]) Hc) as (cache' & E & Hc' & s & Hs & Hlead).
    exists None, [p], cache'. rewrite E. split_and!; try done. exists s. split; [done|]. intros x Hx.
    destruct (Hlead x Hx) as (y & Ey & Hy). cbn [rev app walk_forward] in *. injection Ey as -> <-. rewrite Hnext by done.
    cbn [mbind result_bind]. eexists. split; [done|].
    pose proof (cache_right_insert x 1 p Hx Hp) as H. cbn [bip9] in H. by rewrite Ew in H.
Qed.

Lemma state_after_end n p : ends_period n p -> state_after (Some p) = bip9 n p.
Proof.
  intros (b & Hb & Hh). unfold state_after, height_of. rewrite Hb, Hh, Z.mod_mul, Z.div_mul by lia.
  change (Z.to_nat 0) with O. cbn [walk]. by rewrite Nat2Z.id.
Qed.

(** The parent of the period of the next block. *)
Lemma period_parent_ok p b : m !! p = Some b ->
  let r := (nHeight b + 1) mod Period c in
  let n := Z.to_nat ((nHeight b + 1) / Period c) in
  exists o, period_parent m c p = Ok o /\ walk m (Z.to_nat r) p = o
    /\ match o with Some q => (0 < n)%nat /\ ends_period n q | None => n = O end.
Proof.
  intros Hb r n. unfold period_parent. rewrite (deref_ok _ _ _ Hb). cbn [mbind result_bind]. pose proof (height_nonneg m Hwf p b Hb).
  rewrite Z.rem_mod_nonneg by lia. fold r. pose proof (Z.mod_pos_bound (nHeight b + 1) (Period c) Hperiod).
  pose proof (Z.div_mod (nHeight b + 1) (Period c) ltac:(lia)) as Hdm. fold r in Hdm.
  pose proof (Z.div_pos (nHeight b + 1) (Period c) ltac:(lia) Hperiod). destruct (decide (r = nHeight b + 1)) as [Er|Er].
  - rewrite (GetAncestor_out_of_range m p b) by (done || lia). exists None. split; [done|]. split; [apply (walk_past m Hwf _ p b); [done|lia]|].
    unfold n. assert ((nHeight b + 1) / Period c = 0) as -> by nia. done.
  - assert (r <= nHeight b + 1) by (apply Z.mod_le; lia).
    destruct (GetAncestor_in_range m Hwf p b (nHeight b - r) Hb) as (a & ba & -> & Hw & Ha & Hha); [lia|].
    replace (nHeight b - (nHeight b - r)) with r in Hw by lia. exists (Some a). split_and!; try done; unfold n; [nia|].
    exists ba. split; [done|]. nia.
Qed.

Lemma GetStateFor_ok o cache : match o with Some p => is_Some (m !! p) | None => True end ->
  BeginTime c <> ALWAYS_ACTIVE -> BeginTime c <> NEVER_ACTIVE -> cache_right cache ->
  exists cache', GetStateFor m c o cache = Ok (state_after o, cache') /\ cache_right cache'.
Proof.
  intros Ho Ha Hn Hc. unfold GetStateFor. rewrite (proj2 (Z.eqb_neq _ _) Ha), (proj2 (Z.eqb_neq _ _) Hn).
  assert (exists q, match o with Some p => period_parent m c p | None => Ok None end = Ok q
    /\ match q with
       | None => state_after o = DEFINED
       | Some q => exists n, (0 < n)%nat /\ ends_period n q /\ state_after o = bip9 n q
       end) as (q & -> & Hq).
  { destruct o as [p|]; [|by exists None]. destruct Ho as [b Hb]. destruct (period_parent_ok p b Hb) as (q & E & Ew & H).
    exists q. split; [done|]. unfold state_after, height_of. rewrite Hb, Ew. destruct q as [q|]; [|done]. destruct H. eauto. }
  cbn [mbind result_bind]. destruct q as [q|]; cbn [mbind result_bind].
  - destruct Hq as (n & Hpos & Hends & ->). pose proof Hends as (b & Hb & Hh). rewrite (deref_ok _ _ _ Hb). cbn [mbind result_bind].
    destruct (walk_back_spec n q cache (S (Z.to_nat (nHeight b))) [] Hpos Hends Hc) as (known & ps & cache' & -> & Hc' & s & Hs & Hl); [nia|].
    cbn [mbind result_bind app]. rewrite Hs. cbn [mbind result_bind]. by apply Hl.
  - rewrite Hq. destruct (walk_back_none (S (Z.to_nat 0)) cache [] Hc) as (cache' & -> & Hc' & s & Hs & Hl).
    cbn [mbind result_bind]. rewrite Hs. cbn [mbind result_bind]. by apply Hl.
Qed.

End Spec.

(** * Valid headers *)

(** A later block replaces the oldest time by one above the median: the median does not
    go down. *)
Lemma median_grows l t x M M' : (length t <= 1)%nat -> is_median M (l ++ t) -> M < x -> is_median M' (x :: l) -> M <= M'.
Proof.
  intros Ht (_ & _ & HM) Hx (_ & HM' & _). destruct (Z.le_gt_cases M M') as [|Hlt]; [done|exfalso].
  rewrite list.filter_app, !length_app in HM. rewrite filter_cons_False in HM' by lia. cbn [length] in HM'.
  assert (length (filter (fun y => (M <= y)%Z) l) + length (filter (fun y => (y <= M')%Z) l) <= length l)%nat as Hdisj.
  { clear -Hlt. induction l as [|y l IH]; [done|]. rewrite !filter_cons. cbn [length].
    destruct (decide (M <= y)), (decide (y <= M')); cbn [length]; lia. }
  pose proof (length_filter (fun y => M <= y) t). lia.
Qed.

Lemma recent_times_child m p b q : m !! p = Some b -> pprev b = Some q ->
  exists l t, recent_times m p = bi_nTime b :: l /\ recent_times m q = l ++ t /\ (length t <= 1)%nat.
Proof.
  intros Hp Hq. exists (omap (time_at m q) (seq 0 10)), (omap (time_at m q) [10%nat]). unfold recent_times. split_and!.
  - change (seq 0 nMedianTimeSpan) with (0%nat :: seq 1 10). rewrite <- fmap_S_seq. cbn [omap list_omap]. unfold time_at at 1. cbn [walk mbind option_bind].
    rewrite Hp. cbn [fmap option_fmap option_map]. f_equal. apply list_omap_ext, Forall2_fmap_l, Forall_Forall2_diag, Forall_true.
    intros k. unfold time_at. cbn [compose walk]. rewrite Hp. cbn [mbind option_bind]. by rewrite Hq.
  - change nMedianTimeSpan with (10 + 1)%nat. rewrite seq_app, omap_app. done.
  - cbn [omap list_omap]. destruct (time_at m q 10); cbn [length]; lia.
Qed.

Lemma headers_mtp_mono params st : headers_ok params st -> mtp_mono (m_block_index (hs_index st)).
Proof.
  intros Hst p b q Hp Hq. pose proof (ho_headers _ _ Hst p b Hp) as H. unfold header_ok in H. rewrite Hq in H.
  destruct H as (bq & hdr & t & Hbq & _ & _ & _ & _ & [Ht Hlt] & _). pose proof (ho_tree _ _ Hst) as Hwf. unfold mtp. rewrite Ht.
  destruct (median_past _ q Hwf ltac:(by rewrite Hbq)) as (t1 & E1 & Hm1). rewrite Ht in E1. injection E1 as <-.
  destruct (median_past _ p Hwf ltac:(by rewrite Hp)) as (t2 & -> & Hm2).
  destruct (recent_times_child _ p b q Hp Hq) as (l & tl & E1 & E2 & Hl). rewrite E1 in Hm2. rewrite E2 in Hm1. by eapply median_grows.
Qed.

(** * A growing index *)

Section Grow.
Context (m m' : BlockMap) (Hle : tree_le m m') (Hwf : wf_tree m) (c : condition_checker).
(** The condition reads the header only. *)
Context (Hcond : forall b b', core b' = core b -> Condition c b' = Condition c b).

Lemma walk_same n : forall p, is_Some (m !! p) -> walk m' n p = walk m n p.
Proof.
  induction n as [|n IH]; intros p [b Hb]; [done|]. cbn [walk]. destruct (Hle p b Hb) as (b' & Hb' & Hc). rewrite Hb, Hb'. cbn.
  destruct (core_inv _ _ Hc) as (_ & -> & _). destruct (pprev_cases m Hwf p b Hb) as [[_ ->]|(q & bq & -> & Hq & _)]; [done|].
  cbn. apply IH. by rewrite Hq.
Qed.

Lemma mtp_same p : is_Some (m !! p) -> mtp m' p = mtp m p.
Proof. intros Hp. unfold mtp at 1. by rewrite (GetMedianTimePast_le m m' Hle p (mtp m p)) by by apply mtp_ok. Qed.

Lemma signals_same n : forall o, match o with Some p => is_Some (m !! p) | None => True end -> signals m' c n o = signals m c n o.
Proof.
  induction n as [|n IH]; intros [p|] Ho; try done. destruct Ho as [b Hb]. cbn [signals mbind option_bind].
  destruct (Hle p b Hb) as (b' & Hb' & Hc). rewrite Hb, Hb', (Hcond b b' Hc). destruct (core_inv _ _ Hc) as (_ & -> & _).
  rewrite IH; [done|]. destruct (pprev_cases m Hwf p b Hb) as [[_ ->]|(q & bq & -> & Hq & _)]; [done|]. by rewrite Hq.
Qed.

Lemma bip9_same n : forall p, is_Some (m !! p) -> bip9 m' c n p = bip9 m c n p.
Proof.
  induction n as [|n IH]; intros p Hp; [done|]. cbn [bip9]. rewrite walk_same by done.
  assert (match walk m (Z.to_nat (Period c)) p with Some q => bip9 m' c n q | None => DEFINED end
    = match walk m (Z.to_nat (Period c)) p with Some q => bip9 m c n q | None => DEFINED end) as ->.
  { destruct (walk m _ p) as [q|] eqn:Ew; [|done]. destruct Hp as [b Hb].
    destruct (walk_inv m Hwf _ p b q Hb Ew) as (bq & Hq & _). apply IH. by rewrite Hq. }
  unfold step. rewrite mtp_same, signals_same by done. destruct Hp as [b Hb]. destruct (Hle p b Hb) as (b' & Hb' & Hc).
  unfold height_of. rewrite Hb, Hb'. by destruct (core_inv _ _ Hc) as (_ & _ & _ & -> & _).
Qed.

Lemma cache_right_grows cache : cache_right m c cache -> cache_right m' c cache.
Proof.
  intros Hc [p|] s Hs; [|exact (Hc _ _ Hs)]. destruct (Hc _ _ Hs) as (n & (b & Hb & Hh) & ->).
  exists n. rewrite bip9_same by by rewrite Hb. split; [|done]. destruct (Hle p b Hb) as (b' & Hb' & Hcb).
  exists b'. split; [done|]. by destruct (core_inv _ _ Hcb) as (_ & _ & _ & -> & _).
Qed.

End Grow.

Lemma versionbits_condition params d b b' : core b' = core b ->
  Condition (VersionBitsConditionChecker params d) b' = Condition (VersionBitsConditionChecker params d) b.
Proof. intros Hc. cbn. by destruct (core_inv _ _ Hc) as (_ & _ & _ & _ & _ & -> & _). Qed.

(** * Properties *)

Section Properties.
Context (params : Params) (Hpow : params_ok (pow params)).
Context (bip9_params : BIP9Params) (d : BIP9Deployment).
Context (Hwindow : 0 < nMinerConfirmationWindow bip9_params) (Halways : nStartTime d <> ALWAYS_ACTIVE) (Hnever : nStartTime d <> NEVER_ACTIVE).

Local Abbreviation checker := (VersionBitsConditionChecker bip9_params d).
Local Abbreviation index st := (m_block_index (hs_index st)).

(** C13: [GetStateFor] with its cache computes the state machine of BIP9, run from the
    first block on: for every block of a tree of accepted headers, and whatever right
    states the cache holds from this tree or from an earlier, smaller one.  No assertion
    fails, the walk back ends, and the cache stays right. *)
Theorem GetStateFor_runs_bip9 st0 st o cache :
  headers_reach params st0 -> headers_reach params st -> tree_le (index st0) (index st) ->
  cache_right (index st0) checker cache -> match o with Some p => is_Some (index st !! p) | None => True end ->
  exists cache', GetStateFor (index st) checker o cache = Ok (state_after (index st) checker o, cache')
    /\ cache_right (index st) checker cache'.
Proof.
  intros Hr0 Hr Hle Hc Ho. pose proof (headers_reach_ok params Hpow st0 Hr0) as Hst0. pose proof (headers_reach_ok params Hpow st Hr) as Hst.
  apply GetStateFor_ok; try done; [apply Hst|by eapply headers_mtp_mono|].
  eapply cache_right_grows; [exact Hle|apply Hst0|apply versionbits_condition|done].
Qed.

(** Once locked in, the state is locked in or active, and active from the height on. *)
Lemma locked_in_stays m c (Hwf : wf_tree m) (Hp : 0 < Period c) k e n p : ends_period m c k e -> (0 < k)%nat -> (bip9 m c k e = LOCKED_IN \/ bip9 m c k e = ACTIVE) ->
  ends_period m c n p -> ancestor m p e ->
  (bip9 m c n p = LOCKED_IN \/ bip9 m c n p = ACTIVE)
  /\ ((k < n)%nat -> MinActivationHeight c <= Z.of_nat n * Period c -> bip9 m c n p = ACTIVE).
Proof.
  intros He Hk Hs. revert p. induction n as [|n IH]; intros p Hn (j & Hw); pose proof Hn as (b & Hb & Hh); pose proof He as (be & Hbe & Hhe).
  - pose proof (height_nonneg m Hwf p b Hb). lia.
  - destruct (walk_inv m Hwf j p b e Hb Hw) as (be' & Hbe' & Hj). simplify_eq.
    destruct (decide (j = O)) as [->|Hj0].
    { injection Hw as ->. assert (S n = k) as -> by (eapply ends_period_inj; eauto). split; [done|lia]. }
    assert (Z.of_nat j = (Z.of_nat (S n) - Z.of_nat k) * Period c) as Ej by lia. assert (k <= n)%nat by nia.
    replace j with (Z.to_nat (Period c) + (j - Z.to_nat (Period c)))%nat in Hw by nia. rewrite walk_add in Hw.
    pose proof (ends_prev m c Hwf Hp n p Hn) as Hprev. cbn [bip9]. destruct (walk m (Z.to_nat (Period c)) p) as [q|]; [|done].
    cbn in Hw. destruct Hprev as [_ Hq]. destruct (IH q Hq ltac:(by eexists)) as [Hor Hact]. unfold step, height_of. rewrite Hb, Hh.
    destruct Hor as [->| ->]; [|by auto]. destruct (Z.leb_spec (MinActivationHeight c) (Z.of_nat (S n) * Period c)); [by auto|].
    split; [by left|lia].
Qed.

Lemma count_period_ok m c (Hwf : wf_tree m) n : forall p b el cnt l, m !! p = Some b -> Z.of_nat n <= nHeight b ->
  exists l', count_period m c n (Some p) el cnt l = Ok (el + Z.of_nat n + 1, cnt + signals m c (S n) (Some p), l').
Proof.
  induction n as [|n IH]; intros p b el cnt l Hb Hn; cbn [count_period signals mbind option_bind]; rewrite (deref_ok _ _ _ Hb), Hb;
    cbn [mbind result_bind].
  - eexists. do 3 f_equal; [lia|]. destruct (Condition c b); lia.
  - destruct (pprev_cases m Hwf p b Hb) as [[? _]|(q & bq & -> & Hq & Hh & _)]; [lia|].
    destruct (IH q bq (el + 1) (if Condition c b then cnt + 1 else cnt) (Condition c b :: l) Hq) as (l' & ->); [lia|].
    eexists. do 3 f_equal; [lia|]. cbn [signals mbind option_bind]. destruct (Condition c b); lia.
Qed.

(** The statistics at the end of a period count its signalling blocks. *)
Lemma statistics_at_end m c (Hwf : wf_tree m) (Hp : 0 < Period c) n e stats l : ends_period m c (S n) e ->
  GetStateStatisticsFor m c (Some e) = Ok (stats, l) ->
  threshold stats = Threshold c /\ stat_count stats = signals m c (Z.to_nat (Period c)) (Some e).
Proof.
  intros (be & He & Hh) H. unfold GetStateStatisticsFor in H. rewrite (deref_ok _ _ _ He) in H. cbn [mbind result_bind] in H.
  pose proof (height_nonneg m Hwf e be He). rewrite Z.rem_mod_nonneg in H by lia.
  assert (nHeight be mod Period c = Period c - 1) as E by (symmetry; apply (Z.mod_unique _ _ (Z.of_nat n)); lia). rewrite E in H.
  destruct (count_period_ok m c Hwf (Z.to_nat (Period c - 1)) e be 0 0 [] He) as (l' & Ec); [nia|]. rewrite Ec in H.
  cbn [mbind result_bind] in H. replace (S (Z.to_nat (Period c - 1))) with (Z.to_nat (Period c)) in H by lia. by simplify_eq.
Qed.


End Properties.

(** * An example: three blocks, periods of one block *)

Definition ex_pow : PowParams := MkPowParams (replicate 31 255 ++ [3]) false false true 1 1.
Definition ex_header (prev : bytes) (time nonce : Z) : CBlockHeader := BlockHeader 0x20000002 prev uint256_null time 0x2003ffff nonce.
Definition ex_h0 : CBlockHeader := ex_header uint256_null 100 0.
Definition ex_x0 : bytes := Eval vm_compute in CBlockHeader_GetHash ex_h0.
Definition ex_h1 : CBlockHeader := ex_header ex_x0 101 156.
Definition ex_x1 : bytes := Eval vm_compute in CBlockHeader_GetHash ex_h1.
Definition ex_h2 : CBlockHeader := ex_header ex_x1 102 64.
Definition ex_x2 : bytes := Eval vm_compute in CBlockHeader_GetHash ex_h2.
Definition ex_easy : Params := MkParams ex_x0 210000 ∅ 0 uint256_null 0 0 0 0 ex_pow false [].
Definition ex_bip9 : BIP9Params := MkBIP9Params 1 1 [].
Definition ex_deployment : BIP9Deployment := Deployment 1 50 1000 0.
Local Abbreviation ex_checker := (VersionBitsConditionChecker ex_bip9 ex_deployment).

(** The headers accepted one after the other, with the premises of a step. *)
Fixpoint accept_all (params : Params) (st : header_state) (hs : list CBlockHeader) : option header_state :=
  match hs with
  | [] => Some st
  | h :: hs =>
      if bool_decide (is_uint 32 (nBits h)) && bool_decide (is_uint 32 (nTime h)) && (Z.of_nat (size (m_block_index (hs_index st))) <? 2 ^ 31) then
        match AcceptBlockHeader params None 1000 st h true with Ok (Ok _, _, st) => accept_all params st hs | _ => None end
      else None
  end.

Lemma accept_all_reach params hs : forall st st', headers_reach params st -> accept_all params st hs = Some st' -> headers_reach params st'.
Proof.
  induction hs as [|h hs IH]; intros st st' Hr H; cbn [accept_all] in H; [by simplify_eq|].
  destruct (bool_decide _) eqn:E1; [|done]. destruct (bool_decide (is_uint 32 (nTime h))) eqn:E2; [|done]. cbn [andb] in H.
  destruct (Z.ltb_spec (Z.of_nat (size (m_block_index (hs_index st)))) (2 ^ 31)); [|done].
  destruct (AcceptBlockHeader _ _ _ st h true) as [[[[] pp] st1]|] eqn:E; [|done..]. eapply IH; [|done].
  eapply reach_accept; [exact Hr| | |done|exact E]; by eapply bool_decide_eq_true_1.
Qed.

Definition ex_state : option header_state :=
  match AddToBlockIndex empty_index ex_h0 with
  | Ok (_, bm) => accept_all ex_easy (HeaderState bm []) [ex_h1; ex_h2]
  | Err _ => None
  end.

(** The premises of the properties, evaluated. *)
Definition ex_premises (st : header_state) : bool :=
  let m := m_block_index (hs_index st) in
  match m !! ex_x1, m !! ex_x2 with
  | Some be, Some b =>
      (nHeight be =? 1) && (nHeight b =? 2) && bool_decide (walk m 1 ex_x1 = Some ex_x0) && bool_decide (walk m 1 ex_x2 = Some ex_x1)
      && match GetStateFor m ex_checker (Some ex_x0) ∅ with Ok (STARTED, _) => true | _ => false end
      && match GetStateStatisticsFor m ex_checker (Some ex_x1) with Ok (s, _) => threshold s <=? stat_count s | Err _ => false end
  | _, _ => false
  end.

Lemma ex_state_ok : match ex_state with Some st => ex_premises st | None => false end = true
  /\ bool_decide (CBlockHeader_GetHash ex_h0 <> hashPrevBlock ex_h0 /\ CBlockHeader_GetHash ex_h0 = ex_x0) = true.
Proof. split; vm_compute; reflexivity. Qed.

Lemma ex_pow_ok : params_ok ex_pow.
Proof. constructor; by_decide. Qed.

Lemma ex_reach : exists st, headers_reach ex_easy st /\ ex_premises st = true.
Proof.
  destruct ex_state_ok as [H Hh]. apply bool_decide_eq_true_1 in Hh as [Hself Hh]. unfold ex_state in H.
  destruct (AddToBlockIndex empty_index ex_h0) as [[p bm]|] eqn:E; [|discriminate H].
  destruct (accept_all _ _ _) as [st|] eqn:Ea; [|discriminate H]. exists st. split; [|exact H].
  eapply accept_all_reach; [|exact Ea]. apply (reach_genesis ex_easy ex_h0 p bm); [|exact Hh| |exact E].
  - constructor; [by_decide|by_decide|exact Hself|right; reflexivity|by_decide].
  - split_and!; by_decide.
Qed.

Lemma cache_right_empty m c : cache_right m c ∅.
Proof. intros k s. by rewrite lookup_empty. Qed.

Lemma GetStateFor_runs_bip9_witness :
  exists st cache', headers_reach ex_easy st
    /\ GetStateFor (m_block_index (hs_index st)) ex_checker (Some ex_x2) ∅
       = Ok (state_after (m_block_index (hs_index st)) ex_checker (Some ex_x2), cache').
Proof.
  destruct ex_reach as (st & Hr & H). exists st.
  destruct (GetStateFor_runs_bip9 ex_easy ex_pow_ok ex_bip9 ex_deployment) with (st0 := st) (st := st) (o := Some ex_x2)
    (cache := (∅ : ThresholdConditionCache)) as (cache' & E & _); [reflexivity|discriminate|discriminate|exact Hr|exact Hr|apply tree_le_refl|apply cache_right_empty| |].
  - unfold ex_premises in H. destruct (_ !! ex_x1); [|discriminate H]. destruct (_ !! ex_x2); [by eexists|discriminate H].
  - exists cache'. split; [exact Hr|exact E].
Defined.

