(* ===== verification/Connect.v ===== *)
(** Connecting a block to the unspent coins and taking it off again
    (src/bitcoin/src/validation.cpp, undo.h, script/script_error.cpp): [UpdateCoins],
    the script checks with their cache, [ConnectBlock] and [DisconnectBlock]. *)

From S2P Require Import Prelude Serialize ArithUint256 MerkleDamgard Sha2 Hash Transaction Merkle Script Coins CoinsProofs CoinsDB CoinsSpec.
From S2P Require Import BlockIndex BlockIndexSpec Pow PubKey Interpreter SigHash TxVerify BlockChecks.

(** * Constants *)

(** [uint256{"..."}]: the hexadecimal digits, most significant byte first. *)
Definition hex_digit (c : Ascii.ascii) : Z :=
  let n := Z.of_N (Ascii.N_of_ascii c) in
  if n <? 58 then n - 48 else n - 87.

Fixpoint hex_bytes (s : string) : bytes :=
  match s with
  | String a (String b s) => (16 * hex_digit a + hex_digit b) :: hex_bytes s
  | _ => []
  end.

Definition uint256_hex (s : string) : bytes := rev (hex_bytes s).

Definition is_block (b : CBlockIndex) (height : Z) (hash : bytes) : result string bool :=
  if nHeight b =? height then h ← GetBlockHash b; Ok (bool_decide (h = hash)) else Ok false.

Definition either_block (b : CBlockIndex) (h1 : Z) (hash1 : bytes) (h2 : Z) (hash2 : bytes) : result string bool :=
  first ← is_block b h1 hash1;
  if (first : bool) then Ok true else is_block b h2 hash2.

Definition IsBIP30Repeat (block_index : CBlockIndex) : result string bool :=
  either_block block_index
    91842 (uint256_hex "00000000000a4d0a398161ffc163c503763b1f4360639393e0e4c8e300e0caec")
    91880 (uint256_hex "00000000000743f190a18c5577a3c2d2a1f610ae9601ac046a38084ccb7cd721").

Definition IsBIP30Unspendable (block_index : CBlockIndex) : result string bool :=
  either_block block_index
    91722 (uint256_hex "00000000000271a2dc26e7667f8419f2e15416dc6955e5a6c6cdf3f2574dd08e")
    91812 (uint256_hex "00000000000af0aed4792b1acee3d966af36cf5def14935db8de83d6f9306f2f").

Definition BIP34_IMPLIES_BIP30_LIMIT : Z := 1983702.

Definition GetBlockSubsidy (height : Z) (params : Params) : Z :=
  let halvings := Z.quot height (nSubsidyHalvingInterval params) in
  if 64 <=? halvings then 0 else Z.shiftr (50 * COIN) halvings.

(** * Validation states *)

Inductive ModeState := M_VALID | M_INVALID | M_ERROR.

Record BlockValidationState := BlockState {
  m_mode : ModeState;
  m_result : BlockValidationResult;
  m_reject_reason : string;
}.

Definition BlockState_new : BlockValidationState := BlockState M_VALID BLOCK_RESULT_UNSET EmptyString.

Definition state_Invalid (state : BlockValidationState) (r : BlockValidationResult) (reason : string) : BlockValidationState :=
  BlockState (match m_mode state with M_ERROR => M_ERROR | _ => M_INVALID end) r reason.

Definition state_Error (state : BlockValidationState) (reason : string) : BlockValidationState :=
  BlockState M_ERROR (m_result state) (match m_mode state with M_VALID => reason | _ => m_reject_reason state end).

Definition state_IsValid (state : BlockValidationState) : bool :=
  match m_mode state with M_VALID => true | _ => false end.

(** * Script errors *)

Definition ScriptErrorString (serror : ScriptError) : string :=
  match serror with
  | SCRIPT_ERR_OK => "No error"
  | SCRIPT_ERR_EVAL_FALSE => "Script evaluated without error but finished with a false/empty top stack element"
  | SCRIPT_ERR_VERIFY => "Script failed an OP_VERIFY operation"
  | SCRIPT_ERR_EQUALVERIFY => "Script failed an OP_EQUALVERIFY operation"
  | SCRIPT_ERR_CHECKMULTISIGVERIFY => "Script failed an OP_CHECKMULTISIGVERIFY operation"
  | SCRIPT_ERR_CHECKSIGVERIFY => "Script failed an OP_CHECKSIGVERIFY operation"
  | SCRIPT_ERR_NUMEQUALVERIFY => "Script failed an OP_NUMEQUALVERIFY operation"
  | SCRIPT_ERR_SCRIPT_SIZE => "Script is too big"
  | SCRIPT_ERR_PUSH_SIZE => "Push value size limit exceeded"
  | SCRIPT_ERR_OP_COUNT => "Operation limit exceeded"
  | SCRIPT_ERR_STACK_SIZE => "Stack size limit exceeded"
  | SCRIPT_ERR_SIG_COUNT => "Signature count negative or greater than pubkey count"
  | SCRIPT_ERR_PUBKEY_COUNT => "Pubkey count negative or limit exceeded"
  | SCRIPT_ERR_BAD_OPCODE => "Opcode missing or not understood"
  | SCRIPT_ERR_DISABLED_OPCODE => "Attempted to use a disabled opcode"
  | SCRIPT_ERR_INVALID_STACK_OPERATION => "Operation not valid with the current stack size"
  | SCRIPT_ERR_INVALID_ALTSTACK_OPERATION => "Operation not valid with the current altstack size"
  | SCRIPT_ERR_OP_RETURN => "OP_RETURN was encountered"
  | SCRIPT_ERR_UNBALANCED_CONDITIONAL => "Invalid OP_IF construction"
  | SCRIPT_ERR_NEGATIVE_LOCKTIME => "Negative locktime"
  | SCRIPT_ERR_UNSATISFIED_LOCKTIME => "Locktime requirement not satisfied"
  | SCRIPT_ERR_SIG_HASHTYPE => "Signature hash type missing or not understood"
  | SCRIPT_ERR_SIG_DER => "Non-canonical DER signature"
  | SCRIPT_ERR_MINIMALDATA => "Data push larger than necessary"
  | SCRIPT_ERR_SIG_PUSHONLY => "Only push operators allowed in signatures"
  | SCRIPT_ERR_SIG_HIGH_S => "Non-canonical signature: S value is unnecessarily high"
  | SCRIPT_ERR_SIG_NULLDUMMY => "Dummy CHECKMULTISIG argument must be zero"
  | SCRIPT_ERR_MINIMALIF => "OP_IF/NOTIF argument must be minimal"
  | SCRIPT_ERR_SIG_NULLFAIL => "Signature must be zero for failed CHECK(MULTI)SIG operation"
  | SCRIPT_ERR_DISCOURAGE_UPGRADABLE_NOPS => "NOPx reserved for soft-fork upgrades"
  | SCRIPT_ERR_DISCOURAGE_UPGRADABLE_WITNESS_PROGRAM => "Witness version reserved for soft-fork upgrades"
  | SCRIPT_ERR_DISCOURAGE_UPGRADABLE_TAPROOT_VERSION => "Taproot version reserved for soft-fork upgrades"
  | SCRIPT_ERR_DISCOURAGE_OP_SUCCESS => "OP_SUCCESSx reserved for soft-fork upgrades"
  | SCRIPT_ERR_DISCOURAGE_UPGRADABLE_PUBKEYTYPE => "Public key version reserved for soft-fork upgrades"
  | SCRIPT_ERR_PUBKEYTYPE => "Public key is neither compressed or uncompressed"
  | SCRIPT_ERR_CLEANSTACK => "Stack size must be exactly one after execution"
  | SCRIPT_ERR_WITNESS_PROGRAM_WRONG_LENGTH => "Witness program has incorrect length"
  | SCRIPT_ERR_WITNESS_PROGRAM_WITNESS_EMPTY => "Witness program was passed an empty witness"
  | SCRIPT_ERR_WITNESS_PROGRAM_MISMATCH => "Witness program hash mismatch"
  | SCRIPT_ERR_WITNESS_MALLEATED => "Witness requires empty scriptSig"
  | SCRIPT_ERR_WITNESS_MALLEATED_P2SH => "Witness requires only-redeemscript scriptSig"
  | SCRIPT_ERR_WITNESS_UNEXPECTED => "Witness provided for non-witness script"
  | SCRIPT_ERR_WITNESS_PUBKEYTYPE => "Using non-compressed keys in segwit"
  | SCRIPT_ERR_SCHNORR_SIG_SIZE => "Invalid Schnorr signature size"
  | SCRIPT_ERR_SCHNORR_SIG_HASHTYPE => "Invalid Schnorr signature hash type"
  | SCRIPT_ERR_SCHNORR_SIG => "Invalid Schnorr signature"
  | SCRIPT_ERR_TAPROOT_WRONG_CONTROL_SIZE => "Invalid Taproot control block size"
  | SCRIPT_ERR_TAPSCRIPT_VALIDATION_WEIGHT => "Too much signature validation relative to witness weight"
  | SCRIPT_ERR_TAPSCRIPT_CHECKMULTISIG => "OP_CHECKMULTISIG(VERIFY) is not available in tapscript"
  | SCRIPT_ERR_TAPSCRIPT_MINIMALIF => "OP_IF/NOTIF argument must be minimal in tapscript"
  | SCRIPT_ERR_OP_CODESEPARATOR => "Using OP_CODESEPARATOR in non-witness script"
  | SCRIPT_ERR_SIG_FINDANDDELETE => "Signature is found in scriptCode"
  | SCRIPT_ERR_UNKNOWN_ERROR => "unknown error"
  end.

Definition with_script_error (reason : string) (e : ScriptError) : string :=
  String.append reason (String.append " (" (String.append (ScriptErrorString e) ")")).

Definition MANDATORY_SCRIPT_VERIFY_FLAGS : Z :=
  foldr Z.lor 0 [SCRIPT_VERIFY_P2SH; SCRIPT_VERIFY_DERSIG; SCRIPT_VERIFY_NULLDUMMY; SCRIPT_VERIFY_CHECKLOCKTIMEVERIFY;
    SCRIPT_VERIFY_CHECKSEQUENCEVERIFY; SCRIPT_VERIFY_WITNESS; SCRIPT_VERIFY_TAPROOT].
Definition STANDARD_SCRIPT_VERIFY_FLAGS : Z :=
  foldr Z.lor MANDATORY_SCRIPT_VERIFY_FLAGS [SCRIPT_VERIFY_STRICTENC; SCRIPT_VERIFY_MINIMALDATA;
    SCRIPT_VERIFY_DISCOURAGE_UPGRADABLE_NOPS; SCRIPT_VERIFY_CLEANSTACK; SCRIPT_VERIFY_MINIMALIF; SCRIPT_VERIFY_NULLFAIL;
    SCRIPT_VERIFY_LOW_S; SCRIPT_VERIFY_DISCOURAGE_UPGRADABLE_WITNESS_PROGRAM; SCRIPT_VERIFY_WITNESS_PUBKEYTYPE;
    SCRIPT_VERIFY_CONST_SCRIPTCODE; SCRIPT_VERIFY_DISCOURAGE_UPGRADABLE_TAPROOT_VERSION;
    SCRIPT_VERIFY_DISCOURAGE_OP_SUCCESS; SCRIPT_VERIFY_DISCOURAGE_UPGRADABLE_PUBKEYTYPE].
Definition STANDARD_NOT_MANDATORY_VERIFY_FLAGS : Z := Z.ldiff STANDARD_SCRIPT_VERIFY_FLAGS MANDATORY_SCRIPT_VERIFY_FLAGS.

(** * Checking scripts *)

(** The cache of verified transactions: a set of digests that may forget.  The flag of
    [cache_contains] allows the entry to be dropped when it is found. *)
Class ExecutionCache (C : Type) := {
  cache_contains : C -> bytes -> bool -> bool * C;
  cache_insert : C -> bytes -> C;
  cache_has : C -> bytes -> Prop;
  cache_contains_has c e erase : (cache_contains c e erase).1 = true -> cache_has c e;
  cache_contains_keeps c e erase x : cache_has (cache_contains c e erase).2 x -> cache_has c x;
  cache_insert_has c e x : cache_has (cache_insert c e) x -> x = e \/ cache_has c x;
}.

Record CScriptCheck := ScriptCheck {
  m_tx_out : CTxOut;
  ptxTo : CTransaction;
  check_nIn : nat;
  check_nFlags : Z;
  check_txdata : PrecomputedTransactionData;
}.

Section Scripts.
Context {secp : Secp256k1}.

(** The call operator, with the checker that the signature cache wraps: a hit of that
    cache only saves the verification of a signature.  [None] is success. *)
Definition run_check (check : CScriptCheck) : result string (option ScriptError) :=
  let i := vin_at (ptxTo check) (check_nIn check) in
  match VerifyScript
          (checker := GenericTransactionSignatureChecker (ptxTo check) (check_nIn check) (nValue (m_tx_out check))
                        (Some (check_txdata check)) ASSERT_FAIL)
          (check_nFlags check) (scriptSig i) (scriptPubKey (m_tx_out check)) (scriptWitness i) with
  | Ok _ => Ok None
  | Err (ScriptErr e) => Ok (Some e)
  | Err Unset => Ok (Some SCRIPT_ERR_UNKNOWN_ERROR)
  | Err (Abort s) => Err s
  end.

(** The checks of the inputs one after the other. *)
Fixpoint run_inputs (checks : list CScriptCheck) : result string (result (TxValidationResult * string) ()) :=
  match checks with
  | [] => Ok (Ok ())
  | check :: checks =>
      r ← run_check check;
      match r with
      | None => run_inputs checks
      | Some e =>
          if negb (Z.land (check_nFlags check) STANDARD_NOT_MANDATORY_VERIFY_FLAGS =? 0) then
            r2 ← run_check (ScriptCheck (m_tx_out check) (ptxTo check) (check_nIn check)
                              (Z.ldiff (check_nFlags check) STANDARD_NOT_MANDATORY_VERIFY_FLAGS) (check_txdata check));
            match r2 with
            | None => Ok (Err (TX_NOT_STANDARD, with_script_error "non-mandatory-script-verify-flag" e))
            | Some e2 => Ok (Err (TX_CONSENSUS, with_script_error "mandatory-script-verify-flag-failed" e2))
            end
          else Ok (Err (TX_CONSENSUS, with_script_error "mandatory-script-verify-flag-failed" e))
      end
  end.

Section CheckInputs.
Context (DynamicUsage : bytes -> Z).
Context {V : Type} {OPS : CoinsViewOps V}.
Context {C : Type} {EC : ExecutionCache C}.
(** [ScriptExecutionCacheHasher()]: the salted hasher. *)
Context (hasher : CSHA256).

(** The bytes of [flags] in memory, on a little-endian machine. *)
Definition cache_entry (tx : CTransaction) (flags : Z) : bytes :=
  (CSHA256_Finalize (CSHA256_Write (CSHA256_Write hasher (ComputeWitnessHash tx)) (ser_writedata32 flags))).1.

Fixpoint spent_outputs (inputs : CCoinsViewCache V) (ins : list CTxIn) (spent : list CTxOut)
    : result string (list CTxOut * CCoinsViewCache V) :=
  match ins with
  | [] => Ok (spent, inputs)
  | txin :: ins =>
      '(co, inputs) ← access_unspent DynamicUsage inputs (prevout txin);
      spent_outputs inputs ins (spent ++ [out co])
  end.

Definition input_checks (tx : CTransaction) (flags : Z) (txdata : PrecomputedTransactionData) : list CScriptCheck :=
  imap (fun i o => ScriptCheck o tx i flags txdata) (m_spent_outputs txdata).

(** [CheckInputScripts] on new transaction data.  The result: success with the checks
    pushed on [pvChecks] (where [queue] says there is one), or the rejection. *)
Definition CheckInputScripts (tx : CTransaction) (inputs : CCoinsViewCache V) (flags : Z) (cacheFullScriptStore : bool)
    (sc : C) (queue : bool)
    : result string (result (TxValidationResult * string) (list CScriptCheck) * CCoinsViewCache V * C) :=
  if IsCoinBase tx then Ok (Ok [], inputs, sc)
  else
    let hashCacheEntry := cache_entry tx flags in
    let '(hit, sc) := cache_contains sc hashCacheEntry (negb cacheFullScriptStore) in
    if hit then Ok (Ok [], inputs, sc)
    else
      '(spent, inputs) ← spent_outputs inputs (vin tx) [];
      txdata ← Precomputed_Init tx spent false;
      if negb (zlen (m_spent_outputs txdata) =? zlen (vin tx)) then Err "assert(txdata.m_spent_outputs.size() == tx.vin.size())"
      else
        let checks := input_checks tx flags txdata in
        if queue then Ok (Ok checks, inputs, sc)
        else
          r ← run_inputs checks;
          match r with
          | Err e => Ok (Err e, inputs, sc)
          | Ok _ => Ok (Ok [], inputs, if cacheFullScriptStore then cache_insert sc hashCacheEntry else sc)
          end.

End CheckInputs.
End Scripts.

(** * Undo data *)

(** [CTxUndo] is [vprevout], [CBlockUndo] is [vtxundo]. *)
Abbreviation CTxUndo := (list Coin).
Abbreviation CBlockUndo := (list CTxUndo).

Inductive DisconnectResult := DISCONNECT_OK | DISCONNECT_UNCLEAN | DISCONNECT_FAILED.

(** An exception of the cache ends the operation. *)
Definition throwing {A B} (r : result (string * B) A) : result string A :=
  match r with Ok a => Ok a | Err (s, _) => Err s end.

Section Update.
Context (DynamicUsage : bytes -> Z).
Context {V : Type} {OPS : CoinsViewOps V}.

Fixpoint spend_inputs (inputs : CCoinsViewCache V) (ins : list CTxIn) (txundo : CTxUndo)
    : result string (CTxUndo * CCoinsViewCache V) :=
  match ins with
  | [] => Ok (txundo, inputs)
  | txin :: ins =>
      let '(is_spent, moved, inputs) := SpendCoin DynamicUsage inputs (prevout txin) in
      if negb is_spent then Err "assert(is_spent)"
      else spend_inputs inputs ins (txundo ++ [default coinEmpty moved])
  end.

Definition UpdateCoins (tx : CTransaction) (inputs : CCoinsViewCache V) (height : Z)
    : result string (CTxUndo * CCoinsViewCache V) :=
  '(txundo, inputs) ← (if negb (IsCoinBase tx) then spend_inputs inputs (vin tx) [] else Ok ([], inputs));
  inputs ← throwing (AddCoins DynamicUsage inputs tx height false);
  Ok (txundo, inputs).

Definition ApplyTxInUndo (undo : Coin) (view : CCoinsViewCache V) (o : COutPoint)
    : result string (DisconnectResult * CCoinsViewCache V) :=
  let '(have, view) := HaveCoin DynamicUsage view o in
  let fClean := negb have in
  '(undo, view) ←
    (if coin_nHeight undo =? 0 then
       let '(alternate, view) := AccessByTxid DynamicUsage view (op_hash o) in
       if negb (IsSpent alternate)
       then Ok (Some (MkCoin (out undo) (fCoinBase alternate) (coin_nHeight alternate)), view)
       else Ok (None, view)
     else Ok (Some undo, view));
  match undo with
  | None => Ok (DISCONNECT_FAILED, view)
  | Some undo =>
      view ← throwing (AddCoin DynamicUsage view o undo (negb fClean));
      Ok (if fClean then DISCONNECT_OK else DISCONNECT_UNCLEAN, view)
  end.

(** The outputs of a transaction, from index [o] on: spent, and compared with the block. *)
Fixpoint unspend_outputs (view : CCoinsViewCache V) (hash : bytes) (outs : list CTxOut) (o height : Z)
    (is_coinbase is_bip30_exception fClean : bool) : bool * CCoinsViewCache V :=
  match outs with
  | [] => (fClean, view)
  | vout :: outs =>
      let '(fClean, view) :=
        if negb (IsUnspendable (scriptPubKey vout)) then
          let '(is_spent, moved, view) := SpendCoin DynamicUsage view (OutPoint hash o) in
          let co := default coinEmpty moved in
          let mismatch := negb is_spent || negb (bool_decide (vout = out co)) || negb (height =? coin_nHeight co)
                          || negb (Bool.eqb is_coinbase (fCoinBase co)) in
          (if mismatch && negb is_bip30_exception then false else fClean, view)
        else (fClean, view) in
      unspend_outputs view hash outs (o + 1) height is_coinbase is_bip30_exception fClean
  end.

(** The inputs, last first; [None] is [DISCONNECT_FAILED]. *)
Fixpoint restore_inputs (view : CCoinsViewCache V) (ins : list (CTxIn * Coin)) (fClean : bool)
    : result string (option bool * CCoinsViewCache V) :=
  match ins with
  | [] => Ok (Some fClean, view)
  | (txin, undo) :: ins =>
      '(res, view) ← ApplyTxInUndo undo view (prevout txin);
      match res with
      | DISCONNECT_FAILED => Ok (None, view)
      | DISCONNECT_UNCLEAN => restore_inputs view ins false
      | DISCONNECT_OK => restore_inputs view ins fClean
      end
  end.

(** The transactions, last first, with their undo data where they are not the first. *)
Fixpoint disconnect_txs (view : CCoinsViewCache V) (txs : list (CTransaction * option CTxUndo)) (height : Z)
    (fEnforceBIP30 fClean : bool) : result string (option bool * CCoinsViewCache V) :=
  match txs with
  | [] => Ok (Some fClean, view)
  | (tx, txundo) :: txs =>
      let is_coinbase := IsCoinBase tx in
      let '(fClean, view) := unspend_outputs view (ComputeHash tx) (vout tx) 0 height is_coinbase
                               (is_coinbase && negb fEnforceBIP30) fClean in
      '(r, view) ←
        match txundo with
        | None => Ok (Some fClean, view)
        | Some undo =>
            if negb (zlen undo =? zlen (vin tx)) then Ok (None, view)
            else restore_inputs view (rev (zip (vin tx) undo)) fClean
        end;
      match r with
      | None => Ok (None, view)
      | Some fClean => disconnect_txs view txs height fEnforceBIP30 fClean
      end
  end.

(** [DisconnectBlock]; [blockUndo] is what [ReadBlockUndo] returned. *)
Definition DisconnectBlock (m : BlockMap) (block : CBlock) (pindex : ptr) (blockUndo : option CBlockUndo)
    (view : CCoinsViewCache V) : result string (DisconnectResult * CCoinsViewCache V) :=
  match blockUndo with
  | None => Ok (DISCONNECT_FAILED, view)
  | Some vtxundo =>
      if negb (zlen vtxundo + 1 =? zlen (vtx block)) then Ok (DISCONNECT_FAILED, view)
      else
        b ← deref m pindex;
        '(unspendable : bool) ← IsBIP30Unspendable b;
        '(r, view) ← disconnect_txs view (rev (zip (vtx block) (None :: (Some <$> vtxundo)))) (nHeight b) (negb unspendable) true;
        match r with
        | None => Ok (DISCONNECT_FAILED, view)
        | Some fClean =>
            prev ← match pprev b with Some q => bq ← deref m q; GetBlockHash bq | None => Err "pindex->pprev" end;
            Ok (if (fClean : bool) then DISCONNECT_OK else DISCONNECT_UNCLEAN, SetBestBlock view prev)
        end
  end.

End Update.

(** * [ConnectBlock] *)

Definition GetBlockScriptFlags (block_index : CBlockIndex) (params : Params) : result string Z :=
  hash ← match phashBlock block_index with Some h => Ok h | None => Err "Assert(block_index.phashBlock)" end;
  let flags := default (Z.lor SCRIPT_VERIFY_P2SH (Z.lor SCRIPT_VERIFY_WITNESS SCRIPT_VERIFY_TAPROOT))
                 (script_flag_exceptions params !! hash) in
  let add flags dep flag := if DeploymentActiveAt block_index params dep then Z.lor flags flag else flags in
  Ok (add (add (add (add flags DEPLOYMENT_DERSIG SCRIPT_VERIFY_DERSIG)
                    DEPLOYMENT_CLTV SCRIPT_VERIFY_CHECKLOCKTIMEVERIFY)
               DEPLOYMENT_CSV SCRIPT_VERIFY_CHECKSEQUENCEVERIFY)
          DEPLOYMENT_SEGWIT SCRIPT_VERIFY_NULLDUMMY).

(** What [ConnectBlock] reads of the chainstate manager. *)
Record chainman := Chainman {
  cm_params : Params;
  cm_index : BlockManager;
  AssumedValidBlock : bytes;
  MinimumChainWork : limbs;
  (** whether the check queue has threads *)
  HasThreads : bool;
}.

(** Whether the scripts are checked: not below the assumed valid block. *)
Definition script_checks_needed (cm : chainman) (pindex : ptr) : result string bool :=
  let m := m_block_index (cm_index cm) in
  if bool_decide (AssumedValidBlock cm = uint256_null) then Ok true
  else
    match m !! AssumedValidBlock cm with
    | None => Ok true
    | Some _ =>
        b ← deref m pindex;
        a ← GetAncestor m (AssumedValidBlock cm) (nHeight b);
        if negb (bool_decide (a = Some pindex)) then Ok true
        else
          best ← match best_header (cm_index cm) with Some p => Ok p | None => Err "m_best_header" end;
          a ← GetAncestor m best (nHeight b);
          bb ← deref m best;
          if bool_decide (a = Some pindex) && uint_ge (nChainWork bb) (MinimumChainWork cm) then
            t ← GetBlockProofEquivalentTime bb b bb (nPowTargetSpacing (pow (cm_params cm)));
            Ok (t <=? 60 * 60 * 24 * 7 * 2)
          else Ok true
    end.

(** Whether the rule against overwriting (BIP30) is enforced. *)
Definition enforce_bip30 (cm : chainman) (b : CBlockIndex) : result string bool :=
  let m := m_block_index (cm_index cm) in
  '(repeat : bool) ← IsBIP30Repeat b;
  prev ← match pprev b with Some p => Ok p | None => Err "assert(pindex->pprev)" end;
  pindexBIP34height ← GetAncestor m prev (BIP34Height (cm_params cm));
  '(fEnforceBIP30 : bool) ←
    (if repeat then Ok false
     else match pindexBIP34height with
          | None => Ok true
          | Some p => bp ← deref m p; h ← GetBlockHash bp; Ok (negb (bool_decide (h = BIP34Hash (cm_params cm))))
          end);
  Ok (fEnforceBIP30 || (BIP34_IMPLIES_BIP30_LIMIT <=? nHeight b)).

Section ConnectBlock.
Context {secp : Secp256k1}.
Context (way8 way4 way2 : option (bytes -> bytes)).
Context (DynamicUsage : bytes -> Z).
Context {V : Type} {OPS : CoinsViewOps V}.
Context {C : Type} {EC : ExecutionCache C}.
Context (hasher : CSHA256).
(** [CCheckQueueControl::Complete]: the error that the queue reports for the failed
    checks, in some order of execution. *)
Context (Complete : list ScriptError -> option ScriptError).

(** The check against overwriting: every output of the block is looked up. *)
Fixpoint bip30_outputs (view : CCoinsViewCache V) (hash : bytes) (outs : list CTxOut) (o : Z) (found : bool)
    : bool * CCoinsViewCache V :=
  match outs with
  | [] => (found, view)
  | _ :: outs =>
      let '(have, view) := HaveCoin DynamicUsage view (OutPoint hash o) in
      bip30_outputs view hash outs (o + 1) (found || have)
  end.

Fixpoint bip30_check (view : CCoinsViewCache V) (txs : list CTransaction) (found : bool) : bool * CCoinsViewCache V :=
  match txs with
  | [] => (found, view)
  | tx :: txs =>
      let '(found, view) := bip30_outputs view (ComputeHash tx) (vout tx) 0 found in
      bip30_check view txs found
  end.

(** The variables of the loop over the transactions. *)
Record connecting := Connecting {
  cn_view : CCoinsViewCache V;
  cn_cache : C;
  nFees : Z;
  nSigOpsCost : Z;
  blockundo : CBlockUndo;
  control : list CScriptCheck;
}.

Fixpoint prev_heights (view : CCoinsViewCache V) (ins : list CTxIn) : list Z * CCoinsViewCache V :=
  match ins with
  | [] => ([], view)
  | txin :: ins =>
      let '(co, view) := AccessCoin DynamicUsage view (prevout txin) in
      let '(hs, view) := prev_heights view ins in
      (coin_nHeight co :: hs, view)
  end.

Definition bad_block (reason : string) : BlockValidationResult * string := (BLOCK_CONSENSUS, reason).

(** The amounts and the relative lock times of a transaction that is not a coinbase:
    the fees so far, or the rejection. *)
Definition connect_amounts (m : BlockMap) (pindex : ptr) (height nLockTimeFlags : Z) (tx : CTransaction)
    (view : CCoinsViewCache V) (fees : Z)
    : result string (result (BlockValidationResult * string) Z * CCoinsViewCache V) :=
  '(r, view) ← CheckTxInputs DynamicUsage tx view height;
  match r with
  | Err (_, reason) => Ok (Err (bad_block reason), view)
  | Ok txfee =>
      let fees := i64 (fees + txfee) in
      if negb (MoneyRange fees) then Ok (Err (bad_block "bad-txns-accumulated-fee-outofrange"), view)
      else
        let '(prevheights, view) := prev_heights view (vin tx) in
        '(final, _) ← SequenceLocks m tx nLockTimeFlags prevheights pindex;
        if negb final then Ok (Err (bad_block "bad-txns-nonfinal"), view) else Ok (Ok fees, view)
  end.

(** One transaction of the loop, and the rejection where it breaks. *)
Definition connect_tx (m : BlockMap) (pindex : ptr) (height nLockTimeFlags flags : Z) (fScriptChecks fJustCheck queue : bool)
    (first : bool) (tx : CTransaction) (s : connecting)
    : result string (option (BlockValidationResult * string) * connecting) :=
  '(r, view) ←
    (if negb (IsCoinBase tx) then connect_amounts m pindex height nLockTimeFlags tx (cn_view s) (nFees s)
     else Ok (Ok (nFees s), cn_view s));
  match r with
  | Err e => Ok (Some e, Connecting view (cn_cache s) (nFees s) (nSigOpsCost s) (blockundo s) (control s))
  | Ok fees =>
      '(cost, view) ← GetTransactionSigOpCost DynamicUsage tx view flags;
      let cost := nSigOpsCost s + cost in
      if MAX_BLOCK_SIGOPS_COST <? cost
      then Ok (Some (bad_block "bad-blk-sigops"), Connecting view (cn_cache s) fees cost (blockundo s) (control s))
      else
        '(r, view, sc) ←
          (if negb (IsCoinBase tx) && fScriptChecks
           then CheckInputScripts DynamicUsage hasher tx view flags fJustCheck (cn_cache s) queue
           else Ok (Ok [], view, cn_cache s));
        match r with
        | Err (_, reason) => Ok (Some (bad_block reason), Connecting view sc fees cost (blockundo s) (control s))
        | Ok checks =>
            '(txundo, view) ← UpdateCoins DynamicUsage tx view height;
            Ok (None, Connecting view sc fees cost (if first then blockundo s else blockundo s ++ [txundo]) (control s ++ checks))
        end
  end.

Fixpoint connect_txs (m : BlockMap) (pindex : ptr) (height nLockTimeFlags flags : Z) (fScriptChecks fJustCheck queue : bool)
    (first : bool) (txs : list CTransaction) (s : connecting)
    : result string (option (BlockValidationResult * string) * connecting) :=
  match txs with
  | [] => Ok (None, s)
  | tx :: txs =>
      '(e, s) ← connect_tx m pindex height nLockTimeFlags flags fScriptChecks fJustCheck queue first tx s;
      match e with
      | Some e => Ok (Some e, s)
      | None => connect_txs m pindex height nLockTimeFlags flags fScriptChecks fJustCheck queue false txs s
      end
  end.

(** The errors of the queued checks. *)
Fixpoint run_queue (checks : list CScriptCheck) : result string (list ScriptError) :=
  match checks with
  | [] => Ok []
  | check :: checks =>
      r ← run_check check;
      es ← run_queue checks;
      Ok (match r with Some e => e :: es | None => es end)
  end.

(** The result: success, the state, the view, the cache of verified transactions, the
    memory flags of the block, the undo data that is written, and the block index. *)
Record connected := Connected {
  co_ok : bool;
  co_state : BlockValidationState;
  co_view : CCoinsViewCache V;
  co_cache : C;
  co_flags : block_flags;
  co_undo : option CBlockUndo;
  co_index : BlockManager;
}.

Definition raise_scripts_valid (bm : BlockManager) (pindex : ptr) : result string BlockManager :=
  b ← deref (m_block_index bm) pindex;
  valid ← IsValid b BLOCK_VALID_SCRIPTS;
  if negb valid then
    '(b, _) ← RaiseValidity b BLOCK_VALID_SCRIPTS;
    Ok (BlockMgr (<[pindex := b]> (m_block_index bm)) ({[pindex]} ∪ m_dirty_blockindex bm) (best_header bm))
  else Ok bm.

(** From the loop over the transactions on.  [WriteBlockUndo] says whether the undo
    data could be written. *)
Definition connect_body (cm : chainman) (block : CBlock) (pindex : ptr) (b : CBlockIndex) (fScriptChecks fJustCheck : bool)
    (WriteBlockUndo : CBlockUndo -> bool) (fl : block_flags) (view : CCoinsViewCache V) (sc : C) : result string connected :=
  let m := m_block_index (cm_index cm) in
  '(bip30 : bool) ← enforce_bip30 cm b;
  let '(overwrite, view) := if bip30 then bip30_check view (vtx block) false else (false, view) in
  let state := if (overwrite : bool) then state_Invalid BlockState_new BLOCK_CONSENSUS "bad-txns-BIP30" else BlockState_new in
  let nLockTimeFlags := if DeploymentActiveAt b (cm_params cm) DEPLOYMENT_CSV then LOCKTIME_VERIFY_SEQUENCE else 0 in
  flags ← GetBlockScriptFlags b (cm_params cm);
  let s := Connecting view sc 0 0 [] [] in
  '(e, s) ←
    (if state_IsValid state
     then connect_txs m pindex (nHeight b) nLockTimeFlags flags fScriptChecks fJustCheck (HasThreads cm) true (vtx block) s
     else Ok (None, s));
  let state := match e with Some (r, reason) => state_Invalid state r reason | None => state end in
  let blockReward := nFees s + GetBlockSubsidy (nHeight b) (cm_params cm) in
  cb ← match vtx block with cb :: _ => Ok cb | [] => Err "block.vtx[0]" end;
  value ← GetValueOut cb;
  let state := if (blockReward <? value) && state_IsValid state
               then state_Invalid state BLOCK_CONSENSUS "bad-cb-amount" else state in
  errors ← run_queue (control s);
  let state :=
    match Complete errors with
    | Some e => if state_IsValid state
                then state_Invalid state BLOCK_CONSENSUS (with_script_error "mandatory-script-verify-flag-failed" e) else state
    | None => state
    end in
  let failed ok undo := Connected ok state (cn_view s) (cn_cache s) fl undo (cm_index cm) in
  if negb (state_IsValid state) then Ok (failed false None)
  else if fJustCheck then Ok (failed true None)
  else if negb (WriteBlockUndo (blockundo s)) then Ok (failed false None)
  else
    bm ← raise_scripts_valid (cm_index cm) pindex;
    hash ← GetBlockHash b;
    Ok (Connected true state (SetBestBlock (cn_view s) hash) (cn_cache s) fl (Some (blockundo s)) bm).

Definition ConnectBlock (cm : chainman) (block : CBlock) (pindex : ptr) (fJustCheck : bool)
    (WriteBlockUndo : CBlockUndo -> bool) (fl : block_flags) (view : CCoinsViewCache V) (sc : C) : result string connected :=
  let m := m_block_index (cm_index cm) in
  b ← deref m pindex;
  let block_hash := CBlockHeader_GetHash (block_header block) in
  if negb (bool_decide (phashBlock b = Some block_hash)) then Err "assert(*pindex->phashBlock == block_hash)"
  else
    '(r, fl) ← CheckBlock way8 way4 way2 block (cm_params cm) (negb fJustCheck) (negb fJustCheck) fl;
    match r with
    | Err (res, reason) =>
        let state := state_Invalid BlockState_new res reason in
        let state := match res with
                     | BLOCK_MUTATED => state_Error state "Corrupt block found indicating potential hardware failure."
                     | _ => state
                     end in
        Ok (Connected false state view sc fl None (cm_index cm))
    | Ok _ =>
        hashPrevBlock ← match pprev b with None => Ok uint256_null | Some q => bq ← deref m q; GetBlockHash bq end;
        let '(best, view) := CCoinsViewCache_GetBestBlock view in
        if negb (bool_decide (hashPrevBlock = best)) then Err "assert(hashPrevBlock == view.GetBestBlock())"
        else if bool_decide (block_hash = hashGenesisBlock (cm_params cm)) then
          hash ← GetBlockHash b;
          Ok (Connected true BlockState_new (if fJustCheck then view else SetBestBlock view hash) sc fl None (cm_index cm))
        else
          fScriptChecks ← script_checks_needed cm pindex;
          connect_body cm block pindex b fScriptChecks fJustCheck WriteBlockUndo fl view sc
    end.

End ConnectBlock.
