(* ===== verification/Compressor.v ===== *)
(** Compact encodings of outputs, coins and undo data (src/bitcoin/src/compressor.h,
    compressor.cpp, coins.h, undo.h, node/blockstorage.cpp): amounts, special scripts,
    the records of the coins database and of the undo files.  Every encoding is read
    back. *)

From S2P Require Import Prelude Serialize MerkleDamgard Sha2 Hash Transaction Script Coins PubKey Interpreter Connect.

(** * Amounts *)

(** The loop that divides by ten: at most [fuel] times. *)
Fixpoint strip_zeros (fuel : nat) (n e : Z) : Z * Z :=
  match fuel with
  | O => (n, e)
  | S fuel => if n mod 10 =? 0 then strip_zeros fuel (n / 10) (e + 1) else (n, e)
  end.

(** The assertion on the last digit is [strip_zeros_spec]. *)
Definition CompressAmount (n : Z) : Z :=
  if n =? 0 then 0
  else
    let '(n, e) := strip_zeros 9 n 0 in
    if e <? 9 then u64 (1 + (n / 10 * 9 + n mod 10 - 1) * 10 + e)
    else u64 (1 + (n - 1) * 10 + 9).

Definition DecompressAmount (x : Z) : Z :=
  if x =? 0 then 0
  else
    let x := x - 1 in
    let e := x mod 10 in
    let x := x / 10 in
    let n := if e <? 9 then u64 (x / 9 * 10 + (x mod 9 + 1)) else x + 1 in
    Nat.iter (Z.to_nat e) (fun n => u64 (n * 10)) n.

(** * Scripts *)

Section Scripts.
Context {secp : Secp256k1}.

Definition IsToKeyID (script : bytes) : option bytes :=
  if (zlen script =? 25) && (byte_at script 0 =? op OP_DUP) && (byte_at script 1 =? op OP_HASH160) && (byte_at script 2 =? 20)
     && (byte_at script 23 =? op OP_EQUALVERIFY) && (byte_at script 24 =? op OP_CHECKSIG)
  then Some (take 20 (drop 3 script)) else None.

Definition IsToScriptID (script : bytes) : option bytes :=
  if (zlen script =? 23) && (byte_at script 0 =? op OP_HASH160) && (byte_at script 1 =? 20) && (byte_at script 22 =? op OP_EQUAL)
  then Some (take 20 (drop 2 script)) else None.

Definition IsToPubKey (script : bytes) : option CPubKey :=
  if (zlen script =? 35) && (byte_at script 0 =? 33) && (byte_at script 34 =? op OP_CHECKSIG)
     && ((byte_at script 1 =? 0x02) || (byte_at script 1 =? 0x03))
  then Some (CPubKey_Set (take 33 (drop 1 script)))
  else if (zlen script =? 67) && (byte_at script 0 =? 65) && (byte_at script 66 =? op OP_CHECKSIG) && (byte_at script 1 =? 0x04)
  then
    let pubkey := CPubKey_Set (take 65 (drop 1 script)) in
    if CPubKey_IsFullyValid pubkey then Some pubkey else None
  else None.

Definition CompressScript (script : bytes) : option bytes :=
  match IsToKeyID script with
  | Some hash => Some (0x00 :: hash)
  | None =>
      match IsToScriptID script with
      | Some hash => Some (0x01 :: hash)
      | None =>
          match IsToPubKey script with
          | Some pubkey =>
              let x := take 32 (drop 1 pubkey) in
              if (byte_at pubkey 0 =? 0x02) || (byte_at pubkey 0 =? 0x03) then Some (byte_at pubkey 0 :: x)
              else if byte_at pubkey 0 =? 0x04 then Some (Z.lor 0x04 (Z.land (byte_at pubkey 64) 0x01) :: x)
              else None
          | None => None
          end
      end
  end.

Definition GetSpecialScriptSize (nSize : Z) : Z :=
  if (nSize =? 0) || (nSize =? 1) then 20
  else if (nSize =? 2) || (nSize =? 3) || (nSize =? 4) || (nSize =? 5) then 32
  else 0.

(** The script, where the function returns true; [Err] is the assertion. *)
Definition DecompressScript (nSize : Z) (inp : bytes) : result string (option bytes) :=
  if nSize =? 0 then Ok (Some ([op OP_DUP; op OP_HASH160; 20] ++ take 20 inp ++ [op OP_EQUALVERIFY; op OP_CHECKSIG]))
  else if nSize =? 1 then Ok (Some ([op OP_HASH160; 20] ++ take 20 inp ++ [op OP_EQUAL]))
  else if (nSize =? 2) || (nSize =? 3) then Ok (Some ([33; nSize] ++ take 32 inp ++ [op OP_CHECKSIG]))
  else if (nSize =? 4) || (nSize =? 5) then
    match Decompress (CPubKey_Set ((nSize - 2) :: take 32 inp)) with
    | None => Ok None
    | Some pubkey =>
        if negb (CPubKey_size pubkey =? 65) then Err "assert(pubkey.size() == 65)"
        else Ok (Some ([65] ++ take 65 pubkey ++ [op OP_CHECKSIG]))
    end
  else Ok None.

(** * Formatters *)

Definition nSpecialScripts : Z := 6.

Definition ScriptCompression_Ser (script : bytes) : bytes :=
  match CompressScript script with
  | Some compr => compr
  | None => ser_varint 32 (u32 (zlen script + nSpecialScripts)) ++ script
  end.

(** Into an empty script, which stays empty where the key cannot be decompressed. *)
Definition ScriptCompression_Unser : reader bytes :=
  nSize ← ReadVarInt uint32_max;
  if nSize <? nSpecialScripts then
    vch ← stream_read (GetSpecialScriptSize nSize);
    match DecompressScript nSize vch with
    | Ok script => mret (default [] script)
    | Err e => fail_read e
    end
  else
    let nSize := nSize - nSpecialScripts in
    if MAX_SCRIPT_SIZE <? nSize then _ ← stream_ignore nSize; mret [op OP_RETURN]
    else stream_read nSize.

Definition AmountCompression_Ser (val : Z) : bytes := ser_varint 64 (CompressAmount (u64 val)).
Definition AmountCompression_Unser : reader Z := v ← ReadVarInt uint64_max; mret (i64 (DecompressAmount v)).

Definition TxOutCompression_Ser (o : CTxOut) : bytes := AmountCompression_Ser (nValue o) ++ ScriptCompression_Ser (scriptPubKey o).
Definition TxOutCompression_Unser : reader CTxOut :=
  v ← AmountCompression_Unser; script ← ScriptCompression_Unser; mret (TxOut v script).

(** [Coin::Serialize] and [Unserialize]; serializing a spent coin is an assertion. *)
Definition coin_code (co : Coin) : Z := u32 (coin_nHeight co * 2 + Z.b2z (fCoinBase co)).

Definition Coin_Serialize (co : Coin) : result string bytes :=
  if IsSpent co then Err "assert(!IsSpent())" else Ok (ser_varint 32 (coin_code co) ++ TxOutCompression_Ser (out co)).
Definition Coin_Unserialize : reader Coin :=
  code ← ReadVarInt uint32_max; o ← TxOutCompression_Unser;
  mret (MkCoin o (negb (Z.land code 1 =? 0)) (wrap 31 (Z.shiftr code 1))).

Definition TxInUndoFormatter_Ser (co : Coin) : bytes :=
  ser_varint 32 (coin_code co) ++ (if 0 <? coin_nHeight co then [0] else []) ++ TxOutCompression_Ser (out co).
Definition TxInUndoFormatter_Unser : reader Coin :=
  nCode ← ReadVarInt uint32_max;
  let height := wrap 31 (Z.shiftr nCode 1) in
  _ ← (if 0 <? height then ReadVarInt uint32_max else mret 0);
  o ← TxOutCompression_Unser;
  mret (MkCoin o (negb (Z.land nCode 1 =? 0)) height).

(** [sizeof(Coin)] and [sizeof(CTxUndo)] only set how much is reserved at once. *)
Context (sizeof_Coin sizeof_CTxUndo : Z).

Definition CTxUndo_Ser (u : CTxUndo) : bytes := VectorFormatter_Ser TxInUndoFormatter_Ser u.
Definition CTxUndo_Unser : reader CTxUndo := VectorFormatter_Unser TxInUndoFormatter_Unser sizeof_Coin.
Definition CBlockUndo_Ser (u : CBlockUndo) : bytes := VectorFormatter_Ser CTxUndo_Ser u.
Definition CBlockUndo_Unser : reader CBlockUndo := VectorFormatter_Unser CTxUndo_Unser sizeof_CTxUndo.

(** * The record in the undo file *)

(** What [WriteBlockUndo] appends after the header of the record: the data and the
    checksum over the hash of the previous block and the data. *)
Definition undo_record (hashPrev : bytes) (blockundo : CBlockUndo) : bytes :=
  CBlockUndo_Ser blockundo ++ Hash (hashPrev ++ CBlockUndo_Ser blockundo).

(** [ReadBlockUndo] on the file from the position of the record on; the verifier hashes
    the bytes that were read. *)
Definition ReadBlockUndo (hashPrev : bytes) (filein : bytes) : option CBlockUndo :=
  match CBlockUndo_Unser filein with
  | Err _ => None
  | Ok (blockundo, rest) =>
      match stream_read 32 rest with
      | Err _ => None
      | Ok (hashChecksum, _) =>
          if bool_decide (hashChecksum = Hash (hashPrev ++ take (length filein - length rest) filein)) then Some blockundo else None
      end
  end.

End Scripts.

(** * Amounts are read back *)

Lemma strip_zeros_spec fuel n e :
  0 < n ->
  exists k, 0 <= k <= Z.of_nat fuel /\
    let '(n', e') := strip_zeros fuel n e in
    e' = e + k /\ n = n' * 10 ^ k /\ 0 < n' /\ (k < Z.of_nat fuel -> 1 <= n' mod 10 <= 9).
Proof.
  revert n e. induction fuel as [|fuel IH]; intros n e Hn; cbn [strip_zeros].
  { exists 0. rewrite Z.add_0_r, Z.mul_1_r. lia. }
  destruct (Z.eqb_spec (n mod 10) 0) as [E|E].
  - pose proof (Z.div_mod n 10 ltac:(lia)).
    destruct (IH (n / 10) (e + 1) ltac:(lia)) as (k & Hk & IHk).
    exists (k + 1). split; [lia|]. destruct (strip_zeros fuel (n / 10) (e + 1)) as [n' e'].
    destruct IHk as (-> & En & Hn' & Hd). rewrite Z.pow_add_r by lia. change (10 ^ 1) with 10.
    split; [lia|]. split; [lia|]. split; [lia|]. intros ?. apply Hd. lia.
  - exists 0. rewrite Z.add_0_r, Z.mul_1_r. pose proof (Z.mod_pos_bound n 10 ltac:(lia)). lia.
Qed.

Lemma iter_ten k n :
  0 <= n -> n * 10 ^ Z.of_nat k < 2 ^ 64 -> Nat.iter k (fun n => u64 (n * 10)) n = n * 10 ^ Z.of_nat k.
Proof.
  induction k as [|k IH]; intros Hn Hb; [simpl; lia|].
  rewrite Nat2Z.inj_succ, Z.pow_succ_r in Hb |- * by lia. cbn [Nat.iter nat_rect].
  pose proof (Z.pow_pos_nonneg 10 (Z.of_nat k) ltac:(lia) ltac:(lia)).
  change (nat_rect _ _ _ _) with (Nat.iter k (fun n => u64 (n * 10)) n).
  rewrite IH by nia. rewrite wrap_small by (unfold is_uint; nia). lia.
Qed.

(** Amounts below 2^60 survive; [MAX_MONEY] is below 2^51. *)
Lemma amount_roundtrip n :
  0 <= n < 2 ^ 60 -> 0 <= CompressAmount n < 2 ^ 64 /\ DecompressAmount (CompressAmount n) = n.
Proof.
  intros Hn. unfold CompressAmount. destruct (Z.eqb_spec n 0) as [->|H0]; [done|].
  destruct (strip_zeros_spec 9 n 0 ltac:(lia)) as (k & Hk & Hs).
  destruct (strip_zeros 9 n 0) as [m e]. destruct Hs as (-> & En & Hm & Hd). rewrite Z.add_0_l.
  pose proof (Z.pow_pos_nonneg 10 k ltac:(lia) ltac:(lia)). assert (m <= n) by nia.
  pose proof (Z.div_mod m 10 ltac:(lia)). pose proof (Z.mod_pos_bound m 10 ltac:(lia)).
  assert (Hfin : forall x, x = m -> Nat.iter (Z.to_nat k) (fun n => u64 (n * 10)) x = n).
  { intros x ->. rewrite iter_ten; rewrite ?Z2Nat.id by lia; lia. }
  destruct (Z.ltb_spec k 9) as [K|K].
  - specialize (Hd ltac:(lia)). set (q := m / 10 * 9 + m mod 10 - 1).
    assert (Hq : 0 <= q < 2 ^ 60) by (unfold q; lia).
    rewrite wrap_small by (unfold is_uint; lia). split; [lia|]. unfold DecompressAmount.
    rewrite (proj2 (Z.eqb_neq _ 0)) by lia.
    replace (1 + q * 10 + k - 1) with (k + q * 10) by lia.
    rewrite Z.mod_add, Z.div_add, (Z.mod_small k), (Z.div_small k), (proj2 (Z.ltb_lt _ _)) by lia.
    apply Hfin. assert (Eq : q = (m mod 10 - 1) + m / 10 * 9) by (unfold q; lia).
    rewrite Z.add_0_l, Eq, Z.div_add, Z.mod_add, Z.div_small, Z.mod_small by lia.
    rewrite wrap_small by (unfold is_uint; lia). lia.
  - assert (k = 9) as -> by lia. rewrite wrap_small by (unfold is_uint; lia). split; [lia|].
    unfold DecompressAmount. rewrite (proj2 (Z.eqb_neq _ 0)) by lia.
    replace (1 + (m - 1) * 10 + 9 - 1) with (9 + (m - 1) * 10) by lia.
    rewrite Z.mod_add, Z.div_add by lia. change (9 mod 10 <? 9) with false. change (9 mod 10) with 9.
    cbv iota. apply Hfin. change (9 / 10) with 0. lia.
Qed.

(** * Scripts are read back *)

Section Roundtrip.
Context {secp : Secp256k1} {CK : CompressedKeys secp}.

Lemma special_header c max rest : 0 <= c < nSpecialScripts -> 128 <= max -> ReadVarInt max (c :: rest) = Ok (c, rest).
Proof.
  intros Hc Hm. unfold ReadVarInt. cbn [ReadVarInt_loop].
  rewrite (proj2 (Z.ltb_ge _ 0)) by (apply Z.shiftr_nonneg; lia).
  assert (Hcs : In c [0; 1; 2; 3; 4; 5]) by (unfold nSpecialScripts in Hc; simpl; lia).
  destruct Hcs as [<-|[<-|[<-|[<-|[<-|[<-|[]]]]]]]; done.
Qed.

Lemma special_script_read c body script rest :
  0 <= c < nSpecialScripts -> GetSpecialScriptSize c = zlen body -> DecompressScript c body = Ok (Some script) ->
  ScriptCompression_Unser ((c :: body) ++ rest) = Ok (script, rest).
Proof.
  intros Hc Hn Hd. unfold ScriptCompression_Unser. cbn [app].
  erewrite reader_bind_ok by (by apply special_header).
  rewrite (proj2 (Z.ltb_lt _ _)) by lia.
  erewrite reader_bind_ok by (by apply stream_read_app). by rewrite Hd.
Qed.

(** What the three tests accept. *)
Lemma IsToKeyID_inv script hash :
  IsToKeyID script = Some hash ->
  script = [op OP_DUP; op OP_HASH160; 20] ++ hash ++ [op OP_EQUALVERIFY; op OP_CHECKSIG] /\ length hash = 20%nat.
Proof.
  unfold IsToKeyID. intros H. destruct (_ && _) eqn:E in H; [|done]. injection H as <-.
  bool_props. unfold zlen in *.
  do 25 (destruct script as [|? script]; [done|]). destruct script; [|simpl in *; lia].
  unfold byte_at in *. cbn in *. subst. done.
Qed.

Lemma IsToScriptID_inv script hash :
  IsToScriptID script = Some hash ->
  script = [op OP_HASH160; 20] ++ hash ++ [op OP_EQUAL] /\ length hash = 20%nat.
Proof.
  unfold IsToScriptID. intros H. destruct (_ && _) eqn:E in H; [|done]. injection H as <-.
  bool_props. unfold zlen in *.
  do 23 (destruct script as [|? script]; [done|]). destruct script; [|simpl in *; lia].
  unfold byte_at in *. cbn in *. subst. done.
Qed.

Lemma IsToPubKey_inv script pubkey :
  IsToPubKey script = Some pubkey ->
  (exists c x, (c = 0x02 \/ c = 0x03) /\ length x = 32%nat /\ pubkey = c :: x /\
     script = [33; c] ++ x ++ [op OP_CHECKSIG]) \/
  (exists x y pk, length x = 32%nat /\ length y = 32%nat /\ pubkey = 0x04 :: x ++ y /\
     secp256k1_ec_pubkey_parse pubkey = Some pk /\ script = [65] ++ pubkey ++ [op OP_CHECKSIG]).
Proof.
  unfold IsToPubKey. intros H. destruct (_ && _) eqn:E in H; [clear -E H|clear E; destruct (_ && _) eqn:E in H; [|done]].
  - left. injection H as <-. apply andb_prop in E as [E E1]. apply orb_prop in E1. bool_props. unfold zlen in *.
    destruct script as [|a script]; [done|]. destruct script as [|c script]; [done|].
    exists c, (take 32 script). do 33 (destruct script as [|? script]; [done|]). destruct script; [|simpl in *; lia].
    unfold byte_at in *. cbn in *. rewrite !Z.eqb_eq in E1. subst.
    destruct E1 as [-> | ->]; auto.
  - right. bool_props. unfold zlen in *.
    destruct script as [|a script]; [done|]. destruct script as [|c script]; [done|].
    exists (take 32 script), (take 32 (drop 32 script)).
    do 65 (destruct script as [|? script]; [done|]). destruct script; [|simpl in *; lia].
    unfold byte_at in *. cbn in *. subst.
    destruct (CPubKey_IsFullyValid _) eqn:V; [|done]. injection H as <-.
    unfold CPubKey_IsFullyValid in V. apply andb_prop in V as [_ V]. apply bool_decide_eq_true in V as [pk Hpk].
    by exists pk.
Qed.

Lemma land_one_cases z : Z.land z 1 = 0 \/ Z.land z 1 = 1.
Proof.
  pose proof (Z.land_ones z 1 ltac:(lia)) as E. change (Z.ones 1) with 1 in E. rewrite E.
  pose proof (Z.mod_pos_bound z (2 ^ 1) ltac:(lia)). lia.
Qed.

Lemma Decompress_pubkey x y pk :
  length x = 32%nat -> length y = 32%nat -> secp256k1_ec_pubkey_parse (0x04 :: x ++ y) = Some pk ->
  DecompressScript (Z.lor 0x04 (Z.land (byte_at y 31) 1)) x = Ok (Some ([65] ++ (0x04 :: x ++ y) ++ [op OP_CHECKSIG])).
Proof.
  intros Hx Hy Hpk. destruct (secp_compressed x y pk Hx Hy Hpk) as (pk' & Hpk' & Hs).
  assert (Hset : forall c, c = 2 \/ c = 3 -> CPubKey_Set (c :: x) = c :: x).
  { intros c Hc. unfold CPubKey_Set, zlen. cbn [length]. rewrite Hx. by destruct Hc as [-> | ->]. }
  assert (Hset4 : CPubKey_Set (0x04 :: x ++ y) = 0x04 :: x ++ y).
  { unfold CPubKey_Set, zlen. cbn [length]. by rewrite length_app, Hx, Hy. }
  assert (Htk : take 65 (0x04 :: x ++ y) = 0x04 :: x ++ y).
  { apply take_ge. cbn [length]. rewrite length_app. lia. }
  unfold DecompressScript. rewrite (take_ge x 32) by lia.
  destruct (land_one_cases (byte_at y 31)) as [E|E]; rewrite E in Hpk' |- *;
    [change (2 + 0) with 2 in Hpk'; change (Z.lor 0x04 0) with 4; change (4 - 2) with 2
    |change (2 + 1) with 3 in Hpk'; change (Z.lor 0x04 1) with 5; change (5 - 2) with 3];
    cbn; rewrite Hset by auto; unfold Decompress; cbn; rewrite Hpk'; cbn; rewrite Hs, Hset4; cbn -[take]; by rewrite Htk.
Qed.

Lemma script_roundtrip script rest :
  zlen script <= MAX_SCRIPT_SIZE ->
  ScriptCompression_Unser (ScriptCompression_Ser script ++ rest) = Ok (script, rest).
Proof.
  intros Hlen. unfold ScriptCompression_Ser, CompressScript.
  destruct (IsToKeyID script) as [h|] eqn:E1.
  { apply IsToKeyID_inv in E1 as [-> Hh]. apply special_script_read; [done|by unfold zlen; rewrite Hh|].
    unfold DecompressScript. by rewrite take_ge by lia. }
  destruct (IsToScriptID script) as [h|] eqn:E2.
  { apply IsToScriptID_inv in E2 as [-> Hh]. apply special_script_read; [done|by unfold zlen; rewrite Hh|].
    unfold DecompressScript. by rewrite take_ge by lia. }
  assert (Hplain : ScriptCompression_Unser ((ser_varint 32 (u32 (zlen script + nSpecialScripts)) ++ script) ++ rest) = Ok (script, rest)).
  { unfold ScriptCompression_Unser, zlen, nSpecialScripts, MAX_SCRIPT_SIZE in *. rewrite <- app_assoc, wrap_small by (unfold is_uint; lia).
    erewrite reader_bind_ok by (apply varint_read_back; unfold is_uint, uint32_max; lia).
    rewrite (proj2 (Z.ltb_ge _ 6)), (proj2 (Z.ltb_ge _ _)) by lia. apply stream_read_app. lia. }
  destruct (IsToPubKey script) as [pubkey|] eqn:E3; [|done].
  apply IsToPubKey_inv in E3 as [(c & x & Hc & Hx & -> & ->)|(x & y & pk & Hx & Hy & -> & Hpk & ->)].
  - destruct Hc as [-> | ->]; cbn -[take app]; rewrite drop_0, take_ge by lia;
      (apply special_script_read; [done|by unfold zlen; rewrite Hx|]; unfold DecompressScript; cbn -[take]; by rewrite take_ge by lia).
  - assert (Hb : byte_at (0x04 :: x ++ y) 64 = byte_at y 31).
    { unfold byte_at. cbn [nth]. rewrite app_nth2 by lia. by rewrite Hx. }
    rewrite Hb. cbn [byte_at nth Z.eqb orb Pos.eqb drop]. rewrite drop_0, (take_app_length' x) by lia.
    apply special_script_read; [|unfold zlen; rewrite Hx|by apply (Decompress_pubkey x y pk)];
      destruct (land_one_cases (byte_at y 31)) as [-> | ->]; done.
Qed.

(** * Coins and undo data are read back *)

(** What the node stores: an amount of money, a script that is not too long to be spent,
    and a height of 31 bits. *)
Definition coin_ok (co : Coin) : Prop :=
  0 <= nValue (out co) < 2 ^ 60 /\ zlen (scriptPubKey (out co)) <= MAX_SCRIPT_SIZE /\ is_uint 31 (coin_nHeight co).

Definition undo_ok (u : CBlockUndo) : Prop :=
  Forall (fun t => Forall coin_ok t /\ zlen t <= MAX_SIZE) u /\ zlen u <= MAX_SIZE.

Lemma amount_read val rest :
  0 <= val < 2 ^ 60 -> AmountCompression_Unser (AmountCompression_Ser val ++ rest) = Ok (val, rest).
Proof.
  intros H. unfold AmountCompression_Unser, AmountCompression_Ser. rewrite wrap_small by (unfold is_uint; lia).
  destruct (amount_roundtrip val H) as [Hc Hd].
  erewrite reader_bind_ok by (apply varint_read_back; unfold is_uint, uint64_max; lia).
  rewrite Hd, swrap_small by (unfold is_sint; lia). done.
Qed.

Lemma TxOut_read o rest :
  0 <= nValue o < 2 ^ 60 -> zlen (scriptPubKey o) <= MAX_SCRIPT_SIZE ->
  TxOutCompression_Unser (TxOutCompression_Ser o ++ rest) = Ok (o, rest).
Proof.
  intros Hv Hs. unfold TxOutCompression_Unser, TxOutCompression_Ser. rewrite <- app_assoc.
  erewrite reader_bind_ok by (by apply amount_read). erewrite reader_bind_ok by (by apply script_roundtrip).
  by destruct o.
Qed.

Lemma coin_code_parts co :
  is_uint 31 (coin_nHeight co) ->
  is_uint 32 (coin_code co) /\ wrap 31 (Z.shiftr (coin_code co) 1) = coin_nHeight co /\
  negb (Z.land (coin_code co) 1 =? 0) = fCoinBase co.
Proof.
  unfold coin_code. intros H. rewrite wrap_small by (unfold is_uint in *; destruct (fCoinBase co); simpl; lia).
  pose proof (Z.land_ones (coin_nHeight co * 2 + Z.b2z (fCoinBase co)) 1 ltac:(lia)) as E. change (Z.ones 1) with 1 in E.
  rewrite E, Z.shiftr_div_pow2 by lia. change (2 ^ 1) with 2. rewrite (Z.add_comm (_ * 2)), Z.mod_add, Z.div_add by lia.
  destruct (fCoinBase co); simpl; rewrite wrap_small; unfold is_uint in *; change (1 / 2) with 0; change (0 / 2) with 0; try split; try lia; done.
Qed.

(** The coins database. *)
Lemma Coin_read co bs rest :
  coin_ok co -> Coin_Serialize co = Ok bs -> Coin_Unserialize (bs ++ rest) = Ok (co, rest).
Proof.
  intros (Hv & Hs & Hh) E. unfold Coin_Serialize in E. destruct (IsSpent co); [done|]. injection E as <-.
  destruct (coin_code_parts co Hh) as (Hc & E1 & E2). unfold Coin_Unserialize. rewrite <- app_assoc.
  erewrite reader_bind_ok by (apply varint_read_back; unfold is_uint, uint32_max in *; lia).
  erewrite reader_bind_ok by (by apply TxOut_read). rewrite E1, E2. by destruct co.
Qed.

Lemma TxInUndo_read co rest :
  coin_ok co -> TxInUndoFormatter_Unser (TxInUndoFormatter_Ser co ++ rest) = Ok (co, rest).
Proof.
  intros (Hv & Hs & Hh). destruct (coin_code_parts co Hh) as (Hc & E1 & E2).
  unfold TxInUndoFormatter_Unser, TxInUndoFormatter_Ser. rewrite <- !app_assoc.
  erewrite reader_bind_ok by (apply varint_read_back; unfold is_uint, uint32_max in *; lia).
  cbv zeta. rewrite E1, E2. destruct (0 <? coin_nHeight co);
    (erewrite reader_bind_ok; [|first [by apply (special_header 0)|done]]);
    (erewrite reader_bind_ok by (by apply TxOut_read)); by destruct co.
Qed.

Context (sizeof_Coin sizeof_CTxUndo : Z).
Context (coins_fit : 0 < MAX_VECTOR_ALLOCATE / sizeof_Coin) (undos_fit : 0 < MAX_VECTOR_ALLOCATE / sizeof_CTxUndo).

Lemma CBlockUndo_read u rest :
  undo_ok u -> CBlockUndo_Unser sizeof_Coin sizeof_CTxUndo (CBlockUndo_Ser u ++ rest) = Ok (u, rest).
Proof.
  intros [Hu Hlen]. unfold CBlockUndo_Unser, CBlockUndo_Ser.
  apply VectorFormatter_roundtrip with (P := fun t => Forall coin_ok t /\ zlen t <= MAX_SIZE); [done| |done|done].
  intros t rest' [Ht Hl]. unfold CTxUndo_Unser, CTxUndo_Ser.
  by apply VectorFormatter_roundtrip with (P := coin_ok); [|apply TxInUndo_read| |].
Qed.

Lemma undo_record_read prev u rest :
  undo_ok u -> ReadBlockUndo sizeof_Coin sizeof_CTxUndo prev (undo_record prev u ++ rest) = Some u.
Proof.
  intros Hu. unfold ReadBlockUndo, undo_record. rewrite <- app_assoc, CBlockUndo_read by done.
  rewrite stream_read_app by (by rewrite length_Hash).
  rewrite bool_decide_true; [done|]. do 2 f_equal. rewrite length_app, Nat.add_sub. by rewrite take_app_length.
Qed.

(** C19: What the node writes about the coins that a block spends is read back.  For undo
    data of coins with amounts below 2^60 (all the money is less than 2^51) and scripts
    that are not too long to be spent, [ReadBlockUndo] at the position of the record
    that [WriteBlockUndo] appended returns the same undo data, whatever follows in the
    file; each of the coins is also read back from the encoding of the coins database.
    The compression of amounts, of the standard scripts and of public keys loses
    nothing. *)
Theorem undo_file_roundtrip prev u rest :
  undo_ok u ->
  ReadBlockUndo sizeof_Coin sizeof_CTxUndo prev (undo_record prev u ++ rest) = Some u
  /\ Forall (Forall (fun co => forall bs, Coin_Serialize co = Ok bs -> Coin_Unserialize (bs ++ rest) = Ok (co, rest))) u.
Proof.
  intros Hu. split; [by apply undo_record_read|]. destruct Hu as [Hu _].
  eapply Forall_impl; [|exact Hu]. intros t [Ht _]. eapply Forall_impl; [|exact Ht]. intros co Hco bs. by apply Coin_read.
Qed.

End Roundtrip.

Definition ex_undo : CBlockUndo :=
  [[MkCoin (TxOut 5000000000 ([65; 4] ++ replicate 32 7 ++ parity_key 1 ++ [op OP_CHECKSIG])) true 1;
    MkCoin (TxOut 123456789 ([op OP_HASH160; 20] ++ replicate 20 9 ++ [op OP_EQUAL])) false 170]; []].

Lemma undo_file_roundtrip_witness :
  ReadBlockUndo (secp := parity_secp) 64 24 (replicate 32 1) (undo_record (secp := parity_secp) (replicate 32 1) ex_undo ++ [0; 1]) = Some ex_undo
  /\ IsToPubKey (secp := parity_secp) ([65; 4] ++ replicate 32 7 ++ parity_key 1 ++ [op OP_CHECKSIG]) = Some (4 :: replicate 32 7 ++ parity_key 1).
Proof.
  split; [|vm_compute; reflexivity].
  apply (undo_file_roundtrip (secp := parity_secp) (CK := parity_compressed) 64 24 eq_refl eq_refl).
  repeat first [split | constructor | vm_compute; congruence].
Defined.
