(* ===== verification/ConnectSpec.v ===== *)
(** The properties of connecting blocks: [ConnectBlock] implements the rules on the
    finite map of unspent coins, no value is created beyond the subsidy, and
    [DisconnectBlock] restores the coins. *)

From S2P Require Import Prelude Serialize ArithUint256 MerkleDamgard Sha2 Hash Transaction Merkle Script Coins CoinsProofs CoinsDB CoinsSpec.
From S2P Require Import BlockIndex BlockIndexSpec Pow PubKey Interpreter SigHash TxVerify BlockChecks Connect.

#[local] Opaque Hash ComputeHash ComputeWitnessHash SerializeTransaction CSHA256_Write CSHA256_Finalize.

(** * The rules on the map of coins *)

Definition spend (u : gmap COutPoint Coin) (ins : list CTxIn) : gmap COutPoint Coin :=
  foldl (fun u i => delete (prevout i) u) u ins.

(** The coins after a transaction. *)
Definition apply_tx (height : Z) (u : gmap COutPoint Coin) (tx : CTransaction) : gmap COutPoint Coin :=
  with_outputs (if IsCoinBase tx then u else spend u (vin tx)) (ComputeHash tx) (IsCoinBase tx) height 0 (vout tx).

Definition fee_of (u : gmap COutPoint Coin) (tx : CTransaction) : Z :=
  if IsCoinBase tx then 0 else total_in u (vin tx) - total_out (vout tx).

(** The coins that a transaction spends, in the order of its inputs. *)
Definition undo_of (u : gmap COutPoint Coin) (tx : CTransaction) : CTxUndo :=
  if IsCoinBase tx then [] else coin_of u <$> vin tx.

Section Rules.
Context {secp : Secp256k1}.
Context (m : BlockMap) (pindex : ptr) (height nLockTimeFlags flags : Z).

(** Every input's script holds for the coin it spends. *)
Definition scripts_hold (u : gmap COutPoint Coin) (tx : CTransaction) : Prop :=
  exists txdata, Precomputed_Init tx ((fun i => out (coin_of u i)) <$> vin tx) false = Ok txdata
    /\ Forall (fun check => run_check check = Ok None) (input_checks tx flags txdata).

(** [scripts] says what is required of the scripts. *)
Context (scripts : gmap COutPoint Coin -> CTransaction -> Prop).

Definition spends_ok (u : gmap COutPoint Coin) (fees : Z) (tx : CTransaction) : Prop :=
  inputs_ok u tx height
  /\ fees + fee_of u tx <= MAX_MONEY
  /\ (exists hs, SequenceLocks m tx nLockTimeFlags ((fun i => coin_nHeight (coin_of u i)) <$> vin tx) pindex = Ok (true, hs))
  /\ scripts u tx.

(** [connects u fees cost txs u' fees' undos]: the transactions are valid one after
    the other, and lead to the coins [u'], the fees [fees'] and the spent coins. *)
Inductive connects : gmap COutPoint Coin -> Z -> Z -> list CTransaction -> gmap COutPoint Coin -> Z -> list CTxUndo -> Prop :=
| connects_nil u fees cost : connects u fees cost [] u fees []
| connects_cons u fees cost tx txs k u' fees' undos :
    (IsCoinBase tx = false -> spends_ok u fees tx) ->
    sigop_cost u tx flags = Ok k -> cost + k <= MAX_BLOCK_SIGOPS_COST ->
    connects (apply_tx height u tx) (fees + fee_of u tx) (cost + k) txs u' fees' undos ->
    connects u fees cost (tx :: txs) u' fees' (undo_of u tx :: undos).

End Rules.

(** No output of the transactions is there yet. *)
Definition outputs_absent (u : gmap COutPoint Coin) (txs : list CTransaction) : Prop :=
  forall tx j, In tx txs -> 0 <= j < zlen (vout tx) -> u !! OutPoint (ComputeHash tx) j = None.

(** * Facts on the maps *)

Lemma lookup_spend u ins o :
  spend u ins !! o = if decide (o ∈ (prevout <$> ins)) then None else u !! o.
Proof.
  unfold spend. revert u. induction ins as [|i ins IH]; intros u; cbn [foldl fmap list_fmap].
  - destruct (decide _) as [H|]; [by apply not_elem_of_nil in H|done].
  - rewrite IH. destruct (decide (o ∈ prevout <$> ins)) as [Hin|Hin].
    + rewrite decide_True; [done|]. by apply list_elem_of_further.
    + destruct (decide (o = prevout i)) as [->|Hne].
      * rewrite lookup_delete_eq, decide_True; [done|]. apply list_elem_of_here.
      * rewrite lookup_delete_ne, decide_False by (done || rewrite elem_of_cons; tauto). done.
Qed.

(** Which outputs [with_outputs] adds. *)
Lemma lookup_with_outputs txid cb h outs : forall u i o,
  with_outputs u txid cb h i outs !! o =
  if decide (op_hash o = txid /\ i <= op_n o < i + zlen outs) then
    match nth_error outs (Z.to_nat (op_n o - i)) with
    | Some out => if IsUnspendable (scriptPubKey out) then u !! o else Some (Coin_new out h cb)
    | None => u !! o
    end
  else u !! o.
Proof.
  unfold zlen. induction outs as [|x outs IH]; intros u i o; cbn [with_outputs length].
  - rewrite decide_False by lia. done.
  - rewrite IH. clear IH. destruct o as [hash n]. cbn [op_hash op_n].
    destruct (decide (hash = txid /\ i + 1 <= n < i + 1 + Z.of_nat (length outs))) as [[-> Hn]|Hn].
    + rewrite decide_True by (split; [done|lia]). replace (Z.to_nat (n - i)) with (S (Z.to_nat (n - (i + 1)))) by lia. cbn [nth_error].
      destruct (nth_error outs (Z.to_nat (n - (i + 1)))); destruct (IsUnspendable (scriptPubKey x)); try done;
        rewrite lookup_insert_ne by (intros [= ->]; lia); done.
    + destruct (decide (hash = txid /\ n = i)) as [[-> ->]|Hne].
      * rewrite decide_True by (split; [done|lia]). replace (Z.to_nat (i - i)) with O by lia. cbn [nth_error].
        destruct (IsUnspendable (scriptPubKey x)); [done|]. by rewrite lookup_insert_eq.
      * rewrite decide_False by (intros [-> ?]; destruct (decide (n = i)); [tauto|apply Hn; split; [done|lia]]).
        destruct (IsUnspendable (scriptPubKey x)); [done|].
        rewrite lookup_insert_ne; [done|]. intros [= -> ->]. tauto.
Qed.

(** * The operations on a cache *)

Section Operations.
Context {secp : Secp256k1}.
Context (DynamicUsage : bytes -> Z) (DynamicUsage_nil : DynamicUsage [] = 0).
Context {V : Type} {OPS : CoinsViewOps V} {CV : CoinsView DynamicUsage V}.

Local Abbreviation shows := (shows DynamicUsage).

Lemma SpendCoin_shows c u best o co : shows c u best -> u !! o = Some co ->
  exists c', SpendCoin DynamicUsage c o = (true, Some co, c') /\ shows c' (delete o u) best.
Proof.
  intros [Hok <- <-] Ho. pose proof (SpendCoin_spec DynamicUsage DynamicUsage_nil c o Hok) as H.
  destruct (SpendCoin DynamicUsage c o) as [[r moved] c']. destruct H as (? & ? & ? & Hr & _).
  destruct (Hr ltac:(by rewrite Ho)) as [-> ->]. rewrite Ho. eexists. split; [done|]. by constructor.
Qed.

Lemma coin_of_delete u i j : prevout j <> prevout i -> coin_of (delete (prevout i) u) j = coin_of u j.
Proof. intros Hne. unfold coin_of. by rewrite lookup_delete_ne. Qed.

Lemma spend_inputs_shows ins : forall c u best acc, shows c u best -> inputs_there u ins -> NoDup (prevout <$> ins) ->
  exists c', spend_inputs DynamicUsage c ins acc = Ok (acc ++ (coin_of u <$> ins), c') /\ shows c' (spend u ins) best.
Proof.
  induction ins as [|i ins IH]; intros c u best acc Hs Hin Hnd; cbn [spend_inputs].
  - exists c. split; [by rewrite app_nil_r|done].
  - apply Forall_cons_iff in Hin as [[co Hco] Hin]. rewrite fmap_cons in Hnd. apply list.NoDup_cons in Hnd as [Hni Hnd].
    destruct (SpendCoin_shows c u best (prevout i) co Hs Hco) as (c1 & -> & Hs1). cbn [negb default from_option id].
    assert (forall j, In j ins -> prevout j <> prevout i) as Hne.
    { intros j Hj E. apply Hni. rewrite <- E. apply list_elem_of_fmap_2, list_elem_of_In. done. }
    destruct (IH c1 (delete (prevout i) u) best (acc ++ [co]) Hs1) as (c' & E & Hs').
    + apply Forall_forall. intros j Hj. rewrite lookup_delete_ne by (symmetry; auto).
      exact (proj1 (Forall_forall _ _) Hin j Hj).
    + done.
    + exists c'. split; [|done]. rewrite E, fmap_cons, <- app_assoc. do 2 f_equal. f_equal.
      unfold coin_of at 2. rewrite Hco. cbn [app]. f_equal.
      apply list_fmap_ext. intros k j Hj. apply coin_of_delete, Hne, list_elem_of_In. by eapply list_elem_of_lookup_2.
Qed.

(** [UpdateCoins] on a transaction whose inputs are there and whose outputs are not. *)
Lemma UpdateCoins_shows c u best tx height : shows c u best ->
  outputs_in_range (vout tx) -> NoDup (prevout <$> vin tx) ->
  (IsCoinBase tx = false -> inputs_there u (vin tx)) -> outputs_absent u [tx] ->
  exists c', UpdateCoins DynamicUsage tx c height = Ok (undo_of u tx, c') /\ shows c' (apply_tx height u tx) best.
Proof.
  intros Hs Hr Hnd Hin Habs. unfold UpdateCoins, undo_of, apply_tx.
  assert (exists c1, (if negb (IsCoinBase tx) then spend_inputs DynamicUsage c (vin tx) [] else Ok ([], c))
      = Ok (if IsCoinBase tx then [] else coin_of u <$> vin tx, c1)
    /\ shows c1 (if IsCoinBase tx then u else spend u (vin tx)) best) as (c1 & -> & Hs1).
  { destruct (IsCoinBase tx); cbn [negb]; [by eauto|]. exact (spend_inputs_shows (vin tx) c u best [] Hs (Hin eq_refl) Hnd). }
  cbn [mbind result_bind]. destruct Hs1 as [Hok1 Hc1 Hb1].
  destruct (add_coins_from_spec DynamicUsage (ComputeHash tx) (IsCoinBase tx) height false (vout tx) 0 c1 Hok1) as (c' & E & Hok' & Hb' & Hc').
  - eapply List.Forall_impl; [|exact Hr]. cbn. lia.
  - intros _ Hcb j Hj. rewrite Hc1, Hcb, lookup_spend. destruct (decide _); [done|].
    apply Habs; [by left|]. unfold zlen. lia.
  - unfold AddCoins. rewrite E. cbn [throwing mbind result_bind]. eexists. split; [done|]. constructor; [done| |by rewrite Hb'].
    by rewrite Hc', Hc1.
Qed.

Lemma prev_heights_shows ins : forall c u best, shows c u best ->
  exists c', prev_heights DynamicUsage c ins = ((fun i => coin_nHeight (coin_of u i)) <$> ins, c') /\ shows c' u best.
Proof.
  induction ins as [|i ins IH]; intros c u best Hs; cbn [prev_heights]; [by eauto|].
  destruct (AccessCoin_shows DynamicUsage c u best (prevout i) Hs) as (c1 & -> & Hs1).
  destruct (IH c1 u best Hs1) as (c2 & -> & Hs2). eauto.
Qed.

Lemma spent_outputs_shows ins : forall c u best acc, shows c u best -> inputs_there u ins ->
  exists c', spent_outputs DynamicUsage c ins acc = Ok (acc ++ ((fun i => out (coin_of u i)) <$> ins), c') /\ shows c' u best.
Proof.
  induction ins as [|i ins IH]; intros c u best acc Hs Hin; cbn [spent_outputs].
  - exists c. split; [by rewrite app_nil_r|done].
  - apply Forall_cons_iff in Hin as [Hi Hin].
    destruct (access_unspent_shows DynamicUsage c u best i Hs Hi) as (c1 & -> & Hs1). cbn [mbind result_bind].
    destruct (IH c1 u best (acc ++ [out (coin_of u i)]) Hs1 Hin) as (c' & -> & Hs').
    exists c'. split; [|done]. by rewrite <- app_assoc.
Qed.

(** The check against overwriting finds an output that is there. *)
Lemma bip30_outputs_shows hash outs : forall c u best o found, shows c u best ->
  exists found' c', bip30_outputs DynamicUsage c hash outs o found = (found', c') /\ shows c' u best
    /\ (found' = false -> found = false /\ forall j, o <= j < o + zlen outs -> u !! OutPoint hash j = None).
Proof.
  unfold zlen. induction outs as [|x outs IH]; intros c u best o found Hs; cbn [bip30_outputs length].
  - eexists _, _. split; [done|]. split; [done|]. intros ->. split; [done|lia].
  - destruct (HaveCoin_shows DynamicUsage c u best (OutPoint hash o) Hs) as (c1 & -> & Hs1).
    destruct (IH c1 u best (o + 1) (found || bool_decide (is_Some (u !! OutPoint hash o))) Hs1) as (f & c' & E & Hs' & Hf).
    exists f, c'. split; [done|]. split; [done|]. intros ->. destruct (Hf eq_refl) as [Ho Hj].
    apply orb_false_iff in Ho as [-> Ho]. split; [done|]. intros j Hjo. destruct (decide (j = o)) as [->|].
    + apply bool_decide_eq_false_1 in Ho. by apply eq_None_not_Some.
    + apply Hj. lia.
Qed.

Lemma bip30_check_shows txs : forall c u best found, shows c u best ->
  exists found' c', bip30_check DynamicUsage c txs found = (found', c') /\ shows c' u best
    /\ (found' = false -> found = false /\ outputs_absent u txs).
Proof.
  induction txs as [|tx txs IH]; intros c u best found Hs; cbn [bip30_check].
  - eexists _, _. split; [done|]. split; [done|]. intros ->. split; [done|]. by intros tx j [].
  - destruct (bip30_outputs_shows (ComputeHash tx) (vout tx) c u best 0 found Hs) as (f1 & c1 & -> & Hs1 & Hf1).
    destruct (IH c1 u best f1 Hs1) as (f & c' & E & Hs' & Hf). exists f, c'. split; [done|]. split; [done|].
    intros ->. destruct (Hf eq_refl) as [-> Ha]. destruct (Hf1 eq_refl) as [-> Ha1]. split; [done|].
    intros tx' j [<-|Hin] Hj; [apply Ha1; lia|by apply Ha].
Qed.

End Operations.

Lemma CheckTransaction_nodup tx : CheckTransaction tx = Ok () -> NoDup (prevout <$> vin tx).
Proof.
  unfold CheckTransaction. do 3 (destruct (_ : bool); [done|]). intros H.
  apply result_bind_inv in H as ([] & _ & H). apply result_bind_inv in H as ([] & H & _).
  apply check_duplicates_spec in H. tauto.
Qed.

(** * Soundness of the loop *)

Section Sound.
Context {secp : Secp256k1}.
Context (DynamicUsage : bytes -> Z) (DynamicUsage_nil : DynamicUsage [] = 0).
Context {V : Type} {OPS : CoinsViewOps V} {CV : CoinsView DynamicUsage V}.
Context {C : Type} {EC : ExecutionCache C}.
Context (hasher : CSHA256).
Context (m : BlockMap) (pindex : ptr) (height nLockTimeFlags flags : Z) (fScriptChecks queue : bool).
(** The cache of verified transactions when the block is taken up. *)
Context (sc0 : C).

Local Abbreviation shows := (shows DynamicUsage).
Local Abbreviation passes := (Forall (fun check => run_check check = Ok None)).

(** What is required of the scripts: they hold, or the cache vouches for them. *)
Definition script_rule (u : gmap COutPoint Coin) (tx : CTransaction) : Prop :=
  fScriptChecks = true -> cache_has sc0 (cache_entry hasher tx flags) \/ scripts_hold flags u tx.

Definition cache_within (sc : C) : Prop := forall x, cache_has sc x -> cache_has sc0 x.

Lemma run_inputs_ok checks : run_inputs checks = Ok (Ok ()) -> passes checks.
Proof.
  induction checks as [|check checks IH]; intros H; [done|]. cbn [run_inputs] in H.
  apply result_bind_inv in H as ([e|] & E & H); [|by constructor; auto].
  destruct (negb _); [|done]. apply result_bind_inv in H as ([e2|] & _ & H); done.
Qed.

Lemma CheckInputScripts_sound tx c u best sc checks c' sc' : IsCoinBase tx = false -> shows c u best ->
  inputs_there u (vin tx) -> cache_within sc ->
  CheckInputScripts DynamicUsage hasher tx c flags false sc queue = Ok (Ok checks, c', sc') ->
  shows c' u best /\ cache_within sc'
  /\ (passes checks -> cache_has sc0 (cache_entry hasher tx flags) \/ scripts_hold flags u tx).
Proof.
  intros Hcb Hs Hin Hsc H. unfold CheckInputScripts in H. rewrite Hcb in H. cbn [negb] in H.
  pose proof (cache_contains_has sc (cache_entry hasher tx flags) true) as Hhit.
  pose proof (cache_contains_keeps sc (cache_entry hasher tx flags) true) as Hkeep.
  destruct (cache_contains sc _ true) as [hit sc1]. cbn [fst snd] in Hhit, Hkeep.
  assert (cache_within sc1) as Hsc1 by (intros x Hx; by apply Hsc, Hkeep).
  destruct hit; [simplify_eq; split_and!; try done; left; by apply Hsc, Hhit|].
  destruct (spent_outputs_shows DynamicUsage (vin tx) c u best [] Hs Hin) as (c1 & E1 & Hs1). rewrite E1 in H.
  cbn [mbind result_bind app] in H. apply result_bind_inv in H as (txdata & Ed & H).
  destruct (negb _); [done|]. destruct queue.
  - simplify_eq. split_and!; try done. intros Hp. right. by exists txdata.
  - apply result_bind_inv in H as ([[]|] & Er & H); [|done]. simplify_eq. split_and!; try done. intros _. right.
    exists txdata. split; [done|]. by apply run_inputs_ok.
Qed.

Lemma connect_amounts_sound tx c u best fees fees' c' : IsCoinBase tx = false -> CheckTransaction tx = Ok () ->
  shows c u best -> 0 <= fees <= MAX_MONEY ->
  connect_amounts DynamicUsage m pindex height nLockTimeFlags tx c fees = Ok (Ok fees', c') ->
  shows c' u best /\ inputs_ok u tx height /\ fees' = fees + fee_of u tx /\ 0 <= fees' <= MAX_MONEY
  /\ exists hs, SequenceLocks m tx nLockTimeFlags ((fun i => coin_nHeight (coin_of u i)) <$> vin tx) pindex = Ok (true, hs).
Proof.
  intros Hcb Hct Hs Hf H. destruct (CheckTransaction_outputs tx Hct) as [Hr Hm]. unfold connect_amounts in H.
  destruct (CheckTxInputs_shows DynamicUsage c u best tx height Hs Hcb Hr Hm) as (r & c1 & E & Hs1 & Hv). rewrite E in H.
  cbn [mbind result_bind] in H. destruct r as [fee|[? ?]]; [|done].
  destruct (proj1 (Hv fee) eq_refl) as [Hok ->]. assert (total_out (vout tx) <= total_in u (vin tx) <= MAX_MONEY) by apply Hok.
  pose proof (total_out_nonneg _ Hr). rewrite i64_money in H by lia.
  destruct (MoneyRange _) eqn:Er; cbn [negb] in H; [|done]. apply MoneyRange_spec in Er.
  destruct (prev_heights_shows DynamicUsage (vin tx) c1 u best Hs1) as (c2 & E2 & Hs2). rewrite E2 in H.
  apply result_bind_inv in H as ([final hs] & El & H). destruct final; cbn [negb] in H; [|done]. simplify_eq.
  split; [done|]. unfold fee_of. rewrite Hcb. split_and!; try done; try lia. by exists hs.
Qed.

Lemma connect_tx_sound first tx s s' u best : CheckTransaction tx = Ok () -> shows (cn_view s) u best ->
  outputs_absent u [tx] -> 0 <= nFees s <= MAX_MONEY -> cache_within (cn_cache s) ->
  connect_tx DynamicUsage hasher m pindex height nLockTimeFlags flags fScriptChecks false queue first tx s = Ok (None, s') ->
  exists k checks, shows (cn_view s') (apply_tx height u tx) best /\ cache_within (cn_cache s')
    /\ nFees s' = nFees s + fee_of u tx /\ 0 <= nFees s' <= MAX_MONEY
    /\ sigop_cost u tx flags = Ok k /\ nSigOpsCost s' = nSigOpsCost s + k /\ nSigOpsCost s' <= MAX_BLOCK_SIGOPS_COST
    /\ blockundo s' = (if first then blockundo s else blockundo s ++ [undo_of u tx]) /\ control s' = control s ++ checks
    /\ (passes checks -> IsCoinBase tx = false ->
        spends_ok m pindex height nLockTimeFlags script_rule u (nFees s) tx).
Proof.
  intros Hct Hs Habs Hf Hsc H. unfold connect_tx in H. apply result_bind_inv in H as ([r c1] & Ea & H).
  destruct r as [fees|]; [|done].
  assert (shows c1 u best /\ fees = nFees s + fee_of u tx /\ 0 <= fees <= MAX_MONEY
    /\ (IsCoinBase tx = false -> inputs_ok u tx height
        /\ exists hs, SequenceLocks m tx nLockTimeFlags ((fun i => coin_nHeight (coin_of u i)) <$> vin tx) pindex = Ok (true, hs)))
    as (Hs1 & Hfee & Hfr & Hin).
  { destruct (IsCoinBase tx) eqn:Ecb; cbn [negb] in Ea.
    - simplify_eq. unfold fee_of. rewrite Ecb. split_and!; try done; lia.
    - destruct (connect_amounts_sound tx _ u best _ _ _ Ecb Hct Hs Hf Ea) as (? & ? & ? & ? & ?). done. }
  clear Ea.
  pose proof (GetTransactionSigOpCost_shows DynamicUsage c1 u best tx flags Hs1 ltac:(intros Hcb; apply (Hin Hcb))) as Hcost.
  destruct (sigop_cost u tx flags) as [k|]; [|by rewrite Hcost in H]. destruct Hcost as (c2 & Ec & Hs2). rewrite Ec in H.
  cbn [mbind result_bind] in H. destruct (Z.ltb_spec MAX_BLOCK_SIGOPS_COST (nSigOpsCost s + k)); [done|].
  apply result_bind_inv in H as ([[r c3] sc] & Es & H). destruct r as [checks|[? ?]]; [|done].
  assert (shows c3 u best /\ cache_within sc /\ (passes checks -> IsCoinBase tx = false -> script_rule u tx)) as (Hs3 & Hsc3 & Hscr).
  { destruct (IsCoinBase tx) eqn:Ecb; cbn [negb andb] in Es; [by simplify_eq|]. unfold script_rule.
    destruct fScriptChecks; [|by simplify_eq]. pose proof (proj1 (proj1 (Hin eq_refl))) as Hthere.
    destruct (CheckInputScripts_sound tx c2 u best _ checks c3 sc Ecb Hs2 Hthere Hsc Es) as (? & ? & ?). auto. }
  destruct (CheckTransaction_outputs tx Hct) as [Hr _].
  destruct (UpdateCoins_shows DynamicUsage DynamicUsage_nil c3 u best tx height Hs3 Hr (CheckTransaction_nodup tx Hct)
    ltac:(intros Hcb; apply (Hin Hcb)) Habs) as (c4 & Eu & Hs4).
  rewrite Eu in H. cbn [mbind result_bind] in H. simplify_eq. cbn [cn_view cn_cache nFees nSigOpsCost blockundo control] in *.
  exists k, checks. split_and!; try done; [lia..|]. intros Hp Hcb. destruct (Hin Hcb) as [Hi Hl].
  split_and!; try done; [lia|]. by apply Hscr.
Qed.

Lemma outputs_absent_step h u tx txs : outputs_absent u (tx :: txs) -> ~ In (ComputeHash tx) (ComputeHash <$> txs) ->
  outputs_absent (apply_tx h u tx) txs.
Proof.
  intros Habs Hni tx' j Hin Hj. unfold apply_tx. rewrite lookup_with_outputs. cbn [op_hash op_n]. rewrite decide_False.
  - assert (u !! OutPoint (ComputeHash tx') j = None) as E by (apply Habs; [by right|done]).
    destruct (IsCoinBase tx); [done|]. rewrite lookup_spend. by destruct (decide _).
  - intros [E _]. apply Hni. rewrite <- E. by apply (in_map ComputeHash).
Qed.

Lemma connect_txs_sound txs : forall first s s' u best, Forall (fun tx => CheckTransaction tx = Ok ()) txs ->
  shows (cn_view s) u best -> outputs_absent u txs -> NoDup (ComputeHash <$> txs) ->
  0 <= nFees s <= MAX_MONEY -> cache_within (cn_cache s) ->
  connect_txs DynamicUsage hasher m pindex height nLockTimeFlags flags fScriptChecks false queue first txs s = Ok (None, s') ->
  exists u' checks undos, shows (cn_view s') u' best /\ control s' = control s ++ checks
    /\ blockundo s' = blockundo s ++ (if first then tail undos else undos) /\ 0 <= nFees s' <= MAX_MONEY
    /\ (passes checks ->
        connects m pindex height nLockTimeFlags flags script_rule u (nFees s) (nSigOpsCost s) txs u' (nFees s') undos).
Proof.
  induction txs as [|tx txs IH]; intros first s s' u best Hct Hs Habs Hnd Hf Hsc H; cbn [connect_txs] in H.
  - simplify_eq. exists u, [], []. rewrite !app_nil_r. split_and!; try done; try lia.
    + by destruct first; rewrite app_nil_r.
    + intros _. constructor.
  - apply Forall_cons_iff in Hct as [Hct Hcts]. rewrite fmap_cons in Hnd. apply list.NoDup_cons in Hnd as [Hni Hnd].
    rewrite list_elem_of_In in Hni. apply result_bind_inv in H as ([e s1] & E & H). destruct e; [done|].
    destruct (connect_tx_sound first tx s s1 u best Hct Hs) as (k & checks & Hs1 & Hsc1 & Hfe & Hfr & Hk & Hcost & Hle & Hu & Hc & Hp);
      try done.
    { intros tx' j [<-|[]] Hj. apply Habs; [by left|done]. }
    destruct (IH false s1 s' _ best Hcts Hs1 (outputs_absent_step height u tx txs Habs Hni) Hnd Hfr Hsc1 H)
      as (u' & checks' & undos & Hs' & Hc' & Hu' & Hf' & Hp').
    exists u', (checks ++ checks'), (undo_of u tx :: undos). split_and!; try done; try lia.
    + by rewrite Hc', Hc, app_assoc.
    + rewrite Hu', Hu. destruct first; [done|]. by rewrite <- app_assoc.
    + intros [Hp1 Hp2]%Forall_app. apply (connects_cons _ _ _ _ _ _ _ _ _ _ _ k); [by intros; apply Hp|done|lia|].
      rewrite <- Hfe, <- Hcost. by apply Hp'.
Qed.

End Sound.

(** * The whole block *)

Section Block.
Context {secp : Secp256k1}.
Context (way8 way4 way2 : option (bytes -> bytes)).
Context (DynamicUsage : bytes -> Z) (DynamicUsage_nil : DynamicUsage [] = 0).
Context {V : Type} {OPS : CoinsViewOps V} {CV : CoinsView DynamicUsage V}.
Context {C : Type} {EC : ExecutionCache C}.
Context (hasher : CSHA256).
Context (Complete : list ScriptError -> option ScriptError).
(** The queue reports an error when a check failed. *)
Context (Complete_none : forall es, Complete es = None -> es = []).

Local Abbreviation shows := (shows DynamicUsage).

(** A block that is valid on the coins [u] and leads to [u'], with the coins its
    transactions spend. *)
Definition block_connects (cm : chainman) (block : CBlock) (pindex : ptr) (sc : C) (u u' : gmap COutPoint Coin)
    (undo : CBlockUndo) : Prop :=
  let m := m_block_index (cm_index cm) in
  exists b cb txs flags fScriptChecks fees,
    m !! pindex = Some b /\ vtx block = cb :: txs /\ IsCoinBase cb = true /\ Forall (fun tx => IsCoinBase tx = false) txs
    /\ GetBlockScriptFlags b (cm_params cm) = Ok flags /\ script_checks_needed cm pindex = Ok fScriptChecks
    /\ outputs_absent u (vtx block)
    /\ connects m pindex (nHeight b)
         (if DeploymentActiveAt b (cm_params cm) DEPLOYMENT_CSV then LOCKTIME_VERIFY_SEQUENCE else 0)
         flags (script_rule hasher flags fScriptChecks sc) u 0 0 (vtx block) u' fees ([] :: undo)
    /\ total_out (vout cb) <= fees + GetBlockSubsidy (nHeight b) (cm_params cm).

Lemma run_queue_none checks : run_queue checks = Ok [] -> Forall (fun check => run_check check = Ok None) checks.
Proof.
  induction checks as [|check checks IH]; intros H; [done|]. cbn [run_queue] in H.
  apply result_bind_inv in H as (r & E & H). apply result_bind_inv in H as (es & E2 & H). destruct r; [done|].
  simplify_eq. constructor; auto.
Qed.

Lemma CheckBlock_body block params pow_ merkle fl fl' : fChecked fl = false ->
  CheckBlock way8 way4 way2 block params pow_ merkle fl = Ok (Ok (), fl') -> check_block_body block = Ok (Ok ()).
Proof.
  intros Hfl. unfold CheckBlock. rewrite Hfl. destruct (CheckBlockHeader _ _ _); [|done]. intros H.
  apply result_bind_inv in H as (signet & _ & H). destruct (negb signet); [done|].
  destruct (if merkle then _ else _) as [[?|?] fl1]; [|done].
  apply result_bind_inv in H as ([[]|] & E & H); [done|done].
Qed.

Lemma Invalid_not_valid state r reason : state_IsValid (state_Invalid state r reason) = false.
Proof. unfold state_Invalid, state_IsValid. by destruct (m_mode state). Qed.

Lemma valid_unless (c : bool) state r reason :
  state_IsValid (if c && state_IsValid state then state_Invalid state r reason else state) = true ->
  state_IsValid state = true /\ c = false.
Proof.
  destruct c; cbn [andb]; [|done]. destruct (state_IsValid state) eqn:E; [by rewrite Invalid_not_valid|congruence].
Qed.

Lemma valid_complete errors state r f :
  state_IsValid (match Complete errors with
                 | Some e => if state_IsValid state then state_Invalid state r (f e) else state
                 | None => state
                 end) = true ->
  state_IsValid state = true /\ errors = [].
Proof.
  destruct (Complete errors) eqn:E; [|intros ->; split; [done|by apply Complete_none]].
  destruct (state_IsValid state) eqn:Ev; [by rewrite Invalid_not_valid|congruence].
Qed.

(** The part from the loop on, when it succeeds and the block is really connected. *)
Lemma connect_body_sound cm block pindex b fsc write fl view sc r u best :
  let m := m_block_index (cm_index cm) in
  m !! pindex = Some b -> script_checks_needed cm pindex = Ok fsc -> check_block_body block = Ok (Ok ()) ->
  NoDup (ComputeHash <$> vtx block) -> (enforce_bip30 cm b = Ok true \/ outputs_absent u (vtx block)) ->
  shows view u best ->
  connect_body DynamicUsage hasher Complete cm block pindex b fsc false write fl view sc = Ok r -> co_ok r = true ->
  exists u' undo hash view', block_connects cm block pindex sc u u' undo /\ co_undo r = Some undo /\ write undo = true
    /\ GetBlockHash b = Ok hash /\ shows view' u' best /\ co_view r = SetBestBlock view' hash
    /\ raise_scripts_valid (cm_index cm) pindex = Ok (co_index r).
Proof.
  intros m Hb Hfsc Hbody Hnd Hbip Hs H Hok. destruct (check_block_body_spec block Hbody) as (cb & txs & i & Ev & _ & Hcb & Hcbs & Hct).
  unfold connect_body in H. fold m in H. apply result_bind_inv in H as (bip30 & E30 & H).
  destruct (if bip30 then _ else _) as [overwrite view1] eqn:Eo.
  assert (shows view1 u best /\ (overwrite = false -> outputs_absent u (vtx block))) as [Hs1 Habs].
  { destruct bip30; [|simplify_eq; split; [done|]; intros _; destruct Hbip; [congruence|done]].
    destruct (bip30_check_shows DynamicUsage (vtx block) view u best false Hs) as (f & c' & E & ? & Hf). rewrite E in Eo.
    simplify_eq. split; [done|]. intros ->. by apply Hf. }
  apply result_bind_inv in H as (flags & Ef & H). apply result_bind_inv in H as ([e s] & Et & H).
  rewrite Ev in H at 1. cbn [mbind result_bind] in H.
  apply result_bind_inv in H as (value & Eval & H). apply result_bind_inv in H as (errors & Eq & H).
  match type of H with (if negb (state_IsValid ?st) then _ else _) = _ => destruct (state_IsValid st) eqn:Est end;
    cbn [negb] in H; [|by simplify_eq].
  apply valid_complete in Est as [Est ->]. apply valid_unless in Est as [Est Hvalue].
  destruct e as [[? ?]|]; [by rewrite Invalid_not_valid in Est|].
  destruct overwrite; [by rewrite Invalid_not_valid in Est|]. cbn [state_IsValid BlockState_new m_mode] in Et.
  destruct (write (blockundo s)) eqn:Ew; cbn [negb] in H; [|by simplify_eq].
  apply result_bind_inv in H as (bm & Ebm & H). apply result_bind_inv in H as (hash & Eh & H). simplify_eq. cbn [co_undo co_view co_index].
  specialize (Habs eq_refl). clear Hok.
  eapply connect_txs_sound with (sc0 := sc) (u := u) (best := best) in Et as (u' & checks & undos & Hs' & Hc & Hu & Hf & Hp);
    [|exact DynamicUsage_nil|exact Hct|exact Hs1|exact Habs|exact Hnd|cbn; unfold MAX_MONEY, COIN; lia|by intros x].
  cbn [control blockundo app nFees nSigOpsCost] in *.
  rewrite <- Hc in Hp. specialize (Hp (run_queue_none _ Eq)).
  exists u', (tail undos), hash, (cn_view s). rewrite Hu. split_and!; try done; [|by rewrite <- Hu].
  exists b, cb, txs, flags, fsc, (nFees s). split_and!; try done.
  - rewrite Ev in Hp |- *. inversion Hp; subst. unfold undo_of in *. rewrite Hcb in *. done.
  - destruct (CheckTransaction_outputs cb) as [Hr Hm]; [apply (proj1 (Forall_forall _ _) Hct); rewrite Ev; by left|].
    unfold GetValueOut in Eval. rewrite GetValueOut_loop_spec in Eval by (done || unfold MAX_MONEY, COIN in *; lia).
    simplify_eq. apply Z.ltb_ge in Hvalue. lia.
Qed.

Lemma connect_body_prev cm block pindex b fsc fJustCheck write fl view sc r :
  connect_body DynamicUsage hasher Complete cm block pindex b fsc fJustCheck write fl view sc = Ok r -> is_Some (pprev b).
Proof.
  unfold connect_body, enforce_bip30. intros H. apply result_bind_inv in H as (? & H & _).
  destruct (IsBIP30Repeat b); [|done]. cbn [mbind result_bind] in H. by destruct (pprev b).
Qed.

(** What a successful [ConnectBlock] has established.  [pindex] is not the genesis block. *)
Lemma ConnectBlock_shows cm block pindex b write fl view sc r u best :
  let m := m_block_index (cm_index cm) in
  let hash := CBlockHeader_GetHash (block_header block) in
  m !! pindex = Some b -> fChecked fl = false -> hash <> hashGenesisBlock (cm_params cm) -> hash <> uint256_null ->
  NoDup (ComputeHash <$> vtx block) -> (enforce_bip30 cm b = Ok true \/ outputs_absent u (vtx block)) ->
  shows view u best ->
  ConnectBlock way8 way4 way2 DynamicUsage hasher Complete cm block pindex false write fl view sc = Ok r -> co_ok r = true ->
  (exists q bq, pprev b = Some q /\ m !! q = Some bq /\ phashBlock bq = Some best)
  /\ check_block_body block = Ok (Ok ())
  /\ exists u' undo, block_connects cm block pindex sc u u' undo /\ co_undo r = Some undo /\ write undo = true
    /\ shows (co_view r) u' hash /\ raise_scripts_valid (cm_index cm) pindex = Ok (co_index r).
Proof.
  intros m hash Hb Hfl Hgen Hnull Hnd Hbip [Hok Hcoins Hbest] H Hr. unfold ConnectBlock in H. fold m hash in H.
  assert (deref m pindex = Ok b) as Ed by (unfold deref; by rewrite Hb). rewrite Ed in H. cbn [mbind result_bind] in H.
  destruct (bool_decide (phashBlock b = Some hash)) eqn:Eh; cbn [negb] in H; [|done]. apply bool_decide_eq_true in Eh.
  apply result_bind_inv in H as ([res fl'] & Ec & H). destruct res as [[]|[? ?]]; [|by simplify_eq].
  apply result_bind_inv in H as (prev & Ep & H). pose proof (GetBestBlock_spec DynamicUsage view Hok) as Hg.
  destruct (CCoinsViewCache_GetBestBlock view) as [best' view1]. destruct Hg as (-> & Hok1 & Hc1 & Hb1).
  destruct (bool_decide (prev = _)) eqn:Eb; cbn [negb] in H; [|done]. apply bool_decide_eq_true in Eb as ->.
  rewrite bool_decide_false in H by done. apply result_bind_inv in H as (fsc & Es & H).
  pose proof (CheckBlock_body _ _ _ _ _ _ Hfl Ec) as Hbody. split_and!; [|done|].
  - destruct (connect_body_prev _ _ _ _ _ _ _ _ _ _ _ H) as [q Eq]. rewrite Eq in Ep. unfold deref in Ep.
    destruct (m !! q) as [bq|] eqn:Em; [|done]. cbn [mbind result_bind] in Ep. unfold GetBlockHash in Ep.
    exists q, bq. split_and!; try done. destruct (phashBlock bq); [|done]. by simplify_eq.
  - eapply connect_body_sound with (u := u) (best := best) in H as (u' & undo & h & view' & Hcon & Hu & Hw & Ehash & Hs' & Hv & Hraise);
      try done; [|by constructor; [|rewrite Hc1|rewrite Hb1]].
    exists u', undo. split_and!; try done. unfold GetBlockHash in Ehash. rewrite Eh in Ehash. injection Ehash as <-. rewrite Hv.
    destruct Hs' as [Hok' Hc' Hb']. destruct (SetBestBlock_spec DynamicUsage view' hash Hok' Hnull) as (? & E & ?).
    constructor; [done|by rewrite E|done].
Qed.


End Block.

(** * A block that spends a coin, for the examples *)

Definition set_cache : ExecutionCache (gset bytes).
Proof.
  refine {| cache_contains c e erase := (bool_decide (e ∈ c), c);
            cache_insert c e := {[e]} ∪ c;
            cache_has c e := e ∈ c |}.
  - intros c e erase. cbn. apply bool_decide_eq_true_1.
  - done.
  - set_solver.
Defined.

Definition ex_regtest : Params :=
  MkParams uint256_null 150 ∅ 1000 uint256_null 0 0 0 0
    (MkPowParams (replicate 31 255 ++ [127]) true false false 600 600) false [].
Definition ex_mined (txs : list CTransaction) (nonce : Z) : CBlock :=
  Block (BlockHeader 4 (replicate 32 1) (ComputeMerkleRoot None None None (ComputeHash <$> txs)).1 0 0x207fffff nonce) txs.
Definition ex_entry (hash : bytes) (prev : option ptr) (height : Z) : CBlockIndex :=
  set_phashBlock (Some hash) (set_pprev prev (set_nHeight height
    (CBlockIndex_new (BlockHeader 4 uint256_null uint256_null 0 0x207fffff 0)))).
(** The block [hash] on top of a block of the given height. *)
Definition ex_manager (height : Z) (hash : bytes) : chainman :=
  Chainman ex_regtest
    (BlockMgr {[replicate 32 1 := ex_entry (replicate 32 1) None height;
                hash := ex_entry hash (Some (replicate 32 1)) (height + 1)]} ∅ (Some hash))
    uint256_null (repeat 0 8) true.
Definition ex_connect (height : Z) (hash : bytes) (block : CBlock) (db : coins_db) :=
  ConnectBlock (secp := parity_secp) (OPS := CCoinsViewDB_ops ex_usage ex_size 3) (EC := set_cache)
    None None None ex_usage CSHA256_new head (ex_manager height hash) block hash false (fun _ => true) unchecked
    (CCoinsViewCache_new db) ∅.

Definition ex_spending : CBlock := Eval vm_compute in ex_mined [ex_coinbase; ex_tx] 1.
Definition ex_hash : bytes := Eval vm_compute in CBlockHeader_GetHash (block_header ex_spending).

(** The example connects; its hash and the hashes of its transactions. *)
Lemma ex_connect_ok :
  match ex_connect 100 ex_hash ex_spending ex_db with Ok r => co_ok r | Err _ => false end = true
  /\ CBlockHeader_GetHash (block_header ex_spending) = ex_hash
  /\ enforce_bip30 (ex_manager 100 ex_hash) (ex_entry ex_hash (Some (replicate 32 1)) 101) = Ok true
  /\ bool_decide (NoDup (ComputeHash <$> vtx ex_spending)) = true.
Proof. split_and!; vm_compute; reflexivity. Qed.

Lemma ex_head es : @head ScriptError es = None -> es = [].
Proof. by destruct es. Qed.

#[local] Abbreviation ex_cache_ok := (cache_ok (OPS := CCoinsViewDB_ops ex_usage ex_size 3) (CV := CCoinsViewDB_view ex_usage ex_size 3 eq_refl) ex_usage).
#[local] Abbreviation ex_coins_of := (cache_coins (OPS := CCoinsViewDB_ops ex_usage ex_size 3) (CV := CCoinsViewDB_view ex_usage ex_size 3 eq_refl) ex_usage).

(** The premises of the theorems on connecting, for the example. *)
Lemma ex_connected :
  let hash := CBlockHeader_GetHash (block_header ex_spending) in
  (hash <> uint256_null /\ NoDup (ComputeHash <$> vtx ex_spending))
  /\ (enforce_bip30 (ex_manager 100 ex_hash) (ex_entry ex_hash (Some (replicate 32 1)) 101) = Ok true
     \/ outputs_absent (ex_coins_of (CCoinsViewCache_new ex_db)) (vtx ex_spending))
  /\ ex_cache_ok (CCoinsViewCache_new ex_db) /\ ex_coins_of (CCoinsViewCache_new ex_db) = {[ex_outpoint 0 := ex_coin 5]}
  /\ exists r, ex_connect 100 ex_hash ex_spending ex_db = Ok r /\ co_ok r = true /\ ex_cache_ok (co_view r).
Proof.
  destruct ex_connect_ok as (Hok & Hh & Hbip & Hnd). cbv zeta. rewrite Hh.
  destruct (ex_connect 100 ex_hash ex_spending ex_db) as [r|] eqn:E; [|discriminate Hok]. apply bool_decide_eq_true_1 in Hnd.
  destruct (cache_new_ok ex_usage (OPS := CCoinsViewDB_ops ex_usage ex_size 3)
    (CV := CCoinsViewDB_view ex_usage ex_size 3 eq_refl) ex_db ex_db_ok) as (Hnew & Hcoins & _).
  assert (ex_hash <> uint256_null) as Hnull by discriminate.
  split; [split; [exact Hnull|exact Hnd]|]. split; [left; exact Hbip|]. split; [exact Hnew|]. split; [exact Hcoins|].
  exists r. split; [reflexivity|]. split; [exact Hok|]. unfold ex_connect in E.
  eapply (ConnectBlock_shows (secp := parity_secp) (CV := CCoinsViewDB_view ex_usage ex_size 3 eq_refl) (EC := set_cache)
    None None None ex_usage eq_refl CSHA256_new head ex_head) with (b := ex_entry ex_hash (Some (replicate 32 1)) 101) in E as (_ & _ & u' & undo & _ & _ & _ & [Hr _ _] & _);
    [exact Hr|reflexivity|reflexivity|rewrite Hh; exact Hnull|rewrite Hh; exact Hnull|exact Hnd|left; exact Hbip| |exact Hok].
  constructor; [exact Hnew|reflexivity|reflexivity].
Qed.

