(* ===== verification/Supply.v ===== *)
(** The money supply: a connected block adds at most its subsidy to the total value of
    the unspent coins, and the subsidies of all heights add up to at most
    [100 * COIN] times the halving interval. *)

From S2P Require Import Prelude Serialize ArithUint256 MerkleDamgard Sha2 Hash Transaction Merkle Script Coins CoinsProofs CoinsDB CoinsSpec.
From S2P Require Import BlockIndex BlockIndexSpec Pow PubKey Interpreter SigHash TxVerify BlockChecks Connect ConnectSpec.

#[local] Opaque Hash ComputeHash ComputeWitnessHash SerializeTransaction CSHA256_Write CSHA256_Finalize.

(** * The value of a set of coins *)

Definition supply (u : gmap COutPoint Coin) : Z := map_fold (fun _ co acc => nValue (out co) + acc) 0 u.

Lemma supply_insert u o co : u !! o = None -> supply (<[o := co]> u) = nValue (out co) + supply u.
Proof. intros H. unfold supply. rewrite map_fold_insert_L; [done| |done]. intros; lia. Qed.

Lemma supply_delete u o co : u !! o = Some co -> supply u = nValue (out co) + supply (delete o u).
Proof. intros H. rewrite <- (insert_delete_id u o co H) at 1. apply supply_insert, lookup_delete_eq. Qed.

Lemma supply_spend ins : forall u, inputs_there u ins -> NoDup (prevout <$> ins) ->
  supply (spend u ins) + total_in u ins = supply u.
Proof.
  induction ins as [|i ins IH]; intros u Hin Hnd; cbn [spend total_in foldl foldr]; [lia|].
  apply Forall_cons_iff in Hin as [[co Hco] Hin]. rewrite fmap_cons in Hnd. apply list.NoDup_cons in Hnd as [Hni Hnd].
  fold (spend (delete (prevout i) u) ins) (total_in u ins).
  assert (Forall (fun j => prevout j <> prevout i) ins) as Hne.
  { apply Forall_forall. intros j Hj E. apply Hni. rewrite <- E. by apply list_elem_of_fmap_2, list_elem_of_In. }
  assert (total_in u ins = total_in (delete (prevout i) u) ins) as ->.
  { clear - Hne. unfold total_in. induction Hne; cbn [foldr]; [done|]. rewrite IHHne, coin_of_delete; done. }
  rewrite (supply_delete u (prevout i) co Hco), <- (IH (delete (prevout i) u)); [unfold coin_of; rewrite Hco; cbn; lia| |done].
  apply Forall_forall. intros j Hj. pose proof (proj1 (Forall_forall _ _) Hne j Hj). rewrite lookup_delete_ne by done.
  exact (proj1 (Forall_forall _ _) Hin j Hj).
Qed.

Lemma supply_outputs txid cb h outs : forall u i, outputs_in_range outs ->
  (forall j, i <= j < i + zlen outs -> u !! OutPoint txid j = None) ->
  supply (with_outputs u txid cb h i outs) <= supply u + total_out outs.
Proof.
  unfold zlen. induction outs as [|x outs IH]; intros u i Hr Ha; cbn [with_outputs]; [unfold total_out; cbn; lia|].
  apply Forall_cons_iff in Hr as [Hx Hr]. cbn [length] in Ha.
  assert (total_out (x :: outs) = nValue x + total_out outs) as -> by done.
  etransitivity; [apply IH; [done|]|].
  - intros j Hj. destruct (IsUnspendable _); [apply Ha; lia|]. rewrite lookup_insert_ne by (intros [= ?]; lia). apply Ha. lia.
  - destruct (IsUnspendable _); [lia|]. rewrite supply_insert by (apply Ha; lia). cbn [Coin_new out]. lia.
Qed.

(** * One block *)

(** What the coinbase transactions pay. *)
Definition minted (txs : list CTransaction) : Z :=
  foldr (fun tx acc => (if IsCoinBase tx then total_out (vout tx) else 0) + acc) 0 txs.

Lemma supply_apply_tx h u tx : CheckTransaction tx = Ok () -> outputs_absent u [tx] ->
  (IsCoinBase tx = false -> inputs_there u (vin tx)) ->
  supply (apply_tx h u tx) + fee_of u tx <= supply u + (if IsCoinBase tx then total_out (vout tx) else 0).
Proof.
  intros Hct Habs Hin. destruct (CheckTransaction_outputs tx Hct) as [Hr _]. unfold apply_tx, fee_of.
  assert (forall w : gmap COutPoint Coin, (forall o, u !! o = None -> w !! o = None) -> forall j, 0 <= j < 0 + zlen (vout tx) ->
    w !! OutPoint (ComputeHash tx) j = None) as Ha.
  { intros w Hw j Hj. apply Hw, Habs; [by left|lia]. }
  destruct (IsCoinBase tx).
  - pose proof (supply_outputs (ComputeHash tx) true h (vout tx) u 0 Hr (Ha u ltac:(done))). lia.
  - opose proof (supply_outputs (ComputeHash tx) false h (vout tx) (spend u (vin tx)) 0 Hr _) as Hs;
      [apply Ha; intros o Ho; rewrite lookup_spend; by destruct (decide _)|].
    pose proof (supply_spend (vin tx) u (Hin eq_refl) (CheckTransaction_nodup tx Hct)).
    lia.
Qed.

Lemma connects_supply {secp : Secp256k1} m pindex height lt flags scripts u fees cost txs u' fees' undos :
  connects m pindex height lt flags scripts u fees cost txs u' fees' undos ->
  Forall (fun tx => CheckTransaction tx = Ok ()) txs -> outputs_absent u txs -> NoDup (ComputeHash <$> txs) ->
  supply u' + fees' <= supply u + fees + minted txs.
Proof.
  induction 1 as [|u fees cost tx txs k u' fees' undos Hok Hk Hc _ IH]; intros Hct Habs Hnd; [unfold minted; cbn; lia|].
  apply Forall_cons_iff in Hct as [Hct Hcts]. rewrite fmap_cons in Hnd. apply list.NoDup_cons in Hnd as [Hni Hnd].
  rewrite list_elem_of_In in Hni. specialize (IH Hcts (outputs_absent_step height u tx txs Habs Hni) Hnd).
  assert (minted (tx :: txs) = (if IsCoinBase tx then total_out (vout tx) else 0) + minted txs) as -> by done.
  opose proof (supply_apply_tx height u tx Hct _ _) as Hs; [|intros Hcb; apply (Hok Hcb)|lia].
  intros tx' j [<-|[]] Hj. apply Habs; [by left|done].
Qed.

Lemma minted_none txs : Forall (fun tx => IsCoinBase tx = false) txs -> minted txs = 0.
Proof. unfold minted. induction 1 as [|tx txs Hcb _ IH]; cbn [foldr]; [done|]. rewrite Hcb. lia. Qed.

(** * The subsidies *)

(** The subsidies of the heights [1 .. n]. *)
Fixpoint subsidies (params : Params) (n : nat) : Z :=
  match n with O => 0 | S n => subsidies params n + GetBlockSubsidy (Z.of_nat (S n)) params end.

Lemma subsidy_le h params : 0 <= h -> 0 < nSubsidyHalvingInterval params ->
  0 <= GetBlockSubsidy h params <= Z.shiftr (50 * COIN) (h / nSubsidyHalvingInterval params).
Proof.
  intros Hh HI. unfold GetBlockSubsidy. rewrite Z.quot_div_nonneg by lia.
  assert (0 <= Z.shiftr (50 * COIN) (h / nSubsidyHalvingInterval params)) by (apply Z.shiftr_nonneg; unfold COIN; lia).
  destruct (_ <=? _); lia.
Qed.

Lemma shiftr_halves c q : 0 <= q -> 2 * Z.shiftr c (q + 1) <= Z.shiftr c q.
Proof. intros Hq. rewrite <- Z.shiftr_shiftr, (Z.shiftr_div_pow2 _ 1) by lia. change (2 ^ 1) with 2. Z.to_euclidean_division_equations; lia. Qed.

(** What is left to pay in the halving period of height [h], with one more period of
    the same subsidy, bounds what all later blocks pay. *)
Definition left_over (I h : Z) : Z := (I - h mod I + I) * Z.shiftr (50 * COIN) (h / I).

Lemma left_over_step I h : 0 < I -> 0 <= h -> Z.shiftr (50 * COIN) (h / I) + left_over I (h + 1) <= left_over I h.
Proof.
  intros HI Hh. unfold left_over. assert (h = I * (h / I) + h mod I) as Eh by (apply Z.div_mod; lia).
  pose proof (Z.mod_pos_bound h I HI). pose proof (Z.div_pos h I Hh HI).
  set (q := h / I) in *. set (r := h mod I) in *. destruct (decide (r = I - 1)) as [Er|Er].
  - assert ((h + 1) / I = q + 1) as -> by (symmetry; apply (Z.div_unique _ _ _ 0); lia).
    assert ((h + 1) mod I = 0) as -> by (symmetry; apply (Z.mod_unique _ _ (q + 1)); lia).
    pose proof (shiftr_halves (50 * COIN) q ltac:(done)). nia.
  - assert ((h + 1) / I = q) as -> by (symmetry; apply (Z.div_unique _ _ _ (r + 1)); lia).
    assert ((h + 1) mod I = r + 1) as -> by (symmetry; apply (Z.mod_unique _ _ q); lia). nia.
Qed.

Lemma left_over_nonneg I h : 0 < I -> 0 <= left_over I h.
Proof.
  intros HI. unfold left_over. pose proof (Z.mod_pos_bound h I HI).
  assert (0 <= Z.shiftr (50 * COIN) (h / I)) by (apply Z.shiftr_nonneg; unfold COIN; lia). nia.
Qed.

Lemma subsidies_le params n : 0 < nSubsidyHalvingInterval params ->
  0 <= subsidies params n <= 100 * COIN * nSubsidyHalvingInterval params.
Proof.
  intros HI. set (I := nSubsidyHalvingInterval params) in *.
  assert (0 <= subsidies params n /\ subsidies params n + left_over I (Z.of_nat n + 1) <= left_over I 0) as [H0 H].
  { induction n as [|n [IH1 IH2]]; cbn [subsidies].
    - pose proof (left_over_step I 0 HI ltac:(lia)). assert (0 <= Z.shiftr (50 * COIN) (0 / I)) by (apply Z.shiftr_nonneg; unfold COIN; lia).
      change (Z.of_nat 0 + 1) with (0 + 1). lia.
    - pose proof (subsidy_le (Z.of_nat (S n)) params ltac:(lia) HI) as Hs. fold I in Hs.
      pose proof (left_over_step I (Z.of_nat (S n)) HI ltac:(lia)) as Hl. rewrite Nat2Z.inj_succ in Hl, Hs |- *. 
      rewrite <- Z.add_1_r in Hl, Hs |- *. lia. }
  pose proof (left_over_nonneg I (Z.of_nat n + 1) HI). assert (left_over I 0 = 100 * COIN * I) as E; [|lia].
  unfold left_over. rewrite Z.mod_0_l, Z.div_0_l by lia. rewrite Z.shiftr_0_r. unfold COIN. lia.
Qed.

(** * A chain of blocks *)

Section Chain.
Context {secp : Secp256k1}.
Context (way8 way4 way2 : option (bytes -> bytes)).
Context (DynamicUsage : bytes -> Z) (DynamicUsage_nil : DynamicUsage [] = 0).
Context {V : Type} {OPS : CoinsViewOps V} {CV : CoinsView DynamicUsage V}.
Context {C : Type} {EC : ExecutionCache C}.
Context (hasher : CSHA256).
Context (Complete : list ScriptError -> option ScriptError).
Context (Complete_none : forall es, Complete es = None -> es = []).
Context (params : Params).

Local Abbreviation shows := (shows DynamicUsage).

Lemma block_connects_supply cm block pindex b sc u u' undo : block_connects hasher cm block pindex sc u u' undo ->
  m_block_index (cm_index cm) !! pindex = Some b -> check_block_body block = Ok (Ok ()) -> NoDup (ComputeHash <$> vtx block) ->
  supply u' <= supply u + GetBlockSubsidy (nHeight b) (cm_params cm).
Proof.
  intros (b' & cb & txs & flags & fsc & fees & Hb & Ev & Hcb & Hcbs & _ & _ & Habs & Hcon & Hval) Hb' Hbody Hnd. simplify_eq.
  destruct (check_block_body_spec block Hbody) as (_ & _ & _ & _ & _ & _ & _ & Hct).
  pose proof (connects_supply _ _ _ _ _ _ _ _ _ _ _ _ _ Hcon Hct Habs Hnd) as H. rewrite Ev in H.
  unfold minted in H. cbn [foldr] in H. fold (minted txs) in H. rewrite Hcb, (minted_none txs Hcbs) in H. lia.
Qed.

(** A run that connects the blocks of the heights [1 .. n] one after the other, from
    no coins at all: the coinbase of the genesis block is never added.  Between two
    blocks the cache may be replaced by one that shows the same coins, as after a
    flush, and the block index may grow. *)
Inductive chain_run : nat -> CCoinsViewCache V -> Prop :=
| run_genesis view best : shows view ∅ best -> chain_run 0 view
| run_view n view view' u best : chain_run n view -> shows view u best -> shows view' u best -> chain_run n view'
| run_block n view cm block pindex b write fl sc r u best :
    chain_run n view -> shows view u best ->
    cm_params cm = params -> m_block_index (cm_index cm) !! pindex = Some b -> nHeight b = Z.of_nat (S n) ->
    fChecked fl = false ->
    CBlockHeader_GetHash (block_header block) <> hashGenesisBlock params ->
    CBlockHeader_GetHash (block_header block) <> uint256_null ->
    NoDup (ComputeHash <$> vtx block) -> (enforce_bip30 cm b = Ok true \/ outputs_absent u (vtx block)) ->
    ConnectBlock way8 way4 way2 DynamicUsage hasher Complete cm block pindex false write fl view sc = Ok r -> co_ok r = true ->
    chain_run (S n) (co_view r).


End Chain.

(** The first block of a chain, for the example. *)
Definition ex_first : CBlock := Eval vm_compute in ex_mined [ex_coinbase] 3.
Definition ex_first_hash : bytes := Eval vm_compute in CBlockHeader_GetHash (block_header ex_first).
Definition ex_empty_db : coins_db := CoinsDb ∅ (Some (replicate 32 1)) None.

Lemma ex_empty_db_ok : db_ok ex_empty_db.
Proof. constructor; cbn; [|intros h [= <-]; done|done]. intros k c. by rewrite lookup_empty. Qed.

Lemma ex_first_ok :
  match ex_connect 0 ex_first_hash ex_first ex_empty_db with Ok r => co_ok r | Err _ => false end = true
  /\ CBlockHeader_GetHash (block_header ex_first) = ex_first_hash
  /\ enforce_bip30 (ex_manager 0 ex_first_hash) (ex_entry ex_first_hash (Some (replicate 32 1)) 1) = Ok true.
Proof. split_and!; vm_compute; reflexivity. Qed.

