(* ===== verification/Disconnect.v ===== *)
(** Disconnecting a block: [DisconnectBlock] on the coins that [ConnectBlock] left, with
    the undo data read back from the file, restores the coins and the best block. *)

From S2P Require Import Prelude Serialize ArithUint256 MerkleDamgard Sha2 Hash Transaction Merkle Script Coins CoinsProofs CoinsDB CoinsSpec.
From S2P Require Import BlockIndex BlockIndexSpec Pow PubKey Interpreter SigHash TxVerify BlockChecks Connect Compressor ConnectSpec.

(** * Sizes *)

Lemma flat_map_at_least {A B} (f : A -> list B) (l : list A) : (forall a, f a <> []) -> (length l <= length (flat_map f l))%nat.
Proof.
  intros Hf. induction l as [|a l IH]; [done|]. cbn [flat_map length]. rewrite length_app.
  specialize (Hf a). destruct (f a); [done|]. cbn [length]. lia.
Qed.

Lemma CheckTransaction_inputs tx : CheckTransaction tx = Ok () -> zlen (vin tx) <= MAX_SIZE.
Proof.
  unfold CheckTransaction. intros H. do 2 (destruct (bool_decide _) in H; [done|]).
  destruct (_ <? _) eqn:E in H; [done|]. bool_props. unfold SerializeTransaction, ser_vin, VectorFormatter_Ser in E. rewrite !length_app in E.
  assert (length (vin tx) <= length (flat_map ser_txin (vin tx)))%nat.
  { apply flat_map_at_least. intros i Hi. apply (f_equal length) in Hi. unfold ser_txin in Hi. rewrite !length_app in Hi. cbn in Hi. lia. }
  unfold zlen, MAX_SIZE, MAX_BLOCK_WEIGHT, WITNESS_SCALE_FACTOR in *. lia.
Qed.

#[local] Opaque Hash ComputeHash ComputeWitnessHash SerializeTransaction CSHA256_Write CSHA256_Finalize.

(** * Coins that can be restored *)

(** A coin as [AddCoins] makes it at a height above 0. *)
Definition coin_wf (co : Coin) : Prop :=
  IsSpent co = false /\ IsUnspendable (scriptPubKey (out co)) = false /\ 0 < coin_nHeight co < 2 ^ 31.

Abbreviation coins_wf := (map_Forall (fun (_ : COutPoint) co => coin_wf co)).

Fixpoint without_outputs (w : gmap COutPoint Coin) (hash : bytes) (i : Z) (outs : list CTxOut) : gmap COutPoint Coin :=
  match outs with
  | [] => w
  | x :: outs => without_outputs (if IsUnspendable (scriptPubKey x) then w else delete (OutPoint hash i) w) hash (i + 1) outs
  end.

Lemma lookup_without_outputs hash outs : forall w i o,
  without_outputs w hash i outs !! o =
  if decide (op_hash o = hash /\ i <= op_n o < i + zlen outs) then
    match nth_error outs (Z.to_nat (op_n o - i)) with
    | Some x => if IsUnspendable (scriptPubKey x) then w !! o else None
    | None => w !! o
    end
  else w !! o.
Proof.
  unfold zlen. induction outs as [|x outs IH]; intros w i [h n]; cbn [without_outputs length op_hash op_n].
  - rewrite decide_False by lia. done.
  - rewrite IH. clear IH. cbn [op_hash op_n].
    destruct (decide (h = hash /\ i + 1 <= n < i + 1 + Z.of_nat (length outs))) as [[-> Hn]|Hn].
    + rewrite decide_True by (split; [done|lia]). replace (Z.to_nat (n - i)) with (S (Z.to_nat (n - (i + 1)))) by lia. cbn [nth_error].
      destruct (nth_error outs (Z.to_nat (n - (i + 1)))); destruct (IsUnspendable (scriptPubKey x)); try done;
        rewrite lookup_delete_ne by (intros [= ->]; lia); done.
    + destruct (decide (h = hash /\ n = i)) as [[-> ->]|Hne].
      * rewrite decide_True by (split; [done|lia]). replace (Z.to_nat (i - i)) with O by lia. cbn [nth_error].
        destruct (IsUnspendable (scriptPubKey x)); [done|]. by rewrite lookup_delete_eq.
      * rewrite (decide_False (P := h = hash /\ i <= n < _)) by (intros [-> ?]; destruct (decide (n = i)); [tauto|apply Hn; split; [done|lia]]).
        destruct (IsUnspendable (scriptPubKey x)); [done|].
        rewrite lookup_delete_ne; [done|]. intros [= -> ->]. tauto.
Qed.

Lemma without_with_outputs hash cb h outs u :
  (forall j, 0 <= j < zlen outs -> u !! OutPoint hash j = None) ->
  without_outputs (with_outputs u hash cb h 0 outs) hash 0 outs = u.
Proof.
  intros Ha. apply map_eq. intros [h' n]. rewrite lookup_without_outputs, !lookup_with_outputs. cbn [op_hash op_n].
  destruct (decide _) as [[-> Hn]|]; [|done]. destruct (nth_error outs _) as [x|]; [|done].
  destruct (IsUnspendable _); [done|]. by rewrite Ha by lia.
Qed.

Lemma with_outputs_wf hash cb h outs u : coins_wf u -> outputs_in_range outs -> 0 < h < 2 ^ 31 ->
  coins_wf (with_outputs u hash cb h 0 outs).
Proof.
  intros Hu Hr Hh o co. rewrite lookup_with_outputs. destruct (decide _) as [_|]; [|by apply Hu].
  destruct (nth_error outs _) as [x|] eqn:E; [|by apply Hu]. destruct (IsUnspendable _) eqn:Ex; [by apply Hu|].
  intros [= <-]. apply nth_error_In in E. pose proof (proj1 (Forall_forall _ _) Hr x E) as Hx. cbn in Hx.
  split; [|split]; cbn [Coin_new out coin_nHeight]; [|done|].
  - unfold IsSpent, CTxOut_IsNull. cbn. apply Z.eqb_neq. lia.
  - rewrite wrap_small by (unfold is_uint; lia). lia.
Qed.

Lemma spend_wf u ins : coins_wf u -> coins_wf (spend u ins).
Proof. intros Hu o co. rewrite lookup_spend. destruct (decide _); [done|]. apply Hu. Qed.

(** Connecting keeps the coins well formed. *)
Lemma apply_tx_wf h u tx : coins_wf u -> CheckTransaction tx = Ok () -> 0 < h < 2 ^ 31 -> coins_wf (apply_tx h u tx).
Proof.
  intros Hu Hct Hh. destruct (CheckTransaction_outputs tx Hct) as [Hr _]. apply with_outputs_wf; [|done|done].
  destruct (IsCoinBase tx); [done|]. by apply spend_wf.
Qed.

(** * The loops *)

Section Undo.
Context (DynamicUsage : bytes -> Z) (DynamicUsage_nil : DynamicUsage [] = 0).
Context {V : Type} {OPS : CoinsViewOps V} {CV : CoinsView DynamicUsage V}.

Local Abbreviation shows := (shows DynamicUsage).

Lemma unspend_outputs_shows hash h cb exc fClean outs : 0 <= h < 2 ^ 31 -> forall c w best i, shows c w best ->
  (forall j x, nth_error outs j = Some x -> IsUnspendable (scriptPubKey x) = false ->
     w !! OutPoint hash (i + Z.of_nat j) = Some (Coin_new x h cb)) ->
  exists c', unspend_outputs DynamicUsage c hash outs i h cb exc fClean = (fClean, c')
    /\ shows c' (without_outputs w hash i outs) best.
Proof.
  intros Hh. induction outs as [|x outs IH]; intros c w best i Hs Hw; cbn [unspend_outputs without_outputs]; [by eauto|].
  assert (forall w' : gmap COutPoint Coin, (forall n, n <> i -> w' !! OutPoint hash n = w !! OutPoint hash n) ->
    forall j x, nth_error outs j = Some x -> IsUnspendable (scriptPubKey x) = false ->
     w' !! OutPoint hash (i + 1 + Z.of_nat j) = Some (Coin_new x h cb)) as Hrest.
  { intros w' E j y Hj Hy. rewrite E by lia. rewrite <- (Hw (S j) y Hj Hy). do 2 f_equal. lia. }
  destruct (IsUnspendable (scriptPubKey x)) eqn:Ex; cbn [negb]; [by apply IH; [|apply Hrest]|].
  specialize (Hw O x eq_refl Ex). rewrite Z.add_0_r in Hw.
  destruct (SpendCoin_shows DynamicUsage DynamicUsage_nil c w best _ _ Hs Hw) as (c1 & -> & Hs1).
  cbn [default from_option id Coin_new out coin_nHeight fCoinBase negb orb].
  rewrite bool_decide_true, wrap_small, Z.eqb_refl, Bool.eqb_reflx by (done || unfold is_uint; lia). cbn [negb orb andb].
  apply IH; [done|]. apply Hrest. intros n Hn. apply lookup_delete_ne. congruence.
Qed.

Lemma restore_inputs_app l1 : forall l2 c fClean,
  restore_inputs DynamicUsage c (l1 ++ l2) fClean =
  '(r, c) ← restore_inputs DynamicUsage c l1 fClean;
  match r with None => Ok (None, c) | Some fClean => restore_inputs DynamicUsage c l2 fClean end.
Proof.
  induction l1 as [|[i co] l1 IH]; intros l2 c fClean; cbn [app restore_inputs]; [done|].
  destruct (ApplyTxInUndo _ co c (prevout i)) as [[[] c1]|]; cbn [mbind result_bind]; try done; apply IH.
Qed.

Lemma ApplyTxInUndo_shows c u best o co : shows c u best -> u !! o = None -> coin_wf co ->
  exists c', ApplyTxInUndo DynamicUsage co c o = Ok (DISCONNECT_OK, c') /\ shows c' (<[o := co]> u) best.
Proof.
  intros Hs Ho (Hsp & Hun & Hh). unfold ApplyTxInUndo.
  destruct (HaveCoin_shows DynamicUsage c u best o Hs) as (c1 & -> & [Hok1 <- <-]).
  rewrite bool_decide_false by (rewrite Ho; by intros []). cbn [negb].
  rewrite (proj2 (Z.eqb_neq _ _)) by lia. cbn [mbind result_bind].
  destruct (AddCoin_spec DynamicUsage c1 o co false Hok1 Hsp Hun) as (c2 & -> & ? & ? & ?); [done|].
  cbn [throwing mbind result_bind]. eexists. split; [done|]. by constructor.
Qed.

Lemma restore_inputs_shows fClean ins : forall c u best, shows c (spend u ins) best -> coins_wf u ->
  inputs_there u ins -> NoDup (prevout <$> ins) ->
  exists c', restore_inputs DynamicUsage c (rev (zip ins (coin_of u <$> ins))) fClean = Ok (Some fClean, c') /\ shows c' u best.
Proof.
  induction ins as [|i ins IH]; intros c u best Hs Hwf Hin Hnd; [by eauto|].
  apply Forall_cons_iff in Hin as [[co Hco] Hin]. rewrite fmap_cons in Hnd. apply list.NoDup_cons in Hnd as [Hni Hnd].
  assert (forall j, In j ins -> prevout j <> prevout i) as Hne.
  { intros j Hj E. apply Hni. rewrite <- E. apply list_elem_of_fmap_2, list_elem_of_In. done. }
  assert (coin_of u <$> ins = coin_of (delete (prevout i) u) <$> ins) as E.
  { apply list_fmap_ext. intros k j Hj. symmetry. apply coin_of_delete, Hne, list_elem_of_In. by eapply list_elem_of_lookup_2. }
  rewrite fmap_cons, E. cbn [zip_with rev]. rewrite restore_inputs_app.
  destruct (IH c (delete (prevout i) u) best Hs) as (c1 & E1 & Hs1); [|apply Forall_forall; intros j Hj|done|].
  - intros o co' H. apply lookup_delete_Some in H as [_ H]. by apply (Hwf o).
  - rewrite lookup_delete_ne by (symmetry; auto). exact (proj1 (Forall_forall _ _) Hin j Hj).
  - rewrite E1. cbn [mbind result_bind restore_inputs].
    assert (coin_of u i = co) as -> by (unfold coin_of; by rewrite Hco).
    destruct (ApplyTxInUndo_shows c1 _ best (prevout i) co Hs1 (lookup_delete_eq _ _) (Hwf _ _ Hco)) as (c2 & -> & Hs2).
    cbn [mbind result_bind]. rewrite insert_delete_id in Hs2 by done. eauto.
Qed.

Lemma disconnect_txs_app h e l1 : forall l2 c fClean,
  disconnect_txs DynamicUsage c (l1 ++ l2) h e fClean =
  '(r, c) ← disconnect_txs DynamicUsage c l1 h e fClean;
  match r with None => Ok (None, c) | Some fClean => disconnect_txs DynamicUsage c l2 h e fClean end.
Proof.
  induction l1 as [|[tx undo] l1 IH]; intros l2 c fClean; cbn [app disconnect_txs]; [done|].
  destruct (unspend_outputs _ _ _ _ _ _ _ _ _) as [f c1].
  destruct (match undo with Some _ => _ | None => _ end) as [[[f2|] c2]|]; cbn [mbind result_bind]; done.
Qed.

(** The undo data of a transaction, as [DisconnectBlock] pairs them up. *)
Definition tx_undo (tx : CTransaction) (undo : CTxUndo) : CTransaction * option CTxUndo :=
  (tx, if IsCoinBase tx then None else Some undo).

Lemma disconnect_tx_shows c u best tx h e fClean : shows c (apply_tx h u tx) best -> coins_wf u -> CheckTransaction tx = Ok () ->
  (IsCoinBase tx = false -> inputs_there u (vin tx)) -> outputs_absent u [tx] -> 0 <= h < 2 ^ 31 ->
  exists c', disconnect_txs DynamicUsage c [tx_undo tx (undo_of u tx)] h e fClean = Ok (Some fClean, c') /\ shows c' u best.
Proof.
  intros Hs Hwf Hct Hin Habs Hh. unfold tx_undo, undo_of. cbn [disconnect_txs].
  set (u1 := if IsCoinBase tx then u else spend u (vin tx)).
  assert (forall j, 0 <= j < zlen (vout tx) -> u1 !! OutPoint (ComputeHash tx) j = None) as Ha.
  { intros j Hj. unfold u1. assert (u !! OutPoint (ComputeHash tx) j = None) by (apply Habs; [by left|done]).
    destruct (IsCoinBase tx); [done|]. rewrite lookup_spend. by destruct (decide _). }
  destruct (unspend_outputs_shows (ComputeHash tx) h (IsCoinBase tx) (IsCoinBase tx && negb e) fClean (vout tx) Hh c _ best 0 Hs)
    as (c1 & -> & Hs1).
  { intros j x Hj Hx. unfold apply_tx. rewrite lookup_with_outputs. cbn [op_hash op_n].
    assert (j < length (vout tx))%nat by (apply nth_error_Some; congruence).
    rewrite decide_True by (split; [done|unfold zlen; lia]). replace (Z.to_nat _) with j by lia. by rewrite Hj, Hx. }
  unfold apply_tx in Hs1. fold u1 in Hs1. rewrite without_with_outputs in Hs1 by done. unfold u1 in Hs1.
  destruct (IsCoinBase tx); cbn [mbind result_bind]; [by eauto|].
  replace (zlen (coin_of u <$> vin tx) =? zlen (vin tx)) with true by (unfold zlen; rewrite length_fmap; lia). cbn [negb].
  destruct (restore_inputs_shows fClean (vin tx) c1 u best Hs1 Hwf (Hin eq_refl) (CheckTransaction_nodup tx Hct)) as (c2 & -> & Hs2).
  cbn [mbind result_bind]. eauto.
Qed.

Lemma disconnect_connects {secp : Secp256k1} m pindex h lt flags scripts u fees cost txs u' fees' undos :
  connects m pindex h lt flags scripts u fees cost txs u' fees' undos ->
  Forall (fun tx => CheckTransaction tx = Ok ()) txs -> outputs_absent u txs -> NoDup (ComputeHash <$> txs) ->
  coins_wf u -> 0 < h < 2 ^ 31 -> forall c best e fClean, shows c u' best ->
  exists c', disconnect_txs DynamicUsage c (rev (zip_with tx_undo txs undos)) h e fClean = Ok (Some fClean, c') /\ shows c' u best.
Proof.
  induction 1 as [|u fees cost tx txs k u' fees' undos Hok Hk Hc _ IH]; intros Hct Habs Hnd Hwf Hh c best e fClean Hs; [by eauto|].
  apply Forall_cons_iff in Hct as [Hct Hcts]. rewrite fmap_cons in Hnd. apply list.NoDup_cons in Hnd as [Hni Hnd].
  rewrite list_elem_of_In in Hni. cbn [zip_with rev]. rewrite disconnect_txs_app.
  destruct (IH Hcts (outputs_absent_step h u tx txs Habs Hni) Hnd (apply_tx_wf h u tx Hwf Hct Hh) Hh c best e fClean Hs)
    as (c1 & -> & Hs1). cbn [mbind result_bind].
  apply disconnect_tx_shows; try done; [intros Hcb; apply (Hok Hcb)| |lia].
  intros tx' j [<-|[]] Hj. apply Habs; [by left|done].
Qed.

End Undo.

Lemma connects_length {secp : Secp256k1} m pindex h lt flags scripts u fees cost txs u' fees' undos :
  connects m pindex h lt flags scripts u fees cost txs u' fees' undos -> length undos = length txs.
Proof. induction 1; cbn [length]; congruence. Qed.

(** * The undo data that connecting writes can be stored *)

Lemma coin_wf_ok co : coin_wf co -> 0 <= nValue (out co) <= MAX_MONEY -> coin_ok co.
Proof.
  intros (_ & Hs & Hh) Hv. split_and!; [unfold MAX_MONEY, COIN in Hv; lia..| |unfold is_uint; lia].
  unfold IsUnspendable in Hs. destruct (scriptPubKey (out co)); bool_props; tauto || lia.
Qed.

Lemma undo_of_ok {secp : Secp256k1} m pindex h lt scripts u fees tx :
  spends_ok m pindex h lt scripts u fees tx -> coins_wf u -> CheckTransaction tx = Ok () ->
  Forall coin_ok (coin_of u <$> vin tx) /\ zlen (coin_of u <$> vin tx) <= MAX_SIZE.
Proof.
  intros ((Hthere & Hvals & _) & _) Hwf Hct. split; [|unfold zlen; rewrite length_fmap; by apply CheckTransaction_inputs].
  apply Forall_fmap, Forall_forall. intros i Hi. destruct (proj1 (Forall_forall _ _) Hthere i Hi) as [co Hco].
  destruct (proj1 (Forall_forall _ _) Hvals i Hi) as [_ Hv]. cbn. apply coin_wf_ok; [|done].
  unfold coin_of. rewrite Hco. by apply (Hwf (prevout i)).
Qed.

Lemma connects_undo_ok {secp : Secp256k1} m pindex h lt flags scripts u fees cost txs u' fees' undos :
  connects m pindex h lt flags scripts u fees cost txs u' fees' undos ->
  Forall (fun tx => CheckTransaction tx = Ok ()) txs -> coins_wf u -> 0 < h < 2 ^ 31 ->
  Forall (fun t => Forall coin_ok t /\ zlen t <= MAX_SIZE) undos.
Proof.
  induction 1 as [|u fees cost tx txs k u' fees' undos Hok Hk Hc _ IH]; intros Hct Hwf Hh; [constructor|].
  apply Forall_cons_iff in Hct as [Hct Hcts]. constructor; [|apply IH; [done|by apply apply_tx_wf|done]].
  unfold undo_of. destruct (IsCoinBase tx) eqn:E; [by repeat constructor|].
  eapply undo_of_ok; [by apply Hok|done|done].
Qed.

Lemma zip_tx_undo txs : forall undos, Forall (fun tx => IsCoinBase tx = false) txs ->
  zip txs (Some <$> undos) = zip_with tx_undo txs undos.
Proof.
  induction txs as [|tx txs IH]; intros [|undo undos] H; try done. apply Forall_cons_iff in H as [Hcb H].
  rewrite fmap_cons. cbn [zip_with]. unfold tx_undo at 1. by rewrite Hcb, IH.
Qed.

(** * The whole block *)

Lemma raise_scripts_valid_keeps bm pindex bm' p b : raise_scripts_valid bm pindex = Ok bm' -> m_block_index bm !! p = Some b ->
  exists b', m_block_index bm' !! p = Some b' /\ phashBlock b' = phashBlock b /\ pprev b' = pprev b /\ nHeight b' = nHeight b.
Proof.
  unfold raise_scripts_valid, deref. intros H Hp. destruct (m_block_index bm !! pindex) as [b0|] eqn:E0; [|done].
  apply result_bind_inv in H as (b1 & [= <-] & H). apply result_bind_inv in H as (valid & _ & H).
  destruct valid; cbn [negb] in H; [simplify_eq; by eauto|]. apply result_bind_inv in H as ([b2 ?] & Er & H). simplify_eq.
  cbn [m_block_index]. destruct (decide (p = pindex)) as [->|]; [|rewrite lookup_insert_ne by done; by eauto].
  rewrite lookup_insert_eq. simplify_eq. exists b2. split; [done|]. unfold RaiseValidity in Er.
  repeat case_match; try discriminate Er; injection Er as <- _; by destruct b0.
Qed.

Section Block.
Context {secp : Secp256k1} {CK : CompressedKeys secp}.
Context (sizeof_Coin sizeof_CTxUndo : Z).
Context (coins_fit : 0 < MAX_VECTOR_ALLOCATE / sizeof_Coin) (undos_fit : 0 < MAX_VECTOR_ALLOCATE / sizeof_CTxUndo).
Context (way8 way4 way2 : option (bytes -> bytes)).
Context (DynamicUsage : bytes -> Z) (DynamicUsage_nil : DynamicUsage [] = 0).
Context {V : Type} {OPS : CoinsViewOps V} {CV : CoinsView DynamicUsage V}.
Context {C : Type} {EC : ExecutionCache C}.
Context (hasher : CSHA256).
Context (Complete : list ScriptError -> option ScriptError).
Context (Complete_none : forall es, Complete es = None -> es = []).

Local Abbreviation shows := (shows DynamicUsage).

Lemma DisconnectBlock_shows cm block pindex b sc u u' undo m q bq prev c best : block_connects hasher cm block pindex sc u u' undo ->
  m_block_index (cm_index cm) !! pindex = Some b -> check_block_body block = Ok (Ok ()) -> NoDup (ComputeHash <$> vtx block) ->
  coins_wf u -> 0 < nHeight b < 2 ^ 31 -> prev <> uint256_null -> is_Some (phashBlock b) ->
  (exists b', m !! pindex = Some b' /\ phashBlock b' = phashBlock b /\ pprev b' = Some q /\ nHeight b' = nHeight b) ->
  m !! q = Some bq -> phashBlock bq = Some prev -> shows c u' best ->
  exists c', DisconnectBlock DynamicUsage m block pindex (Some undo) c = Ok (DISCONNECT_OK, c') /\ shows c' u prev.
Proof.
  intros (b0 & cb & txs & flags & fsc & fees & Hb & Ev & Hcb & Hcbs & _ & _ & Habs & Hcon & _) Hb' Hbody Hnd Hwf Hh Hprev [bh Ebh].
  rewrite Hb' in Hb. injection Hb as <-. intros (b' & Em & Eh' & Ep & Ehh) Eq Ebq Hs.
  destruct (check_block_body_spec block Hbody) as (_ & _ & _ & _ & _ & _ & _ & Hct).
  pose proof (connects_length _ _ _ _ _ _ _ _ _ _ _ _ _ Hcon) as Hlen. unfold DisconnectBlock.
  replace (zlen undo + 1 =? zlen (vtx block)) with true by (cbn [length] in Hlen; unfold zlen; lia). cbn [negb].
  unfold deref. rewrite Em. cbn [mbind result_bind].
  assert (exists x, IsBIP30Unspendable b' = Ok x) as [x ->].
  { unfold IsBIP30Unspendable, either_block, is_block, GetBlockHash. rewrite Eh', Ebh.
    repeat (case_match; cbn [mbind result_bind]); eauto. }
  cbn [mbind result_bind]. rewrite Ehh, Ev. cbn [zip_with]. rewrite zip_tx_undo by done.
  assert ((cb, None) :: zip_with tx_undo txs undo = zip_with tx_undo (vtx block) ([] :: undo)) as ->.
  { rewrite Ev. cbn [zip_with]. unfold tx_undo at 2. by rewrite Hcb. }
  destruct (disconnect_connects DynamicUsage DynamicUsage_nil _ _ _ _ _ _ _ _ _ _ _ _ _ Hcon Hct Habs Hnd Hwf Hh c best (negb x) true Hs)
    as (c1 & -> & [Hok1 Hc1 _]). cbn [mbind result_bind]. rewrite Ep, Eq. cbn [mbind result_bind]. unfold GetBlockHash. rewrite Ebq.
  cbn [mbind result_bind]. destruct (SetBestBlock_spec DynamicUsage c1 prev Hok1 Hprev) as (? & E & ?).
  eexists. split; [done|]. constructor; [done|by rewrite E|done].
Qed.

Lemma block_undo_ok cm block pindex b sc u u' undo : block_connects hasher cm block pindex sc u u' undo ->
  m_block_index (cm_index cm) !! pindex = Some b -> check_block_body block = Ok (Ok ()) ->
  coins_wf u -> 0 < nHeight b < 2 ^ 31 -> undo_ok undo.
Proof.
  intros (b0 & cb & txs & flags & fsc & fees & Hb & Ev & _ & _ & _ & _ & _ & Hcon & _) Hb' Hbody Hwf Hh.
  rewrite Hb' in Hb. injection Hb as <-. destruct (check_block_body_spec block Hbody) as (_ & _ & _ & _ & _ & _ & _ & Hct).
  pose proof (connects_length _ _ _ _ _ _ _ _ _ _ _ _ _ Hcon) as Hlen.
  pose proof (connects_undo_ok _ _ _ _ _ _ _ _ _ _ _ _ _ Hcon Hct Hwf Hh) as Hu. apply Forall_cons_iff in Hu as [_ Hu].
  split; [done|]. unfold check_block_body in Hbody. rewrite Ev in Hbody, Hlen. destruct (_ || _) eqn:E in Hbody; [done|].
  bool_props. cbn [length] in *. unfold zlen, MAX_SIZE, MAX_BLOCK_WEIGHT, WITNESS_SCALE_FACTOR in *. cbn [length] in *. lia.
Qed.


End Block.

