(* ===== verification/Bech32.v ===== *)
(** Bech32 and Bech32m (src/bitcoin/src/bech32.h, bech32.cpp): the GF(32) and
    GF(1024) tables, the checksum, [Encode], [Decode] and [LocateErrors].  A
    [std::string] is the list of its characters as values of [unsigned char]. *)

From Stdlib Require Import Btauto.
From S2P Require Import Prelude.

(** * Tables *)

Definition CHECKSUM_SIZE : Z := 6.
Definition SEPARATOR : Z := 0x31.

Inductive Encoding := INVALID | BECH32 | BECH32M.

#[export] Instance Encoding_eq_dec : EqDecision Encoding.
Proof. solve_decision. Defined.

(** [CharLimit::BECH32] *)
Definition CharLimit_BECH32 : Z := 90.

Definition CHARSET : bytes := to_bytes "qpzry9x8gf2tvdw0s3jn54khce6mua7l".

Definition CHARSET_REV : list Z := [
  -1; -1; -1; -1; -1; -1; -1; -1; -1; -1; -1; -1; -1; -1; -1; -1;
  -1; -1; -1; -1; -1; -1; -1; -1; -1; -1; -1; -1; -1; -1; -1; -1;
  -1; -1; -1; -1; -1; -1; -1; -1; -1; -1; -1; -1; -1; -1; -1; -1;
  15; -1; 10; 17; 21; 20; 26; 30;  7;  5; -1; -1; -1; -1; -1; -1;
  -1; 29; -1; 24; 13; 25;  9;  8; 23; -1; 18; 22; 31; 27; 19; -1;
   1;  0;  3; 16; 11; 28; 12; 14;  6;  4;  2; -1; -1; -1; -1; -1;
  -1; 29; -1; 24; 13; 25;  9;  8; 23; -1; 18; 22; 31; 27; 19; -1;
   1;  0;  3; 16; 11; 28; 12; 14;  6;  4;  2; -1; -1; -1; -1; -1 ].

(** [array.at(i)], and the access [array[i]], which is undefined out of bounds. *)
Definition at_ {A} (l : list A) (i : Z) : result string A :=
  if i <? 0 then Err "out_of_range"
  else match l !! Z.to_nat i with Some x => Ok x | None => Err "out_of_range" end.

(** [array[i] = x] *)
Definition put (i x : Z) (l : list Z) : list Z := <[Z.to_nat i := x]> l.

(** The loop over [GF32_EXP] and [GF32_LOG]; [n] rounds are left. *)
Fixpoint gf32_loop (n : nat) (i v : Z) (GF32_EXP GF32_LOG : list Z) : list Z * list Z :=
  match n with
  | O => (GF32_EXP, GF32_LOG)
  | S n =>
      let v := Z.shiftl v 1 in
      let v := if negb (Z.land v 32 =? 0) then Z.lxor v 41 else v in
      gf32_loop n (i + 1) v (put i v GF32_EXP) (put v i GF32_LOG)
  end.

Definition GF32_tables : list Z * list Z :=
  gf32_loop 30 1 1 (put 0 1 (replicate 31 0)) (put 1 0 (put 0 (-1) (replicate 32 0))).

(** [e * v] *)
Definition times_e (GF32_EXP GF32_LOG : list Z) (v : Z) : result string Z :=
  let v0 := Z.land v 31 in
  let v1 := Z.shiftr v 5 in
  v0n ← (if negb (v1 =? 0)
         then l ← at_ GF32_LOG v1; k ← at_ GF32_LOG 23; at_ GF32_EXP ((l + k) mod 31)
         else Ok 0);
  v1n ← (if negb (v1 =? 0)
         then l ← at_ GF32_LOG v1; k ← at_ GF32_LOG 9; at_ GF32_EXP ((l + k) mod 31)
         else Ok 0);
  Ok (Z.lor (Z.shiftl (Z.lxor v1n v0) 5) v0n).

Fixpoint gf1024_loop (n : nat) (i v : Z) (GF1024_EXP GF1024_LOG : list Z) : result string (list Z * list Z) :=
  match n with
  | O => Ok (GF1024_EXP, GF1024_LOG)
  | S n =>
      v ← times_e GF32_tables.1 GF32_tables.2 v;
      gf1024_loop n (i + 1) v (put i v GF1024_EXP) (put v i GF1024_LOG)
  end.

Definition GenerateGFTables : result string (list Z * list Z) :=
  gf1024_loop 1022 1 1 (put 0 1 (replicate 1023 0)) (put 1 0 (put 0 (-1) (replicate 1024 0))).

(** A [constexpr] that the compiler evaluates; it would reject one that throws. *)
Definition constant {A} (default : A) (r : result string A) : A :=
  match r with Ok a => a | Err _ => default end.

Definition tables : list Z * list Z := constant ([], []) GenerateGFTables.
Definition GF1024_EXP : list Z := tables.1.
Definition GF1024_LOG : list Z := tables.2.

(** * Checksums *)

Definition EncodingConstant (encoding : Encoding) : result string Z :=
  match encoding with
  | INVALID => Err "encoding == Encoding::BECH32 || encoding == Encoding::BECH32M"
  | BECH32 => Ok 1
  | BECH32M => Ok 0x2bc830a3
  end.

(** One round of the loop of [PolyMod]. *)
Definition PolyMod_step (c v_i : Z) : Z :=
  let c0 := u8 (Z.shiftr c 25) in
  let c := Z.lxor (u32 (Z.shiftl (Z.land c 0x1ffffff) 5)) v_i in
  let c := if negb (Z.land c0 1 =? 0) then Z.lxor c 0x3b6a57b2 else c in
  let c := if negb (Z.land c0 2 =? 0) then Z.lxor c 0x26508e6d else c in
  let c := if negb (Z.land c0 4 =? 0) then Z.lxor c 0x1ea119fa else c in
  let c := if negb (Z.land c0 8 =? 0) then Z.lxor c 0x3d4233dd else c in
  if negb (Z.land c0 16 =? 0) then Z.lxor c 0x2a1462b3 else c.

Definition PolyMod (v : bytes) : Z := foldl PolyMod_step 1 v.

Definition syndrome_const (k shift : Z) : result string Z :=
  b ← at_ GF1024_LOG (Z.shiftl 1 shift);
  c0 ← at_ GF1024_EXP ((997 * k + b) mod 1023);
  c1 ← at_ GF1024_EXP ((998 * k + b) mod 1023);
  c2 ← at_ GF1024_EXP ((999 * k + b) mod 1023);
  Ok (Z.lor (Z.lor (Z.shiftl c2 20) (Z.shiftl c1 10)) c0).

(** The entries, in the order of their index [5 * (k - 1) + shift]. *)
Definition GenerateSyndromeConstants : result string (list Z) :=
  foldr (fun '(k, shift) rest => c ← syndrome_const k shift; cs ← rest; Ok (c :: cs)) (Ok [])
    (k ← [1; 2; 3; 4; 5]; shift ← [0; 1; 2; 3; 4]; [(k, shift)]).

Definition SYNDROME_CONSTS : list Z := constant [] GenerateSyndromeConstants.

(** The loop of [Syndrome], over the constants. *)
Fixpoint syndrome_loop (residue i : Z) (consts : list Z) (result : Z) : Z :=
  match consts with
  | [] => result
  | c :: consts =>
      syndrome_loop residue (i + 1) consts
        (Z.lxor result (if negb (Z.land (Z.shiftr residue (5 + i)) 1 =? 0) then c else 0))
  end.

Definition Syndrome (residue : Z) : Z :=
  let low := Z.land residue 0x1f in
  let result := Z.lxor (Z.lxor low (u32 (Z.shiftl low 10))) (u32 (Z.shiftl low 20)) in
  syndrome_loop residue 0 SYNDROME_CONSTS result.

(** * Characters *)

Definition is_lower (c : Z) : bool := (0x61 <=? c) && (c <=? 0x7a).
Definition is_upper (c : Z) : bool := (0x41 <=? c) && (c <=? 0x5a).

Definition LowerCase (c : Z) : Z := if is_upper c then c - 0x41 + 0x61 else c.

(** The positions that [CheckCharacters] reports; it returns whether there are none. *)
Fixpoint CheckCharacters_loop (str : bytes) (i : Z) (lower upper : bool) : list Z :=
  match str with
  | [] => []
  | c :: str =>
      if is_lower c then
        if upper then i :: CheckCharacters_loop str (i + 1) lower upper
        else CheckCharacters_loop str (i + 1) true upper
      else if is_upper c then
        if lower then i :: CheckCharacters_loop str (i + 1) lower upper
        else CheckCharacters_loop str (i + 1) lower true
      else if (c <? 33) || (126 <? c) then i :: CheckCharacters_loop str (i + 1) lower upper
      else CheckCharacters_loop str (i + 1) lower upper
  end.

Definition CheckCharacters (str : bytes) : list Z := CheckCharacters_loop str 0 false false.

(** The expanded human readable part and the values; [char] is signed. *)
Definition PreparePolynomialCoefficients (hrp values : bytes) : bytes :=
  ((fun c => u8 (Z.shiftr (swrap 8 c) 5)) <$> hrp) ++ [0] ++ ((fun c => Z.land c 0x1f) <$> hrp) ++ values.

Definition VerifyChecksum (hrp values : bytes) : result string Encoding :=
  let enc := PreparePolynomialCoefficients hrp values in
  let check := PolyMod enc in
  c ← EncodingConstant BECH32;
  if check =? c then Ok BECH32
  else c ← EncodingConstant BECH32M; if check =? c then Ok BECH32M else Ok INVALID.

(** [(mod >> (5 * (5 - i))) & 31] for [i] from 0 to 5. *)
Definition checksum_groups (mod_ : Z) : bytes :=
  (fun i => Z.land (Z.shiftr mod_ (5 * (5 - i))) 31) <$> [0; 1; 2; 3; 4; 5].

Definition CreateChecksum (encoding : Encoding) (hrp values : bytes) : result string bytes :=
  let enc := PreparePolynomialCoefficients hrp values ++ replicate 6 0 in
  c ← EncodingConstant encoding;
  Ok (checksum_groups (Z.lxor (PolyMod enc) c)).

(** * [Encode] and [Decode] *)

(** [CHARSET] is a string literal: its terminator can be read too. *)
Definition charset_at (i : Z) : result string Z := at_ (CHARSET ++ [0]) i.

Fixpoint encode_values (values : bytes) : result string bytes :=
  match values with
  | [] => Ok []
  | i :: values => c ← charset_at i; cs ← encode_values values; Ok (c :: cs)
  end.

Definition Encode (encoding : Encoding) (hrp values : bytes) : result string bytes :=
  if existsb is_upper hrp then Err "c < 'A' || c > 'Z'"
  else
    data ← encode_values values;
    checksum ← CreateChecksum encoding hrp values;
    checksum ← encode_values checksum;
    Ok (hrp ++ [SEPARATOR] ++ data ++ checksum).

Record DecodeResult := Decoded {
  encoding : Encoding;
  hrp : bytes;
  data : bytes
}.

Definition DecodeResult_invalid : DecodeResult := Decoded INVALID [] [].

(** [str.rfind(c)]; [None] is [npos]. *)
Fixpoint rfind (c : Z) (str : bytes) : option nat :=
  match str with
  | [] => None
  | x :: str => match rfind c str with
                | Some i => Some (S i)
                | None => if x =? c then Some 0%nat else None
                end
  end.

(** The values of the characters; [None] if one of them is not in the set. *)
Fixpoint decode_values (str : bytes) : result string (option bytes) :=
  match str with
  | [] => Ok (Some [])
  | c :: str =>
      rev ← at_ CHARSET_REV c;
      if rev =? -1 then Ok None
      else vs ← decode_values str; Ok (option_map (cons rev) vs)
  end.

Definition Decode (str : bytes) (limit : Z) : result string DecodeResult :=
  if negb (bool_decide (CheckCharacters str = [])) then Ok DecodeResult_invalid
  else if limit <? zlen str then Ok DecodeResult_invalid
  else match rfind SEPARATOR str with
       | None => Ok DecodeResult_invalid
       | Some pos =>
           if (pos =? 0)%nat || (zlen str <=? Z.of_nat pos + CHECKSUM_SIZE) then Ok DecodeResult_invalid
           else
             values ← decode_values (drop (pos + 1) str);
             match values with
             | None => Ok DecodeResult_invalid
             | Some values =>
                 let hrp := LowerCase <$> take pos str in
                 result ← VerifyChecksum hrp values;
                 if bool_decide (result = INVALID) then Ok DecodeResult_invalid
                 else Ok (Decoded result hrp (take (length values - 6) values))
             end
       end.

(** * [LocateErrors] *)

(** The first invalid character of the data part, from position [i]. *)
Fixpoint invalid_value (str : bytes) (i : Z) : result string (option Z) :=
  match str with
  | [] => Ok None
  | c :: str => rev ← at_ CHARSET_REV c; if rev =? -1 then Ok (Some i) else invalid_value str (i + 1)
  end.

(** [s == 0 ? 0 : GF1024_EXP.at((l_s + p) % 1023)] *)
Definition times_power (s l_s p : Z) : result string Z :=
  if s =? 0 then Ok 0 else at_ GF1024_EXP ((l_s + p) mod 1023).

(** One round of the loop over the first of two positions: [None] is [continue]. *)
Definition locate_pair (s0 s1 s2 l_s0 l_s1 length size p1 : Z) : result string (option (list Z)) :=
  t ← times_power s1 l_s1 p1;
  let s2_s1p1 := Z.lxor s2 t in
  if s2_s1p1 =? 0 then Ok None else
  l_s2_s1p1 ← at_ GF1024_LOG s2_s1p1;
  t ← times_power s0 l_s0 p1;
  let s1_s0p1 := Z.lxor s1 t in
  if s1_s0p1 =? 0 then Ok None else
  l_s1_s0p1 ← at_ GF1024_LOG s1_s0p1;
  let p2 := (l_s2_s1p1 - l_s1_s0p1 + 1023) mod 1023 in
  if (length <=? p2) || (p1 =? p2) then Ok None else
  t ← times_power s0 l_s0 p2;
  let s1_s0p2 := Z.lxor s1 t in
  if s1_s0p2 =? 0 then Ok None else
  l_s1_s0p2 ← at_ GF1024_LOG s1_s0p2;
  x1 ← at_ GF1024_EXP p1;
  x2 ← at_ GF1024_EXP p2;
  l ← at_ GF1024_LOG (Z.lxor x1 x2);
  let inv_p1_p2 := 1023 - l in
  let l_e2 := l_s1_s0p1 + inv_p1_p2 + (1023 - 997) * p2 in
  if negb (l_e2 mod 33 =? 0) then Ok None else
  let l_e1 := l_s1_s0p2 + inv_p1_p2 + (1023 - 997) * p1 in
  if negb (l_e1 mod 33 =? 0) then Ok None else
  Ok (Some (if p2 <? p1 then [size - p1 - 1; size - p2 - 1] else [size - p2 - 1; size - p1 - 1])).

(** The loop; [n] rounds are left. *)
Fixpoint locate_pairs (n : nat) (s0 s1 s2 l_s0 l_s1 length size p1 : Z) : result string (list Z) :=
  match n with
  | O => Ok []
  | S n =>
      found ← locate_pair s0 s1 s2 l_s0 l_s1 length size p1;
      match found with
      | Some errors => Ok errors
      | None => locate_pairs n s0 s1 s2 l_s0 l_s1 length size (p1 + 1)
      end
  end.

(** The errors that explain three syndromes. *)
Definition locate_syndromes (s0 s1 s2 length size : Z) : result string (list Z) :=
  l_s0 ← at_ GF1024_LOG s0;
  l_s1 ← at_ GF1024_LOG s1;
  l_s2 ← at_ GF1024_LOG s2;
  if negb (l_s0 =? -1) && negb (l_s1 =? -1) && negb (l_s2 =? -1)
     && ((2 * l_s1 - l_s2 - l_s0 + 2046) mod 1023 =? 0) then
    let p1 := (l_s1 - l_s0 + 1023) mod 1023 in
    let l_e1 := l_s0 + (1023 - 997) * p1 in
    if (p1 <? length) && (l_e1 mod 33 =? 0) then Ok [size - p1 - 1] else Ok []
  else locate_pairs (Z.to_nat length) s0 s1 s2 l_s0 l_s1 length size 0.

(** [possible_errors] for a residue that is not 0. *)
Definition possible_errors (residue length size : Z) : result string (list Z) :=
  let syn := Syndrome residue in
  locate_syndromes (Z.land syn 0x3FF) (Z.land (Z.shiftr syn 10) 0x3FF) (Z.shiftr syn 20) length size.

(** The loop over the encodings: [None] when one of them shows no error. *)
Fixpoint locate_encodings (encodings : list Encoding) (hrp values : bytes) (size : Z)
    (error_locations : list Z) (error_encoding : option Encoding) : result string (option (list Z * option Encoding)) :=
  match encodings with
  | [] => Ok (Some (error_locations, error_encoding))
  | encoding :: encodings =>
      c ← EncodingConstant encoding;
      let residue := Z.lxor (PolyMod (PreparePolynomialCoefficients hrp values)) c in
      if residue =? 0 then Ok None
      else
        errors ← possible_errors residue (zlen values) size;
        if bool_decide (error_locations = [])
           || (negb (bool_decide (errors = [])) && (zlen errors <? zlen error_locations)) then
          locate_encodings encodings hrp values size errors
            (if bool_decide (errors = []) then error_encoding else Some encoding)
        else locate_encodings encodings hrp values size error_locations error_encoding
  end.

Definition LocateErrors (str : bytes) (limit : Z) : result string (string * list Z) :=
  if limit <? zlen str then Ok ("Bech32 string too long", seqZ limit (zlen str - limit))
  else if negb (bool_decide (CheckCharacters str = [])) then
    Ok ("Invalid character or mixed case", CheckCharacters str)
  else match rfind SEPARATOR str with
       | None => Ok ("Missing separator", [])
       | Some pos =>
           if (pos =? 0)%nat || (zlen str <=? Z.of_nat pos + CHECKSUM_SIZE) then
             Ok ("Invalid separator position", [Z.of_nat pos])
           else
             let hrp := LowerCase <$> take pos str in
             invalid ← invalid_value (drop (pos + 1) str) (Z.of_nat pos + 1);
             match invalid with
             | Some i => Ok ("Invalid Base 32 character", [i])
             | None =>
                 values ← decode_values (drop (pos + 1) str);
                 r ← locate_encodings [BECH32; BECH32M] hrp (default [] values) (zlen str) [] None;
                 match r with
                 | None => Ok ("", [])
                 | Some (error_locations, error_encoding) =>
                     Ok (match error_encoding with
                         | Some BECH32M => "Invalid Bech32m checksum"
                         | Some BECH32 => "Invalid Bech32 checksum"
                         | _ => "Invalid checksum"
                         end, error_locations)
                 end
             end
       end.

(** * The checksum is linear *)

(** [if (b) c ^= k] adds [sel b k]. *)
Definition sel (b : bool) (k : Z) : Z := if b then k else 0.

Lemma sel_spec b k n : Z.testbit (sel b k) n = b && Z.testbit k n.
Proof. destruct b; [done|]. apply Z.bits_0. Qed.

Lemma if_sel (b : bool) c k : (if b then Z.lxor c k else c) = Z.lxor c (sel b k).
Proof. destruct b; [done|]. symmetry. apply Z.lxor_0_r. Qed.

(** Equalities of exclusive ors, by bits. *)
Ltac xor_bits :=
  apply Z.bits_inj'; intros ? ?;
  rewrite ?Z.lxor_spec, ?sel_spec, ?Z.bits_0; btauto.

(** What the bits shifted out of [c] add. *)
Definition feedback (c : Z) : Z :=
  Z.lxor (Z.lxor (Z.lxor (Z.lxor (sel (Z.testbit c 25) 0x3b6a57b2) (sel (Z.testbit c 26) 0x26508e6d))
    (sel (Z.testbit c 27) 0x1ea119fa)) (sel (Z.testbit c 28) 0x3d4233dd)) (sel (Z.testbit c 29) 0x2a1462b3).

Lemma shifted_out c k n :
  k = 2 ^ n -> 0 <= n < 5 -> negb (Z.land (u8 (Z.shiftr c 25)) k =? 0) = Z.testbit c (25 + n).
Proof.
  intros -> Hn. rewrite land_pow2 by lia. unfold wrap.
  rewrite Z.mod_pow2_bits_low, Z.shiftr_spec, (Z.add_comm n) by lia.
  destruct (Z.testbit c (25 + n)); [|done]. assert (0 < 2 ^ n) by (apply pow2_pos; lia).
  apply negb_true_iff, Z.eqb_neq. cbn [Z.b2z]. lia.
Qed.

Lemma kept_bits c : is_uint 30 (Z.shiftl (Z.land c 0x1ffffff) 5).
Proof.
  change 0x1ffffff with (2 ^ 25 - 1). rewrite land_mask by lia. rewrite Z.shiftl_mul_pow2 by lia.
  unfold is_uint. pose proof (Z.mod_pos_bound c (2 ^ 25)). lia.
Qed.

Lemma PolyMod_step_alt c v :
  PolyMod_step c v = Z.lxor (Z.lxor (Z.shiftl (Z.land c 0x1ffffff) 5) v) (feedback c).
Proof.
  unfold PolyMod_step. rewrite (wrap_small 32 (Z.shiftl _ 5)) by (pose proof (kept_bits c); unfold is_uint in *; lia).
  rewrite !if_sel.
  rewrite (shifted_out c 1 0), (shifted_out c 2 1), (shifted_out c 4 2), (shifted_out c 8 3), (shifted_out c 16 4) by lia.
  unfold feedback. rewrite !Z.lxor_assoc. done.
Qed.

Lemma PolyMod_step_linear a b v w :
  PolyMod_step (Z.lxor a b) (Z.lxor v w) = Z.lxor (PolyMod_step a v) (PolyMod_step b w).
Proof.
  rewrite !PolyMod_step_alt. unfold feedback. rewrite !Z.lxor_spec.
  apply Z.bits_inj'; intros n Hn.
  rewrite ?Z.lxor_spec, ?sel_spec, !Z.shiftl_spec, ?Z.land_spec, ?Z.lxor_spec by lia. btauto.
Qed.

(** The remainder of the polynomial, from any start. *)
Definition poly (c : Z) (v : bytes) : Z := foldl PolyMod_step c v.

Lemma poly_app c v w : poly c (v ++ w) = poly (poly c v) w.
Proof. apply foldl_app. Qed.

Lemma poly_linear a b v w :
  length v = length w -> poly (Z.lxor a b) (zip_with Z.lxor v w) = Z.lxor (poly a v) (poly b w).
Proof.
  revert a b w. induction v as [|x v IH]; intros a b [|y w] Hl; try done. simpl.
  rewrite PolyMod_step_linear. apply IH. by injection Hl.
Qed.

Lemma sel_is_uint w b k : 0 <= w -> is_uint w k -> is_uint w (sel b k).
Proof. intros Hw H. destruct b; [done|]. split; [simpl; lia|]. by apply pow2_pos. Qed.

Lemma PolyMod_step_bound c v : is_uint 5 v -> is_uint 30 (PolyMod_step c v).
Proof.
  intros Hv. rewrite PolyMod_step_alt. unfold feedback.
  repeat apply lxor_is_uint; try lia; try (apply sel_is_uint; [lia|by_decide]); [apply kept_bits|].
  unfold is_uint in *. lia.
Qed.

Lemma poly_bound c v : is_uint 30 c -> Forall (is_uint 5) v -> is_uint 30 (poly c v).
Proof.
  intros Hc Hv. revert c Hc. induction Hv as [|x v Hx Hv IH]; intros c Hc; [done|].
  simpl. apply IH. by apply PolyMod_step_bound.
Qed.

(** ** The last six values *)

(** The value of digits in base 32. *)
Definition base32 (c : Z) (gs : bytes) : Z := foldl (fun c g => 32 * c + g) c gs.

Lemma PolyMod_step_small c v : is_uint 25 c -> is_uint 5 v -> PolyMod_step c v = 32 * c + v.
Proof.
  intros Hc Hv. rewrite PolyMod_step_alt. unfold feedback.
  rewrite !(testbit_small 25 c) by (done || lia). cbn [sel]. rewrite !Z.lxor_0_r.
  change 0x1ffffff with (2 ^ 25 - 1). rewrite land_mask, Z.mod_small by (done || lia).
  rewrite Z.shiftl_mul_pow2, lxor_pow2_add by (done || lia). lia.
Qed.

Lemma poly_base32 gs c :
  Forall (is_uint 5) gs -> (length gs <= 6)%nat -> is_uint (30 - 5 * zlen gs) c -> poly c gs = base32 c gs.
Proof.
  intros Hf. revert c. induction Hf as [|g gs Hg Hf IH]; intros c Hl Hc; [done|]. simpl in *.
  unfold zlen in *. simpl length in *. unfold is_uint in *.
  assert (2 ^ (30 - 5 * Z.of_nat (S (length gs))) <= 2 ^ 25) by (apply Z.pow_le_mono_r; lia).
  rewrite PolyMod_step_small by (unfold is_uint; lia). apply IH; [lia|].
  replace (30 - 5 * Z.of_nat (length gs)) with (30 - 5 * Z.of_nat (S (length gs)) + 5) by lia.
  rewrite Z.pow_add_r by lia. lia.
Qed.

Lemma groups_base32 mod_ : is_uint 30 mod_ -> base32 0 (checksum_groups mod_) = mod_.
Proof.
  intros Hm. unfold checksum_groups. cbn [fmap list_fmap base32 foldl]. change 31 with (2 ^ 5 - 1).
  rewrite !land_mask, !Z.shiftr_div_pow2 by lia. unfold is_uint in Hm. Z.to_euclidean_division_equations. lia.
Qed.

Lemma base32_groups gs : length gs = 6%nat -> Forall (is_uint 5) gs -> checksum_groups (base32 0 gs) = gs.
Proof.
  intros Hl Hf. destruct gs as [|g0 [|g1 [|g2 [|g3 [|g4 [|g5 [|]]]]]]]; try done. clear Hl.
  decompose_Forall_hyps. unfold is_uint in *.
  unfold checksum_groups. cbn [fmap list_fmap base32 foldl]. change 31 with (2 ^ 5 - 1).
  rewrite !land_mask, !Z.shiftr_div_pow2 by lia. repeat f_equal; Z.to_euclidean_division_equations; lia.
Qed.

Lemma groups_wf mod_ : Forall (is_uint 5) (checksum_groups mod_).
Proof.
  unfold checksum_groups. apply Forall_fmap, Forall_true. intros i. simpl. change 31 with (2 ^ 5 - 1).
  rewrite land_mask by lia. apply Z.mod_pos_bound. lia.
Qed.

Lemma zip_with_zeros v : zip_with Z.lxor (replicate (length v) 0) v = v.
Proof. induction v as [|x v IH]; [done|]. simpl. by rewrite IH. Qed.

(** The last six values are added to the remainder. *)
Lemma PolyMod_checksum u gs :
  Forall (is_uint 5) gs -> length gs = 6%nat ->
  PolyMod (u ++ gs) = Z.lxor (PolyMod (u ++ replicate 6 0)) (base32 0 gs).
Proof.
  intros Hf Hl. change PolyMod with (poly 1). rewrite !poly_app.
  rewrite <- (poly_base32 gs 0) by (done || lia || (unfold zlen; rewrite Hl; done)).
  rewrite <- (zip_with_zeros gs) at 1. rewrite <- (Z.lxor_0_r (poly 1 u)) at 1.
  rewrite poly_linear, Hl by (by rewrite length_replicate). done.
Qed.

(** * Characters and values *)

Lemma at_lookup {A} (l : list A) i x : at_ l i = Ok x <-> 0 <= i /\ l !! Z.to_nat i = Some x.
Proof.
  unfold at_. destruct (Z.ltb_spec i 0); [split; [done|lia]|].
  destruct (l !! Z.to_nat i); naive_solver.
Qed.

Lemma charset_rev v : is_uint 5 v -> exists c, charset_at v = Ok c /\ at_ CHARSET_REV c = Ok v
  /\ 33 <= c <= 126 /\ is_upper c = false /\ c <> SEPARATOR.
Proof.
  intros Hv.
  assert (forall v, 0 <= v < 32 -> match charset_at v with
            | Ok c => bool_decide (at_ CHARSET_REV c = Ok v /\ 33 <= c <= 126)
                      && negb (is_upper c) && negb (c =? SEPARATOR)
            | Err _ => false end = true) as H by (apply range_forall; vm_compute; reflexivity).
  specialize (H v Hv).
  destruct (charset_at v) as [c|]; [|done]. exists c. bool_props.
  apply bool_decide_eq_true in H as [? ?]. split_and!; try done; lia.
Qed.

(** The other direction: a character of the set, in either case. *)
Lemma rev_charset c v :
  at_ CHARSET_REV c = Ok v -> v <> -1 -> is_uint 5 v /\ charset_at v = Ok (LowerCase c) /\ c <> SEPARATOR.
Proof.
  intros Hc Hv.
  assert (0 <= c < 128) as Hr.
  { apply at_lookup in Hc as [? Hl]. apply lookup_lt_Some in Hl.
    change (length CHARSET_REV) with 128%nat in Hl. lia. }
  assert (forall c, 0 <= c < 128 -> match at_ CHARSET_REV c with
            | Ok v => (v =? -1) || bool_decide (is_uint 5 v /\ charset_at v = Ok (LowerCase c))
                                   && negb (c =? SEPARATOR)
            | Err _ => false end = true) as H by (apply range_forall; vm_compute; reflexivity).
  specialize (H c Hr). rewrite Hc in H. destruct (Z.eqb_spec v (-1)); [done|]. simpl in H. bool_props.
  apply bool_decide_eq_true in H as [? ?]. done.
Qed.

Lemma rev_in_range c : 0 <= c < 128 -> exists v, at_ CHARSET_REV c = Ok v.
Proof.
  intros Hc. destruct (CHARSET_REV !! Z.to_nat c) as [v|] eqn:E.
  - exists v. apply at_lookup. split; [lia|done].
  - apply lookup_ge_None in E. change (length CHARSET_REV) with 128%nat in E. lia.
Qed.

Lemma encode_values_app v w :
  encode_values (v ++ w) = (a ← encode_values v; b ← encode_values w; Ok (a ++ b)).
Proof.
  induction v as [|x v IH]; simpl; [by destruct (encode_values w)|].
  destruct (charset_at x); [|done]. simpl. rewrite IH.
  destruct (encode_values v); [|done]. simpl. by destruct (encode_values w).
Qed.

(** A character that [Encode] writes after the separator. *)
Definition data_char (c : Z) : Prop := 33 <= c <= 126 /\ is_upper c = false /\ c <> SEPARATOR.

Lemma encode_values_ok v :
  Forall (is_uint 5) v ->
  exists s, encode_values v = Ok s /\ decode_values s = Ok (Some v) /\ Forall data_char s /\ length s = length v.
Proof.
  induction 1 as [|x v Hx Hv (s & E & D & F & L)]; [by exists []|].
  destruct (charset_rev x Hx) as (c & Ec & Er & H1 & H2 & H3). exists (c :: s). simpl. rewrite Ec. simpl. rewrite E.
  split; [done|]. rewrite Er. simpl. unfold is_uint in Hx.
  destruct (Z.eqb_spec x (-1)); [lia|]. rewrite D. simpl. rewrite L. by split_and!; [|constructor|].
Qed.

Lemma decode_values_ok s v :
  decode_values s = Ok (Some v) ->
  Forall (is_uint 5) v /\ encode_values v = Ok (LowerCase <$> s) /\ Forall (fun c => c <> SEPARATOR) s /\ length s = length v.
Proof.
  revert v. induction s as [|c s IH]; intros v H; simpl in H; [simplify_eq; by split_and!|].
  apply result_bind_inv in H as (x & Ex & H). destruct (Z.eqb_spec x (-1)); [done|].
  apply result_bind_inv in H as ([vs|] & Evs & H); [|done]. injection H as <-.
  destruct (IH vs Evs) as (F & E & S & L). destruct (rev_charset c x Ex) as (H1 & H2 & H3); [done|].
  split_and!; [by constructor| |by constructor|simpl; by rewrite L]. simpl. rewrite H2. simpl. rewrite E. done.
Qed.

Lemma decode_values_total s : Forall (fun c => 0 <= c < 128) s -> exists o, decode_values s = Ok o.
Proof.
  induction 1 as [|c s Hc Hs [o IH]]; [by eexists|]. destruct (rev_in_range c Hc) as [v Hv]. simpl. rewrite Hv. simpl.
  destruct (v =? -1); [by eexists|]. rewrite IH. by eexists.
Qed.

(** ** [CheckCharacters] *)

Definition printable (c : Z) : Prop := 33 <= c <= 126.

(** No error is reported exactly when every character is printable and no lower
    case letter meets an upper case one. *)
Lemma CheckCharacters_loop_spec str i lower upper :
  lower && upper = false ->
  CheckCharacters_loop str i lower upper = [] <->
  Forall printable str /\ (lower || existsb is_lower str) && (upper || existsb is_upper str) = false.
Proof.
  revert i lower upper. induction str as [|c str IH]; intros i lower upper Hlu; simpl.
  { rewrite !orb_false_r. by split. }
  assert (is_lower c = true -> is_upper c = false /\ printable c) as Hl
    by (unfold is_lower, is_upper, printable; intros; bool_props; split; [bool_cases|]; lia).
  assert (is_upper c = true -> printable c) as Hu by (unfold is_upper, printable; intros; bool_props; lia).
  rewrite Forall_cons_iff. destruct (is_lower c).
  { destruct (Hl eq_refl) as [Hc Hp]. rewrite Hc. destruct upper.
    - rewrite orb_true_r. split; [done|]. by intros [_ ?].
    - rewrite IH by done. rewrite orb_true_r. naive_solver. }
  destruct (is_upper c).
  { specialize (Hu eq_refl). destruct lower.
    - rewrite orb_true_r. split; [done|]. by intros [_ ?].
    - rewrite IH by done. rewrite orb_true_r. naive_solver. }
  destruct ((c <? 33) || (126 <? c)) eqn:E.
  { split; [done|]. intros [[Hp _] _]. unfold printable in Hp. apply orb_true_iff in E as [?|?]; bool_props; lia. }
  rewrite IH by done. bool_props. assert (printable c) by (unfold printable; lia). naive_solver.
Qed.

Lemma CheckCharacters_spec str :
  CheckCharacters str = [] <-> Forall printable str /\ existsb is_lower str && existsb is_upper str = false.
Proof. by apply CheckCharacters_loop_spec. Qed.

Lemma LowerCase_not_upper c : is_upper (LowerCase c) = false.
Proof. unfold LowerCase. destruct (is_upper c) eqn:E; [|done]. unfold is_upper in *. bool_props. apply andb_false_iff. right. apply Z.leb_gt. lia. Qed.

Lemma LowerCase_id c : is_upper c = false -> LowerCase c = c.
Proof. unfold LowerCase. by intros ->. Qed.

Lemma LowerCase_ids s : existsb is_upper s = false -> LowerCase <$> s = s.
Proof.
  induction s as [|c s IH]; [done|]. simpl. intros [Hc Hs]%orb_false_elim. rewrite LowerCase_id by done. f_equal. by apply IH.
Qed.

Lemma LowerCase_none s : existsb is_upper (LowerCase <$> s) = false.
Proof. induction s as [|c s IH]; [done|]. simpl. by rewrite LowerCase_not_upper. Qed.

(** ** [rfind] *)

Lemma rfind_app c a b : c ∉ b -> rfind c (a ++ c :: b) = Some (length a).
Proof.
  intros Hb. assert (rfind c b = None) as E.
  { induction b as [|x b IH]; [done|]. apply not_elem_of_cons in Hb as [Hx Hb]. simpl. rewrite IH by done.
    destruct (Z.eqb_spec x c); congruence. }
  induction a as [|x a IH]; simpl; [by rewrite E, Z.eqb_refl|by rewrite IH].
Qed.

Lemma rfind_Some c s pos : rfind c s = Some pos -> s = take pos s ++ c :: drop (pos + 1) s /\ (pos < length s)%nat.
Proof.
  revert pos. induction s as [|x s IH]; intros pos H; simpl in H; [done|].
  destruct (rfind c s) as [i|] eqn:E.
  - injection H as <-. destruct (IH i eq_refl) as [Hs Hl]. simpl. split; [by f_equal|lia].
  - destruct (Z.eqb_spec x c); [|done]. injection H as <-. subst. split; [done|simpl; lia].
Qed.

(** * The encoding is a bijection *)

(** What a human readable part may be: printable, not empty, not upper case. *)
Definition valid_hrp (h : bytes) : Prop := h <> [] /\ Forall printable h /\ existsb is_upper h = false.

Lemma EncodingConstant_ok e : e <> INVALID -> exists c, EncodingConstant e = Ok c /\ is_uint 30 c.
Proof. intros He. destruct e; [done|exists 1|exists 0x2bc830a3]; split; done || by_decide. Qed.

Lemma VerifyChecksum_spec h v e c :
  EncodingConstant e = Ok c -> VerifyChecksum h v = Ok e <-> PolyMod (PreparePolynomialCoefficients h v) = c.
Proof.
  intros He. unfold VerifyChecksum. cbn [EncodingConstant mbind result_bind].
  destruct (Z.eqb_spec (PolyMod (PreparePolynomialCoefficients h v)) 1) as [E1|E1];
    [|destruct (Z.eqb_spec (PolyMod (PreparePolynomialCoefficients h v)) 0x2bc830a3) as [E2|E2]];
    destruct e; simplify_eq/=; rewrite ?E1, ?E2; split; congruence.
Qed.

Lemma VerifyChecksum_total h v : exists e, VerifyChecksum h v = Ok e.
Proof.
  unfold VerifyChecksum. cbn [EncodingConstant mbind result_bind].
  destruct (_ =? 1); [by eexists|]. destruct (_ =? 0x2bc830a3); by eexists.
Qed.

Lemma Prepare_app h v w : PreparePolynomialCoefficients h (v ++ w) = PreparePolynomialCoefficients h v ++ w.
Proof. unfold PreparePolynomialCoefficients. by rewrite !app_assoc. Qed.

Lemma Prepare_wf h v : Forall printable h -> Forall (is_uint 5) v -> Forall (is_uint 5) (PreparePolynomialCoefficients h v).
Proof.
  intros Hh Hv. unfold PreparePolynomialCoefficients. repeat apply Forall_app_2; [|by_decide| |done].
  - apply Forall_fmap. revert Hh. apply Forall_impl. intros c Hc. unfold printable in Hc. simpl.
    rewrite swrap_small by (unfold is_sint; lia). rewrite Z.shiftr_div_pow2 by lia.
    rewrite wrap_small; unfold is_uint; Z.to_euclidean_division_equations; lia.
  - apply Forall_fmap, Forall_true. intros c. simpl. change 31 with (2 ^ 5 - 1).
    rewrite land_mask by lia. apply Z.mod_pos_bound. lia.
Qed.

(** The six values of the checksum are the only ones that verify. *)
Lemma checksum_iff e c h v gs :
  EncodingConstant e = Ok c -> is_uint 30 c -> Forall printable h -> Forall (is_uint 5) v ->
  Forall (is_uint 5) gs -> length gs = 6%nat ->
  VerifyChecksum h (v ++ gs) = Ok e <-> CreateChecksum e h v = Ok gs.
Proof.
  intros He Hc Hh Hv Hgs Hl. rewrite (VerifyChecksum_spec h (v ++ gs) e c He), Prepare_app, PolyMod_checksum by done.
  unfold CreateChecksum. rewrite He. cbn [mbind result_bind].
  set (P := PolyMod _). assert (is_uint 30 P) as HP.
  { apply poly_bound; [by_decide|]. apply Forall_app_2; [by apply Prepare_wf|by_decide]. }
  split; intros H.
  - rewrite <- H, <- Z.lxor_assoc, Z.lxor_nilpotent, Z.lxor_0_l. f_equal. by apply base32_groups.
  - injection H as <-. rewrite groups_base32 by (apply lxor_is_uint; done || lia).
    by rewrite <- Z.lxor_assoc, Z.lxor_nilpotent, Z.lxor_0_l.
Qed.

Lemma encoded_printable h s :
  valid_hrp h -> Forall data_char s -> CheckCharacters (h ++ [SEPARATOR] ++ s) = [].
Proof.
  intros (_ & Hp & Hu) Hs. apply CheckCharacters_spec. split.
  - apply Forall_app_2; [done|]. constructor; [unfold printable, SEPARATOR; lia|].
    revert Hs. apply Forall_impl. by intros c [? _].
  - rewrite !existsb_app, Hu. apply andb_false_iff. right. simpl.
    induction Hs as [|c s (_ & Hc & _) Hs IH]; [done|]. simpl. by rewrite Hc.
Qed.

(** [Encode] writes the values and the checksum alike. *)
Lemma Encode_join e h v gs s :
  existsb is_upper h = false -> CreateChecksum e h v = Ok gs -> encode_values (v ++ gs) = Ok s ->
  Encode e h v = Ok (h ++ [SEPARATOR] ++ s).
Proof.
  intros Hu Hg Hs. unfold Encode. rewrite Hu, Hg. rewrite encode_values_app in Hs.
  apply result_bind_inv in Hs as (a & Ea & Hs). apply result_bind_inv in Hs as (b & Eb & [= <-]).
  rewrite Ea. cbn [mbind result_bind]. by rewrite Eb.
Qed.

(** [Decode] of a lower case string, after the tests of its form. *)
Lemma Decode_join h s w limit :
  valid_hrp h -> Forall data_char s -> decode_values s = Ok (Some w) -> (6 <= length s)%nat ->
  zlen h + 1 + zlen s <= limit ->
  Decode (h ++ [SEPARATOR] ++ s) limit
  = (result ← VerifyChecksum h w;
     if bool_decide (result = INVALID) then Ok DecodeResult_invalid
     else Ok (Decoded result h (take (length w - 6) w))).
Proof.
  intros Hh Fs Ds Ls Hlim. unfold Decode. rewrite bool_decide_eq_true_2 by by apply encoded_printable. cbn [negb].
  unfold zlen in *. rewrite !length_app. simpl length. rewrite (proj2 (Z.ltb_ge _ _)) by lia. cbn [app].
  rewrite rfind_app by (intros Hin%list_elem_of_In; rewrite Forall_forall in Fs; by destruct (Fs _ Hin) as (_ & _ & ?)).
  destruct Hh as (Hne & _ & Hu). assert (length h <> 0%nat) by by destruct h.
  rewrite (proj2 (Nat.eqb_neq _ _)) by done. unfold CHECKSUM_SIZE. rewrite (proj2 (Z.leb_gt _ _)) by lia. cbn [orb].
  rewrite drop_app_add. cbn [drop]. rewrite drop_0, Ds. cbn [mbind result_bind].
  rewrite take_app_length, LowerCase_ids by done. done.
Qed.

Lemma Decode_Encode e h v limit :
  e <> INVALID -> valid_hrp h -> Forall (is_uint 5) v -> zlen h + 1 + zlen v + 6 <= limit ->
  exists s, Encode e h v = Ok s /\ zlen s = zlen h + 1 + zlen v + 6 /\ Decode s limit = Ok (Decoded e h v).
Proof.
  intros He Hh Hv Hlim. destruct (EncodingConstant_ok e He) as (c & Ec & Hc). pose proof Hh as (_ & Hp & Hu).
  destruct (CreateChecksum e h v) as [gs|] eqn:Eg; [|unfold CreateChecksum in Eg; by rewrite Ec in Eg].
  assert (Forall (is_uint 5) gs /\ length gs = 6%nat) as [Fg Lg].
  { unfold CreateChecksum in Eg. rewrite Ec in Eg. injection Eg as <-. split; [apply groups_wf|done]. }
  destruct (encode_values_ok (v ++ gs)) as (s & Es & Ds & Fs & Ls); [by apply Forall_app_2|].
  rewrite length_app, Lg in Ls. exists (h ++ [SEPARATOR] ++ s). unfold zlen in *.
  split; [by eapply Encode_join|]. split; [rewrite !length_app; simpl length; lia|].
  rewrite (Decode_join h s (v ++ gs)) by (done || unfold zlen; lia).
  rewrite (proj2 (checksum_iff e c h v gs Ec Hc Hp Hv Fg Lg) Eg). cbn [mbind result_bind].
  rewrite bool_decide_eq_false_2 by done. do 2 f_equal.
  rewrite length_app, Lg. apply take_app_exact. lia.
Qed.

Lemma printable_lower h : Forall printable h -> Forall printable (LowerCase <$> h).
Proof.
  intros Hh. apply Forall_fmap. revert Hh. apply Forall_impl. intros c Hc. unfold printable, LowerCase in *. simpl.
  destruct (is_upper c) eqn:E; [|done]. unfold is_upper in E. bool_props. lia.
Qed.

(** What a successful [Decode] has found. *)
Lemma Decode_inv s limit r :
  Decode s limit = Ok r -> encoding r <> INVALID ->
  exists h d w, s = h ++ SEPARATOR :: d /\ h <> [] /\ Forall printable s /\ zlen s <= limit /\ (6 < S (length d))%nat
    /\ decode_values d = Ok (Some w) /\ hrp r = LowerCase <$> h
    /\ VerifyChecksum (hrp r) w = Ok (encoding r) /\ data r = take (length w - 6) w.
Proof.
  unfold Decode. intros H He. destruct (bool_decide (CheckCharacters s = [])) eqn:Ec; cbn [negb] in H; [|by simplify_eq].
  apply bool_decide_eq_true, CheckCharacters_spec in Ec as [Hp _].
  destruct (Z.ltb_spec limit (zlen s)); [by simplify_eq|].
  destruct (rfind SEPARATOR s) as [pos|] eqn:Er; [|by simplify_eq]. apply rfind_Some in Er as [Es Hpos].
  destruct (Nat.eqb_spec pos 0) as [|Hz]; cbn [orb] in H; [by simplify_eq|].
  destruct (Z.leb_spec (zlen s) (Z.of_nat pos + CHECKSUM_SIZE)) as [|Hl]; [by simplify_eq|].
  apply result_bind_inv in H as ([w|] & Ew & H); [|by simplify_eq].
  apply result_bind_inv in H as (e & Ee & H). destruct (bool_decide (e = INVALID)); simplify_eq/=.
  exists (take pos s), (drop (pos + 1) s), w. unfold zlen, CHECKSUM_SIZE in *. rewrite length_drop.
  split_and!; try done; [|lia]. intros Hn. apply (f_equal length) in Hn. rewrite length_take in Hn. simpl in Hn. lia.
Qed.

Lemma Encode_Decode s limit r :
  Decode s limit = Ok r -> encoding r <> INVALID ->
  Encode (encoding r) (hrp r) (data r) = Ok (LowerCase <$> s).
Proof.
  intros H He. destruct (Decode_inv s limit r H He) as (h & d & w & -> & Hne & Hp & _ & Hl & Hw & Hh & Hv & Hd).
  destruct (decode_values_ok d w Hw) as (Fw & Ew & _ & Lw). destruct (EncodingConstant_ok _ He) as (c & Ec & Hc).
  apply Forall_app in Hp as [Hp _]. rewrite Hh, Hd, fmap_app. rewrite fmap_cons. change (LowerCase SEPARATOR) with SEPARATOR.
  rewrite <- (take_drop (length w - 6) w) in Hv, Ew.
  apply (Encode_join _ _ _ (drop (length w - 6) w)); [apply LowerCase_none| |done].
  rewrite <- Hh. apply (checksum_iff _ c); try done; rewrite ?Hh.
  - by apply printable_lower.
  - by apply Forall_take.
  - by apply Forall_drop.
  - rewrite length_drop. lia.
Qed.

Lemma Decode_total s limit : wf_bytes s -> exists r, Decode s limit = Ok r.
Proof.
  intros Hwf. unfold Decode. destruct (bool_decide (CheckCharacters s = [])) eqn:Ec; cbn [negb]; [|by eexists].
  apply bool_decide_eq_true, CheckCharacters_spec in Ec as [Hp _].
  destruct (limit <? zlen s); [by eexists|]. destruct (rfind SEPARATOR s) as [pos|]; [|by eexists].
  destruct (_ || _); [by eexists|]. destruct (decode_values_total (drop (pos + 1) s)) as [o Eo].
  { apply Forall_drop. revert Hp. apply Forall_impl. intros c. unfold printable. lia. }
  rewrite Eo. cbn [mbind result_bind]. destruct o as [w|]; [|by eexists].
  destruct (VerifyChecksum_total (LowerCase <$> take pos s) w) as [e Ee]. rewrite Ee. cbn [mbind result_bind].
  destruct (bool_decide _); by eexists.
Qed.

(** C25: Bech32 and Bech32m strings and what they encode correspond one to one.
    Encoding a printable, lower case human readable part and 5-bit values within
    the limit succeeds and decodes to the same encoding, part and values; every
    string that [Decode] accepts is, in lower case, the encoding of the result; and
    [Decode] answers for every byte string, without reading outside its table. *)
Theorem bech32_bijection limit :
  (forall e h v, e <> INVALID -> valid_hrp h -> Forall (is_uint 5) v -> zlen h + 1 + zlen v + 6 <= limit ->
     exists s, Encode e h v = Ok s /\ Decode s limit = Ok (Decoded e h v))
  /\ (forall s, wf_bytes s ->
        exists r, Decode s limit = Ok r
          /\ (encoding r <> INVALID -> Encode (encoding r) (hrp r) (data r) = Ok (LowerCase <$> s))).
Proof.
  split.
  - intros e h v He Hh Hv Hl. destruct (Decode_Encode e h v limit He Hh Hv Hl) as (s & H1 & _ & H2). by exists s.
  - intros s Hs. destruct (Decode_total s limit Hs) as [r Hr]. exists r. split; [done|].
    by apply (Encode_Decode s limit r).
Qed.

Lemma bech32_bijection_witness :
  let v := [0; 14; 20; 15; 7; 13; 26; 0; 25; 18; 6; 11; 13; 8; 21; 4; 20; 3; 17; 2; 29; 3; 12; 29; 3; 4; 15; 24; 20; 6; 14; 30; 22] in
  let s := to_bytes "BC1QW508D6QEJXTDG4Y5R3ZARVARY0C5XW7KV8F3T4" in
  Decode s 90 = Ok (Decoded BECH32 (to_bytes "bc") v) /\ Encode BECH32 (to_bytes "bc") v = Ok (LowerCase <$> s).
Proof.
  intros v s. assert (Decode s 90 = Ok (Decoded BECH32 (to_bytes "bc") v)) as Hs by (vm_compute; reflexivity).
  split; [exact Hs|]. destruct (bech32_bijection 90) as [_ H]. destruct (H s) as (r & Hr & Hd); [by_decide|].
  rewrite Hs in Hr. injection Hr as <-. apply Hd. discriminate.
Defined.
