(* ===== verification/Gf1024.v ===== *)
(** The field GF(1024) of the tables of src/bitcoin/src/bech32.cpp: the tables
    [GF1024_EXP] and [GF1024_LOG] are those of the powers of a primitive element,
    and with exclusive or as addition they form a field, for which [ring] works. *)

From Stdlib Require Import Btauto Ring.
From S2P Require Import Prelude Bech32.

(** * The tables *)

Definition EXP (k : Z) : Z := nth (Z.to_nat k) GF1024_EXP 0.
Definition LOG (v : Z) : Z := nth (Z.to_nat v) GF1024_LOG 0.

#[global] Opaque GF1024_EXP GF1024_LOG.

(** The linear map with the given images of the bits from [i] on. *)
Fixpoint linear (images : list Z) (i v : Z) : Z :=
  match images with
  | [] => 0
  | k :: images => Z.lxor (sel (Z.testbit v i) k) (linear images (i + 1) v)
  end.

Lemma linear_lxor images i a b : linear images i (Z.lxor a b) = Z.lxor (linear images i a) (linear images i b).
Proof.
  revert i. induction images as [|k images IH]; intros i; [done|]. simpl. rewrite IH, Z.lxor_spec. xor_bits.
Qed.

Lemma linear_0 images i : linear images i 0 = 0.
Proof. revert i. induction images as [|k images IH]; intros i; [done|]. simpl. by rewrite IH, Z.bits_0. Qed.

(** Multiplication by the primitive element. *)
Definition mul_e (v : Z) : Z := linear [32; 64; 128; 256; 512; 311; 583; 430; 860; 945] 0 v.

Lemma table_lengths : length GF1024_EXP = 1023%nat /\ length GF1024_LOG = 1024%nat.
Proof. split; vm_compute; reflexivity. Qed.

Lemma tables_inverse v : 1 <= v < 1024 -> 0 <= LOG v < 1023 /\ EXP (LOG v) = v.
Proof.
  intros Hv.
  assert (forall v, 0 <= v < 1024 -> (v =? 0) || (0 <=? LOG v) && (LOG v <? 1023) && (EXP (LOG v) =? v) = true) as H
    by (apply range_forall; vm_compute; reflexivity).
  specialize (H v ltac:(lia)). destruct (Z.eqb_spec v 0); [lia|]. cbn [orb] in H. bool_props. lia.
Qed.

Lemma EXP_table k :
  0 <= k < 1023 -> LOG (EXP k) = k /\ 1 <= EXP k < 1024 /\ EXP ((k + 1) mod 1023) = mul_e (EXP k).
Proof.
  intros Hk.
  assert (forall k, 0 <= k < 1023 -> (LOG (EXP k) =? k) && (1 <=? EXP k) && (EXP k <? 1024)
                                     && (EXP ((k + 1) mod 1023) =? mul_e (EXP k)) = true) as H
    by (apply range_forall; vm_compute; reflexivity).
  specialize (H k Hk). bool_props. lia.
Qed.

(** The non-zero elements of GF(32) are the powers of the 33rd power. *)
Lemma subfield_table v : 1 <= v < 1024 -> v < 32 <-> LOG v mod 33 = 0.
Proof.
  intros Hv.
  assert (forall v, 0 <= v < 1024 -> (v =? 0) || Bool.eqb (v <? 32) (LOG v mod 33 =? 0) = true) as H
    by (apply range_forall; vm_compute; reflexivity).
  specialize (H v ltac:(lia)). destruct (Z.eqb_spec v 0); [lia|]. cbn [orb] in H. apply Bool.eqb_prop in H.
  rewrite <- Z.ltb_lt, <- Z.eqb_eq. by rewrite H.
Qed.

Lemma LOG_0 : LOG 0 = -1.
Proof. vm_compute. reflexivity. Qed.

Lemma at_EXP k : 0 <= k < 1023 -> at_ GF1024_EXP k = Ok (EXP k).
Proof.
  intros Hk. apply at_lookup. split; [lia|]. unfold EXP. pose proof (proj1 table_lengths).
  rewrite nth_lookup. destruct (GF1024_EXP !! Z.to_nat k) eqn:E; [reflexivity|]. apply lookup_ge_None in E. lia.
Qed.

Lemma at_LOG v : 0 <= v < 1024 -> at_ GF1024_LOG v = Ok (LOG v).
Proof.
  intros Hv. apply at_lookup. split; [lia|]. unfold LOG. pose proof (proj2 table_lengths).
  rewrite nth_lookup. destruct (GF1024_LOG !! Z.to_nat v) eqn:E; [reflexivity|]. apply lookup_ge_None in E. lia.
Qed.

#[global] Opaque EXP LOG.

(** * Multiplication *)

Definition mulZ (x y : Z) : Z :=
  if (x =? 0) || (y =? 0) then 0 else EXP ((LOG x + LOG y) mod 1023).

Definition in_gf (x : Z) : bool := (0 <=? x) && (x <? 1024).

Lemma in_gf_spec x : in_gf x = true <-> 0 <= x < 1024.
Proof. unfold in_gf. rewrite andb_true_iff, Z.leb_le, Z.ltb_lt. lia. Qed.

Lemma mulZ_EXP i j : mulZ (EXP (i mod 1023)) (EXP (j mod 1023)) = EXP ((i + j) mod 1023).
Proof.
  pose proof (Z.mod_pos_bound i 1023). pose proof (Z.mod_pos_bound j 1023).
  destruct (EXP_table (i mod 1023)) as (L1 & B1 & _); [lia|]. destruct (EXP_table (j mod 1023)) as (L2 & B2 & _); [lia|].
  unfold mulZ. rewrite (proj2 (Z.eqb_neq _ _)), (proj2 (Z.eqb_neq _ _)) by lia. cbn [orb].
  rewrite L1, L2. f_equal. symmetry. apply Zplus_mod.
Qed.

(** Every non-zero element is a power. *)
Lemma gf_cases x : 0 <= x < 1024 -> x = 0 \/ exists k, x = EXP (k mod 1023) /\ 0 <= k < 1023.
Proof.
  intros Hx. destruct (decide (x = 0)); [by left|]. right. destruct (tables_inverse x) as [H1 H2]; [lia|].
  exists (LOG x). rewrite Z.mod_small, H2 by lia. split; [reflexivity|lia].
Qed.

Lemma mulZ_0_l x : mulZ 0 x = 0.
Proof. done. Qed.

Lemma mulZ_0_r x : mulZ x 0 = 0.
Proof. unfold mulZ. by rewrite orb_true_r. Qed.

Lemma EXP_range k : 1 <= EXP (k mod 1023) < 1024.
Proof. apply EXP_table. apply Z.mod_pos_bound. lia. Qed.

Lemma mulZ_range x y : 0 <= x < 1024 -> 0 <= y < 1024 -> 0 <= mulZ x y < 1024.
Proof.
  intros Hx Hy. destruct (gf_cases x Hx) as [->|(i & -> & _)]; [rewrite mulZ_0_l; lia|].
  destruct (gf_cases y Hy) as [->|(j & -> & _)]; [rewrite mulZ_0_r; lia|].
  rewrite mulZ_EXP. pose proof (EXP_range (i + j)). lia.
Qed.

(** Multiplication by a power is iterated multiplication by the primitive element. *)
Lemma mulZ_iter n y : 0 <= y < 1024 -> mulZ (EXP (Z.of_nat n mod 1023)) y = Nat.iter n mul_e y.
Proof.
  intros Hy. induction n as [|n IH].
  - destruct (gf_cases y Hy) as [->|(j & -> & _)]; [by rewrite mulZ_0_r|]. rewrite mulZ_EXP. done.
  - rewrite Nat.iter_succ, <- IH. destruct (gf_cases y Hy) as [->|(j & -> & _)]; [by rewrite !mulZ_0_r|].
    rewrite !mulZ_EXP. destruct (EXP_table ((Z.of_nat n + j) mod 1023)) as (_ & _ & <-); [apply Z.mod_pos_bound; lia|].
    f_equal. rewrite Zplus_mod_idemp_l. f_equal. lia.
Qed.

Lemma iter_mul_e_lxor n y z : Nat.iter n mul_e (Z.lxor y z) = Z.lxor (Nat.iter n mul_e y) (Nat.iter n mul_e z).
Proof. induction n as [|n IH]; [done|]. rewrite !Nat.iter_succ, IH. apply linear_lxor. Qed.

Lemma lxor_range y z : 0 <= y < 1024 -> 0 <= z < 1024 -> 0 <= Z.lxor y z < 1024.
Proof. intros Hy Hz. exact (lxor_is_uint 10 y z ltac:(lia) Hy Hz). Qed.

Lemma mulZ_lxor x y z :
  0 <= x < 1024 -> 0 <= y < 1024 -> 0 <= z < 1024 -> mulZ x (Z.lxor y z) = Z.lxor (mulZ x y) (mulZ x z).
Proof.
  intros Hx Hy Hz. destruct (gf_cases x Hx) as [->|(k & -> & Hk)]; [by rewrite !mulZ_0_l|].
  rewrite <- (Z2Nat.id k) by lia. rewrite !mulZ_iter by (done || by apply lxor_range). apply iter_mul_e_lxor.
Qed.

(** * The field *)

Record gf := Gf { val : Z; val_ok : Is_true (in_gf val) }.

Lemma gf_eq x y : val x = val y -> x = y.
Proof. destruct x as [x Hx], y as [y Hy]. simpl. intros <-. f_equal. apply proof_irrel. Qed.

Lemma val_range x : 0 <= val x < 1024.
Proof. apply in_gf_spec, Is_true_eq_true, val_ok. Qed.

Definition mk (z : Z) (H : 0 <= z < 1024) : gf := Gf z (Is_true_eq_left _ (proj2 (in_gf_spec z) H)).

Definition gzero : gf := mk 0 ltac:(lia).
Definition gone : gf := mk 1 ltac:(lia).
Definition gadd (x y : gf) : gf := mk (Z.lxor (val x) (val y)) (lxor_range _ _ (val_range x) (val_range y)).
Definition gmul (x y : gf) : gf := mk (mulZ (val x) (val y)) (mulZ_range _ _ (val_range x) (val_range y)).

(** The powers of the primitive element. *)
Definition alpha (k : Z) : gf := mk (EXP (k mod 1023)) ltac:(pose proof (EXP_range k); lia).

Declare Scope gf_scope.
Delimit Scope gf_scope with gf.
Bind Scope gf_scope with gf.
Notation "0" := gzero : gf_scope.
Notation "1" := gone : gf_scope.
Infix "+" := gadd : gf_scope.
Infix "*" := gmul : gf_scope.

Lemma val_mk z H : val (mk z H) = z.
Proof. reflexivity. Qed.

Lemma val_mul x y : val (x * y) = mulZ (val x) (val y).
Proof. apply val_mk. Qed.

Lemma val_add x y : val (x + y) = Z.lxor (val x) (val y).
Proof. apply val_mk. Qed.

Lemma val_alpha k : val (alpha k) = EXP (k mod 1023).
Proof. apply val_mk. Qed.

Lemma gf_nonzero x : x <> gzero -> exists k, x = alpha k /\ 0 <= k < 1023 /\ LOG (val x) = k.
Proof.
  intros Hx. destruct (gf_cases (val x) (val_range x)) as [E|(k & E & Hk)].
  - destruct Hx. apply gf_eq. exact E.
  - exists k. split; [apply gf_eq; rewrite val_alpha; exact E|]. split; [exact Hk|].
    rewrite E, Z.mod_small by lia. exact (proj1 (EXP_table k Hk)).
Qed.

Lemma alpha_add i j : alpha (i + j) = (alpha i * alpha j)%gf.
Proof. apply gf_eq. rewrite val_mul, !val_alpha. symmetry. apply mulZ_EXP. Qed.

Lemma alpha_nonzero k : alpha k <> gzero.
Proof. intros E. apply (f_equal val) in E. rewrite val_alpha in E. change (val gzero) with 0 in E. pose proof (EXP_range k). lia. Qed.

Lemma alpha_0 : alpha 0 = gone.
Proof. apply gf_eq. vm_compute. reflexivity. Qed.

Lemma gf_mul_0_l x : (0 * x = 0)%gf.
Proof. apply gf_eq. rewrite val_mul. apply mulZ_0_l. Qed.

Lemma gf_mul_comm x y : (x * y = y * x)%gf.
Proof. apply gf_eq. rewrite !val_mul. unfold mulZ. by rewrite orb_comm, Z.add_comm. Qed.

Lemma gf_case x : x = 0%gf \/ exists k, x = alpha k.
Proof.
  destruct (decide (val x = 0)) as [E|E]; [left; apply gf_eq; exact E|right].
  destruct (gf_nonzero x) as (k & -> & _); [by intros ->|]. by exists k.
Qed.

Lemma gf_mul_assoc x y z : (x * (y * z) = (x * y) * z)%gf.
Proof.
  destruct (gf_case x) as [->|[i ->]]; [by rewrite !gf_mul_0_l|].
  destruct (gf_case y) as [->|[j ->]]; [rewrite (gf_mul_comm (alpha i) 0), !gf_mul_0_l, gf_mul_comm; apply gf_mul_0_l|].
  destruct (gf_case z) as [->|[k ->]].
  { rewrite (gf_mul_comm (alpha j) 0), gf_mul_0_l, !(gf_mul_comm _ 0), !gf_mul_0_l. reflexivity. }
  rewrite <- !alpha_add. f_equal. lia.
Qed.

Lemma gf_add_comm x y : (x + y = y + x)%gf.
Proof. apply gf_eq. rewrite !val_add. apply Z.lxor_comm. Qed.

Lemma gf_add_self x : (x + x = 0)%gf.
Proof. apply gf_eq. rewrite val_add. apply Z.lxor_nilpotent. Qed.

Lemma gf_theory : ring_theory 0%gf 1%gf gadd gmul gadd (fun x => x) eq.
Proof.
  split.
  - intros x. apply gf_eq. rewrite val_add. apply Z.lxor_0_l.
  - apply gf_add_comm.
  - intros x y z. apply gf_eq. rewrite !val_add. symmetry. apply Z.lxor_assoc.
  - intros x. rewrite <- alpha_0. destruct (gf_case x) as [->|[k ->]].
    + rewrite gf_mul_comm. apply gf_mul_0_l.
    + rewrite <- alpha_add. reflexivity.
  - apply gf_mul_comm.
  - apply gf_mul_assoc.
  - intros x y z. rewrite !(gf_mul_comm _ z). apply gf_eq. rewrite val_add, !val_mul, val_add. apply mulZ_lxor; apply val_range.
  - done.
  - apply gf_add_self.
Qed.

(** The coefficients are bits, so that [ring] knows that [x + x = 0]. *)
Definition gf_bit (b : bool) : gf := if b then 1%gf else 0%gf.

Lemma gf_morph :
  ring_morph 0%gf 1%gf gadd gmul gadd (fun x => x) eq
    false true xorb andb xorb (fun b => b) Bool.eqb gf_bit.
Proof.
  split; try done.
  - intros [] []; apply gf_eq; vm_compute; reflexivity.
  - intros [] []; apply gf_eq; vm_compute; reflexivity.
  - intros [] []; apply gf_eq; vm_compute; reflexivity.
  - intros x y ->%Bool.eqb_prop. reflexivity.
Qed.

Ltac gf_constant t :=
  lazymatch t with
  | gzero => constr:(false)
  | gone => constr:(true)
  | _ => constr:(InitialRing.NotConstant)
  end.

Add Ring gf_ring : gf_theory (morphism gf_morph, constants [gf_constant]).

Lemma gf_add_cancel x y : (x + y = 0)%gf -> x = y.
Proof. intros H. transitivity (x + y + y)%gf; [ring|rewrite H; ring]. Qed.

Lemma gf_mul_eq_0 x y : (x * y = 0)%gf -> x = 0%gf \/ y = 0%gf.
Proof.
  destruct (gf_case x) as [->|[i ->]]; [by left|]. destruct (gf_case y) as [->|[j ->]]; [by right|].
  rewrite <- alpha_add. intros H. by destruct (alpha_nonzero _ H).
Qed.

Lemma gf_mul_nonzero x y : x <> 0%gf -> y <> 0%gf -> (x * y)%gf <> 0%gf.
Proof. intros Hx Hy H. by apply gf_mul_eq_0 in H as [?|?]. Qed.

(** Equal powers have exponents that are equal modulo 1023. *)
Lemma alpha_mod i j : alpha i = alpha j <-> i mod 1023 = j mod 1023.
Proof.
  split; intros H; [|apply gf_eq; rewrite !val_alpha; by rewrite H].
  apply (f_equal val) in H. rewrite !val_alpha in H. apply (f_equal LOG) in H.
  rewrite (proj1 (EXP_table (i mod 1023) ltac:(apply Z.mod_pos_bound; lia))) in H.
  by rewrite (proj1 (EXP_table (j mod 1023) ltac:(apply Z.mod_pos_bound; lia))) in H.
Qed.

Lemma alpha_period n k : alpha (k + 1023 * n) = alpha k.
Proof. apply alpha_mod. rewrite Z.mul_comm. apply Z_mod_plus_full. Qed.

(** The logarithm of an element, as the table has it. *)
Definition lg (x : gf) : Z := LOG (val x).

Lemma lg_alpha k : lg (alpha k) = k mod 1023.
Proof. unfold lg. rewrite val_alpha. refine (proj1 (EXP_table (k mod 1023) _)). apply Z.mod_pos_bound. lia. Qed.

Lemma lg_spec x : x <> 0%gf -> 0 <= lg x < 1023 /\ alpha (lg x) = x.
Proof.
  intros Hx. destruct (gf_nonzero x Hx) as (k & -> & Hk & _). rewrite lg_alpha, Z.mod_small by lia. by split.
Qed.

Lemma lg_zero x : lg x = -1 <-> x = 0%gf.
Proof.
  split; [|intros ->; apply LOG_0]. intros H. destruct (gf_case x) as [->|[k ->]]; [done|].
  rewrite lg_alpha in H. pose proof (Z.mod_pos_bound k 1023). lia.
Qed.

Lemma lg_mul x y : x <> 0%gf -> y <> 0%gf -> lg (x * y) = (lg x + lg y) mod 1023.
Proof.
  intros Hx Hy. destruct (gf_nonzero x Hx) as (i & -> & Hi & _), (gf_nonzero y Hy) as (j & -> & Hj & _).
  rewrite <- alpha_add, !lg_alpha. apply Zplus_mod.
Qed.

(** The elements of GF(32). *)
Lemma lg_subfield x : x <> 0%gf -> val x < 32 <-> lg x mod 33 = 0.
Proof.
  intros Hx. apply subfield_table. pose proof (val_range x). assert (val x <> 0); [|lia].
  intros E. apply Hx, gf_eq. exact E.
Qed.

(** An integer as an element. *)
Definition emb (z : Z) : gf := mk (z mod 1024) ltac:(apply Z.mod_pos_bound; lia).

Lemma val_emb z : 0 <= z < 1024 -> val (emb z) = z.
Proof. intros Hz. unfold emb. rewrite val_mk. by apply Z.mod_small. Qed.

Lemma emb_val x : emb (val x) = x.
Proof. apply gf_eq. apply val_emb, val_range. Qed.

Lemma emb_lxor y z : 0 <= y < 1024 -> 0 <= z < 1024 -> emb (Z.lxor y z) = (emb y + emb z)%gf.
Proof. intros Hy Hz. apply gf_eq. rewrite val_add, !val_emb by (done || by apply lxor_range). done. Qed.

Lemma emb_mul y z : 0 <= y < 1024 -> 0 <= z < 1024 -> emb (mulZ y z) = (emb y * emb z)%gf.
Proof. intros Hy Hz. apply gf_eq. rewrite val_mul, !val_emb by (done || by apply mulZ_range). done. Qed.

Lemma emb_zero z : 0 <= z < 1024 -> emb z = 0%gf <-> z = 0.
Proof.
  intros Hz. split; [|intros ->; by apply gf_eq]. intros H%(f_equal val). rewrite val_emb in H by done. exact H.
Qed.

Lemma emb_EXP k : 0 <= k < 1023 -> emb (EXP k) = alpha k.
Proof.
  intros Hk. apply gf_eq. rewrite val_alpha, Z.mod_small by done. apply val_emb.
  pose proof (EXP_range k). rewrite Z.mod_small in H by done. lia.
Qed.

Lemma lg_emb z : 0 <= z < 1024 -> LOG z = lg (emb z).
Proof. intros Hz. unfold lg. by rewrite val_emb. Qed.

#[global] Opaque emb alpha gadd gmul gzero gone.
