(* ===== verification/Bech32Code.v ===== *)
(** The error-correcting code behind Bech32 (src/bitcoin/src/bech32.cpp): the
    syndromes are the values of the received polynomial at three powers of the
    primitive element of GF(1024), the code has distance 5 within 89 positions,
    and so [Decode] detects four errors and [LocateErrors] finds one or two. *)

From Stdlib Require Import Btauto Ring Sorted.
From S2P Require Import Prelude Bech32 Gf1024.

(** * Syndromes *)

(** Two additive functions that agree on the powers of 2 agree. *)
Lemma additive_ext n (f g : Z -> Z) :
  (forall a b, is_uint (Z.of_nat n) a -> is_uint (Z.of_nat n) b -> f (Z.lxor a b) = Z.lxor (f a) (f b)) ->
  (forall a b, is_uint (Z.of_nat n) a -> is_uint (Z.of_nat n) b -> g (Z.lxor a b) = Z.lxor (g a) (g b)) ->
  forallb (fun i => f (2 ^ i) =? g (2 ^ i)) (seqZ 0 (Z.of_nat n)) = true ->
  forall x, is_uint (Z.of_nat n) x -> f x = g x.
Proof.
  intros Hf Hg Hb. pose proof (range_forall _ _ Hb) as H. cbv beta in H. clear Hb.
  assert (forall h : Z -> Z,
    (forall a b, is_uint (Z.of_nat n) a -> is_uint (Z.of_nat n) b -> h (Z.lxor a b) = Z.lxor (h a) (h b)) -> h 0 = 0) as Hz.
  { intros h Hh. assert (is_uint (Z.of_nat n) 0) by (split; [lia|apply pow2_pos; lia]).
    specialize (Hh 0 0 ltac:(done) ltac:(done)). rewrite Z.lxor_nilpotent in Hh. by rewrite Hh, Z.lxor_nilpotent at 1. }
  assert (forall m x, (m <= n)%nat -> is_uint (Z.of_nat m) x -> f x = g x) as Hm; [|intros x; by apply Hm].
  induction m as [|m IH]; intros x Hle Hx.
  { unfold is_uint in Hx. simpl in Hx. assert (x = 0) as -> by lia. by rewrite !Hz. }
  assert (2 ^ Z.of_nat (S m) = 2 * 2 ^ Z.of_nat m) as E by (rewrite Nat2Z.inj_succ, Z.pow_succ_r by lia; lia).
  assert (2 ^ Z.of_nat m < 2 ^ Z.of_nat n) by (apply Z.pow_lt_mono_r; lia).
  assert (0 < 2 ^ Z.of_nat m) by (apply pow2_pos; lia). unfold is_uint in *.
  destruct (decide (x < 2 ^ Z.of_nat m)) as [|Hlt]; [apply IH; lia|].
  assert (x = Z.lxor (1 * 2 ^ Z.of_nat m) (x - 2 ^ Z.of_nat m)) as ->
    by (rewrite lxor_pow2_add by (unfold is_uint; lia); lia).
  rewrite Hf, Hg by lia. f_equal; [|apply IH; lia]. rewrite Z.mul_1_l. apply Z.eqb_eq, H. lia.
Qed.

Lemma land_1 x : negb (Z.land x 1 =? 0) = Z.testbit x 0.
Proof. change 1 with (2 ^ 0) at 1. rewrite land_pow2 by lia. by destruct (Z.testbit x 0). Qed.

Lemma syndrome_loop_linear residue i consts result :
  0 <= i -> syndrome_loop residue i consts result = Z.lxor result (linear consts (5 + i) residue).
Proof.
  revert i result. induction consts as [|c consts IH]; intros i result Hi; simpl; [by rewrite Z.lxor_0_r|].
  rewrite IH, land_1, Z.shiftr_spec, Z.add_0_l, Z.lxor_assoc by lia. unfold sel. do 3 f_equal. lia.
Qed.

#[local] Opaque SYNDROME_CONSTS.

Lemma linear_range images i v : Forall (is_uint 30) images -> is_uint 30 (linear images i v).
Proof.
  intros H. revert i. induction H as [|k images Hk H IH]; intros i; [by_decide|]. simpl.
  apply lxor_is_uint; [lia|by apply sel_is_uint|apply IH].
Qed.

Lemma low_bits c : is_uint 5 (Z.land c 0x1f).
Proof. change 0x1f with (2 ^ 5 - 1). rewrite land_mask by lia. apply Z.mod_pos_bound. lia. Qed.

Lemma Syndrome_alt c :
  Syndrome c = Z.lxor (Z.lxor (Z.lxor (Z.land c 0x1f) (Z.shiftl (Z.land c 0x1f) 10)) (Z.shiftl (Z.land c 0x1f) 20))
                 (linear SYNDROME_CONSTS 5 c).
Proof.
  unfold Syndrome. rewrite syndrome_loop_linear by lia. pose proof (low_bits c) as H. unfold is_uint in H.
  rewrite (wrap_small 32 (Z.shiftl _ 10)), (wrap_small 32 (Z.shiftl _ 20)); [reflexivity|unfold is_uint; rewrite Z.shiftl_mul_pow2 by lia; lia..].
Qed.

Lemma consts_range : Forall (is_uint 30) SYNDROME_CONSTS.
Proof. by_decide. Qed.

#[local] Opaque SYNDROME_CONSTS linear Syndrome.

Lemma Syndrome_range c : is_uint 30 (Syndrome c).
Proof.
  rewrite Syndrome_alt. pose proof (low_bits c) as H. unfold is_uint in H.
  apply lxor_is_uint; [lia| |apply linear_range, consts_range].
  repeat apply lxor_is_uint; try lia; unfold is_uint; rewrite ?Z.shiftl_mul_pow2 by lia; lia.
Qed.

Lemma Syndrome_lxor a b : Syndrome (Z.lxor a b) = Z.lxor (Syndrome a) (Syndrome b).
Proof.
  rewrite (Syndrome_alt (Z.lxor a b)), (Syndrome_alt a), (Syndrome_alt b), (linear_lxor SYNDROME_CONSTS 5 a b). generalize (linear SYNDROME_CONSTS 5 a) (linear SYNDROME_CONSTS 5 b).
  intros x y. apply Z.bits_inj'; intros n Hn.
  rewrite ?Z.lxor_spec, !Z.shiftl_spec, ?Z.land_spec, ?Z.lxor_spec by lia. btauto.
Qed.

(** The value at the power [997 + i], for [i] from 0 to 2. *)
Definition component (i s : Z) : Z := Z.land (Z.shiftr s (10 * i)) 0x3FF.

Lemma component_lxor i a b : component i (Z.lxor a b) = Z.lxor (component i a) (component i b).
Proof.
  unfold component. apply Z.bits_inj'; intros n Hn.
  rewrite ?Z.lxor_spec, ?Z.land_spec, ?Z.shiftr_spec, ?Z.lxor_spec by lia. btauto.
Qed.

Lemma component_range i s : 0 <= component i s < 1024.
Proof.
  unfold component. change 0x3FF with (2 ^ 10 - 1). rewrite land_mask by lia. apply Z.mod_pos_bound. lia.
Qed.

Definition syn (i c : Z) : gf := emb (component i (Syndrome c)).

Lemma syn_lxor i a b : syn i (Z.lxor a b) = (syn i a + syn i b)%gf.
Proof. unfold syn. rewrite (Syndrome_lxor a b), component_lxor. apply emb_lxor; apply component_range. Qed.

Lemma mulZ_EXP_lxor k y z :
  0 <= y < 1024 -> 0 <= z < 1024 -> mulZ (EXP (k mod 1023)) (Z.lxor y z) = Z.lxor (mulZ (EXP (k mod 1023)) y) (mulZ (EXP (k mod 1023)) z).
Proof. intros Hy Hz. apply mulZ_lxor; [pose proof (EXP_range k); lia|done..]. Qed.

(** Appending a coefficient: [f * x + v] at the power. *)
Lemma syn_shift i c : 0 <= i <= 2 -> is_uint 30 c -> syn i (PolyMod_step c 0) = (alpha (997 + i) * syn i c)%gf.
Proof.
  intros Hi Hc.
  assert (component i (Syndrome (PolyMod_step c 0)) = mulZ (EXP ((997 + i) mod 1023)) (component i (Syndrome c))) as E.
  { apply (additive_ext 30 (fun c => component i (Syndrome (PolyMod_step c 0)))
             (fun c => mulZ (EXP ((997 + i) mod 1023)) (component i (Syndrome c)))); [..|exact Hc].
    - intros a b _ _. rewrite (PolyMod_step_linear a b 0 0 : PolyMod_step (Z.lxor a b) 0 = _).
      rewrite (Syndrome_lxor (PolyMod_step a 0) (PolyMod_step b 0)), component_lxor. reflexivity.
    - intros a b _ _. rewrite (Syndrome_lxor a b), component_lxor. apply mulZ_EXP_lxor; apply component_range.
    - assert (i = 0 \/ i = 1 \/ i = 2) as [->|[->| ->]] by lia; vm_compute; reflexivity. }
  assert (0 <= EXP ((997 + i) mod 1023) < 1024) as Hr by (pose proof (EXP_range (997 + i)); lia).
  unfold syn. rewrite E, (emb_mul _ _ Hr (component_range _ _)), Z.mod_small by lia. by rewrite emb_EXP by lia.
Qed.

Lemma syn_low i v : 0 <= i <= 2 -> is_uint 5 v -> syn i v = emb v.
Proof.
  intros Hi Hv. unfold syn. f_equal.
  apply (additive_ext 5 (fun v => component i (Syndrome v)) (fun v => v)); [| |  |exact Hv].
  - intros a b _ _. rewrite (Syndrome_lxor a b), component_lxor. reflexivity.
  - done.
  - assert (i = 0 \/ i = 1 \/ i = 2) as [->|[->| ->]] by lia; vm_compute; reflexivity.
Qed.

Lemma syn_step i c v :
  0 <= i <= 2 -> is_uint 30 c -> is_uint 5 v -> syn i (PolyMod_step c v) = (alpha (997 + i) * syn i c + emb v)%gf.
Proof.
  intros Hi Hc Hv. rewrite <- (Z.lxor_0_r c) at 1. rewrite <- (Z.lxor_0_l v) at 1.
  rewrite PolyMod_step_linear, syn_lxor, syn_shift by done. f_equal.
  rewrite (PolyMod_step_small 0) by by_decide || done. by apply syn_low.
Qed.

(** * Values of a polynomial *)

(** The value at [alpha j] of the polynomial with the coefficients [w], highest first. *)
Fixpoint ev (j : Z) (w : list Z) : gf :=
  match w with
  | [] => 0%gf
  | x :: w => (emb x * alpha (j * zlen w) + ev j w)%gf
  end.

Lemma syn_poly i c w :
  0 <= i <= 2 -> is_uint 30 c -> Forall (is_uint 5) w ->
  syn i (poly c w) = (alpha ((997 + i) * zlen w) * syn i c + ev (997 + i) w)%gf.
Proof.
  intros Hi Hc Hw. revert c Hc. induction Hw as [|x w Hx Hw IH]; intros c Hc.
  - change (zlen (@nil Z)) with 0. rewrite Z.mul_0_r, alpha_0. simpl. ring.
  - change (poly c (x :: w)) with (poly (PolyMod_step c x) w). rewrite IH by by apply PolyMod_step_bound.
    rewrite syn_step by done. cbn [ev]. replace (zlen (x :: w)) with (zlen w + 1) by (unfold zlen; simpl length; lia).
    rewrite Z.mul_add_distr_l, Z.mul_1_r, (alpha_add (_ * _)). ring.
Qed.

(** Received words that differ in the coefficients [zip_with Z.lxor v w]. *)
Lemma syn_difference i c v w :
  0 <= i <= 2 -> Forall (is_uint 5) v -> Forall (is_uint 5) w -> length v = length w ->
  syn i (Z.lxor (poly c v) (poly c w)) = ev (997 + i) (zip_with Z.lxor v w).
Proof.
  intros Hi Hv Hw Hl. rewrite <- poly_linear, Z.lxor_nilpotent by done.
  rewrite syn_poly; [|done|by_decide|].
  - rewrite syn_low by (done || by_decide). assert (emb 0 = 0%gf) as -> by (by apply emb_zero; lia). ring.
  - revert w Hw Hl. induction Hv as [|x v Hx Hv IH]; intros [|y w] Hw Hl; try done. simpl.
    apply Forall_cons_iff in Hw as [Hy Hw]. constructor; [apply lxor_is_uint; (done || lia)|]. apply IH; [done|]. by injection Hl.
Qed.

(** The coefficients that are not 0, with their powers. *)
Fixpoint nz (w : list Z) : list (Z * Z) :=
  match w with
  | [] => []
  | x :: w => if x =? 0 then nz w else (zlen w, x) :: nz w
  end.

Definition sum (j : Z) (ps : list (Z * Z)) : gf :=
  foldr (fun '(p, e) acc => emb e * alpha (j * p) + acc)%gf 0%gf ps.

Lemma ev_nz j w : ev j w = sum j (nz w).
Proof.
  induction w as [|x w IH]; [done|]. simpl. destruct (Z.eqb_spec x 0) as [->|Hx]; simpl; rewrite IH; [|done].
  assert (emb 0 = 0%gf) as -> by (by apply emb_zero; lia). ring.
Qed.

Lemma nz_below w p e : In (p, e) (nz w) -> 0 <= p < zlen w /\ e <> 0 /\ In e w.
Proof.
  induction w as [|x w IH]; [done|]. simpl nz. unfold zlen in *. simpl length.
  destruct (Z.eqb_spec x 0); [intros H|intros [[= <- <-]|H]].
  - destruct (IH H) as (? & ? & ?). split_and!; [lia..|done|by right].
  - split_and!; [lia..|done|by left].
  - destruct (IH H) as (? & ? & ?). split_and!; [lia..|done|by right].
Qed.

(** The powers fall. *)
Lemma nz_sorted w : StronglySorted (fun a b => b.1 < a.1) (nz w).
Proof.
  induction w as [|x w IH]; [constructor|]. simpl. destruct (x =? 0); [done|]. constructor; [done|].
  apply Forall_forall. intros [p e] Hin. apply nz_below in Hin as [? _]. simpl. lia.
Qed.

Lemma nz_nil w : nz w = [] -> Forall (fun x => x = 0) w.
Proof.
  induction w as [|x w IH]; [constructor|]. simpl. destruct (Z.eqb_spec x 0); [|done]. intros H. constructor; auto.
Qed.

(** * Distance 5 *)

(** Three sums that vanish: the coefficients are determined up to a factor. *)
Lemma vandermonde (y1 y2 y3 y4 x1 x2 x3 x4 : gf) :
  (y1 + y2 + y3 + y4 = 0)%gf -> (y1 * x1 + y2 * x2 + y3 * x3 + y4 * x4 = 0)%gf ->
  (y1 * (x1 * x1) + y2 * (x2 * x2) + y3 * (x3 * x3) + y4 * (x4 * x4) = 0)%gf ->
  (y1 * ((x1 + x3) * (x1 + x4)) = y2 * ((x2 + x3) * (x2 + x4)))%gf.
Proof.
  intros H0 H1 H2. apply gf_add_cancel.
  transitivity ((y1 * (x1 * x1) + y2 * (x2 * x2) + y3 * (x3 * x3) + y4 * (x4 * x4))
                + (x3 + x4) * (y1 * x1 + y2 * x2 + y3 * x3 + y4 * x4) + (x3 * x4) * (y1 + y2 + y3 + y4))%gf; [ring|].
  rewrite H0, H1, H2. ring.
Qed.

(** Congruence modulo 33: logarithms up to factors in GF(32). *)
Definition congr (a b : Z) : Prop := exists k, a = b + 33 * k.

Lemma congr_lg a b : a mod 1023 = b mod 1023 -> congr a b.
Proof. intros H. exists (31 * (a / 1023 - b / 1023)). Z.to_euclidean_division_equations. lia. Qed.

Lemma lg_alpha_congr k : congr (lg (alpha k)) k.
Proof. rewrite lg_alpha. apply congr_lg. apply Z.mod_mod. lia. Qed.

Lemma lg_mul_congr x y : x <> 0%gf -> y <> 0%gf -> congr (lg (x * y)) (lg x + lg y).
Proof. intros Hx Hy. rewrite lg_mul by done. apply congr_lg. apply Z.mod_mod. lia. Qed.

Lemma lg_small e : 0 < e < 32 -> emb e <> 0%gf /\ congr (lg (emb e)) 0.
Proof.
  intros He. assert (emb e <> 0%gf) as Hn by (rewrite emb_zero; lia). split; [done|].
  assert (lg (emb e) mod 33 = 0) as E by (apply lg_subfield; [done|]; rewrite val_emb; lia).
  exists (lg (emb e) / 33). Z.to_euclidean_division_equations. lia.
Qed.

(** The logarithms of [1 + alpha d] modulo 33, for [d] from 1 to 88. *)
Definition zech : list Z :=
  [12; 24; 15; 15; 23; 30; 2; 30; 7; 13; 10; 27; 20; 4; 27; 27; 31; 14; 4; 26; 5; 20;
   9; 21; 19; 7; 29; 8; 17; 21; 32; 21; 0; 29; 31; 28; 19; 8; 20; 19; 19; 10; 2; 7;
   14; 18; 22; 9; 24; 5; 23; 14; 17; 25; 30; 16; 20; 1; 17; 9; 17; 31; 9; 9; 4; 0;
   18; 25; 31; 29; 7; 23; 25; 5; 22; 16; 24; 7; 21; 5; 1; 5; 30; 20; 22; 4; 24; 14].

Definition D (d : Z) : Z := nth (Z.to_nat (d - 1)) zech 0.

Lemma D_spec d : 1 <= d <= 88 -> congr (lg (1 + alpha d)) (D d).
Proof.
  intros Hd.
  assert (forall d, 0 <= d < 89 -> (d =? 0) || (LOG (Z.lxor 1 (EXP d)) mod 33 =? D d) = true) as H
    by (apply range_forall; vm_compute; reflexivity).
  specialize (H d ltac:(lia)). destruct (Z.eqb_spec d 0); [lia|]. cbn [orb] in H. apply Z.eqb_eq in H.
  assert (1 <= EXP d < 1024) by (pose proof (EXP_range d) as Hr; by rewrite Z.mod_small in Hr by lia).
  assert ((1 + alpha d)%gf = emb (Z.lxor 1 (EXP d))) as ->.
  { rewrite emb_lxor, emb_EXP by lia. f_equal. apply gf_eq. reflexivity. }
  rewrite <- lg_emb by (apply lxor_range; lia).
  exists (LOG (Z.lxor 1 (EXP d)) / 33). pose proof (Z.div_mod (LOG (Z.lxor 1 (EXP d))) 33). lia.
Qed.

Lemma alpha_sum p q :
  p < q <= p + 88 -> (alpha p + alpha q)%gf <> 0%gf /\ congr (lg (alpha p + alpha q)) (p + D (q - p)).
Proof.
  intros H. assert ((1 + alpha (q - p))%gf <> 0%gf) as Hn.
  { intros E%gf_add_cancel. rewrite <- alpha_0 in E. apply alpha_mod in E. rewrite !Z.mod_small in E by lia. lia. }
  assert ((alpha p + alpha q = alpha p * (1 + alpha (q - p)))%gf) as ->.
  { replace q with (p + (q - p)) at 1 by lia. rewrite alpha_add. ring. }
  split; [apply gf_mul_nonzero; [apply alpha_nonzero|done]|].
  destruct (lg_mul_congr _ _ (alpha_nonzero p) Hn) as [k1 E1]. destruct (lg_alpha_congr p) as [k2 E2].
  destruct (D_spec (q - p)) as [k3 E3]; [lia|]. exists (k1 + k2 + k3). lia.
Qed.

(** The two conditions on the positions [0 < a < b < c] that remain once the first
    holds. *)
Definition light (a b c : Z) : bool :=
  ((D a + D c - (997 * b + a + D (b - a) + b + D (c - b))) mod 33 =? 0)
  && ((D a + D b - (997 * c + a + D (c - a) + b + D (c - b))) mod 33 =? 0).

(** The search over [c]: [t] is the value that satisfies the first condition. *)
Fixpoint search_c (t : Z) (P : Z -> bool) (c : Z) (rest : list Z) : bool :=
  match rest with
  | [] => true
  | g :: rest => (if g =? t then P c else true) && search_c t P (c + 1) rest
  end.

Fixpoint search_b (a b : Z) (fs : list Z) : bool :=
  match fs with
  | [] => true
  | f :: rest => search_c ((9 * a - f) mod 33) (fun c => negb (light a b c)) (b + 1) rest && search_b a (b + 1) rest
  end.

Definition differences (a : Z) : list Z := zip_with (fun x y => (x - y) mod 33) (drop (Z.to_nat a) zech) zech.

Definition search : bool := forallb (fun a => search_b a (a + 1) (differences a)) (seqZ 1 88).

Lemma search_c_spec t P c rest i : search_c t P c rest = true -> rest !! i = Some t -> P (c + Z.of_nat i) = true.
Proof.
  revert c i. induction rest as [|g rest IH]; intros c i H Hi; [done|]. simpl in H. apply andb_prop in H as [H1 H2].
  destruct i as [|i]; simpl in Hi.
  - simplify_eq. rewrite Z.eqb_refl in H1. by rewrite Z.add_0_r.
  - replace (c + Z.of_nat (S i)) with (c + 1 + Z.of_nat i) by lia. by apply IH.
Qed.

Lemma search_b_spec a b fs i j f :
  search_b a b fs = true -> fs !! i = Some f -> (i < j)%nat -> fs !! j = Some ((9 * a - f) mod 33) ->
  light a (b + Z.of_nat i) (b + Z.of_nat j) = false.
Proof.
  revert b i j. induction fs as [|f0 fs IH]; intros b i j H Hi Hij Hj; [done|]. simpl in H. apply andb_prop in H as [H1 H2].
  destruct j as [|j]; [lia|]. simpl in Hj. destruct i as [|i]; simpl in Hi.
  - simplify_eq. eapply search_c_spec in H1; [|done]. apply negb_true_iff in H1.
    rewrite Z.add_0_r. by replace (b + Z.of_nat (S j)) with (b + 1 + Z.of_nat j) by lia.
  - replace (b + Z.of_nat (S i)) with (b + 1 + Z.of_nat i) by lia.
    replace (b + Z.of_nat (S j)) with (b + 1 + Z.of_nat j) by lia. apply IH; (done || lia).
Qed.

Lemma zech_lookup d : 1 <= d <= 88 -> zech !! Z.to_nat (d - 1) = Some (D d).
Proof.
  intros Hd. unfold D. rewrite nth_lookup. destruct (zech !! Z.to_nat (d - 1)) eqn:E; [done|].
  apply lookup_ge_None in E. change (length zech) with 88%nat in E. lia.
Qed.

Lemma differences_lookup a x :
  1 <= a -> a < x <= 88 -> differences a !! Z.to_nat (x - a - 1) = Some ((D x - D (x - a)) mod 33).
Proof.
  intros Ha Hx. unfold differences. rewrite lookup_zip_with, lookup_drop.
  replace (Z.to_nat a + Z.to_nat (x - a - 1))%nat with (Z.to_nat (x - 1)) by lia.
  rewrite zech_lookup by lia. simpl. by rewrite zech_lookup by lia.
Qed.

(** No four positions within 89 carry a codeword. *)
Lemma no_light a b c :
  1 <= a -> a < b -> b < c -> c <= 88 ->
  congr (D b + D c) (999 * a + D (b - a) + D (c - a)) -> light a b c = false.
Proof.
  intros Ha Hb Hc Hc' [k Hk].
  assert (search = true) as Hs by (vm_compute; reflexivity). unfold search in Hs. rewrite forallb_forall in Hs.
  specialize (Hs a). cbv beta in Hs.
  assert (In a (seqZ 1 88)) as Hin by (apply list_elem_of_In, elem_of_seqZ; lia). specialize (Hs Hin).
  pose proof (search_b_spec a (a + 1) (differences a) (Z.to_nat (b - a - 1)) (Z.to_nat (c - a - 1)) _ Hs
                (differences_lookup a b Ha ltac:(lia)) ltac:(lia)) as H.
  rewrite !Z2Nat.id in H by lia. replace (a + 1 + (b - a - 1)) with b in H by lia.
  replace (a + 1 + (c - a - 1)) with c in H by lia. apply H. rewrite differences_lookup by lia. f_equal.
  rewrite Zminus_mod_idemp_r. rewrite <- (Z_mod_plus_full (9 * a - _) (30 * a + k)). f_equal. lia.
Qed.

(** The logarithm of a term of [vandermonde]. *)
Lemma lg_term e p u v :
  0 < e < 32 -> u <> 0%gf -> v <> 0%gf ->
  (emb e * alpha (997 * p) * (u * v))%gf <> 0%gf
  /\ congr (lg (emb e * alpha (997 * p) * (u * v))) (997 * p + lg u + lg v).
Proof.
  intros He Hu Hv. destruct (lg_small e He) as [Hn [k0 E0]]. pose proof (alpha_nonzero (997 * p)) as Ha.
  assert ((emb e * alpha (997 * p))%gf <> 0%gf) as H1 by by apply gf_mul_nonzero.
  assert ((u * v)%gf <> 0%gf) as H2 by by apply gf_mul_nonzero. split; [by apply gf_mul_nonzero|].
  destruct (lg_mul_congr _ _ H1 H2) as [k1 E1]. destruct (lg_mul_congr _ _ Hn Ha) as [k2 E2].
  destruct (lg_mul_congr _ _ Hu Hv) as [k3 E3]. destruct (lg_alpha_congr (997 * p)) as [k4 E4].
  exists (k0 + k1 + k2 + k3 + k4). lia.
Qed.

(** The sums at the three powers, with [y = e * alpha (997 * p)] and [x = alpha p]. *)
Definition vanishes (ps : list (Z * Z)) : Prop := sum 997 ps = 0%gf /\ sum 998 ps = 0%gf /\ sum 999 ps = 0%gf.

Lemma alpha_998 p : alpha (998 * p) = (alpha (997 * p) * alpha p)%gf.
Proof. rewrite <- alpha_add. f_equal. lia. Qed.

Lemma alpha_999 p : alpha (999 * p) = (alpha (997 * p) * (alpha p * alpha p))%gf.
Proof. rewrite <- !alpha_add. f_equal. lia. Qed.

Lemma vanishes_four p1 e1 p2 e2 p3 e3 p4 e4 :
  vanishes [(p1, e1); (p2, e2); (p3, e3); (p4, e4)] ->
  (emb e1 * alpha (997 * p1) * ((alpha p1 + alpha p3) * (alpha p1 + alpha p4))
   = emb e2 * alpha (997 * p2) * ((alpha p2 + alpha p3) * (alpha p2 + alpha p4)))%gf.
Proof.
  intros (H0 & H1 & H2). cbn [sum foldr] in *. rewrite !alpha_998 in H1. rewrite !alpha_999 in H2.
  apply (vandermonde _ _ (emb e3 * alpha (997 * p3))%gf (emb e4 * alpha (997 * p4))%gf).
  - rewrite <- H0. ring.
  - rewrite <- H1. ring.
  - rewrite <- H2. ring.
Qed.

(** The order of the terms does not matter. *)
Lemma vanishes_perm ps qs : ps ≡ₚ qs -> vanishes ps -> vanishes qs.
Proof.
  intros Hp. assert (forall j, sum j ps = sum j qs) as E.
  { intros j. induction Hp as [|[p e] ps qs _ IH|[p e] [q f] ps|ps qs rs _ IH1 _ IH2]; simpl; [done|by rewrite IH|ring|congruence]. }
  unfold vanishes. by rewrite !E.
Qed.

Lemma sum_cons j p e ps : sum j ((p, e) :: ps) = (emb e * alpha (j * p) + sum j ps)%gf.
Proof. reflexivity. Qed.

Lemma vanishes_pad ps p : vanishes ps -> vanishes ((p, 0) :: ps).
Proof.
  intros (H0 & H1 & H2). assert (emb 0 = 0%gf) as E by (by apply emb_zero; lia).
  unfold vanishes. rewrite !sum_cons, E, H0, H1, H2. split_and!; ring.
Qed.

(** The relation of [vanishes_four], as a congruence. *)
Lemma vanishes_congr p1 e1 p2 e2 p3 e3 p4 e4 l13 l14 l23 l24 :
  0 < e1 < 32 -> 0 < e2 < 32 -> vanishes [(p1, e1); (p2, e2); (p3, e3); (p4, e4)] ->
  (alpha p1 + alpha p3)%gf <> 0%gf /\ congr (lg (alpha p1 + alpha p3)) l13 ->
  (alpha p1 + alpha p4)%gf <> 0%gf /\ congr (lg (alpha p1 + alpha p4)) l14 ->
  (alpha p2 + alpha p3)%gf <> 0%gf /\ congr (lg (alpha p2 + alpha p3)) l23 ->
  (alpha p2 + alpha p4)%gf <> 0%gf /\ congr (lg (alpha p2 + alpha p4)) l24 ->
  congr (997 * p1 + l13 + l14) (997 * p2 + l23 + l24).
Proof.
  intros He1 He2 Hv [N13 [k13 E13]] [N14 [k14 E14]] [N23 [k23 E23]] [N24 [k24 E24]].
  apply vanishes_four in Hv. destruct (lg_term e1 p1 _ _ He1 N13 N14) as [_ [k1 E1]].
  destruct (lg_term e2 p2 _ _ He2 N23 N24) as [_ [k2 E2]]. rewrite Hv in E1.
  exists (k2 + k23 + k24 - k1 - k13 - k14). lia.
Qed.

Lemma no_four p1 e1 p2 e2 p3 e3 p4 e4 :
  0 < e1 < 32 -> 0 < e2 < 32 -> 0 < e3 < 32 -> 0 < e4 < 32 ->
  p1 < p2 -> p2 < p3 -> p3 < p4 -> p4 <= p1 + 88 -> ~ vanishes [(p1, e1); (p2, e2); (p3, e3); (p4, e4)].
Proof.
  intros He1 He2 He3 He4 H12 H23 H34 H14 Hv.
  assert (forall p q, p < q <= p + 88 ->
            (alpha q + alpha p)%gf <> 0%gf /\ congr (lg (alpha q + alpha p)) (p + D (q - p))) as S.
  { intros p q H. rewrite gf_add_comm. by apply alpha_sum. }
  assert (vanishes [(p1, e1); (p3, e3); (p2, e2); (p4, e4)]) as Hv3
    by (eapply vanishes_perm; [|exact Hv]; constructor; constructor).
  assert (vanishes [(p1, e1); (p4, e4); (p2, e2); (p3, e3)]) as Hv4.
  { eapply vanishes_perm; [|exact Hv]. constructor. symmetry. apply (Permutation_cons_append [_; _]). }
  eapply vanishes_congr in Hv as [k2 E2]; [|done|done|apply alpha_sum; lia..].
  eapply vanishes_congr in Hv3 as [k3 E3]; [|done|done|apply alpha_sum; lia|apply alpha_sum; lia|apply S; lia|apply alpha_sum; lia].
  eapply vanishes_congr in Hv4 as [k4 E4]; [|done|done|apply alpha_sum; lia|apply alpha_sum; lia|apply S; lia|apply S; lia].
  assert (light (p2 - p1) (p3 - p1) (p4 - p1) = false) as Hl.
  { apply no_light; [lia..|]. exists k2. replace (p3 - p1 - (p2 - p1)) with (p3 - p2) by lia.
    replace (p4 - p1 - (p2 - p1)) with (p4 - p2) by lia. lia. }
  unfold light in Hl. replace (p3 - p1 - (p2 - p1)) with (p3 - p2) in Hl by lia.
  replace (p4 - p1 - (p3 - p1)) with (p4 - p3) in Hl by lia. replace (p4 - p1 - (p2 - p1)) with (p4 - p2) in Hl by lia.
  apply andb_false_iff in Hl as [Hl|Hl]; apply Z.eqb_neq in Hl; apply Hl.
  - apply Z.mod_divide; [lia|]. exists k3. lia.
  - apply Z.mod_divide; [lia|]. exists k4. lia.
Qed.

Lemma vanishes_pad_end ps p : vanishes ps -> vanishes (ps ++ [(p, 0)]).
Proof. intros H. eapply vanishes_perm; [apply Permutation_cons_append|]. by apply vanishes_pad. Qed.

(** With fewer positions the last ones can be any: here they cancel the second. *)
Lemma no_three p1 e1 p2 e2 p3 e3 :
  0 < e1 < 32 -> p1 < p2 <= p1 + 88 -> p1 < p3 <= p1 + 88 -> ~ vanishes [(p1, e1); (p2, e2); (p3, e3)].
Proof.
  intros He H2 H3 Hv. apply (vanishes_pad_end _ p2), vanishes_four in Hv.
  destruct (alpha_sum p1 p2 H2) as [N2 _]. destruct (alpha_sum p1 p3 H3) as [N3 _].
  destruct (lg_term e1 p1 _ _ He N3 N2) as [N _]. apply N. rewrite Hv. ring.
Qed.

Lemma no_two p1 e1 p2 e2 : 0 < e1 < 32 -> p1 < p2 <= p1 + 88 -> ~ vanishes [(p1, e1); (p2, e2)].
Proof. intros He H2 Hv. by apply (vanishes_pad_end _ p2), no_three in Hv. Qed.

Lemma no_one p1 e1 : 0 < e1 < 32 -> ~ vanishes [(p1, e1)].
Proof. intros He Hv. apply (vanishes_pad_end _ (p1 + 1)), no_two in Hv; [done|done|lia]. Qed.

(** A word of at most 89 values with at most four that are not 0, and that vanishes
    at the three powers, is 0. *)
Lemma light_word w :
  Forall (is_uint 5) w -> zlen w <= 89 -> (length (nz w) <= 4)%nat ->
  (forall i, 0 <= i <= 2 -> ev (997 + i) w = 0%gf) -> Forall (fun x => x = 0) w.
Proof.
  intros Hw Hlen Hn Hv. apply nz_nil.
  assert (forall p e, In (p, e) (nz w) -> 0 <= p <= 88 /\ 0 < e < 32) as Hb.
  { intros p e Hin. apply nz_below in Hin as (Hp & He & Hin). rewrite Forall_forall in Hw.
    specialize (Hw e Hin). unfold is_uint in Hw. lia. }
  assert (vanishes (rev (nz w))) as V.
  { apply (vanishes_perm (nz w)); [apply Permutation_rev|].
    unfold vanishes. rewrite <- !ev_nz. split_and!; [apply (Hv 0)|apply (Hv 1)|apply (Hv 2)]; lia. }
  pose proof (nz_sorted w) as Hs.
  destruct (nz w) as [|[p4 e4] [|[p3 e3] [|[p2 e2] [|[p1 e1] [|]]]]]; [done|..|simpl in Hn; lia]; exfalso.
  all: repeat match goal with
       | H : StronglySorted _ (_ :: _) |- _ => apply StronglySorted_inv in H as [? ?]
       | H : Forall _ (_ :: _) |- _ => apply Forall_cons_iff in H as [? ?]
       end; cbn [fst snd rev app] in *.
  - apply no_one in V; [done|]. apply (Hb p4 e4). simpl. auto.
  - destruct (Hb p4 e4), (Hb p3 e3); [simpl; auto..|]. apply no_two in V; [done|lia..].
  - destruct (Hb p4 e4), (Hb p3 e3), (Hb p2 e2); [simpl; auto..|]. apply no_three in V; [done|lia..].
  - destruct (Hb p4 e4), (Hb p3 e3), (Hb p2 e2), (Hb p1 e1); [simpl; auto 6..|]. apply no_four in V; [done|lia..].
Qed.

(** * Four errors are detected *)

(** The number of positions at which two strings differ, up to case. *)
Fixpoint hamming (s t : bytes) : nat :=
  match s, t with
  | x :: s, y :: t => (if LowerCase x =? LowerCase y then 0 else 1) + hamming s t
  | _, _ => 0
  end.

Lemma hamming_app s s' t t' :
  length s = length s' -> hamming (s ++ t) (s' ++ t') = (hamming s s' + hamming t t')%nat.
Proof.
  revert s'. induction s as [|x s IH]; intros [|y s'] H; try done. simpl. rewrite IH by (by injection H). lia.
Qed.

(** Values of characters that agree up to case. *)
Lemma decode_values_nz s t v w :
  decode_values s = Ok (Some v) -> decode_values t = Ok (Some w) -> length s = length t ->
  length (nz (zip_with Z.lxor v w)) = hamming s t.
Proof.
  revert t v w. induction s as [|c s IH]; intros [|d t] v w Hs Ht Hl; try done; simpl in Hs, Ht; [by simplify_eq|].
  apply result_bind_inv in Hs as (x & Ex & Hs). apply result_bind_inv in Ht as (y & Ey & Ht).
  destruct (Z.eqb_spec x (-1)); [done|]. destruct (Z.eqb_spec y (-1)); [done|].
  apply result_bind_inv in Hs as ([vs|] & Evs & Hs); [|done]. apply result_bind_inv in Ht as ([ws|] & Ews & Ht); [|done].
  injection Hs as <-. injection Ht as <-. injection Hl as Hl. specialize (IH t vs ws Evs Ews Hl). simpl.
  destruct (rev_charset c x Ex) as (Hx & Cx & _); [done|]. destruct (rev_charset d y Ey) as (Hy & Cy & _); [done|].
  destruct (Z.eqb_spec (Z.lxor x y) 0) as [E|E].
  - apply Z.lxor_eq in E as ->. rewrite Cx in Cy. injection Cy as ->. rewrite Z.eqb_refl. simpl. exact IH.
  - destruct (Z.eqb_spec (LowerCase c) (LowerCase d)) as [F|F]; [|simpl; by rewrite IH]. exfalso.
    apply E. rewrite F in Cx. destruct (charset_rev x Hx) as (c1 & A1 & B1 & _), (charset_rev y Hy) as (c2 & A2 & B2 & _).
    rewrite A1 in Cx. rewrite A2 in Cy. assert (x = y) as -> by congruence. apply Z.lxor_nilpotent.
Qed.

Lemma zip_xor_wf v w :
  Forall (is_uint 5) v -> Forall (is_uint 5) w -> Forall (is_uint 5) (zip_with Z.lxor v w).
Proof.
  intros Hv. revert w. induction Hv as [|x v Hx Hv IH]; intros [|y w] Hw; simpl; try constructor.
  - apply Forall_cons_iff in Hw as [Hy _]. apply lxor_is_uint; (done || lia).
  - apply Forall_cons_iff in Hw as [_ Hw]. by apply IH.
Qed.

Lemma zip_xor_zero v w : length v = length w -> Forall (fun x => x = 0) (zip_with Z.lxor v w) -> v = w.
Proof.
  revert w. induction v as [|x v IH]; intros [|y w] Hl H; try done. simpl in H.
  apply Forall_cons_iff in H as [Hx%Z.lxor_eq H]. f_equal; [done|]. apply IH; [by injection Hl|done].
Qed.

(** The expansion of the human readable part is the start of the polynomial. *)
Definition hrp_state (h : bytes) : Z := PolyMod (PreparePolynomialCoefficients h []).

Lemma PolyMod_hrp h v : PolyMod (PreparePolynomialCoefficients h v) = poly (hrp_state h) v.
Proof. rewrite <- (app_nil_l v) at 1. rewrite Prepare_app. change PolyMod with (poly 1). apply poly_app. Qed.

Lemma close_strings_equal s t limit r1 r2 :
  limit <= 90 -> Decode s limit = Ok r1 -> Decode t limit = Ok r2 ->
  encoding r1 <> INVALID -> encoding r1 = encoding r2 -> hrp r1 = hrp r2 ->
  length s = length t -> (hamming s t <= 4)%nat ->
  LowerCase <$> s = LowerCase <$> t.
Proof.
  intros Hlim H1 H2 He Hee Hh Hlen Hd.
  destruct (Decode_inv s limit r1 H1 He) as (h1 & d1 & w1 & -> & Hne & _ & Hl & _ & D1 & E1 & V1 & T1).
  rewrite Hee in He. destruct (Decode_inv t limit r2 H2 He) as (h2 & d2 & w2 & -> & _ & _ & _ & _ & D2 & E2 & V2 & T2).
  assert (length h1 = length h2) as Lh by (rewrite <- (length_fmap LowerCase h1), <- (length_fmap LowerCase h2); congruence).
  assert (length d1 = length d2) as Ld by (rewrite !length_app in Hlen; simpl in Hlen; lia).
  destruct (decode_values_ok d1 w1 D1) as (F1 & C1 & _ & L1). destruct (decode_values_ok d2 w2 D2) as (F2 & C2 & _ & L2).
  destruct (EncodingConstant_ok _ He) as (c & Ec & _). rewrite Hee, Hh in V1.
  apply (VerifyChecksum_spec _ _ _ c Ec) in V1, V2. rewrite PolyMod_hrp in V1, V2.
  assert (w1 = w2) as ->.
  { apply zip_xor_zero; [lia|]. apply light_word.
    - by apply zip_xor_wf.
    - unfold zlen in *. rewrite length_zip_with. rewrite length_app in Hl. simpl length in Hl. destruct h1; [done|].
      simpl length in Hl. lia.
    - rewrite (decode_values_nz d1 d2) by done. rewrite hamming_app in Hd by done. simpl in Hd. lia.
    - intros i Hi. rewrite <- (syn_difference i (hrp_state (hrp r2))) by (done || lia).
      rewrite V1, V2, Z.lxor_nilpotent, syn_low by (done || by_decide). by apply emb_zero. }
  rewrite !fmap_app, !fmap_cons. rewrite <- E1, <- E2, Hh. congruence.
Qed.

Lemma hamming_same s t : LowerCase <$> s = LowerCase <$> t -> hamming s t = 0%nat.
Proof.
  revert t. induction s as [|x s IH]; intros [|y t] H; try done. rewrite !fmap_cons in H. injection H as Hx H.
  simpl. rewrite Hx, Z.eqb_refl. by apply IH.
Qed.

(** C24: Bech32 and Bech32m detect any four wrong characters: if a string of at most
    90 characters is valid and one to four of its characters are replaced, the
    result is not valid with the same encoding and the same human readable part.
    (The human readable part can only stay the same if the replaced characters are
    in the data part and none of them becomes a separator.) *)
Theorem detects_four_errors s t limit r1 r2 :
  limit <= 90 -> Decode s limit = Ok r1 -> encoding r1 <> INVALID ->
  length t = length s -> (1 <= hamming s t <= 4)%nat -> Decode t limit = Ok r2 ->
  encoding r2 <> encoding r1 \/ hrp r2 <> hrp r1.
Proof.
  intros Hlim H1 He Hlen Hd H2. destruct (decide (encoding r2 = encoding r1)) as [E|]; [right|by left]. intros Hh.
  assert (hamming s t = 0%nat) as E0; [|lia].
  apply hamming_same. by eapply close_strings_equal; [..|lia|]; eauto with lia.
Qed.

Lemma detects_four_errors_witness :
  let s := to_bytes "bc1qw508d6qejxtdg4y5r3zarvary0c5xw7kv8f3t4" in
  let t := to_bytes "bc1qw508d6qejxtdg4y5r3zarvary0c5xw7kv8zzzz" in
  exists r, Decode t 90 = Ok r /\ hamming s t = 4%nat /\ (encoding r <> BECH32 \/ hrp r <> to_bytes "bc").
Proof.
  intros s t.
  destruct (Decode s 90) as [r1|] eqn:Es; [|exfalso; vm_compute in Es; discriminate Es].
  destruct (Decode t 90) as [r2|] eqn:Et; [|exfalso; vm_compute in Et; discriminate Et].
  exists r2. split; [reflexivity|]. split; [vm_compute; reflexivity|].
  assert (encoding r1 = BECH32 /\ hrp r1 = to_bytes "bc") as [<- <-]
    by (vm_compute in Es; injection Es as <-; split; reflexivity).
  apply (detects_four_errors s t 90 r1 r2).
  - lia.
  - exact Es.
  - vm_compute in Es. injection Es as <-. discriminate.
  - reflexivity.
  - vm_compute. lia.
  - exact Et.
Defined.
