(* ===== verification/Bech32Locate.v ===== *)
(** [LocateErrors] of src/bitcoin/src/bech32.cpp finds what it claims: for one
    encoding, one wrong character is found exactly, two wrong characters are found
    exactly, and with one wrong character the choice between Bech32 and Bech32m
    cannot go wrong either. *)

From Stdlib Require Import Btauto Ring.
From S2P Require Import Prelude Bech32 Gf1024 Bech32Code.

#[local] Opaque Syndrome.

(** * Patterns of errors *)

(** The syndromes of a list of errors (power, value). *)
Definition pattern (residue : Z) (ps : list (Z * Z)) : Prop :=
  forall i, 0 <= i <= 2 -> syn i residue = sum (997 + i) ps.

(** The coefficient that the errors add up to at a power. *)
Definition coefficient (x : Z) (ps : list (Z * Z)) : Z :=
  foldr (fun '(p, e) acc => if p =? x then Z.lxor e acc else acc) 0 ps.

(** The polynomial of the errors, from the power [n - 1] down. *)
Fixpoint word (n : nat) (ps : list (Z * Z)) : list Z :=
  match n with
  | O => []
  | S n => coefficient (Z.of_nat n) ps :: word n ps
  end.

Definition error_ok (length : Z) (pe : Z * Z) : Prop := 0 <= pe.1 < length /\ 0 < pe.2 < 32.

Lemma length_word n ps : length (word n ps) = n.
Proof. induction n; simpl; congruence. Qed.

Lemma coefficient_wf x ps : Forall (fun pe => 0 <= pe.2 < 32) ps -> is_uint 5 (coefficient x ps).
Proof.
  induction 1 as [|[p e] ps He Hps IH]; [by_decide|]. simpl in *. destruct (p =? x); [|done].
  apply lxor_is_uint; [lia| |done]. unfold is_uint. lia.
Qed.

Lemma word_wf n ps : Forall (fun pe => 0 <= pe.2 < 32) ps -> Forall (is_uint 5) (word n ps).
Proof. intros H. induction n; simpl; constructor; [by apply coefficient_wf|done]. Qed.

Lemma ev_word_nil j n : ev j (word n []) = 0%gf.
Proof.
  induction n as [|n IH]; [done|]. simpl. rewrite IH. assert (emb 0 = 0%gf) as -> by (by apply emb_zero; lia). ring.
Qed.

Lemma ev_word_cons j n p e ps :
  0 <= p < Z.of_nat n -> 0 <= e < 32 -> Forall (fun pe => 0 <= pe.2 < 32) ps ->
  ev j (word n ((p, e) :: ps)) = (emb e * alpha (j * p) + ev j (word n ps))%gf.
Proof.
  intros Hp He Hps.
  assert (forall n, Z.of_nat n <= p -> ev j (word n ((p, e) :: ps)) = ev j (word n ps)) as Hlow.
  { clear n Hp. induction n as [|n IH]; intros Hn; [done|]. cbn [word ev coefficient foldr].
    destruct (Z.eqb_spec p (Z.of_nat n)); [lia|]. rewrite IH by lia. unfold zlen. by rewrite !length_word. }
  induction n as [|n IH]; [lia|]. cbn [word ev coefficient foldr]. unfold zlen. rewrite !length_word.
  pose proof (coefficient_wf (Z.of_nat n) ps Hps) as Hc. unfold is_uint in Hc.
  change (foldr _ 0 ps) with (coefficient (Z.of_nat n) ps).
  destruct (Z.eqb_spec p (Z.of_nat n)) as [->|Hne].
  - rewrite Hlow, emb_lxor by lia. ring.
  - rewrite IH by lia. ring.
Qed.

Lemma ev_word j n ps :
  Forall (fun pe => 0 <= pe.1 < Z.of_nat n /\ 0 <= pe.2 < 32) ps -> ev j (word n ps) = sum j ps.
Proof.
  induction 1 as [|[p e] ps [Hp He] Hps IH]; [apply ev_word_nil|].
  rewrite ev_word_cons; [rewrite IH; reflexivity|done..|]. revert Hps. apply Forall_impl. by intros ? [_ ?].
Qed.

Lemma coefficient_in x ps : coefficient x ps <> 0 -> In x (map fst ps).
Proof.
  induction ps as [|[p e] ps IH]; simpl; [done|]. destruct (Z.eqb_spec p x) as [->|]; [by left|]. intros H. right. by apply IH.
Qed.

Lemma nz_word n ps p e : In (p, e) (nz (word n ps)) -> In p (map fst ps).
Proof.
  induction n as [|n IH]; [done|]. simpl. destruct (Z.eqb_spec (coefficient (Z.of_nat n) ps) 0) as [|Hc]; [done|].
  intros [[= <- <-]|H]; [|by apply IH]. unfold zlen. rewrite length_word. by apply coefficient_in.
Qed.

Lemma nz_NoDup w : List.NoDup (map fst (nz w)).
Proof.
  induction w as [|x w IH]; [constructor|]. simpl. destruct (x =? 0); [done|]. simpl. constructor; [|done].
  intros Hin. apply in_map_iff in Hin as ([p e] & Hp & Hin). apply nz_below in Hin as [Hb _]. simpl in Hp. lia.
Qed.

Lemma nz_word_length n ps : (length (nz (word n ps)) <= length ps)%nat.
Proof.
  rewrite <- (List.length_map fst (nz _)), <- (List.length_map fst ps).
  apply List.NoDup_incl_length; [apply nz_NoDup|]. intros p Hin. apply in_map_iff in Hin as ([q e] & <- & Hin).
  by apply nz_word in Hin.
Qed.

Lemma word_coefficient n ps x : Forall (fun y => y = 0) (word n ps) -> 0 <= x < Z.of_nat n -> coefficient x ps = 0.
Proof.
  induction n as [|n IH]; intros H Hx; [lia|]. simpl in H. apply Forall_cons_iff in H as [H0 H].
  destruct (decide (x = Z.of_nat n)) as [->|]; [done|]. apply IH; [done|lia].
Qed.

(** At most four errors within 89 powers whose syndromes vanish cancel out. *)
Lemma light_sum ps :
  (length ps <= 4)%nat -> Forall (fun pe => 0 <= pe.1 < 89 /\ 0 <= pe.2 < 32) ps ->
  (forall i, 0 <= i <= 2 -> sum (997 + i) ps = 0%gf) -> forall x, 0 <= x < 89 -> coefficient x ps = 0.
Proof.
  intros Hl Hps Hs x Hx. apply (word_coefficient 89); [|lia]. apply light_word.
  - apply word_wf. revert Hps. apply Forall_impl. by intros ? [_ ?].
  - unfold zlen. rewrite length_word. lia.
  - etransitivity; [apply nz_word_length|done].
  - intros i Hi. rewrite ev_word by done. by apply Hs.
Qed.

Lemma sum_app j ps qs : sum j (ps ++ qs) = (sum j ps + sum j qs)%gf.
Proof.
  induction ps as [|[p e] ps IH]; [simpl; ring|]. rewrite <- app_comm_cons, !sum_cons, IH. ring.
Qed.

(** Two patterns of one residue agree at every power. *)
Lemma pattern_unique residue ps qs :
  (length ps + length qs <= 4)%nat ->
  Forall (fun pe => 0 <= pe.1 < 89 /\ 0 <= pe.2 < 32) (ps ++ qs) ->
  pattern residue ps -> pattern residue qs ->
  forall x, 0 <= x < 89 -> coefficient x (ps ++ qs) = 0.
Proof.
  intros Hl Hf Hp Hq. apply light_sum; [by rewrite length_app|done|].
  intros i Hi. rewrite sum_app, <- Hp, <- Hq by done. apply gf_add_self.
Qed.

(** * The search in the field *)

Lemma gf_mul_cancel x y d : d <> 0%gf -> (x * d = y * d)%gf -> x = y.
Proof.
  intros Hd H. apply gf_add_cancel. assert (((x + y) * d = 0)%gf) as E.
  { transitivity (x * d + y * d)%gf; [ring|]. rewrite H. ring. }
  by apply gf_mul_eq_0 in E as [?|?].
Qed.

Lemma val_zero x : val x =? 0 = false -> x <> 0%gf.
Proof. intros H ->. discriminate. Qed.

Lemma val_nonzero x : x <> 0%gf -> val x =? 0 = false.
Proof. intros H. apply Z.eqb_neq. intros E. apply H, gf_eq. exact E. Qed.

(** One round of the loop: the second position, if the first is accepted. *)
Definition second_position (s0 s1 s2 : gf) (length p1 : Z) : option Z :=
  let a2 := (s2 + s1 * alpha p1)%gf in
  let a1 := (s1 + s0 * alpha p1)%gf in
  if (val a2 =? 0) || (val a1 =? 0) then None else
  let p2 := (lg a2 - lg a1 + 1023) mod 1023 in
  if (length <=? p2) || (p1 =? p2) then None else
  let b1 := (s1 + s0 * alpha p2)%gf in
  if val b1 =? 0 then None else
  let inv := 1023 - lg (alpha p1 + alpha p2) in
  if negb ((lg a1 + inv + 26 * p2) mod 33 =? 0) then None else
  if negb ((lg b1 + inv + 26 * p1) mod 33 =? 0) then None else Some p2.

Definition positions (size p1 p2 : Z) : list Z :=
  if p2 <? p1 then [size - p1 - 1; size - p2 - 1] else [size - p2 - 1; size - p1 - 1].

Lemma times_power_gf s p : 0 <= s < 1024 -> 0 <= p -> times_power s (LOG s) p = Ok (val (emb s * alpha p)%gf).
Proof.
  intros Hs Hp. unfold times_power. destruct (Z.eqb_spec s 0) as [->|Hn].
  - assert (emb 0 = 0%gf) as -> by (by apply emb_zero; lia). by rewrite gf_mul_0_l.
  - rewrite at_EXP by (apply Z.mod_pos_bound; lia). f_equal.
    assert (emb s <> 0%gf) as Hz by (rewrite emb_zero; lia).
    destruct (lg_spec (emb s) Hz) as [_ E]. rewrite <- E at 1. rewrite <- alpha_add, val_alpha. by rewrite <- lg_emb.
Qed.

Lemma xor_val s x : 0 <= s < 1024 -> Z.lxor s (val x) = val (emb s + x)%gf.
Proof. intros Hs. by rewrite val_add, val_emb. Qed.

Lemma locate_pair_gf s0 s1 s2 length size p1 :
  0 <= s0 < 1024 -> 0 <= s1 < 1024 -> 0 <= s2 < 1024 -> 0 <= p1 < length -> length <= 1023 ->
  locate_pair s0 s1 s2 (LOG s0) (LOG s1) length size p1
  = Ok (option_map (positions size p1) (second_position (emb s0) (emb s1) (emb s2) length p1)).
Proof.
  intros H0 H1 H2 Hp Hl. unfold locate_pair, second_position.
  rewrite (times_power_gf s1 p1), (times_power_gf s0 p1) by lia. cbn [mbind result_bind].
  rewrite !xor_val by done. set (a2 := (emb s2 + _)%gf). set (a1 := (emb s1 + emb s0 * alpha p1)%gf).
  destruct (val a2 =? 0); [done|]. rewrite (at_LOG _ (val_range a2)). cbn [mbind result_bind orb].
  destruct (val a1 =? 0); [done|]. rewrite (at_LOG _ (val_range a1)). cbn [mbind result_bind].
  change (LOG (val a1)) with (lg a1). change (LOG (val a2)) with (lg a2). set (p2 := (_ mod 1023)).
  assert (0 <= p2 < 1023) by (apply Z.mod_pos_bound; lia).
  destruct (Z.leb_spec length p2); [done|]. destruct (Z.eqb_spec p1 p2); [done|]. cbn [orb].
  rewrite (times_power_gf s0 p2) by lia. cbn [mbind result_bind]. rewrite xor_val by done.
  set (b1 := (emb s1 + _)%gf). destruct (val b1 =? 0); [done|]. rewrite (at_LOG _ (val_range b1)). cbn [mbind result_bind].
  rewrite !at_EXP by lia. cbn [mbind result_bind].
  assert (Z.lxor (EXP p1) (EXP p2) = val (alpha p1 + alpha p2)%gf) as ->
    by (rewrite val_add, !val_alpha, !Z.mod_small by lia; reflexivity).
  rewrite (at_LOG _ (val_range (alpha p1 + alpha p2)%gf)). cbn [mbind result_bind].
  change (LOG (val b1)) with (lg b1). change (LOG (val (alpha p1 + alpha p2)%gf)) with (lg (alpha p1 + alpha p2)).
  change (1023 - 997) with 26.
  destruct (negb _); [done|]. destruct (negb _); done.
Qed.

#[local] Opaque lg.

Lemma distinct_powers p1 p2 : 0 <= p1 < 1023 -> 0 <= p2 < 1023 -> p1 <> p2 -> (alpha p1 + alpha p2)%gf <> 0%gf.
Proof. intros H1 H2 Hn E%gf_add_cancel. apply alpha_mod in E. rewrite !Z.mod_small in E by lia. lia. Qed.

(** The value of an error whose logarithm the code has tested. *)
Lemma error_value a d p :
  a <> 0%gf -> d <> 0%gf -> (lg a + (1023 - lg d) + 26 * p) mod 33 = 0 ->
  exists e, 0 < e < 32 /\ forall i, (emb e * alpha ((997 + i) * p) * d = a * alpha (i * p))%gf.
Proof.
  intros Ha Hd Hm. set (x := alpha (lg a + (1023 - lg d) + 26 * p)).
  assert (x <> 0%gf) as Hx by apply alpha_nonzero.
  assert (val x < 32) as Hs.
  { apply lg_subfield; [done|]. unfold x. rewrite lg_alpha. rewrite <- Hm.
    symmetry. apply Znumtheory.Zmod_div_mod; [lia|lia|by exists 31]. }
  exists (val x). pose proof (val_range x). apply val_nonzero, Z.eqb_neq in Hx. split; [lia|]. intros i.
  rewrite emb_val. unfold x. destruct (lg_spec a Ha) as [_ Ea]. destruct (lg_spec d Hd) as [_ Ed].
  rewrite <- Ed at 2. rewrite <- Ea at 2. rewrite <- !alpha_add.
  rewrite <- (alpha_period (1 + p) (lg a + i * p)). f_equal. lia.
Qed.

Lemma second_position_sound s0 s1 s2 length p1 p2 :
  0 <= p1 < length -> length <= 89 -> second_position s0 s1 s2 length p1 = Some p2 ->
  0 <= p2 < length /\ p1 <> p2 /\
  exists e1 e2, 0 < e1 < 32 /\ 0 < e2 < 32 /\
    s0 = sum 997 [(p1, e1); (p2, e2)] /\ s1 = sum 998 [(p1, e1); (p2, e2)] /\ s2 = sum 999 [(p1, e1); (p2, e2)].
Proof.
  intros Hp Hl. unfold second_position. set (a2 := (s2 + _)%gf). set (a1 := (s1 + s0 * alpha p1)%gf).
  destruct (val a2 =? 0) eqn:Ea2; [done|]. destruct (val a1 =? 0) eqn:Ea1; [done|]. cbn [orb].
  apply val_zero in Ea1, Ea2. remember ((lg a2 - lg a1 + 1023) mod 1023) as q eqn:Hq.
  destruct (Z.leb_spec length q); [done|]. destruct (Z.eqb_spec p1 q) as [|Hne]; [done|]. cbn [orb].
  set (b1 := (s1 + s0 * alpha q)%gf). destruct (val b1 =? 0) eqn:Eb1; [done|]. apply val_zero in Eb1.
  set (d := (alpha p1 + alpha q)%gf).
  destruct (Z.eqb_spec ((lg a1 + (1023 - lg d) + 26 * q) mod 33) 0) as [M2|]; [|done].
  destruct (Z.eqb_spec ((lg b1 + (1023 - lg d) + 26 * p1) mod 33) 0) as [M1|]; [|done]. cbn [negb]. intros Eq. assert (q = p2) as <- by congruence. clear Eq.
  assert (0 <= q < 1023) by (rewrite Hq; apply Z.mod_pos_bound; lia). split; [lia|]. split; [done|].
  assert (d <> 0%gf) as Hd by (apply distinct_powers; lia).
  destruct (error_value a1 d q Ea1 Hd M2) as (e2 & He2 & V2). destruct (error_value b1 d p1 Eb1 Hd M1) as (e1 & He1 & V1).
  exists e1, e2. split; [done|]. split; [done|].
  assert (a2 = alpha q * a1)%gf as Ea.
  { destruct (lg_spec a1 Ea1) as [_ E1]. destruct (lg_spec a2 Ea2) as [_ E2]. rewrite <- E1, <- E2 at 1. rewrite <- alpha_add.
    apply alpha_mod. rewrite Hq, Zplus_mod_idemp_l. rewrite <- (Z_mod_plus_full (lg a2) 1 1023). f_equal. lia. }
  pose proof (V1 0) as V10. pose proof (V2 0) as V20. pose proof (V1 1) as V11. pose proof (V2 1) as V21.
  pose proof (V1 2) as V12. pose proof (V2 2) as V22. clear V1 V2.
  change (997 + 0) with 997 in *. change (997 + 1) with 998 in *. change (997 + 2) with 999 in *.
  rewrite !Z.mul_0_l, alpha_0 in *. rewrite !Z.mul_1_l in *.
  assert (forall p, alpha (2 * p) = (alpha p * alpha p)%gf) as Sq by (intros p; rewrite <- alpha_add; f_equal; lia).
  rewrite !Sq in *. cbn [sum foldr].
  split_and!; apply (gf_mul_cancel _ _ d Hd).
  - transitivity (emb e1 * alpha (997 * p1) * d + emb e2 * alpha (997 * q) * d)%gf; [|ring]. rewrite V10, V20.
    unfold b1, a1, d. ring.
  - transitivity (emb e1 * alpha (998 * p1) * d + emb e2 * alpha (998 * q) * d)%gf; [|ring]. rewrite V11, V21.
    unfold b1, a1, d. ring.
  - transitivity (emb e1 * alpha (999 * p1) * d + emb e2 * alpha (999 * q) * d)%gf; [|ring]. rewrite V12, V22.
    assert (s2 = s1 * alpha p1 + alpha q * a1)%gf as -> by (rewrite <- Ea; unfold a2; ring). unfold b1, a1, d. ring.
Qed.

Lemma mod_33 a : (a mod 1023) mod 33 = a mod 33.
Proof. symmetry. apply Znumtheory.Zmod_div_mod; [lia|lia|by exists 31]. Qed.

Lemma alpha_double p : alpha (2 * p) = (alpha p * alpha p)%gf.
Proof. rewrite <- alpha_add. f_equal. lia. Qed.

Lemma emb_nonzero e : 0 < e < 32 -> emb e <> 0%gf.
Proof. intros He. rewrite emb_zero; lia. Qed.

Lemma lg_error e : 0 < e < 32 -> lg (emb e) mod 33 = 0.
Proof. intros He. apply lg_subfield; [by apply emb_nonzero|]. rewrite val_emb; lia. Qed.

(** The term of an error, at the first power and at the next ones. *)
Definition term (p e : Z) : gf := (emb e * alpha (997 * p))%gf.

Lemma term_nonzero p e : 0 < e < 32 -> term p e <> 0%gf.
Proof. intros He. apply gf_mul_nonzero; [by apply emb_nonzero|apply alpha_nonzero]. Qed.

Lemma term_shift i p e : (emb e * alpha ((997 + i) * p) = term p e * alpha (i * p))%gf.
Proof. unfold term. rewrite Z.mul_add_distr_r, alpha_add. ring. Qed.

Lemma term_log p e : 0 < e < 32 -> (lg (term p e) + 26 * p) mod 33 = 0.
Proof.
  intros He. unfold term. rewrite lg_mul by (apply emb_nonzero || apply alpha_nonzero; done). rewrite lg_alpha.
  rewrite Zplus_mod_idemp_r, <- Zplus_mod_idemp_l, mod_33, Zplus_mod_idemp_l, <- Z.add_assoc.
  rewrite <- Zplus_mod_idemp_l, lg_error, Z.add_0_l by done.
  replace (997 * p + 26 * p) with (p * 31 * 33) by lia. apply Z_mod_mult.
Qed.

(** What is left of a logarithm after a division. *)
Lemma lg_quotient y d : y <> 0%gf -> d <> 0%gf -> (lg (y * d) - lg d + 1023) mod 1023 = lg y.
Proof.
  intros Hy Hd. rewrite lg_mul by done. destruct (lg_spec y Hy) as [Ry _].
  replace ((lg y + lg d) mod 1023 - lg d + 1023) with ((lg y + lg d) mod 1023 + (1023 - lg d)) by lia.
  rewrite Zplus_mod_idemp_l. replace (lg y + lg d + (1023 - lg d)) with (lg y + 1 * 1023) by lia.
  rewrite Z_mod_plus_full. by apply Z.mod_small.
Qed.

Lemma quotient_log p e d :
  0 < e < 32 -> d <> 0%gf -> (lg (term p e * d) + (1023 - lg d) + 26 * p) mod 33 = 0.
Proof.
  intros He Hd. rewrite <- (term_log p e He), <- (lg_quotient (term p e) d) by (done || by apply term_nonzero).
  rewrite <- (Zplus_mod_idemp_l (_ mod 1023)), mod_33, Zplus_mod_idemp_l. f_equal. lia.
Qed.

Lemma second_position_complete p1 p2 e1 e2 length :
  0 <= p1 < length -> 0 <= p2 < length -> length <= 89 -> p1 <> p2 -> 0 < e1 < 32 -> 0 < e2 < 32 ->
  second_position (sum 997 [(p1, e1); (p2, e2)]) (sum 998 [(p1, e1); (p2, e2)]) (sum 999 [(p1, e1); (p2, e2)]) length p1
  = Some p2.
Proof.
  intros H1 H2 Hl Hne He1 He2. unfold second_position. cbn [sum foldr].
  change 998 with (997 + 1). change 999 with (997 + 2).
  rewrite !(term_shift 1), !(term_shift 2), !alpha_double, !Z.mul_1_l.
  change (emb e1 * alpha (997 * p1))%gf with (term p1 e1). change (emb e2 * alpha (997 * p2))%gf with (term p2 e2).
  pose proof (term_nonzero p1 e1 He1) as N1. pose proof (term_nonzero p2 e2 He2) as N2.
  pose proof (distinct_powers p1 p2 ltac:(lia) ltac:(lia) Hne) as Hd.
  set (d := (alpha p1 + alpha p2)%gf) in *.
  match goal with |- context [val ?a =? 0] => replace a with (alpha p2 * (term p2 e2 * d))%gf by (unfold d; ring) end.
  assert (term p2 e2 * d <> 0)%gf as N2d by by apply gf_mul_nonzero.
  match goal with |- context [_ || (val ?a =? 0)] => replace a with (term p2 e2 * d)%gf by (unfold d; ring) end.
  rewrite (val_nonzero _ (gf_mul_nonzero _ _ (alpha_nonzero p2) N2d)), (val_nonzero _ N2d). cbn [orb].
  rewrite (lg_quotient _ _ (alpha_nonzero p2) N2d). rewrite lg_alpha, Z.mod_small by lia.
  destruct (Z.leb_spec length p2); [lia|]. destruct (Z.eqb_spec p1 p2); [done|]. cbn [orb].
  match goal with |- context [val ?a =? 0] => replace a with (term p1 e1 * d)%gf by (unfold d; ring) end.
  rewrite (val_nonzero _ (gf_mul_nonzero _ _ N1 Hd)).
  fold d. rewrite (quotient_log p2 e2 d He2 Hd), (quotient_log p1 e1 d He1 Hd). reflexivity.
Qed.

(** * One error *)

(** The test for a single error, on the syndromes. *)
Definition single (s0 s1 s2 : gf) : bool :=
  negb (lg s0 =? -1) && negb (lg s1 =? -1) && negb (lg s2 =? -1)
  && ((2 * lg s1 - lg s2 - lg s0 + 2046) mod 1023 =? 0).

Lemma lg_defined x : negb (lg x =? -1) = true <-> x <> 0%gf.
Proof. rewrite negb_true_iff, Z.eqb_neq. by rewrite lg_zero. Qed.

Lemma single_spec s0 s1 s2 :
  single s0 s1 s2 = true <-> (s0 <> 0 /\ s1 <> 0 /\ s2 <> 0 /\ s1 * s1 = s0 * s2)%gf.
Proof.
  assert (s0 <> 0%gf -> s1 <> 0%gf -> s2 <> 0%gf ->
    (2 * lg s1 - lg s2 - lg s0 + 2046) mod 1023 = 0 <-> (s1 * s1 = s0 * s2)%gf) as H.
  { intros N0 N1 N2. destruct (lg_spec s0 N0) as [_ E0], (lg_spec s1 N1) as [_ E1], (lg_spec s2 N2) as [_ E2].
    assert ((s1 * s1 = s0 * s2)%gf <-> alpha (lg s1 + lg s1) = alpha (lg s0 + lg s2)) as ->
      by (rewrite !alpha_add, E0, E1, E2; reflexivity).
    rewrite alpha_mod.
    replace (2 * lg s1 - lg s2 - lg s0 + 2046) with ((lg s1 + lg s1) - (lg s0 + lg s2) + 2 * 1023) by lia.
    rewrite Z_mod_plus_full. split; intros E.
    - replace (lg s1 + lg s1) with ((lg s1 + lg s1 - (lg s0 + lg s2)) + (lg s0 + lg s2)) by lia.
      rewrite <- Zplus_mod_idemp_l, E, Z.add_0_l. reflexivity.
    - rewrite Zminus_mod, E, Z.sub_diag. reflexivity. }
  unfold single. split.
  - intros [[[N0%lg_defined N1%lg_defined]%andb_prop N2%lg_defined]%andb_prop E%Z.eqb_eq]%andb_prop.
    split_and!; [exact N0|exact N1|exact N2|exact (proj1 (H N0 N1 N2) E)].
  - intros (N0 & N1 & N2 & E). apply (H N0 N1 N2), Z.eqb_eq in E. rewrite E.
    apply lg_defined in N0, N1, N2. rewrite N0, N1, N2. reflexivity.
Qed.

Definition single_position (s0 s1 : gf) (length : Z) : option Z :=
  let p1 := (lg s1 - lg s0 + 1023) mod 1023 in
  if (p1 <? length) && ((lg s0 + 26 * p1) mod 33 =? 0) then Some p1 else None.

Lemma sum_one i p e : sum (997 + i) [(p, e)] = (term p e * alpha (i * p))%gf.
Proof. cbn [sum foldr]. rewrite term_shift. ring. Qed.

Lemma sum_two i p1 p2 e1 e2 :
  sum (997 + i) [(p1, e1); (p2, e2)] = (term p1 e1 * alpha (i * p1) + term p2 e2 * alpha (i * p2))%gf.
Proof. cbn [sum foldr]. rewrite !term_shift. ring. Qed.

Lemma single_complete p e length :
  0 <= p < length -> length <= 89 -> 0 < e < 32 ->
  single (sum 997 [(p, e)]) (sum 998 [(p, e)]) (sum 999 [(p, e)]) = true /\
  single_position (sum 997 [(p, e)]) (sum 998 [(p, e)]) length = Some p.
Proof.
  intros Hp Hl He. rewrite (sum_one 0), (sum_one 1), (sum_one 2), alpha_double.
  rewrite Z.mul_0_l, Z.mul_1_l, alpha_0. replace (term p e * 1)%gf with (term p e) by ring.
  pose proof (term_nonzero p e He) as N. pose proof (alpha_nonzero p) as Na. split.
  - apply single_spec. split_and!; [exact N|exact (gf_mul_nonzero _ _ N Na)|exact (gf_mul_nonzero _ _ N (gf_mul_nonzero _ _ Na Na))|ring].
  - unfold single_position. rewrite gf_mul_comm, (lg_quotient _ _ Na N), lg_alpha, Z.mod_small by lia.
    rewrite (term_log p e He), (proj2 (Z.ltb_lt p length)) by lia. reflexivity.
Qed.

Lemma single_sound s0 s1 s2 length p :
  single s0 s1 s2 = true -> single_position s0 s1 length = Some p ->
  0 <= p < length /\
  exists e, 0 < e < 32 /\ s0 = sum 997 [(p, e)] /\ s1 = sum 998 [(p, e)] /\ s2 = sum 999 [(p, e)].
Proof.
  intros (N0 & N1 & N2 & E)%single_spec. unfold single_position.
  remember ((lg s1 - lg s0 + 1023) mod 1023) as q eqn:Hq.
  destruct (Z.ltb_spec q length) as [Hl|]; [|done]. destruct (Z.eqb_spec ((lg s0 + 26 * q) mod 33) 0) as [M|]; [|done].
  cbn [andb]. intros Eq. assert (q = p) as <- by congruence. clear Eq.
  assert (0 <= q < 1023) by (rewrite Hq; apply Z.mod_pos_bound; lia). split; [lia|].
  assert (s1 = s0 * alpha q)%gf as E1.
  { destruct (lg_spec s1 N1) as [_ L1]. destruct (lg_spec s0 N0) as [_ L0]. rewrite <- L1, <- L0 at 1.
    rewrite <- alpha_add. apply alpha_mod. rewrite Hq, Zplus_mod_idemp_r.
    rewrite <- (Z_mod_plus_full (lg s1) 1 1023). f_equal. lia. }
  assert (s2 = s0 * (alpha q * alpha q))%gf as E2.
  { apply (gf_mul_cancel _ _ s0 N0). transitivity (s0 * s2)%gf; [ring|]. rewrite <- E, E1. ring. }
  assert ((1:gf) <> 0)%gf as N by (rewrite <- alpha_0; apply alpha_nonzero).
  destruct (error_value s0 1%gf q N0 N) as (e & He & V).
  { rewrite <- alpha_0, lg_alpha, Zmod_0_l.
    replace (lg s0 + (1023 - 0) + 26 * q) with (lg s0 + 26 * q + 31 * 33) by lia.
    by rewrite Z_mod_plus_full. }
  exists e. split; [exact He|].
  pose proof (V 0) as V0. pose proof (V 1) as V1. pose proof (V 2) as V2.
  rewrite alpha_double in V2. rewrite Z.mul_0_l, alpha_0 in V0. rewrite Z.mul_1_l in V1.
  change (997 + 0) with 997 in V0. change (997 + 1) with 998 in V1. change (997 + 2) with 999 in V2.
  cbn [sum foldr]. split_and!.
  - transitivity (s0 * 1)%gf; [ring|]. rewrite <- V0. ring.
  - rewrite E1, <- V1. ring.
  - rewrite E2, <- V2. ring.
Qed.

(** Two errors do not look like one. *)
Lemma two_not_single p1 p2 e1 e2 :
  0 <= p1 < 89 -> 0 <= p2 < 89 -> p1 <> p2 -> 0 < e1 < 32 -> 0 < e2 < 32 ->
  single (sum 997 [(p1, e1); (p2, e2)]) (sum 998 [(p1, e1); (p2, e2)]) (sum 999 [(p1, e1); (p2, e2)]) = false.
Proof.
  intros H1 H2 Hne He1 He2. apply not_true_iff_false. intros (_ & _ & _ & E)%single_spec.
  rewrite (sum_two 0), (sum_two 1), (sum_two 2), !alpha_double, !Z.mul_0_l, !Z.mul_1_l, alpha_0 in E.
  pose proof (distinct_powers p1 p2 ltac:(lia) ltac:(lia) Hne) as Hd.
  assert (term p1 e1 * term p2 e2 * ((alpha p1 + alpha p2) * (alpha p1 + alpha p2)) = 0)%gf as Z.
  { match type of E with ?a = ?b => transitivity (a + b)%gf; [ring|rewrite E; apply gf_add_self] end. }
  revert Z. repeat apply gf_mul_nonzero; try assumption; by apply emb_nonzero || apply alpha_nonzero.
Qed.

(** * The errors of a residue *)

(** The loop over the first position. *)
Fixpoint first_pair (n : nat) (s0 s1 s2 : gf) (length p1 : Z) : option (Z * Z) :=
  match n with
  | O => None
  | S n =>
      match second_position s0 s1 s2 length p1 with
      | Some p2 => Some (p1, p2)
      | None => first_pair n s0 s1 s2 length (p1 + 1)
      end
  end.

Definition field_errors (s0 s1 s2 : gf) (length size : Z) : list Z :=
  if single s0 s1 s2 then
    match single_position s0 s1 length with Some p => [size - p - 1] | None => [] end
  else
    match first_pair (Z.to_nat length) s0 s1 s2 length 0 with Some (p1, p2) => positions size p1 p2 | None => [] end.

Lemma locate_pairs_gf n s0 s1 s2 length size p1 :
  0 <= s0 < 1024 -> 0 <= s1 < 1024 -> 0 <= s2 < 1024 -> 0 <= p1 -> p1 + Z.of_nat n <= length -> length <= 1023 ->
  locate_pairs n s0 s1 s2 (LOG s0) (LOG s1) length size p1
  = Ok (match first_pair n (emb s0) (emb s1) (emb s2) length p1 with Some (p1, p2) => positions size p1 p2 | None => [] end).
Proof.
  intros H0 H1 H2 Hp Hn Hl. revert p1 Hp Hn. induction n as [|n IH]; intros p1 Hp Hn; [reflexivity|].
  cbn [locate_pairs first_pair]. rewrite locate_pair_gf by lia. cbn [mbind result_bind].
  destruct (second_position _ _ _ _ _) as [p2|]; [reflexivity|]. cbn [option_map]. apply IH; lia.
Qed.

Lemma component_2 s : is_uint 30 s -> Z.shiftr s 20 = component 2 s.
Proof.
  intros Hs. unfold component. change 0x3FF with (2 ^ 10 - 1). change (10 * 2) with 20. rewrite land_mask by lia. symmetry. apply Z.mod_small.
  unfold is_uint in Hs. rewrite Z.shiftr_div_pow2 by lia. split; [apply Z.div_pos; lia|apply Z.div_lt_upper_bound; lia].
Qed.

Lemma possible_errors_gf residue length size :
  0 <= length <= 89 ->
  possible_errors residue length size
  = Ok (field_errors (syn 0 residue) (syn 1 residue) (syn 2 residue) length size).
Proof.
  intros Hl. unfold possible_errors, locate_syndromes, field_errors, single, single_position. cbv zeta.
  pose proof (component_range 0 (Syndrome residue)) as R0. pose proof (component_range 1 (Syndrome residue)) as R1.
  pose proof (component_range 2 (Syndrome residue)) as R2.
  rewrite (component_2 _ (Syndrome_range residue)).
  change (Z.land (Z.shiftr (Syndrome residue) 10) 0x3FF) with (component 1 (Syndrome residue)).
  assert (Z.land (Syndrome residue) 0x3FF = component 0 (Syndrome residue)) as ->
    by (unfold component; rewrite Z.mul_0_r, Z.shiftr_0_r; reflexivity).
  unfold syn. revert R0 R1 R2.
  generalize (component 0 (Syndrome residue)) (component 1 (Syndrome residue)) (component 2 (Syndrome residue)).
  intros s0 s1 s2 R0 R1 R2.
  rewrite (at_LOG s0 R0), (at_LOG s1 R1), (at_LOG s2 R2). cbn [mbind result_bind].
  rewrite (locate_pairs_gf (Z.to_nat length) s0 s1 s2 length size 0 R0 R1 R2) by lia.
  rewrite (lg_emb s0 R0), (lg_emb s1 R1), (lg_emb s2 R2). change (1023 - 997) with 26.
  destruct (negb _ && _ && _ && _); [|reflexivity]. destruct (_ && _); reflexivity.
Qed.

Lemma possible_errors_total residue length size : 0 <= length <= 89 -> exists l, possible_errors residue length size = Ok l.
Proof. intros Hl. eexists. exact (possible_errors_gf residue length size Hl). Qed.

Lemma first_pair_None n s0 s1 s2 length p1 :
  first_pair n s0 s1 s2 length p1 = None ->
  forall p, p1 <= p < p1 + Z.of_nat n -> second_position s0 s1 s2 length p = None.
Proof.
  revert p1. induction n as [|n IH]; intros p1 H p Hp; [lia|]. cbn [first_pair] in H.
  destruct (second_position s0 s1 s2 length p1) eqn:E; [done|].
  destruct (decide (p = p1)) as [->|]; [exact E|]. apply (IH (p1 + 1) H). lia.
Qed.

Lemma first_pair_Some n s0 s1 s2 length p1 q1 q2 :
  first_pair n s0 s1 s2 length p1 = Some (q1, q2) ->
  p1 <= q1 < p1 + Z.of_nat n /\ second_position s0 s1 s2 length q1 = Some q2.
Proof.
  revert p1. induction n as [|n IH]; intros p1 H; [done|]. cbn [first_pair] in H.
  destruct (second_position s0 s1 s2 length p1) eqn:E.
  - assert (p1 = q1 /\ z = q2) as [-> ->] by (split; congruence). split; [lia|exact E].
  - destruct (IH (p1 + 1) H) as [? ?]. split; [lia|assumption].
Qed.

(** The positions that explain a residue by one or by two wrong characters among
    the last [length] of a string of [size] characters. *)
Inductive explains (residue length size : Z) : list Z -> Prop :=
  | explains_one p e :
      0 <= p < length -> 0 < e < 32 -> pattern residue [(p, e)] -> explains residue length size [size - p - 1]
  | explains_two p1 p2 e1 e2 :
      0 <= p2 < p1 -> p1 < length -> 0 < e1 < 32 -> 0 < e2 < 32 -> pattern residue [(p1, e1); (p2, e2)] ->
      explains residue length size [size - p1 - 1; size - p2 - 1].

Lemma pattern_sums residue ps :
  pattern residue ps <-> syn 0 residue = sum 997 ps /\ syn 1 residue = sum 998 ps /\ syn 2 residue = sum 999 ps.
Proof.
  split.
  - intros H. exact (conj (H 0 ltac:(lia)) (conj (H 1 ltac:(lia)) (H 2 ltac:(lia)))).
  - intros (H0 & H1 & H2) i Hi. assert (i = 0 \/ i = 1 \/ i = 2) as [->|[-> | ->]] by lia; assumption.
Qed.

Lemma positions_explain residue length size p1 p2 e1 e2 :
  0 <= p1 < length -> 0 <= p2 < length -> p1 <> p2 -> 0 < e1 < 32 -> 0 < e2 < 32 ->
  pattern residue [(p1, e1); (p2, e2)] -> explains residue length size (positions size p1 p2).
Proof.
  intros H1 H2 Hne He1 He2 Hp. unfold positions. destruct (Z.ltb_spec p2 p1).
  - apply (explains_two residue length size p1 p2 e1 e2); (lia || assumption).
  - apply (explains_two residue length size p2 p1 e2 e1); [lia..|]. intros i Hi. rewrite (Hp i Hi). cbn [sum foldr]. ring.
Qed.

Lemma possible_errors_sound residue length size l :
  0 <= length <= 89 -> possible_errors residue length size = Ok l -> l = [] \/ explains residue length size l.
Proof.
  intros Hl. rewrite possible_errors_gf by assumption. intros H. assert (l = field_errors (syn 0 residue) (syn 1 residue) (syn 2 residue) length size) as -> by congruence. clear H.
  unfold field_errors. destruct (single _ _ _) eqn:S.
  - destruct (single_position _ _ _) as [p|] eqn:P; [right|by left].
    destruct (single_sound _ _ _ _ _ S P) as (Hp & e & He & E). apply (explains_one _ _ _ p e); [assumption..|].
    by apply pattern_sums.
  - destruct (first_pair _ _ _ _ _ _) as [[p1 p2]|] eqn:P; [right|by left].
    apply first_pair_Some in P as [Hp1 P]. apply second_position_sound in P as (Hp2 & Hne & e1 & e2 & He1 & He2 & E); [|lia..].
    apply (positions_explain _ _ _ p1 p2 e1 e2); [lia|assumption..|]. by apply pattern_sums.
Qed.

Lemma pair_unique residue p1 p2 e1 e2 q1 q2 f1 f2 :
  Forall (error_ok 89) [(p1, e1); (p2, e2)] -> Forall (error_ok 89) [(q1, f1); (q2, f2)] -> p1 <> p2 ->
  pattern residue [(p1, e1); (p2, e2)] -> pattern residue [(q1, f1); (q2, f2)] -> p1 = q1 \/ p1 = q2.
Proof.
  intros H1 H2 Hne P1 P2.
  assert (forall ps, Forall (error_ok 89) ps -> Forall (fun pe => 0 <= pe.1 < 89 /\ 0 <= pe.2 < 32) ps) as W
    by (intros ps; apply Forall_impl; unfold error_ok; intros ? ?; lia).
  assert (coefficient p1 ([(p1, e1); (p2, e2)] ++ [(q1, f1); (q2, f2)]) = 0) as U.
  { apply (pattern_unique residue); [simpl; lia|apply Forall_app; split; by apply W|done..|].
    apply Forall_cons_iff in H1 as [[H1 _] _]. exact H1. }
  decompose_Forall_hyps. unfold error_ok in *. simpl in *.
  rewrite Z.eqb_refl in U. destruct (Z.eqb_spec p2 p1); [lia|].
  destruct (Z.eqb_spec q1 p1); [lia|]. destruct (Z.eqb_spec q2 p1); [lia|]. rewrite Z.lxor_0_r in U. lia.
Qed.

Lemma positions_swap size p1 p2 : p1 <> p2 -> positions size p1 p2 = positions size p2 p1.
Proof. intros Hne. unfold positions. destruct (Z.ltb_spec p2 p1), (Z.ltb_spec p1 p2); (lia || done). Qed.

Lemma possible_errors_complete residue length size l :
  0 <= length <= 89 -> explains residue length size l -> possible_errors residue length size = Ok l.
Proof.
  intros Hl Hx. rewrite possible_errors_gf by assumption. f_equal. unfold field_errors.
  destruct Hx as [p e Hp He Pt|p1 p2 e1 e2 Hp2 Hp1 He1 He2 Pt]; pose proof (proj1 (pattern_sums _ _) Pt) as (E0 & E1 & E2).
  - rewrite E0, E1, E2. destruct (single_complete p e length Hp (proj2 Hl) He) as [-> ->]. reflexivity.
  - pose proof (second_position_complete p1 p2 e1 e2 length ltac:(lia) ltac:(lia) (proj2 Hl) ltac:(lia) He1 He2) as C.
    pose proof (two_not_single p1 p2 e1 e2 ltac:(lia) ltac:(lia) ltac:(lia) He1 He2) as N.
    rewrite <- E0, <- E1, <- E2 in C, N. rewrite N.
    destruct (first_pair _ _ _ _ _ _) as [[q1 q2]|] eqn:F.
    + apply first_pair_Some in F as [Hq1 F]. apply second_position_sound in F as (Hq2 & Hne & f1 & f2 & Hf1 & Hf2 & E); [|lia..].
      apply pattern_sums in E.
      assert (Forall (error_ok 89) [(q1, f1); (q2, f2)]) as Gq by (repeat constructor; simpl; lia).
      assert (Forall (error_ok 89) [(p1, e1); (p2, e2)]) as Gp by (repeat constructor; simpl; lia).
      assert (pattern residue [(p2, e2); (p1, e1)]) as Pt' by (intros i Hi; rewrite (Pt i Hi); cbn [sum foldr]; ring).
      assert (Forall (error_ok 89) [(p2, e2); (p1, e1)]) as Gp' by (repeat constructor; simpl; lia).
      pose proof (pair_unique residue _ _ _ _ _ _ _ _ Gp Gq ltac:(lia) Pt E).
      pose proof (pair_unique residue _ _ _ _ _ _ _ _ Gp' Gq ltac:(lia) Pt' E).
      transitivity (positions size p1 p2); [|unfold positions; destruct (Z.ltb_spec p2 p1); [done|lia]].
      assert ((q1 = p1 /\ q2 = p2) \/ (q1 = p2 /\ q2 = p1)) as [[-> ->]|[-> ->]] by lia; [reflexivity|].
      apply positions_swap. lia.
    + rewrite (first_pair_None _ _ _ _ _ _ F p1) in C by lia. discriminate C.
Qed.

(** * The two encodings cannot be confused *)

Definition constants_difference : Z := Z.lxor 1 0x2bc830a3.

Lemma no_explanation l : ~ explains constants_difference 89 0 l.
Proof.
  intros H. assert (0 <= 89 <= 89) as B by lia. pose proof (possible_errors_complete _ _ _ _ B H) as E.
  assert (possible_errors constants_difference 89 0 = Ok []) as N by (vm_compute; reflexivity).
  rewrite N in E. destruct H; discriminate E.
Qed.

Lemma sum_merge j p e f : 0 <= e < 32 -> 0 <= f < 32 -> sum j [(p, e); (p, f)] = sum j [(p, Z.lxor e f)].
Proof. intros He Hf. cbn [sum foldr]. rewrite emb_lxor by lia. ring. Qed.

(** One residue cannot be one error away from both constants. *)
Lemma encodings_apart residue p e q f :
  0 <= p < 89 -> 0 <= q < 89 -> 0 < e < 32 -> 0 < f < 32 ->
  pattern residue [(p, e)] -> ~ pattern (Z.lxor residue constants_difference) [(q, f)].
Proof.
  intros Hp Hq He Hf P Q.
  assert (pattern constants_difference [(p, e); (q, f)]) as D.
  { intros i Hi. specialize (P i Hi). specialize (Q i Hi). rewrite syn_lxor, P in Q.
    change [(p, e); (q, f)] with ([(p, e)] ++ [(q, f)]). rewrite sum_app, <- Q. ring. }
  destruct (decide (p = q)) as [<-|Hne].
  - destruct (decide (e = f)) as [<-|Hef].
    + specialize (D 0 ltac:(lia)). rewrite sum_merge, Z.lxor_nilpotent in D by lia.
      assert (syn 0 constants_difference <> 0%gf) as N.
      { unfold syn. rewrite emb_zero by apply component_range. vm_compute. discriminate. }
      apply N. rewrite D. cbn [sum foldr]. assert (emb 0 = 0%gf) as -> by (apply emb_zero; lia). ring.
    + apply (no_explanation [0 - p - 1]), (explains_one _ _ _ p (Z.lxor e f)); [lia| |].
      * assert (0 <= Z.lxor e f < 32) by (apply (lxor_is_uint 5); unfold is_uint; lia).
        assert (Z.lxor e f <> 0) by (rewrite Z.lxor_eq_0_iff; done). lia.
      * intros i Hi. rewrite (D i Hi). apply sum_merge; lia.
  - by apply (no_explanation (positions 0 p q)), (positions_explain _ _ _ p q e f).
Qed.

(** * Strings with one wrong character *)

Lemma decode_values_app s t v w :
  decode_values s = Ok (Some v) -> decode_values t = Ok (Some w) -> decode_values (s ++ t) = Ok (Some (v ++ w)).
Proof.
  revert v. induction s as [|c s IH]; intros v Hs Ht; simpl in Hs; [by simplify_eq|].
  apply result_bind_inv in Hs as (x & Ex & Hs). destruct (Z.eqb_spec x (-1)); [done|].
  apply result_bind_inv in Hs as ([vs|] & Evs & Hs); [|done]. injection Hs as <-.
  simpl. rewrite Ex. simpl. destruct (Z.eqb_spec x (-1)); [done|]. rewrite (IH vs) by done. done.
Qed.

Lemma decode_values_app_inv s t u :
  decode_values (s ++ t) = Ok (Some u) ->
  exists v w, u = v ++ w /\ decode_values s = Ok (Some v) /\ decode_values t = Ok (Some w).
Proof.
  revert u. induction s as [|c s IH]; intros u H; simpl in H; [by exists [], u|].
  apply result_bind_inv in H as (x & Ex & H). destruct (Z.eqb_spec x (-1)) as [|Hx]; [done|].
  apply result_bind_inv in H as ([vs|] & Evs & H); [|done]. injection H as <-.
  destruct (IH vs Evs) as (v & w & -> & Hv & Hw). exists (x :: v), w. split_and!; [done| |done].
  simpl. rewrite Ex. simpl. destruct (Z.eqb_spec x (-1)); [done|]. by rewrite Hv.
Qed.

Lemma decode_values_cons_inv c s u :
  decode_values (c :: s) = Ok (Some u) ->
  exists x v, u = x :: v /\ at_ CHARSET_REV c = Ok x /\ x <> -1 /\ decode_values s = Ok (Some v).
Proof.
  intros H. simpl in H. apply result_bind_inv in H as (x & Ex & H). destruct (Z.eqb_spec x (-1)) as [|Hx]; [done|].
  apply result_bind_inv in H as ([vs|] & Evs & H); [|done]. injection H as <-. by exists x, vs.
Qed.

Lemma decode_values_cons c s x v :
  at_ CHARSET_REV c = Ok x -> x <> -1 -> decode_values s = Ok (Some v) -> decode_values (c :: s) = Ok (Some (x :: v)).
Proof. intros Ex Hx Hs. simpl. rewrite Ex. simpl. destruct (Z.eqb_spec x (-1)); [done|]. by rewrite Hs. Qed.

Lemma invalid_value_None s v i : decode_values s = Ok (Some v) -> invalid_value s i = Ok None.
Proof.
  revert v i. induction s as [|c s IH]; intros v i H; [done|].
  apply decode_values_cons_inv in H as (x & vs & -> & Ex & Hx & Hs). simpl. rewrite Ex. simpl.
  destruct (Z.eqb_spec x (-1)); [done|]. by apply (IH vs).
Qed.

Lemma nz_same w : nz (zip_with Z.lxor w w) = [].
Proof. induction w as [|x w IH]; [done|]. simpl. by rewrite Z.lxor_nilpotent. Qed.

Lemma nz_one w1 w2 a b :
  a <> b -> nz (zip_with Z.lxor (w1 ++ a :: w2) (w1 ++ b :: w2)) = [(zlen w2, Z.lxor a b)].
Proof.
  intros Hab. induction w1 as [|x w1 IH]; simpl.
  - rewrite nz_same. destruct (Z.eqb_spec (Z.lxor a b) 0) as [E|_]; [by rewrite Z.lxor_eq_0_iff in E|].
    unfold zlen. rewrite length_zip_with. by rewrite Nat.min_id.
  - by rewrite Z.lxor_nilpotent.
Qed.

Lemma one_error_pattern c w1 w2 a b :
  Forall (is_uint 5) (w1 ++ a :: w2) -> is_uint 5 b -> a <> b ->
  pattern (Z.lxor (poly c (w1 ++ a :: w2)) (poly c (w1 ++ b :: w2))) [(zlen w2, Z.lxor a b)].
Proof.
  intros Hw Hb Hab i Hi.
  assert (Forall (is_uint 5) (w1 ++ b :: w2)) as Hw'.
  { apply Forall_app in Hw as [H1 H2]. apply Forall_app. split; [done|]. constructor; [done|by inversion H2]. }
  rewrite syn_difference by (done || by rewrite !length_app). by rewrite ev_nz, nz_one.
Qed.

Lemma pattern_nonzero residue p e : 0 < e < 32 -> pattern residue [(p, e)] -> residue <> 0.
Proof.
  intros He P ->. specialize (P 0 ltac:(lia)). rewrite syn_low in P by (lia || by_decide).
  assert (emb 0 = 0%gf) as Z by (apply emb_zero; lia). rewrite Z, (sum_one 0), Z.mul_0_l, alpha_0 in P.
  apply (term_nonzero p e He). rewrite P. ring.
Qed.

Lemma locate_encodings_one enc c hrp values size p e :
  EncodingConstant enc = Ok c -> 0 <= p < zlen values -> zlen values <= 89 -> 0 < e < 32 ->
  pattern (Z.lxor (PolyMod (PreparePolynomialCoefficients hrp values)) c) [(p, e)] ->
  locate_encodings [BECH32; BECH32M] hrp values size [] None = Ok (Some ([size - p - 1], Some enc)).
Proof.
  intros Hc Hp Hl He P. pose proof (pattern_nonzero _ _ _ He P) as Nz.
  pose proof (possible_errors_complete _ (zlen values) size _ ltac:(lia) (explains_one _ _ _ p e Hp He P)) as E.
  cbn [locate_encodings EncodingConstant mbind result_bind].
  set (s := PolyMod _) in *.
  assert (Z.lxor s (Z.lxor 1 (Z.lxor 0x2bc830a3 c)) <> 0) as Nz'.
  { intros Hz%Z.lxor_eq. apply (no_explanation [0 - p - 1]), (explains_one _ _ _ p e); [lia|exact He|].
    assert (Z.lxor s c = constants_difference) as <-; [|exact P].
    rewrite Hz, !Z.lxor_assoc, Z.lxor_nilpotent, Z.lxor_0_r. reflexivity. }
  destruct enc; cbn [EncodingConstant] in Hc; [discriminate Hc|injection Hc as <-..].
  - change (Z.lxor 1 (Z.lxor 0x2bc830a3 1)) with 0x2bc830a3 in Nz'.
    rewrite (proj2 (Z.eqb_neq _ _) Nz), (proj2 (Z.eqb_neq _ _) Nz'), E. cbn [mbind result_bind].
    rewrite bool_decide_true by reflexivity. rewrite bool_decide_false by discriminate. cbn [orb].
    destruct (possible_errors_total (Z.lxor s 0x2bc830a3) (zlen values) size ltac:(lia)) as [l El]. rewrite El.
    cbn [mbind result_bind orb]. destruct l as [|x l]; [reflexivity|].
    rewrite (proj2 (Z.ltb_ge (zlen (x :: l)) (zlen [size - p - 1]))) by (unfold zlen; simpl; lia).
    rewrite andb_false_r. reflexivity.
  - change (Z.lxor 1 (Z.lxor 0x2bc830a3 0x2bc830a3)) with 1 in Nz'.
    rewrite (proj2 (Z.eqb_neq _ _) Nz), (proj2 (Z.eqb_neq _ _) Nz'), E. cbn [mbind result_bind].
    destruct (possible_errors_total (Z.lxor s 1) (zlen values) size ltac:(lia)) as [l El]. rewrite El.
    cbn [mbind result_bind]. apply possible_errors_sound in El as [->|X]; [reflexivity| |lia].
    destruct X as [q f Hq Hf Q|q1 q2 f1 f2 Hq2 Hq1 Hf1 Hf2 Q]; [exfalso|reflexivity].
    assert (Z.lxor (Z.lxor s 0x2bc830a3) constants_difference = Z.lxor s 1) as Ed
      by (rewrite Z.lxor_assoc; reflexivity).
    rewrite <- Ed in Q. revert Q. apply (encodings_apart (Z.lxor s 0x2bc830a3) p e q f); [lia|lia|exact He|exact Hf|exact P].
Qed.

(** What [LocateErrors] says of a string with errors in one encoding. *)
Definition checksum_message (e : Encoding) : string :=
  match e with
  | BECH32M => "Invalid Bech32m checksum"
  | BECH32 => "Invalid Bech32 checksum"
  | INVALID => "Invalid checksum"
  end.

Lemma LocateErrors_join h d w limit p enc :
  zlen (h ++ SEPARATOR :: d) <= limit -> CheckCharacters (h ++ SEPARATOR :: d) = [] -> h <> [] -> (6 <= length d)%nat ->
  decode_values d = Ok (Some w) ->
  locate_encodings [BECH32; BECH32M] (LowerCase <$> h) w (zlen (h ++ SEPARATOR :: d)) [] None = Ok (Some ([p], Some enc)) ->
  LocateErrors (h ++ SEPARATOR :: d) limit = Ok (checksum_message enc, [p]).
Proof.
  intros Hl Hc Hh Hd Hw E. unfold LocateErrors. destruct (Z.ltb_spec limit (zlen (h ++ SEPARATOR :: d))); [lia|].
  rewrite Hc. rewrite bool_decide_true by reflexivity. cbn [negb].
  destruct (decode_values_ok d w Hw) as (_ & _ & Hs & _).
  rewrite rfind_app by (intros Hin; rewrite Forall_forall in Hs; apply list_elem_of_In in Hin; by apply (Hs SEPARATOR Hin)).
  assert ((length h =? 0)%nat = false) as -> by (apply Nat.eqb_neq; by destruct h).
  rewrite (proj2 (Z.leb_gt _ _)) by (unfold zlen, CHECKSUM_SIZE; rewrite length_app; simpl; lia). cbn [orb].
  rewrite take_app_length. replace (length h + 1)%nat with (S (length h)) by lia.
  rewrite drop_app_ge, Nat.sub_succ_l, Nat.sub_diag by lia. cbn [drop]. rewrite drop_0.
  rewrite (invalid_value_None d w) by exact Hw. cbn [mbind result_bind]. rewrite Hw. cbn [mbind result_bind].
  change (default [] (Some w)) with w. rewrite E. cbn [mbind result_bind]. by destruct enc.
Qed.

(** C26: [LocateErrors] locates one wrong character. If a string of at most 90
    characters is a valid Bech32 or Bech32m string and one character of its data
    part is replaced by another character of the set (in the same case, so that the
    string is still free of mixed case), the function names exactly that position,
    and the checksum message is the one of the encoding that was damaged. *)
Theorem locates_one_error h d1 x d2 y v limit r :
  limit <= 90 ->
  Decode (h ++ SEPARATOR :: d1 ++ x :: d2) limit = Ok r -> encoding r <> INVALID -> hrp r = LowerCase <$> h ->
  at_ CHARSET_REV y = Ok v -> v <> -1 -> LowerCase x <> LowerCase y ->
  CheckCharacters (h ++ SEPARATOR :: d1 ++ y :: d2) = [] ->
  LocateErrors (h ++ SEPARATOR :: d1 ++ y :: d2) limit
  = Ok (checksum_message (encoding r), [zlen h + 1 + zlen d1]).
Proof.
  intros Hlim HD He Hhr Hy Hv Hxy Hc.
  destruct (Decode_inv _ _ _ HD He) as (h' & d' & w & Es & Hne & _ & Hl & Hd & Hw & Hh & V & _).
  assert (length h' = length h) as Lh by (rewrite <- (length_fmap LowerCase h'), <- (length_fmap LowerCase h); congruence).
  apply app_inj_1 in Es as [<- Es]; [|done]. injection Es as <-.
  apply decode_values_app_inv in Hw as (w1 & u & -> & Hw1 & Hu). apply decode_values_cons_inv in Hu as (a & w2 & -> & Ha & Na & Hw2).
  destruct (decode_values_ok d1 w1 Hw1) as (F1 & _ & _ & L1). destruct (decode_values_ok d2 w2 Hw2) as (F2 & _ & _ & L2).
  destruct (rev_charset x a Ha Na) as (Fa & Ca & _). destruct (rev_charset y v Hy Hv) as (Fv & Cv & _).
  assert (v <> a) as Hva by (intros ->; congruence).
  destruct (EncodingConstant_ok _ He) as (c & Ec & _). apply (VerifyChecksum_spec _ _ _ c Ec) in V. rewrite PolyMod_hrp, Hhr in V.
  assert (Forall (is_uint 5) (w1 ++ v :: w2)) as Fw by (apply Forall_app; split; [done|by constructor]).
  pose proof (one_error_pattern (hrp_state (LowerCase <$> h)) w1 w2 v a Fw Fa Hva) as P. rewrite V, <- PolyMod_hrp in P.
  assert (0 < Z.lxor v a < 32) as Hx.
  { assert (0 <= Z.lxor v a < 32) by (apply (lxor_is_uint 5); [lia|done..]). assert (Z.lxor v a <> 0); [|lia]. by rewrite Z.lxor_eq_0_iff. }
  unfold zlen in *. rewrite length_app in *. cbn [length] in *. rewrite length_app in *. cbn [length] in *.
  assert (length h <> 0%nat) by (by destruct h).
  apply (LocateErrors_join _ _ (w1 ++ v :: w2)); [unfold zlen; rewrite !length_app; simpl; rewrite !length_app; simpl; lia|done..| | |].
  - rewrite length_app. simpl. lia.
  - apply decode_values_app; [done|]. by apply decode_values_cons.
  - rewrite (locate_encodings_one (encoding r) c _ _ _ (zlen w2) (Z.lxor v a)); try done.
    + do 3 f_equal. unfold zlen. rewrite !length_app. simpl. rewrite !length_app. simpl. f_equal. lia.
    + unfold zlen. rewrite length_app. simpl. lia.
    + unfold zlen. rewrite length_app. simpl. lia.
Qed.

(** "a12uel5l" with its second checksum character mistyped. *)
Lemma locates_one_error_witness :
  Decode (to_bytes "a12uel5l") 90 = Ok (Decoded BECH32 (to_bytes "a") [])
  /\ LocateErrors (to_bytes "a12qel5l") 90 = Ok ("Invalid Bech32 checksum", [3]).
Proof.
  split; [vm_compute; reflexivity|].
  apply (locates_one_error (to_bytes "a") (to_bytes "2") 0x75 (to_bytes "el5l") 0x71 0 90 (Decoded BECH32 (to_bytes "a") []));
    [lia|vm_compute; reflexivity|discriminate|vm_compute; reflexivity|vm_compute; reflexivity|lia|discriminate|vm_compute; reflexivity].
Defined.
