(* ===== verification/KeyIO.v ===== *)
(** Addresses (src/bitcoin/src/key_io.cpp, util/strencodings.h): the text form of
    destinations, by Base58 with a checksum or by Bech32 over a conversion of bits.
    Every destination that has an address is read back from it. *)

From stdpp Require Import pretty.
From S2P Require Import Prelude Serialize MerkleDamgard Sha2 Hash Script PubKey Interpreter Bech32 Base58 Solver.

(** * The conversion of bits *)

(** The inner loop, which puts out groups of [tobits]; the result has [bits]. *)
Fixpoint emit (fuel : nat) (tobits maxv acc bits : Z) : list Z * Z :=
  match fuel with
  | O => ([], bits)
  | S fuel =>
      if tobits <=? bits then
        let bits := bits - tobits in
        let '(out, bits') := emit fuel tobits maxv acc bits in
        (Z.land (Z.shiftr acc bits) maxv :: out, bits')
      else ([], bits)
  end.

(** The values that were put out, with [acc] and [bits]; [None] for a negative value. *)
Fixpoint convert_loop (frombits tobits : Z) (values : list Z) (acc bits : Z) : list Z * option (Z * Z) :=
  let maxv := Z.shiftl 1 tobits - 1 in
  let max_acc := Z.shiftl 1 (frombits + tobits - 1) - 1 in
  match values with
  | [] => ([], Some (acc, bits))
  | v :: values =>
      if v <? 0 then ([], None)
      else
        let acc := Z.land (Z.lor (Z.shiftl acc frombits) v) max_acc in
        let '(out, bits) := emit (Z.to_nat (bits + frombits)) tobits maxv acc (bits + frombits) in
        let '(outs, r) := convert_loop frombits tobits values acc bits in
        (out ++ outs, r)
  end.

(** Whether it succeeded, and what was put out. *)
Definition ConvertBits (frombits tobits : Z) (pad : bool) (values : list Z) : bool * list Z :=
  let maxv := Z.shiftl 1 tobits - 1 in
  match convert_loop frombits tobits values 0 0 with
  | (out, None) => (false, out)
  | (out, Some (acc, bits)) =>
      let last := Z.land (Z.shiftl acc (tobits - bits)) maxv in
      if pad then (true, if negb (bits =? 0) then out ++ [last] else out)
      else if (frombits <=? bits) || negb (last =? 0) then (false, out)
      else (true, out)
  end.

(** * Addresses *)

Record address_params := AddressParams {
  PUBKEY_ADDRESS : bytes;
  SCRIPT_ADDRESS : bytes;
  Bech32HRP : bytes;
}.

Definition BECH32_WITNESS_PROG_MAX_LEN : Z := 40.

Section Addresses.
Context (params : address_params).

(** A witness program in Bech32, after its version. *)
Definition encode_witness (encoding : Encoding) (version : Z) (program : bytes) : result string bytes :=
  Encode encoding (Bech32HRP params) (u8 version :: (ConvertBits 8 5 true program).2).

Definition EncodeDestination (dest : CTxDestination) : result string bytes :=
  let unknown version program :=
    if (version <? 1) || (16 <? version) || (zlen program <? 2) || (40 <? zlen program) then Ok []
    else encode_witness BECH32M version program in
  match dest with
  | PKHash id => EncodeBase58Check (PUBKEY_ADDRESS params ++ id)
  | ScriptHash id => EncodeBase58Check (SCRIPT_ADDRESS params ++ id)
  | WitnessV0KeyHash id | WitnessV0ScriptHash id => encode_witness BECH32 0 id
  | WitnessV1Taproot tap => encode_witness BECH32M 1 tap
  | WitnessUnknown version program => unknown version program
  | PayToAnchor => unknown 1 anchor_program
  | CNoDestination _ | PubKeyDestination _ => Ok []
  end.

(** The data of a Base58 address. *)
Definition decode_base58_data (data : bytes) : CTxDestination * bytes :=
  let pubkey_prefix := PUBKEY_ADDRESS params in
  let script_prefix := SCRIPT_ADDRESS params in
  let starts prefix := (length prefix <=? length data)%nat && bool_decide (take (length prefix) data = prefix) in
  if (zlen data =? 20 + zlen pubkey_prefix) && starts pubkey_prefix then (PKHash (drop (length pubkey_prefix) data), [])
  else if (zlen data =? 20 + zlen script_prefix) && starts script_prefix then (ScriptHash (drop (length script_prefix) data), [])
  else (CNoDestination [],
        to_bytes (if starts script_prefix || starts pubkey_prefix then "Invalid length for Base58 address (P2PKH or P2SH)"
                  else "Invalid or unsupported Base58-encoded address.")).

(** The data of a Bech32 address of version [version]. *)
Definition decode_program (version : Z) (data : bytes) : CTxDestination * bytes :=
  let byte_str := if zlen data =? 1 then "byte" else "bytes" in
  let sized (prefix suffix : string) := to_bytes (prefix ++ " (" ++ pretty (zlen data) ++ " " ++ byte_str ++ ")" ++ suffix)%string in
  if version =? 0 then
    if zlen data =? 20 then (WitnessV0KeyHash data, [])
    else if zlen data =? 32 then (WitnessV0ScriptHash data, [])
    else (CNoDestination [], sized "Invalid Bech32 v0 address program size" ", per BIP141")
  else if (version =? 1) && (zlen data =? WITNESS_V1_TAPROOT_SIZE) then (WitnessV1Taproot data, [])
  else if IsPayToAnchor_program version data then (PayToAnchor, [])
  else if 16 <? version then (CNoDestination [], to_bytes "Invalid Bech32 address witness version")
  else if (zlen data <? 2) || (BECH32_WITNESS_PROG_MAX_LEN <? zlen data)
  then (CNoDestination [], sized "Invalid Bech32 address program size" EmptyString)
  else (WitnessUnknown version data, []).

Definition decode_bech32_data (dec : DecodeResult) : CTxDestination * bytes :=
  match data dec with
  | [] => (CNoDestination [], to_bytes "Empty Bech32 data section")
  | version :: values =>
      if negb (bool_decide (hrp dec = Bech32HRP params)) then
        (CNoDestination [], to_bytes "Invalid or unsupported prefix for Segwit (Bech32) address (expected " ++ Bech32HRP params
                            ++ to_bytes ", got " ++ hrp dec ++ to_bytes ").")
      else if (version =? 0) && negb (bool_decide (encoding dec = BECH32)) then
        (CNoDestination [], to_bytes "Version 0 witness address must use Bech32 checksum")
      else if negb (version =? 0) && negb (bool_decide (encoding dec = BECH32M)) then
        (CNoDestination [], to_bytes "Version 1+ witness address must use Bech32m checksum")
      else
        match ConvertBits 5 8 false values with
        | (true, data) => decode_program version data
        | (false, _) => (CNoDestination [], to_bytes "Invalid padding in Bech32 data section")
        end
  end.

(** The destination, [error_str] and [error_locations]. *)
Definition DecodeDestination (str : bytes) : result string (CTxDestination * bytes * list Z) :=
  let is_bech32 := bool_decide (LowerCase <$> take (length (Bech32HRP params)) str = Bech32HRP params) in
  if negb is_bech32 then
    r ← DecodeBase58Check str 21;
    match r with
    | Some data => let '(d, e) := decode_base58_data data in Ok (d, e, [])
    | None =>
        r ← DecodeBase58 str 100;
        Ok (CNoDestination [], to_bytes match r with
          | None => "Invalid or unsupported Segwit (Bech32) or Base58 encoding."
          | Some _ => "Invalid checksum or length of Base58 address (P2PKH or P2SH)"
          end, [])
    end
  else
    dec ← Decode str CharLimit_BECH32;
    match encoding dec with
    | INVALID => '(error_str, locations) ← LocateErrors str CharLimit_BECH32; Ok (CNoDestination [], to_bytes error_str, locations)
    | _ => let '(d, e) := decode_bech32_data dec in Ok (d, e, [])
    end.

End Addresses.

(** * Bits are regrouped *)

Lemma land_low x t : 0 <= t -> Z.land x (Z.shiftl 1 t - 1) = x mod 2 ^ t.
Proof. intros Ht. rewrite Z.shiftl_1_l. by apply land_mask. Qed.

Lemma mod_split x a b : 0 <= a -> 0 <= b -> x mod 2 ^ (a + b) = (x / 2 ^ b) mod 2 ^ a * 2 ^ b + x mod 2 ^ b.
Proof.
  intros Ha Hb. rewrite Z.add_comm, Z.pow_add_r by done. rewrite Z.rem_mul_r by lia. lia.
Qed.

Lemma number_app B l l' : forall V, number B V (l ++ l') = number B (number B V l) l'.
Proof. intros V. apply foldl_app. Qed.

Lemma number_from B l V : number B V l = V * B ^ zlen l + number B 0 l.
Proof. rewrite !number_dval. lia. Qed.

Section Convert.
Context (f t : Z) (Hf : 1 <= f) (Ht : 1 <= t).

Lemma emit_spec fuel : forall acc bits out bits', 0 <= acc -> 0 <= bits -> bits <= Z.of_nat fuel ->
  emit fuel t (Z.shiftl 1 t - 1) acc bits = (out, bits') ->
  0 <= bits' < t /\ bits = zlen out * t + bits' /\ digits (2 ^ t) out /\ acc mod 2 ^ bits = number (2 ^ t) 0 out * 2 ^ bits' + acc mod 2 ^ bits'.
Proof.
  induction fuel as [|fuel IH]; intros acc bits out bits' Ha Hb Hl H; cbn [emit] in H.
  - simplify_eq. assert (bits' = 0) as -> by lia. unfold zlen. cbn. split; [lia|]. split; [lia|]. split; [constructor|lia].
  - destruct (Z.leb_spec t bits) as [Hle|Hlt].
    + destruct (emit fuel t _ acc (bits - t)) as [o b] eqn:E. injection H as <- <-. apply IH in E as (H1 & H2 & H3 & H4); [|lia..].
      rewrite land_low, Z.shiftr_div_pow2 by lia. split; [done|]. unfold zlen in *. cbn [length]. split; [lia|].
      pose proof (Z.mod_pos_bound (acc / 2 ^ (bits - t)) (2 ^ t) ltac:(lia)). split; [by constructor|].
      replace bits with (t + (bits - t)) at 1 by lia. rewrite mod_split, H4 by lia. cbn [foldl]. rewrite Z.mul_0_r, Z.add_0_l.
      rewrite (number_from _ o (_ mod _)). unfold zlen. rewrite <- Z.pow_mul_r by lia.
      replace (bits - t) with (t * Z.of_nat (length o) + b) at 2 by lia. rewrite Z.pow_add_r by lia. lia.
    + injection H as <- <-. unfold zlen. cbn. split; [lia|]. split; [lia|]. split; [constructor|lia].
Qed.

Lemma lor_shift x v : 0 <= v < 2 ^ f -> Z.lor (Z.shiftl x f) v = x * 2 ^ f + v.
Proof. intros Hv. rewrite Z.lor_comm, lor_shiftl_add by (unfold is_uint; lia). lia. Qed.

Lemma convert_loop_spec values : digits (2 ^ f) values -> forall acc bits, 0 <= acc -> 0 <= bits < t ->
  exists out acc' bits', convert_loop f t values acc bits = (out, Some (acc', bits'))
    /\ 0 <= acc' /\ 0 <= bits' < t /\ bits + f * zlen values = zlen out * t + bits' /\ digits (2 ^ t) out
    /\ (acc mod 2 ^ bits) * 2 ^ (f * zlen values) + number (2 ^ f) 0 values = number (2 ^ t) 0 out * 2 ^ bits' + acc' mod 2 ^ bits'.
Proof.
  induction 1 as [|v values Hv Hvs IH]; intros acc bits Ha Hb; cbn [convert_loop].
  - exists [], acc, bits. unfold zlen. cbn. rewrite Z.mul_0_r. change (2 ^ 0) with 1. repeat split; try lia; constructor.
  - rewrite (proj2 (Z.ltb_ge v 0)), lor_shift, land_low by lia. set (acc1 := (acc * 2 ^ f + v) mod 2 ^ (f + t - 1)).
    assert (0 <= acc1) as Ha1 by (apply Z.mod_pos_bound; lia).
    destruct (emit (Z.to_nat (bits + f)) t _ acc1 (bits + f)) as [o b] eqn:E. apply emit_spec in E as (H1 & H2 & H3 & H4); [|lia..].
    destruct (IH acc1 b Ha1 H1) as (out & acc' & bits' & -> & H5 & H6 & H7 & H8 & H9). exists (o ++ out), acc', bits'. split; [done|].
    split; [done|]. split; [done|]. unfold zlen in *. rewrite length_app. cbn [length]. split; [lia|]. split; [by apply Forall_app_2|].
    assert (acc1 mod 2 ^ (bits + f) = (acc mod 2 ^ bits) * 2 ^ f + v) as E1.
    { unfold acc1. rewrite <- Znumtheory.Zmod_div_mod; [|lia..|exists (2 ^ (t - 1 - bits)); rewrite <- Z.pow_add_r by lia; f_equal; lia].
      rewrite mod_split, Z.div_add_l, (Z.div_small v), Z.add_0_r by lia. f_equal. rewrite Z.add_comm, Z.mod_add, Z.mod_small by lia. done. }
    rewrite number_app, (number_from _ out). cbn [foldl]. rewrite Z.mul_0_r, Z.add_0_l, (number_from _ values v).
    unfold zlen. rewrite <- !Z.pow_mul_r by lia. replace (f * Z.of_nat (S (length values))) with (f + f * Z.of_nat (length values)) by lia. rewrite Z.pow_add_r by lia.
    transitivity ((acc1 mod 2 ^ (bits + f)) * 2 ^ (f * Z.of_nat (length values)) + number (2 ^ f) 0 values); [rewrite E1; lia|]. rewrite H4.
    transitivity (number (2 ^ t) 0 o * (2 ^ b * 2 ^ (f * Z.of_nat (length values))) + ((acc1 mod 2 ^ b) * 2 ^ (f * Z.of_nat (length values)) + number (2 ^ f) 0 values)); [lia|].
    rewrite H9, <- Z.pow_add_r by lia. replace (b + f * Z.of_nat (length values)) with (t * Z.of_nat (length out) + bits') by lia. rewrite Z.pow_add_r by lia. lia.
Qed.
End Convert.

Lemma shift_low acc t b : 0 <= acc -> 0 <= b <= t -> Z.land (Z.shiftl acc (t - b)) (Z.shiftl 1 t - 1) = (acc mod 2 ^ b) * 2 ^ (t - b).
Proof.
  intros Ha Hb. rewrite land_low, Z.shiftl_mul_pow2 by lia. replace (2 ^ t) with (2 ^ b * 2 ^ (t - b)) by (rewrite <- Z.pow_add_r by lia; f_equal; lia).
  rewrite Z.mul_mod_distr_r by lia. done.
Qed.

Lemma number_inj B l l' : 0 < B -> digits B l -> digits B l' -> length l = length l' -> number B 0 l = number B 0 l' -> l = l'.
Proof.
  intros HB Hl Hl' Hlen H. rewrite !number_dval, !Z.mul_0_l, !Z.add_0_l in H. apply rev_inj, (dval_inj B); [done|by apply Forall_rev|by apply Forall_rev| |done].
  by rewrite !length_rev.
Qed.

(** Groups of five bits, padded with zeros. *)
Lemma convert_8_5 p : digits 256 p -> exists e, 0 <= e < 5 /\ digits 32 (ConvertBits 8 5 true p).2
  /\ 5 * zlen (ConvertBits 8 5 true p).2 = 8 * zlen p + e /\ number 32 0 (ConvertBits 8 5 true p).2 = number 256 0 p * 2 ^ e.
Proof.
  intros Hp. destruct (convert_loop_spec 8 5 ltac:(lia) ltac:(lia) p Hp 0 0 ltac:(lia) ltac:(lia)) as (out & acc & bits & E & Ha & Hb & Hl & Hd & Hn).
  unfold ConvertBits. rewrite E. change (0 mod 2 ^ 0) with 0 in Hn. rewrite Z.mul_0_l, Z.add_0_l in Hn. change (2 ^ 8) with 256 in Hn. change (2 ^ 5) with 32 in Hn.
  change (2 ^ 5) with 32 in Hd. destruct (Z.eqb_spec bits 0) as [->|Hne]; cbn [negb snd].
  - exists 0. change (2 ^ 0) with 1 in *. rewrite Z.mod_1_r in Hn. split; [lia|]. split; [done|]. split; lia.
  - exists (5 - bits). rewrite shift_low by lia. pose proof (Z.mod_pos_bound acc (2 ^ bits) ltac:(lia)) as Hm.
    assert (2 ^ bits * 2 ^ (5 - bits) = 32) as E32 by (rewrite <- Z.pow_add_r by lia; replace (bits + (5 - bits)) with 5 by lia; done).
    assert (0 < 2 ^ (5 - bits)) by lia. split; [lia|]. split; [apply Forall_app_2; [done|constructor; [nia|constructor]]|].
    unfold zlen in *. rewrite length_app. cbn [length]. split; [lia|]. rewrite number_app. cbn [foldl].
    rewrite Hn, Z.mul_add_distr_r, <- Z.mul_assoc, E32. lia.
Qed.

Lemma convert_roundtrip p : digits 256 p ->
  let v := (ConvertBits 8 5 true p).2 in
  digits 32 v /\ 5 * zlen v < 8 * zlen p + 5 /\ ConvertBits 5 8 false v = (true, p).
Proof.
  intros Hp v. destruct (convert_8_5 p Hp) as (e & He & Hd & Hl & Hn). fold v in Hd, Hl, Hn. split; [done|]. split; [lia|].
  destruct (convert_loop_spec 5 8 ltac:(lia) ltac:(lia) v Hd 0 0 ltac:(lia) ltac:(lia)) as (out & acc & bits & E & Ha & Hb & Hl2 & Hd2 & Hn2).
  unfold ConvertBits. rewrite E. change (0 mod 2 ^ 0) with 0 in Hn2. rewrite Z.mul_0_l, Z.add_0_l in Hn2. change (2 ^ 8) with 256 in *. change (2 ^ 5) with 32 in *.
  unfold zlen in *. assert (bits = e /\ length out = length p) as [-> Hlen] by lia.
  pose proof (Z.mod_pos_bound acc (2 ^ e) ltac:(lia)) as Hm. rewrite Hn in Hn2.
  assert (number 256 0 p = number 256 0 out) as Ho.
  { apply (f_equal (fun z => z / 2 ^ e)) in Hn2. rewrite Z.div_mul, Z.div_add_l, Z.div_small in Hn2 by lia. lia. }
  assert (acc mod 2 ^ e = 0) as Hz by (rewrite Ho in Hn2; lia).
  rewrite shift_low, Hz by lia. rewrite (proj2 (Z.leb_gt 5 e)) by lia. cbn [orb]. rewrite Z.mul_0_l. cbn. f_equal. by apply (number_inj 256).
Qed.

(** * Addresses are read back *)

(** What the parameters of the networks satisfy: prefixes of one byte that differ, a
    lower-case human readable part, and no Base58 address that starts with it. *)
Record address_params_ok (params : address_params) : Prop := {
  ap_pubkey : blob 1 (PUBKEY_ADDRESS params);
  ap_script : blob 1 (SCRIPT_ADDRESS params);
  ap_differ : PUBKEY_ADDRESS params <> SCRIPT_ADDRESS params;
  ap_hrp : valid_hrp (Bech32HRP params);
  ap_hrp_length : zlen (Bech32HRP params) <= 18;
  ap_base58 : forall prefix h s, prefix = PUBKEY_ADDRESS params \/ prefix = SCRIPT_ADDRESS params -> blob 20 h ->
    EncodeBase58Check (prefix ++ h) = Ok s -> LowerCase <$> take (length (Bech32HRP params)) s <> Bech32HRP params;
}.

(** Destinations with an address, of bytes. *)
Definition address_ok (d : CTxDestination) : Prop :=
  destination_ok d /\ IsValidDestination d = true /\
  match d with
  | PKHash h | ScriptHash h | WitnessV0KeyHash h | WitnessV0ScriptHash h | WitnessV1Taproot h | WitnessUnknown _ h => wf_bytes h
  | _ => True
  end.

Section Read.
Context (params : address_params) (Hparams : address_params_ok params).

Lemma encode_witness_read e v p : e <> INVALID -> 0 <= v <= 16 -> wf_bytes p -> zlen p <= 40 ->
  exists s, encode_witness params e v p = Ok s /\ LowerCase <$> take (length (Bech32HRP params)) s = Bech32HRP params
    /\ Decode s CharLimit_BECH32 = Ok (Decoded e (Bech32HRP params) (v :: (ConvertBits 8 5 true p).2)).
Proof.
  intros He Hv Hp Hl. unfold encode_witness. rewrite wrap_small by (unfold is_uint; lia).
  destruct (convert_roundtrip p) as (Hd & Hlen & _); [exact Hp|]. pose proof (ap_hrp_length _ Hparams).
  destruct (Decode_Encode e (Bech32HRP params) (v :: (ConvertBits 8 5 true p).2) CharLimit_BECH32 He (ap_hrp _ Hparams)) as (s & Hs & _ & Hdec).
  - constructor; [unfold is_uint; lia|exact Hd].
  - unfold zlen, CharLimit_BECH32 in *. cbn [length]. lia.
  - exists s. split; [done|]. split; [|done]. pose proof Hs as Hs'. unfold Encode in Hs'. destruct (existsb is_upper _) eqn:Eu; [done|].
    apply result_bind_inv in Hs' as (d & _ & Hs'). apply result_bind_inv in Hs' as (c & _ & Hs'). apply result_bind_inv in Hs' as (c' & _ & Hs').
    injection Hs' as <-. rewrite take_app_length. by apply LowerCase_ids.
Qed.

Lemma decode_witness_read e v p d s : e <> INVALID -> 0 <= v <= 16 -> wf_bytes p -> (e = BECH32 <-> v = 0) ->
  decode_program v p = (d, []) ->
  LowerCase <$> take (length (Bech32HRP params)) s = Bech32HRP params ->
  Decode s CharLimit_BECH32 = Ok (Decoded e (Bech32HRP params) (v :: (ConvertBits 8 5 true p).2)) ->
  DecodeDestination params s = Ok (d, [], []).
Proof.
  intros He Hv Hp Hev Hd Hlow Hdec. unfold DecodeDestination. rewrite bool_decide_true by done. cbn [negb]. rewrite Hdec. cbn [mbind result_bind encoding].
  assert (decode_bech32_data params (Decoded e (Bech32HRP params) (v :: (ConvertBits 8 5 true p).2)) = (d, [])) as Hdata.
  { unfold decode_bech32_data. cbn [data hrp encoding]. rewrite bool_decide_true by done. cbn [negb].
    destruct (convert_roundtrip p) as (_ & _ & ->); [exact Hp|].
    destruct (Z.eqb_spec v 0) as [->|Hne]; cbn [andb negb].
    - by rewrite bool_decide_true by (by apply Hev).
    - rewrite bool_decide_true; [done|]. destruct e; [done| |done]. by exfalso; apply Hne, Hev. }
  rewrite Hdata. by destruct e.
Qed.

Lemma base58_address_read prefix h d : prefix = PUBKEY_ADDRESS params \/ prefix = SCRIPT_ADDRESS params -> blob 20 h ->
  decode_base58_data params (prefix ++ h) = (d, []) ->
  exists s, EncodeBase58Check (prefix ++ h) = Ok s /\ DecodeDestination params s = Ok (d, [], []).
Proof.
  intros Hp [Hl Hh] Hd. assert (blob 1 prefix) as [Hpl Hpw] by (destruct Hp as [-> | ->]; apply Hparams).
  destruct (base58check_read (prefix ++ h) 21) as (s & Hs & Hdec); [by apply wf_bytes_app|unfold zlen; rewrite length_app; lia|].
  exists s. split; [done|]. unfold DecodeDestination. rewrite bool_decide_false by (by apply (ap_base58 _ Hparams prefix h s)). cbn [negb].
  rewrite Hdec. cbn [mbind result_bind]. by rewrite Hd.
Qed.

(** C27: Addresses are read back.  For every destination that has an address (a key or
    script hash, a witness program of version 0 or 1, an anchor, or a witness program of
    a later version), [EncodeDestination] fails no assertion and [DecodeDestination] of
    the text is the destination, without an error message. *)
Theorem address_roundtrip d : address_ok d ->
  exists s, EncodeDestination params d = Ok s /\ DecodeDestination params s = Ok (d, [], []).
Proof.
  intros (Hd & Hv & Hwf). destruct (ap_pubkey _ Hparams) as [Hpl _]. destruct (ap_script _ Hparams) as [Hsl _].
  assert (forall e v p dest, e <> INVALID -> 0 <= v <= 16 -> wf_bytes p -> zlen p <= 40 -> (e = BECH32 <-> v = 0) -> decode_program v p = (dest, []) ->
    exists s, encode_witness params e v p = Ok s /\ DecodeDestination params s = Ok (dest, [], [])) as Hwit.
  { intros e v p dest He Hv' Hp Hl Hev Hdp. destruct (encode_witness_read e v p He Hv' Hp Hl) as (s & Hs & Hlow & Hdec).
    exists s. split; [done|]. by apply (decode_witness_read e v p dest s). }
  destruct d as [|pk|h|h|h|h|h| |v p]; cbn [destination_ok IsValidDestination EncodeDestination] in *; try done.
  - apply base58_address_read; [by left|split; [lia|done]|]. unfold decode_base58_data, zlen. rewrite length_app, take_app_length, drop_app_length.
    rewrite (proj2 (Z.eqb_eq _ _)), (proj2 (Nat.leb_le _ _)), bool_decide_true by (done || lia). done.
  - apply base58_address_read; [by right|split; [lia|done]|]. unfold decode_base58_data, zlen. rewrite length_app, !take_app_length, !drop_app_length.
    replace (length (PUBKEY_ADDRESS params)) with (length (SCRIPT_ADDRESS params)) by lia. rewrite take_app_length.
    rewrite (bool_decide_false (SCRIPT_ADDRESS params = PUBKEY_ADDRESS params)) by (intros E; by apply (ap_differ _ Hparams)). rewrite !andb_false_r.
    rewrite (proj2 (Z.eqb_eq _ _)), (proj2 (Nat.leb_le _ _)), bool_decide_true by (done || lia). done.
  - apply Hwit; [done|lia|done|unfold zlen; lia|done|]. unfold decode_program, zlen. by rewrite Hd.
  - apply Hwit; [done|lia|done|unfold zlen; lia|done|]. unfold decode_program, zlen. by rewrite Hd.
  - apply Hwit; [done|lia|done|unfold zlen; lia|done|]. unfold decode_program, zlen. by rewrite Hd.
  - apply (Hwit BECH32M 1 anchor_program); [done|lia|by_decide|vm_compute; congruence|done|done].
  - destruct Hd as (Hv' & Hp & H32 & Ha). rewrite (proj2 (Z.ltb_ge v 1)), (proj2 (Z.ltb_ge 16 v)), (proj2 (Z.ltb_ge _ 2)), (proj2 (Z.ltb_ge 40 _)) by lia. cbn [orb].
    apply Hwit; [done|lia|done|lia|split; [done|lia]|]. unfold decode_program, BECH32_WITNESS_PROG_MAX_LEN.
    rewrite (proj2 (Z.eqb_neq v 0)), (proj2 (Z.ltb_ge 16 v)), (proj2 (Z.ltb_ge _ 2)), (proj2 (Z.ltb_ge 40 _)) by lia. cbn [orb].
    replace ((v =? 1) && (zlen p =? WITNESS_V1_TAPROOT_SIZE)) with false by (symmetry; apply not_true_iff_false; intros H; bool_props; by apply H32).
    replace (IsPayToAnchor_program v p) with false; [done|]. symmetry. apply not_true_iff_false. intros H. apply Ha. unfold IsPayToAnchor_program in H. bool_props.
    split; [done|]. unfold zlen, byte_at in *. destruct p as [|a [|b [|]]]; cbn in *; try lia. by subst.
Qed.

End Read.

(** * The main network *)

Definition main_params : address_params := AddressParams [0] [5] (to_bytes "bc").

Lemma number_cons B c l : digits B l -> 0 < B -> c * B ^ zlen l <= number B 0 (c :: l) < (c + 1) * B ^ zlen l.
Proof.
  intros Hl HB. cbn [foldl]. rewrite Z.mul_0_r, Z.add_0_l, (number_dval B l c). pose proof (dval_bound B (rev l) HB ltac:(by apply Forall_rev)) as H.
  unfold zlen in *. rewrite length_rev in H. lia.
Qed.

Lemma pubkey_first r s : EncodeBase58 (0 :: r) = Ok s -> exists s', s = 0x31 :: s'.
Proof. unfold EncodeBase58. intros Hs. apply result_bind_inv in Hs as ([rb len] & _ & Hs). injection Hs as <-. by eexists. Qed.

(** A script address of the main network starts with 3. *)
Lemma main_script_first r s : blob 24 r -> EncodeBase58 (5 :: r) = Ok s -> exists s', s = 0x33 :: s'.
Proof.
  intros [Hl Hr] Hs. destruct (EncodeBase58_spec 0 (5 :: r)) as (ds & E & Hd & Hn & Hh); [constructor; [lia|exact Hr]|done|].
  cbn [replicate app] in E. rewrite Hs in E. injection E as ->. pose proof (number_cons 256 5 r Hr ltac:(lia)) as H5. rewrite <- Hn in H5. unfold zlen in H5. replace (Z.of_nat (length r)) with 24 in H5 by lia.
  destruct ds as [|d ds]; [exfalso; vm_compute in H5; destruct H5; congruence|]. apply Forall_cons_iff in Hd as [Hd Hds]. bool_props.
  pose proof (number_cons 58 d ds Hds ltac:(lia)) as Hd2. unfold zlen in Hd2. set (N := number 58 0 (d :: ds)) in *.
  assert (2 * 58 ^ 33 <= 5 * 256 ^ 24 /\ 6 * 256 ^ 24 < 3 * 58 ^ 33 /\ 58 ^ 33 < 5 * 256 ^ 24 /\ 6 * 256 ^ 24 < 58 ^ 34) as (C1 & C2 & C3 & C4) by (vm_compute; repeat split; congruence).
  destruct (Z.lt_trichotomy (Z.of_nat (length ds)) 33) as [Hlt|[Heq|Hgt]].
  - exfalso. assert (58 ^ Z.of_nat (length ds) * 58 <= 58 ^ 33) as Hp by (change 58 with (58 ^ 1) at 2; rewrite <- Z.pow_add_r by lia; apply Z.pow_le_mono_r; lia).
    assert (0 < 58 ^ Z.of_nat (length ds)) by lia. nia.
  - rewrite Heq in Hd2. assert (d = 2) as -> by nia. by eexists.
  - exfalso. assert (58 ^ 34 <= 58 ^ Z.of_nat (length ds)) by (apply Z.pow_le_mono_r; lia). nia.
Qed.

Lemma main_params_ok : address_params_ok main_params.
Proof.
  constructor; [by_decide|by_decide|done|split; [done|split; [repeat (constructor; [vm_compute; split; congruence|]); constructor|reflexivity]]|vm_compute; congruence|].
  intros prefix h s Hp [Hl Hh] Hs. cbn [Bech32HRP main_params]. destruct Hp as [-> | ->]; cbn [PUBKEY_ADDRESS SCRIPT_ADDRESS main_params app] in Hs; unfold EncodeBase58Check in Hs.
  - apply pubkey_first in Hs as [s' ->]. done.
  - apply main_script_first in Hs as [s' ->]; [done|]. split; [rewrite length_app, length_take, length_Hash; lia|]. apply wf_bytes_app. split; [done|]. apply Forall_take, Hash_wf.
Qed.

Lemma address_roundtrip_witness :
  exists s, EncodeDestination main_params (ScriptHash (replicate 20 7)) = Ok s /\ DecodeDestination main_params s = Ok (ScriptHash (replicate 20 7), [], []).
Proof. apply (address_roundtrip main_params main_params_ok). split; [reflexivity|split; [reflexivity|by_decide]]. Defined.
