(* ===== verification/BtcSharp.v ===== *)
(** The managed port of Bech32 (src/btcsharp/btcsharp/bech32.cs) and the bridge that
    lets the node call it (src/btcsharp/btcsharp/Interop/Bech32Bridge.cs and
    src/bitcoin/src/btcsharp_bech32_bridge.{h,cpp}).  A C# [string] is the list of
    its UTF-16 code units, a [byte[]] a list of bytes, and an [enum] the integer it
    is; a thrown exception and a failed [Debug.Assert] are errors, of which only
    the first can be caught. *)

From S2P Require Import Prelude Bech32.

(** * The managed runtime *)

Inductive failure := Exception (name : string) | FailFast.

Abbreviation exec := (result failure).

(** [array[i]] and [array[i] = x], checked. *)
Definition index {A} (l : list A) (i : Z) : exec A :=
  if i <? 0 then Err (Exception "IndexOutOfRange")
  else match l !! Z.to_nat i with Some x => Ok x | None => Err (Exception "IndexOutOfRange") end.

Definition store (l : list Z) (i x : Z) : exec (list Z) :=
  if (0 <=? i) && (i <? zlen l) then Ok (<[Z.to_nat i := x]> l) else Err (Exception "IndexOutOfRange").

(** The invariant culture on ASCII; no other character reaches these calls. *)
Definition ToUpperInvariant (c : Z) : Z := if (0x61 <=? c) && (c <=? 0x7a) then c - 32 else c.
Definition ToLowerInvariant (c : Z) : Z := if (0x41 <=? c) && (c <=? 0x5a) then c + 32 else c.

(** * Tables *)

Definition ChecksumSize : Z := 6.
Definition Separator : Z := 0x31.
Definition CharLimit : Z := 90.

Definition Charset : list Z := to_bytes "qpzry9x8gf2tvdw0s3jn54khce6mua7l".

(** The static fields that the class constructor fills. *)
Record statics := Statics {
  st_CharsetRev : list Z;
  st_GF1024Exp : list Z;
  st_GF1024Log : list Z;
  st_SyndromeConsts : list Z
}.

Fixpoint init_rev (cs : list Z) (i : Z) (rev : list Z) : exec (list Z) :=
  match cs with
  | [] => Ok rev
  | c :: cs =>
      rev ← store rev c i;
      rev ← store rev (ToUpperInvariant c) i;
      init_rev cs (i + 1) rev
  end.

Fixpoint init_gf32 (n : nat) (i v : Z) (gf32Exp gf32Log : list Z) : exec (list Z * list Z) :=
  match n with
  | O => Ok (gf32Exp, gf32Log)
  | S n =>
      let v := Z.shiftl v 1 in
      let v := if negb (Z.land v 32 =? 0) then Z.lxor v 41 else v in
      gf32Exp ← store gf32Exp i v;
      gf32Log ← store gf32Log v i;
      init_gf32 n (i + 1) v gf32Exp gf32Log
  end.

(** [v1 != 0 ? gf32Exp[(gf32Log[v1] + gf32Log[k]) % 31] : 0] *)
Definition gf32_times (gf32Exp gf32Log : list Z) (v1 k : Z) : exec Z :=
  if v1 =? 0 then Ok 0
  else l ← index gf32Log v1; lk ← index gf32Log k; index gf32Exp (Z.rem (l + lk) 31).

Fixpoint init_gf1024 (gf32Exp gf32Log : list Z) (n : nat) (i v : Z) (exp log : list Z) : exec (list Z * list Z) :=
  match n with
  | O => Ok (exp, log)
  | S n =>
      let v0 := Z.land v 31 in
      let v1 := Z.shiftr v 5 in
      v0n ← gf32_times gf32Exp gf32Log v1 23;
      v1n ← gf32_times gf32Exp gf32Log v1 9;
      let v := Z.lor (Z.shiftl (Z.lxor v1n v0) 5) v0n in
      exp ← store exp i v;
      log ← store log v i;
      init_gf1024 gf32Exp gf32Log n (i + 1) v exp log
  end.

Fixpoint init_syndromes (exp log : list Z) (ks : list (Z * Z)) (consts : list Z) : exec (list Z) :=
  match ks with
  | [] => Ok consts
  | (k, shift) :: ks =>
      b ← index log (Z.shiftl 1 shift);
      c0 ← index exp (Z.rem (997 * k + b) 1023);
      c1 ← index exp (Z.rem (998 * k + b) 1023);
      c2 ← index exp (Z.rem (999 * k + b) 1023);
      consts ← store consts (5 * (k - 1) + shift) (Z.lor (Z.lor (u32 (Z.shiftl c2 20)) (u32 (Z.shiftl c1 10))) c0);
      init_syndromes exp log ks consts
  end.

(** The static constructor. *)
Definition Bech32_cctor : exec statics :=
  rev ← init_rev Charset 0 (replicate 128 (-1));
  gf32Exp ← store (replicate 31 0) 0 1;
  gf32Log ← store (replicate 32 (-1)) 1 0;
  gf32 ← init_gf32 30 1 1 gf32Exp gf32Log;
  exp ← store (replicate 1023 0) 0 1;
  log ← store (replicate 1024 (-1)) 1 0;
  gf1024 ← init_gf1024 gf32.1 gf32.2 1022 1 1 exp log;
  consts ← init_syndromes gf1024.1 gf1024.2 (k ← [1; 2; 3; 4; 5]; shift ← [0; 1; 2; 3; 4]; [(k, shift)]) (replicate 25 0);
  Ok (Statics rev gf1024.1 gf1024.2 consts).

Definition initialised (r : exec statics) : statics :=
  match r with Ok s => s | Err _ => Statics [] [] [] [] end.

Definition Bech32_statics : statics := initialised Bech32_cctor.

Definition CharsetRev : list Z := st_CharsetRev Bech32_statics.
Definition GF1024Exp : list Z := st_GF1024Exp Bech32_statics.
Definition GF1024Log : list Z := st_GF1024Log Bech32_statics.
Definition SyndromeConsts : list Z := st_SyndromeConsts Bech32_statics.

(** The constructor succeeds, and its tables are those of the native code. *)
Lemma cctor_ok : Bech32_cctor = Ok (Statics CHARSET_REV GF1024_EXP GF1024_LOG SYNDROME_CONSTS).
Proof. vm_compute. reflexivity. Qed.

Lemma statics_native : Bech32_statics = Statics CHARSET_REV GF1024_EXP GF1024_LOG SYNDROME_CONSTS.
Proof. unfold Bech32_statics. rewrite cctor_ok. reflexivity. Qed.

#[global] Opaque Bech32_statics.

(** * The checksum *)

Definition Encoding_Invalid : Z := 0.
Definition Encoding_Bech32 : Z := 1.
Definition Encoding_Bech32m : Z := 2.

Definition Bech32_EncodingConstant (encoding : Z) : Z :=
  if encoding =? Encoding_Bech32 then 1 else 0x2bc830a3.

Fixpoint Bech32_CheckCharacters_loop (str : list Z) (i : Z) (lower upper : bool) (errors : list Z) : list Z :=
  match str with
  | [] => errors
  | c :: str =>
      if (0x61 <=? c) && (c <=? 0x7a) then
        if upper then Bech32_CheckCharacters_loop str (i + 1) lower upper (errors ++ [i])
        else Bech32_CheckCharacters_loop str (i + 1) true upper errors
      else if (0x41 <=? c) && (c <=? 0x5a) then
        if lower then Bech32_CheckCharacters_loop str (i + 1) lower upper (errors ++ [i])
        else Bech32_CheckCharacters_loop str (i + 1) lower true errors
      else if (c <? 33) || (126 <? c) then Bech32_CheckCharacters_loop str (i + 1) lower upper (errors ++ [i])
      else Bech32_CheckCharacters_loop str (i + 1) lower upper errors
  end.

(** The errors appended, and whether there are none. *)
Definition Bech32_CheckCharacters (str errors : list Z) : list Z * bool :=
  let errors := Bech32_CheckCharacters_loop str 0 false false errors in
  (errors, bool_decide (errors = [])).

Definition Bech32_PolyMod_step (c vi : Z) : Z :=
  let c0 := Z.shiftr c 25 in
  let c := Z.lxor (u32 (Z.shiftl (Z.land c 0x1ffffff) 5)) vi in
  let c := if negb (Z.land c0 1 =? 0) then Z.lxor c 0x3b6a57b2 else c in
  let c := if negb (Z.land c0 2 =? 0) then Z.lxor c 0x26508e6d else c in
  let c := if negb (Z.land c0 4 =? 0) then Z.lxor c 0x1ea119fa else c in
  let c := if negb (Z.land c0 8 =? 0) then Z.lxor c 0x3d4233dd else c in
  if negb (Z.land c0 16 =? 0) then Z.lxor c 0x2a1462b3 else c.

Definition Bech32_PolyMod (v : list Z) : Z := foldl Bech32_PolyMod_step 1 v.

Definition Bech32_PreparePolynomialCoefficients (hrp values : list Z) : list Z :=
  ((fun c => u8 (Z.shiftr (u8 c) 5)) <$> hrp) ++ [0] ++ ((fun c => u8 (Z.land (u8 c) 0x1f)) <$> hrp) ++ values.

Definition Bech32_VerifyChecksum (hrp values : list Z) : Z :=
  let check := Bech32_PolyMod (Bech32_PreparePolynomialCoefficients hrp values) in
  if check =? Bech32_EncodingConstant Encoding_Bech32 then Encoding_Bech32
  else if check =? Bech32_EncodingConstant Encoding_Bech32m then Encoding_Bech32m
  else Encoding_Invalid.

Fixpoint Bech32_Syndrome_loop (n : nat) (residue i result : Z) : exec Z :=
  match n with
  | O => Ok result
  | S n =>
      x ← (if negb (Z.land (Z.shiftr residue (5 + i)) 1 =? 0) then index SyndromeConsts i else Ok 0);
      Bech32_Syndrome_loop n residue (i + 1) (Z.lxor result x)
  end.

Definition Bech32_Syndrome (residue : Z) : exec Z :=
  let low := Z.land residue 0x1f in
  Bech32_Syndrome_loop 25 residue 0 (Z.lxor (Z.lxor low (u32 (Z.shiftl low 10))) (u32 (Z.shiftl low 20))).

Definition Bech32_CreateChecksum (encoding : Z) (hrp values : list Z) : list Z :=
  let enc := Bech32_PreparePolynomialCoefficients hrp values ++ replicate (Z.to_nat ChecksumSize) 0 in
  let mod_ := Z.lxor (Bech32_PolyMod enc) (Bech32_EncodingConstant encoding) in
  (fun i => u8 (Z.land (Z.shiftr mod_ (5 * (5 - i))) 31)) <$> seqZ 0 ChecksumSize.

(** * [Encode] and [Decode] *)

(** [debug] says whether the assembly was built with its assertions. *)
Definition Debug_Assert (debug condition : bool) : exec unit :=
  if debug && negb condition then Err FailFast else Ok tt.

Fixpoint append_charset (values : list Z) (sb : list Z) : exec (list Z) :=
  match values with
  | [] => Ok sb
  | b :: values => c ← index Charset b; append_charset values (sb ++ [c])
  end.

Definition Bech32_Encode (debug : bool) (encoding : Z) (hrp values : list Z) : exec (list Z) :=
  Debug_Assert debug ((encoding =? Encoding_Bech32) || (encoding =? Encoding_Bech32m));;
  Debug_Assert debug (negb (existsb (fun c => (0x41 <=? c) && (c <=? 0x5a)) hrp));;
  sb ← append_charset values (hrp ++ [Separator]);
  append_charset (Bech32_CreateChecksum encoding hrp values) sb.

Record managed_result := ManagedResult {
  mr_Encoding : Z;
  mr_Hrp : list Z;
  mr_Data : list Z
}.

Definition DecodeResult_Invalid : managed_result := ManagedResult Encoding_Invalid [] [].

(** [str.LastIndexOf(c)], -1 if there is none. *)
Fixpoint LastIndexOf (c : Z) (str : list Z) : Z :=
  match str with
  | [] => -1
  | x :: str =>
      let i := LastIndexOf c str in
      if 0 <=? i then i + 1 else if x =? c then 0 else -1
  end.

(** The loop over the characters after the separator: the values, or nothing. *)
Fixpoint read_values (str : list Z) : exec (option (list Z)) :=
  match str with
  | [] => Ok (Some [])
  | c :: str =>
      if 128 <=? c then Ok None
      else
        rev ← index CharsetRev c;
        if rev =? -1 then Ok None
        else vs ← read_values str; Ok (option_map (cons (u8 rev)) vs)
  end.

Definition Bech32_Decode (str : list Z) (limit : Z) : exec managed_result :=
  if negb (Bech32_CheckCharacters str []).2 then Ok DecodeResult_Invalid
  else if limit <? zlen str then Ok DecodeResult_Invalid
  else
    let pos := LastIndexOf Separator str in
    if (pos <=? 0) || (zlen str <=? pos + ChecksumSize) then Ok DecodeResult_Invalid
    else
      values ← read_values (drop (Z.to_nat (pos + 1)) str);
      match values with
      | None => Ok DecodeResult_Invalid
      | Some values =>
          let hrp := ToLowerInvariant <$> take (Z.to_nat pos) str in
          let result := Bech32_VerifyChecksum hrp values in
          if result =? Encoding_Invalid then Ok DecodeResult_Invalid
          else Ok (ManagedResult result hrp (take (Z.to_nat (zlen values - ChecksumSize)) values))
      end.

(** * [LocateErrors] *)

(** The values of the data part from position [i], or the first invalid position. *)
Fixpoint locate_values (str : list Z) (i : Z) : exec (list Z + Z) :=
  match str with
  | [] => Ok (inl [])
  | c :: str =>
      bad ← (if 128 <=? c then Ok true else rev ← index CharsetRev c; Ok (rev =? -1));
      if (bad : bool) then Ok (inr i)
      else
        rev ← index CharsetRev c;
        vs ← locate_values str (i + 1);
        Ok (match vs with inl vs => inl (u8 rev :: vs) | inr i => inr i end)
  end.

(** [s == 0 ? 0 : GF1024Exp[(l_s + p) % 1023]] *)
Definition exp_times (s l_s p : Z) : exec Z :=
  if s =? 0 then Ok 0 else index GF1024Exp (Z.rem (l_s + p) 1023).

(** One round of the loop over [p1]; [None] is [continue]. *)
Definition Bech32_locate_pair (s0 s1 s2 l_s0 l_s1 length size p1 : Z) : exec (option (list Z)) :=
  t ← exp_times s1 l_s1 p1;
  let s2_s1p1 := Z.lxor s2 t in
  if s2_s1p1 =? 0 then Ok None else
  l_s2_s1p1 ← index GF1024Log s2_s1p1;
  t ← exp_times s0 l_s0 p1;
  let s1_s0p1 := Z.lxor s1 t in
  if s1_s0p1 =? 0 then Ok None else
  l_s1_s0p1 ← index GF1024Log s1_s0p1;
  let p2 := Z.rem (l_s2_s1p1 - l_s1_s0p1 + 1023) 1023 in
  if (length <=? p2) || (p1 =? p2) then Ok None else
  t ← exp_times s0 l_s0 p2;
  let s1_s0p2 := Z.lxor s1 t in
  if s1_s0p2 =? 0 then Ok None else
  l_s1_s0p2 ← index GF1024Log s1_s0p2;
  x1 ← index GF1024Exp p1;
  x2 ← index GF1024Exp p2;
  l ← index GF1024Log (Z.lxor x1 x2);
  let inv_p1_p2 := 1023 - l in
  let l_e2 := l_s1_s0p1 + inv_p1_p2 + (1023 - 997) * p2 in
  if negb (Z.rem l_e2 33 =? 0) then Ok None else
  let l_e1 := l_s1_s0p2 + inv_p1_p2 + (1023 - 997) * p1 in
  if negb (Z.rem l_e1 33 =? 0) then Ok None else
  Ok (Some (if p2 <? p1 then [size - p1 - 1; size - p2 - 1] else [size - p2 - 1; size - p1 - 1])).

Fixpoint Bech32_locate_pairs (n : nat) (s0 s1 s2 l_s0 l_s1 length size p1 : Z) : exec (list Z) :=
  match n with
  | O => Ok []
  | S n =>
      found ← Bech32_locate_pair s0 s1 s2 l_s0 l_s1 length size p1;
      match found with
      | Some possibleErrors => Ok possibleErrors
      | None => Bech32_locate_pairs n s0 s1 s2 l_s0 l_s1 length size (p1 + 1)
      end
  end.

Definition Bech32_locate_syndromes (s0 s1 s2 length size : Z) : exec (list Z) :=
  l_s0 ← index GF1024Log s0;
  l_s1 ← index GF1024Log s1;
  l_s2 ← index GF1024Log s2;
  if negb (l_s0 =? -1) && negb (l_s1 =? -1) && negb (l_s2 =? -1)
     && (Z.rem (2 * l_s1 - l_s2 - l_s0 + 2046) 1023 =? 0) then
    let p1 := Z.rem (l_s1 - l_s0 + 1023) 1023 in
    let l_e1 := l_s0 + (1023 - 997) * p1 in
    if (p1 <? length) && (Z.rem l_e1 33 =? 0) then Ok [size - p1 - 1] else Ok []
  else Bech32_locate_pairs (Z.to_nat length) s0 s1 s2 l_s0 l_s1 length size 0.

Definition possibleErrors (residue length size : Z) : exec (list Z) :=
  syn ← Bech32_Syndrome residue;
  Bech32_locate_syndromes (Z.land syn 0x3FF) (Z.land (Z.shiftr syn 10) 0x3FF) (Z.shiftr syn 20) length size.

Fixpoint Bech32_locate_encodings (encodings : list Z) (hrp values : list Z) (size : Z)
    (errorLocations : list Z) (errorEncoding : option Z) : exec (option (list Z * option Z)) :=
  match encodings with
  | [] => Ok (Some (errorLocations, errorEncoding))
  | encoding :: encodings =>
      let enc := Bech32_PreparePolynomialCoefficients hrp values in
      let residue := Z.lxor (Bech32_PolyMod enc) (Bech32_EncodingConstant encoding) in
      if residue =? 0 then Ok None
      else
        errors ← possibleErrors residue (zlen values) size;
        if (zlen errorLocations =? 0) || ((0 <? zlen errors) && (zlen errors <? zlen errorLocations)) then
          Bech32_locate_encodings encodings hrp values size errors
            (if 0 <? zlen errors then Some encoding else errorEncoding)
        else Bech32_locate_encodings encodings hrp values size errorLocations errorEncoding
  end.

Definition Bech32_LocateErrors (str : list Z) (limit : Z) : exec (string * list Z) :=
  if limit <? zlen str then Ok ("Bech32 string too long", seqZ limit (zlen str - limit))
  else
    let '(errorLocations, ok) := Bech32_CheckCharacters str [] in
    if negb ok then Ok ("Invalid character or mixed case", errorLocations)
    else
      let pos := LastIndexOf Separator str in
      if pos <? 0 then Ok ("Missing separator", [])
      else if (pos =? 0) || (zlen str <=? pos + ChecksumSize) then
        Ok ("Invalid separator position", errorLocations ++ [pos])
      else
        let hrp := ToLowerInvariant <$> take (Z.to_nat pos) str in
        values ← locate_values (drop (Z.to_nat (pos + 1)) str) (pos + 1);
        match values with
        | inr i => Ok ("Invalid Base 32 character", errorLocations ++ [i])
        | inl values =>
            r ← Bech32_locate_encodings [Encoding_Bech32; Encoding_Bech32m] hrp values (zlen str) errorLocations None;
            match r with
            | None => Ok (EmptyString, [])
            | Some (errorLocations, errorEncoding) =>
                Ok (if bool_decide (errorEncoding = Some Encoding_Bech32m) then "Invalid Bech32m checksum"
                    else if bool_decide (errorEncoding = Some Encoding_Bech32) then "Invalid Bech32 checksum"
                    else "Invalid checksum", errorLocations)
            end
        end.

(** * UTF-8 *)

(** [TextEncoding.UTF8.GetString]: an ill-formed sequence becomes the replacement
    character, once for each maximal subpart; characters beyond the basic plane
    become two code units. *)
Definition replacement : Z := 0xFFFD.
Definition continuation (b : Z) : bool := (0x80 <=? b) && (b <=? 0xBF).

(** The range of the second byte, by the first. *)
Definition second_ok (b0 b1 : Z) : bool :=
  if b0 =? 0xE0 then (0xA0 <=? b1) && (b1 <=? 0xBF)
  else if b0 =? 0xED then (0x80 <=? b1) && (b1 <=? 0x9F)
  else if b0 =? 0xF0 then (0x90 <=? b1) && (b1 <=? 0xBF)
  else if b0 =? 0xF4 then (0x80 <=? b1) && (b1 <=? 0x8F)
  else continuation b1.

Definition surrogates (cp : Z) : list Z :=
  let cp := cp - 0x10000 in [0xD800 + Z.shiftr cp 10; 0xDC00 + Z.land cp 0x3FF].

Fixpoint UTF8_GetString (bs : bytes) : list Z :=
  match bs with
  | [] => []
  | b0 :: bs0 =>
      if b0 <? 0x80 then b0 :: UTF8_GetString bs0
      else if (0xC2 <=? b0) && (b0 <=? 0xDF) then
        match bs0 with
        | b1 :: bs1 =>
            if continuation b1 then Z.lor (Z.shiftl (Z.land b0 0x1F) 6) (Z.land b1 0x3F) :: UTF8_GetString bs1
            else replacement :: UTF8_GetString bs0
        | [] => [replacement]
        end
      else if (0xE0 <=? b0) && (b0 <=? 0xEF) then
        match bs0 with
        | b1 :: bs1 =>
            if second_ok b0 b1 then
              match bs1 with
              | b2 :: bs2 =>
                  if continuation b2 then
                    Z.lor (Z.shiftl (Z.land b0 0x0F) 12) (Z.lor (Z.shiftl (Z.land b1 0x3F) 6) (Z.land b2 0x3F))
                      :: UTF8_GetString bs2
                  else replacement :: UTF8_GetString bs1
              | [] => [replacement]
              end
            else replacement :: UTF8_GetString bs0
        | [] => [replacement]
        end
      else if (0xF0 <=? b0) && (b0 <=? 0xF4) then
        match bs0 with
        | b1 :: bs1 =>
            if second_ok b0 b1 then
              match bs1 with
              | b2 :: bs2 =>
                  if continuation b2 then
                    match bs2 with
                    | b3 :: bs3 =>
                        if continuation b3 then
                          surrogates (Z.lor (Z.shiftl (Z.land b0 0x07) 18) (Z.lor (Z.shiftl (Z.land b1 0x3F) 12)
                                        (Z.lor (Z.shiftl (Z.land b2 0x3F) 6) (Z.land b3 0x3F))))
                            ++ UTF8_GetString bs3
                        else replacement :: UTF8_GetString bs2
                    | [] => [replacement]
                    end
                  else replacement :: UTF8_GetString bs1
              | [] => [replacement]
              end
            else replacement :: UTF8_GetString bs0
        | [] => [replacement]
        end
      else replacement :: UTF8_GetString bs0
  end.

Definition high_surrogate (c : Z) : bool := (0xD800 <=? c) && (c <=? 0xDBFF).
Definition low_surrogate (c : Z) : bool := (0xDC00 <=? c) && (c <=? 0xDFFF).

Definition three_bytes (c : Z) : bytes :=
  [Z.lor 0xE0 (Z.shiftr c 12); Z.lor 0x80 (Z.land (Z.shiftr c 6) 0x3F); Z.lor 0x80 (Z.land c 0x3F)].

(** The bytes of a string; a lone surrogate becomes the replacement character. *)
Fixpoint UTF8_bytes (cs : list Z) : bytes :=
  match cs with
  | [] => []
  | c :: cs0 =>
      if c <? 0x80 then c :: UTF8_bytes cs0
      else if c <? 0x800 then [Z.lor 0xC0 (Z.shiftr c 6); Z.lor 0x80 (Z.land c 0x3F)] ++ UTF8_bytes cs0
      else if high_surrogate c then
        match cs0 with
        | d :: cs1 =>
            if low_surrogate d then
              let cp := 0x10000 + Z.lor (Z.shiftl (c - 0xD800) 10) (d - 0xDC00) in
              [Z.lor 0xF0 (Z.shiftr cp 18); Z.lor 0x80 (Z.land (Z.shiftr cp 12) 0x3F);
               Z.lor 0x80 (Z.land (Z.shiftr cp 6) 0x3F); Z.lor 0x80 (Z.land cp 0x3F)] ++ UTF8_bytes cs1
            else three_bytes replacement ++ UTF8_bytes cs0
        | [] => three_bytes replacement
        end
      else if low_surrogate c then three_bytes replacement ++ UTF8_bytes cs0
      else three_bytes c ++ UTF8_bytes cs0
  end.

(** [TextEncoding.UTF8.GetBytes(s, span)] for a span of [capacity] bytes. *)
Definition UTF8_GetBytes (s : list Z) (capacity : Z) : exec bytes :=
  let bs := UTF8_bytes s in
  if capacity <? zlen bs then Err (Exception "ArgumentException") else Ok bs.

(** * The managed side of the bridge *)

(** [new ReadOnlySpan<byte>(pointer, length)], the empty span for a null pointer. *)
Definition span (pointer : option bytes) (length : Z) : exec bytes :=
  match pointer with
  | None => Ok []
  | Some memory => if length <? 0 then Err (Exception "ArgumentOutOfRange") else Ok (take (Z.to_nat length) memory)
  end.

(** [BtcSharpBech32Result]: the packed arrays [Hrp] and [Data] are adjacent. *)
Record BtcSharpBech32Result := Bech32Result {
  r_Encoding : Z;
  r_HrpLen : Z;
  r_DataLen : Z;
  r_Hrp_Data : bytes
}.

Definition result_default : BtcSharpBech32Result := Bech32Result 0 0 0 (replicate 182 0).

(** Bytes written at an offset of the arrays. *)
Definition write_at (offset : nat) (bs memory : bytes) : bytes :=
  take offset memory ++ bs ++ drop (offset + length bs) memory.

Definition EncodeManaged (debug : bool) (enc : Z) (hrpUtf8 values : bytes) : exec (list Z) :=
  if enc =? Encoding_Invalid then Ok []
  else Bech32_Encode debug enc (UTF8_GetString hrpUtf8) values.

Definition DecodeManaged (strUtf8 : bytes) (limit : Z) : exec managed_result :=
  Bech32_Decode (UTF8_GetString strUtf8) limit.

(** The struct after the call, also when the call throws. *)
Definition FillResult (dec : managed_result) (r : BtcSharpBech32Result) : BtcSharpBech32Result * exec unit :=
  let r := Bech32Result (mr_Encoding dec) 0 0 (r_Hrp_Data r) in
  if mr_Encoding dec =? Encoding_Invalid then (r, Ok tt)
  else
    match UTF8_GetBytes (mr_Hrp dec) 91 with
    | Err e => (r, Err e)
    | Ok hrp =>
        let memory := write_at 0 hrp (r_Hrp_Data r) in
        let memory := write_at (length hrp) [0] memory in
        let dataLen := Z.min (zlen (mr_Data dec)) 91 in
        let memory := write_at 91 (take (Z.to_nat dataLen) (mr_Data dec)) memory in
        (Bech32Result (mr_Encoding dec) (zlen hrp) dataLen memory, Ok tt)
    end.

(** The buffer and its length as the caller sees them after [Encode]: the outcome
    is an error only if the process is gone. *)
Definition Bech32Bridge_Encode (debug : bool) (encoding : Z) (hrp : option bytes) (hrp_len : Z)
    (values : option bytes) (values_len : Z) (out_buf : option bytes) (out_cap : Z) (out_len : option Z)
    : exec (option bytes * option Z) :=
  let out_len := (fun _ => 0) <$> out_len in
  match out_buf with
  | None => Ok (out_buf, out_len)
  | Some buffer =>
      if out_cap <=? 0 then Ok (out_buf, out_len)
      else
        let body : exec (option bytes) :=
          hrpSpan ← span hrp hrp_len;
          valSpan ← span values values_len;
          result ← EncodeManaged debug encoding hrpSpan valSpan;
          if (zlen result =? 0) then Ok None else written ← UTF8_GetBytes result out_cap; Ok (Some written)
        in
        match body with
        | Ok None => Ok (out_buf, out_len)
        | Ok (Some written) => Ok (Some (write_at 0 written buffer), (fun _ => zlen written) <$> out_len)
        | Err (Exception _) => Ok (out_buf, out_len)
        | Err FailFast => Err FailFast
        end
  end.

Definition Bech32Bridge_Decode (str : option bytes) (str_len limit : Z) (result : option BtcSharpBech32Result)
    : exec (option BtcSharpBech32Result) :=
  match result with
  | None => Ok None
  | Some _ =>
      match (strSpan ← span str str_len; DecodeManaged strSpan limit) with
      | Ok dec =>
          match FillResult dec result_default with
          | (r, Err FailFast) => Err FailFast
          | (r, _) => Ok (Some r)
          end
      | Err (Exception _) => Ok (Some result_default)
      | Err FailFast => Err FailFast
      end
  end.

(** * The native side of the bridge *)

(** Whether [s_encode] and [s_decode] hold a function of the loaded assembly. *)
Record bridge := Bridge {
  s_encode : bool;
  s_decode : bool;
  assembly_debug : bool
}.

Definition Encoding_int (e : Encoding) : Z := match e with INVALID => 0 | BECH32 => 1 | BECH32M => 2 end.
Definition Encoding_cast (z : Z) : Encoding := if z =? 1 then BECH32 else if z =? 2 then BECH32M else INVALID.

(** A failed assertion of the assembly ends the process. *)
Definition native {A} (r : exec A) : result string A := match r with Ok a => Ok a | Err _ => Err "FailFast" end.

(** The raw entry points. *)
Definition btcsharp_bech32_encode (b : bridge) (encoding : Z) (hrp : option bytes) (hrp_len : Z)
    (values : option bytes) (values_len : Z) (out_buf : option bytes) (out_cap : Z) (out_len : option Z)
    : exec (option bytes * option Z) :=
  let out_len := option_map (fun _ => 0) out_len in
  if negb (s_encode b) then Ok (out_buf, out_len)
  else Bech32Bridge_Encode (assembly_debug b) encoding hrp hrp_len values values_len out_buf out_cap out_len.

Definition btcsharp_bech32_decode (b : bridge) (str : option bytes) (str_len limit : Z) (result : option BtcSharpBech32Result)
    : exec (option BtcSharpBech32Result) :=
  match result with
  | None => Ok None
  | Some _ =>
      if negb (s_decode b) then Ok (Some result_default)
      else Bech32Bridge_Decode str str_len limit (Some result_default)
  end.

Definition bech32_managed_Encode (b : bridge) (encoding : Encoding) (hrp values : bytes) : result string bytes :=
  if negb (s_encode b) then Encode encoding hrp values
  else
    out ← native (Bech32Bridge_Encode (assembly_debug b) (Encoding_int encoding)
                    (Some hrp) (i32 (zlen hrp)) (Some values) (i32 (zlen values))
                    (Some (replicate 91 0)) 91 (Some 0));
    Ok (take (Z.to_nat (default 0 out.2)) (default [] out.1)).

Definition bech32_managed_Decode (b : bridge) (str : bytes) (limit : Z) : result string DecodeResult :=
  if negb (s_decode b) then Decode str limit
  else
    r ← native (Bech32Bridge_Decode (Some str) (i32 (zlen str)) (i32 limit) (Some result_default));
    let r := default result_default r in
    let enc := Encoding_cast (r_Encoding r) in
    if bool_decide (enc = INVALID) then Ok DecodeResult_invalid
    else Ok (Decoded enc (take (Z.to_nat (r_HrpLen r)) (r_Hrp_Data r))
                         (take (Z.to_nat (r_DataLen r)) (drop 91 (r_Hrp_Data r)))).
