(* ===== verification/BtcSharpSpec.v ===== *)
(** The managed port of Bech32 agrees with the native code: [Decode] and
    [LocateErrors] on every string, and, through the bridge, [Encode] and [Decode]
    for everything that fits an address. *)

From S2P Require Import Prelude Bech32 Gf1024 BtcSharp.

(** * A simulation of outcomes

    Two computations agree if both succeed with the same value or both fail. *)

Definition agree {E1 E2 A B} (R : A -> B -> Prop) (r1 : result E1 A) (r2 : result E2 B) : Prop :=
  match r1, r2 with
  | Ok a, Ok b => R a b
  | Err _, Err _ => True
  | _, _ => False
  end.

Lemma agree_bind {E1 E2 A B C D} (R : A -> B -> Prop) (S : C -> D -> Prop)
    (m1 : result E1 A) (m2 : result E2 B) (f1 : A -> result E1 C) (f2 : B -> result E2 D) :
  agree R m1 m2 -> (forall a b, m1 = Ok a -> m2 = Ok b -> R a b -> agree S (f1 a) (f2 b)) ->
  agree S (m1 ≫= f1) (m2 ≫= f2).
Proof. intros Hm Hf. destruct m1, m2; simpl in *; try done. by apply Hf. Qed.

Lemma agree_same {E1 E2 A C D} (S : C -> D -> Prop)
    (m1 : result E1 A) (m2 : result E2 A) (f1 : A -> result E1 C) (f2 : A -> result E2 D) :
  agree eq m1 m2 -> (forall a, m2 = Ok a -> agree S (f1 a) (f2 a)) -> agree S (m1 ≫= f1) (m2 ≫= f2).
Proof. intros Hm Hf. apply (agree_bind eq); [done|]. intros a b _ Hb ->. by apply Hf. Qed.

Lemma agree_if {E1 E2 A B} (R : A -> B -> Prop) (c1 c2 : bool) (a1 b1 : result E1 A) (a2 b2 : result E2 B) :
  c1 = c2 -> (c2 = true -> agree R a1 a2) -> (c2 = false -> agree R b1 b2) ->
  agree R (if c1 then a1 else b1) (if c2 then a2 else b2).
Proof. intros ->. destruct c2; auto. Qed.

Lemma agree_index {A} (l : list A) i : agree eq (index l i) (at_ l i).
Proof. unfold index, at_. destruct (i <? 0); [done|]. by destruct (l !! Z.to_nat i). Qed.

(** * Tables and characters *)

Lemma CharsetRev_native : CharsetRev = CHARSET_REV.
Proof. unfold CharsetRev. rewrite statics_native. reflexivity. Qed.

Lemma GF1024Exp_native : GF1024Exp = GF1024_EXP.
Proof. unfold GF1024Exp. rewrite statics_native. reflexivity. Qed.

Lemma GF1024Log_native : GF1024Log = GF1024_LOG.
Proof. unfold GF1024Log. rewrite statics_native. reflexivity. Qed.

Lemma SyndromeConsts_native : SyndromeConsts = SYNDROME_CONSTS.
Proof. unfold SyndromeConsts. rewrite statics_native. reflexivity. Qed.

Lemma CheckCharacters_loop_native str i lower upper errors :
  Bech32_CheckCharacters_loop str i lower upper errors = errors ++ CheckCharacters_loop str i lower upper.
Proof.
  revert i lower upper errors. induction str as [|c str IH]; intros i lower upper errors; simpl; [by rewrite app_nil_r|].
  fold (is_lower c) (is_upper c). destruct (is_lower c), (is_upper c), lower, upper, ((c <? 33) || (126 <? c)); rewrite IH, <- ?app_assoc; done.
Qed.

Lemma CheckCharacters_native str :
  Bech32_CheckCharacters str [] = (CheckCharacters str, bool_decide (CheckCharacters str = [])).
Proof. unfold Bech32_CheckCharacters. rewrite CheckCharacters_loop_native. done. Qed.

Lemma LastIndexOf_native c str :
  LastIndexOf c str = match rfind c str with Some pos => Z.of_nat pos | None => -1 end.
Proof.
  induction str as [|x str IH]; [done|]. simpl. rewrite IH. destruct (rfind c str) as [pos|]; simpl.
  - destruct (Z.leb_spec 0 (Z.of_nat pos)); lia.
  - by destruct (x =? c).
Qed.

Lemma ToLower_native c : ToLowerInvariant c = LowerCase c.
Proof. unfold ToLowerInvariant, LowerCase, is_upper. destruct (_ && _); lia. Qed.

(** * The checksum *)

Lemma PolyMod_step_native c v : Bech32_PolyMod_step c v = PolyMod_step c v.
Proof.
  unfold Bech32_PolyMod_step, PolyMod_step.
  assert (forall x k, Z.land k 255 = k -> Z.land (u8 x) k = Z.land x k) as H.
  { intros x k Hk. unfold wrap. change (2 ^ 8) with (2 ^ 8). rewrite <- Z.land_ones by lia. change (Z.ones 8) with 255.
    by rewrite <- Z.land_assoc, (Z.land_comm 255), Hk. }
  by rewrite !H.
Qed.

Lemma PolyMod_native v : Bech32_PolyMod v = PolyMod v.
Proof.
  unfold Bech32_PolyMod, PolyMod. generalize 1. induction v as [|x v IH]; intros c; [done|]. simpl. by rewrite PolyMod_step_native, IH.
Qed.

Definition ascii (c : Z) : Prop := 0 <= c < 128.

Lemma printable_ascii s : Forall printable s -> Forall ascii s.
Proof. apply Forall_impl. unfold printable, ascii. lia. Qed.

Lemma Prepare_native hrp values :
  Forall ascii hrp -> Bech32_PreparePolynomialCoefficients hrp values = PreparePolynomialCoefficients hrp values.
Proof.
  intros Hh. unfold Bech32_PreparePolynomialCoefficients, PreparePolynomialCoefficients.
  assert (forall c, 0 <= c < 128 -> (u8 (Z.shiftr (u8 c) 5) =? u8 (Z.shiftr (swrap 8 c) 5)) && (u8 (Z.land (u8 c) 0x1f) =? Z.land c 0x1f) = true) as H
    by (apply range_forall; vm_compute; reflexivity).
  f_equal; [|do 2 f_equal].
  - apply list_fmap_ext. intros i c Hc. apply Forall_lookup_1 with (i := i) (x := c) in Hh; [|done].
    specialize (H c Hh). bool_props. lia.
  - apply list_fmap_ext. intros i c Hc. apply Forall_lookup_1 with (i := i) (x := c) in Hh; [|done].
    specialize (H c Hh). bool_props. lia.
Qed.

Lemma VerifyChecksum_native hrp values :
  Forall ascii hrp ->
  VerifyChecksum hrp values = Ok (Encoding_cast (Bech32_VerifyChecksum hrp values)) /\
  Encoding_int (Encoding_cast (Bech32_VerifyChecksum hrp values)) = Bech32_VerifyChecksum hrp values.
Proof.
  intros Hh. unfold VerifyChecksum, Bech32_VerifyChecksum. rewrite PolyMod_native, Prepare_native by done.
  cbn [EncodingConstant mbind result_bind]. unfold Bech32_EncodingConstant.
  change (if Encoding_Bech32 =? Encoding_Bech32 then 1 else 0x2bc830a3) with 1.
  change (if Encoding_Bech32m =? Encoding_Bech32 then 1 else 0x2bc830a3) with 0x2bc830a3.
  destruct (_ =? 1); [done|]. by destruct (_ =? 0x2bc830a3).
Qed.

Lemma read_values_native s :
  Forall ascii s -> agree eq (read_values s) (decode_values s).
Proof.
  intros Hs. induction Hs as [|c s Hc Hs IH]; [done|]. simpl. rewrite CharsetRev_native.
  destruct (Z.leb_spec 128 c) as [|_]; [unfold ascii in Hc; lia|].
  apply agree_same; [apply agree_index|]. intros v Hv. apply agree_if; [done|done|]. intros Hn%Z.eqb_neq.
  apply agree_same; [done|]. intros vs _. simpl. destruct (rev_charset c v Hv Hn) as ([? ?] & _).
  destruct vs; simpl; [|done]. do 2 f_equal. apply wrap_small. unfold is_uint. lia.
Qed.

(** The port decodes exactly as the native code does. *)
Definition managed (r : DecodeResult) : managed_result := ManagedResult (Encoding_int (encoding r)) (hrp r) (data r).

Lemma Decode_native str limit :
  exists r, Decode str limit = Ok r /\ Bech32_Decode str limit = Ok (managed r).
Proof.
  unfold Decode, Bech32_Decode. rewrite CheckCharacters_native. simpl.
  destruct (bool_decide (CheckCharacters str = [])) eqn:Ec; cbn [negb]; [|by eexists].
  apply bool_decide_eq_true, CheckCharacters_spec in Ec as [Hp%printable_ascii _].
  destruct (limit <? zlen str); [by eexists|].
  rewrite LastIndexOf_native. change Separator with SEPARATOR. change ChecksumSize with CHECKSUM_SIZE.
  destruct (rfind SEPARATOR str) as [pos|]; [|by eexists].
  assert ((Z.of_nat pos <=? 0) = (pos =? 0)%nat) as -> by (destruct (Nat.eqb_spec pos 0), (Z.leb_spec (Z.of_nat pos) 0); lia).
  destruct (_ || _); [by eexists|]. rewrite Nat2Z.id. replace (Z.to_nat (Z.of_nat pos + 1)) with (pos + 1)%nat by lia.
  pose proof (read_values_native (drop (pos + 1) str) ltac:(by apply Forall_drop)) as Ha.
  destruct (decode_values_total (drop (pos + 1) str)) as [o Eo]; [by apply Forall_drop|].
  rewrite Eo in Ha |- *. destruct (read_values _) as [o'|]; [simpl in Ha; subst o'|done]. cbn [mbind result_bind].
  destruct o as [w|]; [|by eexists].
  assert (ToLowerInvariant <$> take pos str = LowerCase <$> take pos str) as ->
    by (apply list_fmap_ext; intros; apply ToLower_native).
  assert (Forall ascii (LowerCase <$> take pos str)) as Hh.
  { apply Forall_fmap, Forall_take. revert Hp. apply Forall_impl. intros c. unfold ascii, compose, LowerCase, is_upper.
    destruct (_ && _) eqn:E; [bool_props|]; lia. }
  destruct (VerifyChecksum_native (LowerCase <$> take pos str) w Hh) as [Ev Ei]. rewrite Ev. cbn [mbind result_bind].
  set (e := Bech32_VerifyChecksum _ _) in *.
  assert ((e =? Encoding_Invalid) = bool_decide (Encoding_cast e = INVALID)) as ->.
  { rewrite <- Ei at 1. by destruct (Encoding_cast e). }
  destruct (bool_decide _); [by eexists|]. eexists. split; [done|]. unfold managed. simpl. rewrite Ei.
  do 3 f_equal. unfold zlen, CHECKSUM_SIZE. lia.
Qed.

(** * [LocateErrors] *)

Lemma log_range s l : at_ GF1024_LOG s = Ok l -> (s = 0 /\ l = -1) \/ (s <> 0 /\ 0 <= l < 1023).
Proof.
  intros H. assert (0 <= s < 1024) as Hs.
  { apply at_lookup in H as [? Hl]. apply lookup_lt_Some in Hl. pose proof (proj2 table_lengths). lia. }
  rewrite (at_LOG s Hs) in H. apply (f_equal (constant 0)) in H. cbn [constant] in H. subst l. destruct (decide (s = 0)) as [->|Hn].
  - left. split; [done|exact LOG_0].
  - right. split; [done|]. destruct (tables_inverse s ltac:(lia)) as [H _]. exact H.
Qed.

Lemma rem_mod a b : 0 <= a -> 0 < b -> Z.rem a b = a mod b.
Proof. intros Ha Hb. by apply Z.rem_mod_nonneg. Qed.

Lemma exp_times_native s l_s p :
  (s <> 0 -> 0 <= l_s) -> 0 <= p -> agree eq (exp_times s l_s p) (times_power s l_s p).
Proof.
  intros Hs Hp. unfold exp_times, times_power. rewrite GF1024Exp_native. apply agree_if; [done|done|].
  intros Hn%Z.eqb_neq. rewrite rem_mod by (specialize (Hs Hn); lia). apply agree_index.
Qed.

Lemma Syndrome_native residue : Bech32_Syndrome residue = Ok (Syndrome residue).
Proof.
  unfold Bech32_Syndrome, Syndrome. set (low := Z.land residue 0x1f). generalize (Z.lxor (Z.lxor low (u32 (Z.shiftl low 10))) (u32 (Z.shiftl low 20))).
  rewrite <- SyndromeConsts_native.
  assert (forall n i l result, drop (Z.to_nat i) SyndromeConsts = l -> length l = n -> 0 <= i ->
    Bech32_Syndrome_loop n residue i result = Ok (syndrome_loop residue i l result)) as H.
  { induction n as [|n IH]; intros i l result Hd Hl Hi; destruct l as [|x l]; try done. simpl.
    assert (index SyndromeConsts i = Ok x) as ->.
    { unfold index. rewrite (proj2 (Z.ltb_ge i 0)) by lia. rewrite <- (Nat.add_0_r (Z.to_nat i)), <- lookup_drop, Hd. done. }
    transitivity (Bech32_Syndrome_loop n residue (i + 1) (Z.lxor result (if negb (Z.land (Z.shiftr residue (5 + i)) 1 =? 0) then x else 0))).
    { by destruct (negb _). }
    apply IH; [|by injection Hl|lia]. replace (Z.to_nat (i + 1)) with (Z.to_nat i + 1)%nat by lia.
    by rewrite <- drop_drop, Hd. }
  intros z. apply H; [done| |lia]. rewrite SyndromeConsts_native. vm_compute. reflexivity.
Qed.

#[local] Opaque Syndrome at_.

(** The value of a logarithm that the code has shown not to be that of 0. *)
Lemma log_nonneg s l : at_ GF1024_LOG s = Ok l -> (s =? 0) = false -> 0 <= l < 1023.
Proof. intros H Hn%Z.eqb_neq. by destruct (log_range s l H) as [[? _]|[_ ?]]. Qed.

Lemma locate_pair_native s0 s1 s2 l_s0 l_s1 length size p1 :
  (s0 <> 0 -> 0 <= l_s0) -> (s1 <> 0 -> 0 <= l_s1) -> 0 <= p1 ->
  agree eq (Bech32_locate_pair s0 s1 s2 l_s0 l_s1 length size p1) (locate_pair s0 s1 s2 l_s0 l_s1 length size p1).
Proof.
  intros H0 H1 Hp. unfold Bech32_locate_pair, locate_pair. rewrite GF1024Exp_native, GF1024Log_native.
  apply agree_same; [by apply exp_times_native|]. intros t1 _.
  apply agree_if; [done|done|]. intros N1. apply agree_same; [apply agree_index|]. intros l1 L1.
  apply agree_same; [by apply exp_times_native|]. intros t2 _.
  apply agree_if; [done|done|]. intros N2. apply agree_same; [apply agree_index|]. intros l2 L2.
  pose proof (log_nonneg _ _ L1 N1). pose proof (log_nonneg _ _ L2 N2). rewrite (rem_mod (l1 - l2 + 1023)) by lia.
  set (p2 := (l1 - l2 + 1023) mod 1023). assert (0 <= p2 < 1023) by (apply Z.mod_pos_bound; lia).
  apply agree_if; [done|done|]. intros _. apply agree_same; [apply exp_times_native; [done|lia]|]. intros t3 _.
  apply agree_if; [done|done|]. intros N3. apply agree_same; [apply agree_index|]. intros l3 L3.
  pose proof (log_nonneg _ _ L3 N3).
  apply agree_same; [apply agree_index|]. intros x1 _. apply agree_same; [apply agree_index|]. intros x2 _.
  apply agree_same; [apply agree_index|]. intros l4 L4. pose proof (log_range _ _ L4).
  apply agree_if; [by rewrite rem_mod by lia|done|]. intros _. apply agree_if; [by rewrite rem_mod by lia|done|done].
Qed.

Lemma locate_pairs_native n s0 s1 s2 l_s0 l_s1 length size p1 :
  (s0 <> 0 -> 0 <= l_s0) -> (s1 <> 0 -> 0 <= l_s1) -> 0 <= p1 ->
  agree eq (Bech32_locate_pairs n s0 s1 s2 l_s0 l_s1 length size p1) (locate_pairs n s0 s1 s2 l_s0 l_s1 length size p1).
Proof.
  intros H0 H1. revert p1. induction n as [|n IH]; intros p1 Hp; [done|]. simpl.
  apply agree_same; [by apply locate_pair_native|]. intros [l|] _; [done|]. apply IH. lia.
Qed.

Lemma locate_syndromes_native s0 s1 s2 length size :
  agree eq (Bech32_locate_syndromes s0 s1 s2 length size) (locate_syndromes s0 s1 s2 length size).
Proof.
  unfold Bech32_locate_syndromes, locate_syndromes. rewrite GF1024Log_native.
  apply agree_same; [apply agree_index|]. intros l0 L0%log_range. apply agree_same; [apply agree_index|]. intros l1 L1%log_range.
  apply agree_same; [apply agree_index|]. intros l2 L2%log_range.
  destruct (Z.eqb_spec l0 (-1)), (Z.eqb_spec l1 (-1)), (Z.eqb_spec l2 (-1)); cbn [negb andb];
    try (apply locate_pairs_native; lia).
  rewrite (rem_mod (2 * l1 - l2 - l0 + 2046) 1023), (rem_mod (l1 - l0 + 1023) 1023) by lia.
  apply agree_if; [done| |intros _; apply locate_pairs_native; lia]. intros _.
  assert (0 <= (l1 - l0 + 1023) mod 1023) by (apply Z.mod_pos_bound; lia).
  apply agree_if; [by rewrite rem_mod by lia|done|done].
Qed.

Lemma possibleErrors_native residue length size :
  agree eq (possibleErrors residue length size) (possible_errors residue length size).
Proof. unfold possibleErrors, possible_errors. rewrite Syndrome_native. apply locate_syndromes_native. Qed.

(** Lists by their length, as the port tests them. *)
Lemma zlen_zero {A} (l : list A) : (zlen l =? 0) = bool_decide (l = []).
Proof. by destruct l. Qed.

Lemma zlen_pos {A} (l : list A) : (0 <? zlen l) = negb (bool_decide (l = [])).
Proof. by destruct l. Qed.

Definition same_report (r1 : option (list Z * option Z)) (r2 : option (list Z * option Encoding)) : Prop :=
  r1 = option_map (fun '(l, e) => (l, option_map Encoding_int e)) r2.

Lemma locate_encodings_native encodings hrp values size errors e :
  Forall ascii hrp -> Forall (fun e => e <> INVALID) encodings ->
  agree same_report (Bech32_locate_encodings (Encoding_int <$> encodings) hrp values size errors (option_map Encoding_int e))
                    (locate_encodings encodings hrp values size errors e).
Proof.
  intros Hh He. revert errors e. induction He as [|x encodings Hx He IH]; intros errors e; [done|].
  rewrite fmap_cons. cbn [Bech32_locate_encodings locate_encodings]. rewrite PolyMod_native, Prepare_native by done.
  destruct (EncodingConstant_ok x Hx) as (c & Ec & _). rewrite Ec. cbn [mbind result_bind].
  assert (Bech32_EncodingConstant (Encoding_int x) = c) as -> by (destruct x; by simplify_eq/=).
  apply agree_if; [done|done|]. intros _. apply agree_same; [apply possibleErrors_native|]. intros l _.
  rewrite !zlen_zero, zlen_pos. apply agree_if; [done| |intros _; apply IH]. intros _.
  destruct (bool_decide (l = [])); simpl; [apply IH|apply (IH _ (Some x))].
Qed.

Lemma locate_values_native s i :
  Forall ascii s ->
  match invalid_value s i, decode_values s with
  | Ok None, Ok (Some vs) => locate_values s i = Ok (inl vs)
  | Ok (Some j), Ok None => locate_values s i = Ok (inr j)
  | _, _ => False
  end.
Proof.
  intros Hs. revert i. induction Hs as [|c s Hc Hs IH]; intros i; [done|]. simpl. rewrite CharsetRev_native.
  destruct (Z.leb_spec 128 c); [unfold ascii in Hc; lia|]. destruct (rev_in_range c Hc) as [v Hv].
  pose proof (agree_index CHARSET_REV c) as Ha. rewrite Hv in Ha |- *. destruct (index CHARSET_REV c) as [v'|]; [|done].
  simpl in Ha. subst v'. cbn [mbind result_bind]. destruct (Z.eqb_spec v (-1)); [done|].
  specialize (IH (i + 1)). destruct (rev_charset c v Hv n) as (Hr & _).
  destruct (invalid_value s (i + 1)) as [[j|]|], (decode_values s) as [[vs|]|]; try done; rewrite IH; [done|].
  simpl. do 3 f_equal. apply wrap_small. unfold is_uint in *. lia.
Qed.

Lemma LocateErrors_native str limit :
  agree eq (Bech32_LocateErrors str limit) (LocateErrors str limit).
Proof.
  unfold Bech32_LocateErrors, LocateErrors. apply agree_if; [done|done|]. intros _.
  rewrite CheckCharacters_native. destruct (bool_decide (CheckCharacters str = [])) eqn:Ec; cbn [negb]; [|done].
  apply bool_decide_eq_true in Ec. rewrite Ec. apply CheckCharacters_spec in Ec as [Hp%printable_ascii _].
  rewrite LastIndexOf_native. change Separator with SEPARATOR. change ChecksumSize with CHECKSUM_SIZE.
  destruct (rfind SEPARATOR str) as [pos|]; [|done]. destruct (Z.ltb_spec (Z.of_nat pos) 0); [lia|].
  apply agree_if; [f_equal; destruct (Nat.eqb_spec pos 0), (Z.eqb_spec (Z.of_nat pos) 0); lia|done|]. intros _.
  rewrite Nat2Z.id. replace (Z.to_nat (Z.of_nat pos + 1)) with (pos + 1)%nat by lia.
  pose proof (locate_values_native (drop (pos + 1) str) (Z.of_nat pos + 1) ltac:(by apply Forall_drop)) as Hv.
  destruct (invalid_value _ _) as [[j|]|], (decode_values _) as [[vs|]|]; try done; rewrite Hv; [done|]. cbn [mbind result_bind default].
  assert (ToLowerInvariant <$> take pos str = LowerCase <$> take pos str) as ->
    by (apply list_fmap_ext; intros; apply ToLower_native).
  apply (agree_bind same_report).
  - apply (locate_encodings_native [BECH32; BECH32M] _ _ _ _ None); [|by repeat constructor].
    apply Forall_fmap, Forall_take. revert Hp. apply Forall_impl. intros c. unfold ascii, compose, LowerCase, is_upper.
    destruct (_ && _) eqn:E; [bool_props|]; lia.
  - intros r1 [[l e]|] _ _ Hr; unfold same_report in Hr; simpl in Hr; subst r1; [|done]. by destruct e as [[]|].
Qed.

(** * [Encode] *)

Lemma append_charset_native v s sb :
  Forall (is_uint 5) v -> encode_values v = Ok s -> append_charset v sb = Ok (sb ++ s).
Proof.
  intros Hv. revert s sb. induction Hv as [|x v Hx Hv IH]; intros s sb H; simpl in *; [by simplify_eq; rewrite app_nil_r|].
  apply result_bind_inv in H as (c & Ec & H). apply result_bind_inv in H as (cs & Ecs & H). injection H as <-.
  assert (index Charset x = Ok c) as ->.
  { unfold charset_at in Ec. apply at_lookup in Ec as [H0 Ec]. unfold is_uint in Hx.
    rewrite lookup_app_l in Ec by (change (length CHARSET) with 32%nat; lia).
    unfold index. rewrite (proj2 (Z.ltb_ge x 0)) by lia. change Charset with CHARSET. by rewrite Ec. }
  cbn [mbind result_bind]. rewrite (IH cs) by done. by rewrite <- app_assoc.
Qed.

Lemma CreateChecksum_native e hrp values c :
  EncodingConstant e = Ok c -> Forall ascii hrp ->
  CreateChecksum e hrp values = Ok (Bech32_CreateChecksum (Encoding_int e) hrp values).
Proof.
  intros He Hh. unfold CreateChecksum, Bech32_CreateChecksum. rewrite He, PolyMod_native, Prepare_native by done.
  cbn [mbind result_bind]. assert (Bech32_EncodingConstant (Encoding_int e) = c) as -> by (destruct e; by simplify_eq/=).
  change (Z.to_nat ChecksumSize) with 6%nat. set (m := Z.lxor _ c). f_equal. unfold checksum_groups.
  change (seqZ 0 ChecksumSize) with [0; 1; 2; 3; 4; 5]. apply list_fmap_ext. intros i x _. symmetry. apply wrap_small.
  unfold is_uint. change 31 with (Z.ones 5). rewrite Z.land_ones by lia. pose proof (Z.mod_pos_bound (Z.shiftr m (5 * (5 - x))) (2 ^ 5)). lia.
Qed.

(** The string that both versions build. *)
Lemma Encode_native debug e hrp values :
  e <> INVALID -> Forall ascii hrp -> existsb is_upper hrp = false -> Forall (is_uint 5) values ->
  exists s, Encode e hrp values = Ok s /\ Bech32_Encode debug (Encoding_int e) hrp values = Ok s
    /\ Forall ascii s /\ zlen s = zlen hrp + 1 + zlen values + 6.
Proof.
  intros He Hh Hu Hv. destruct (EncodingConstant_ok e He) as (c & Ec & _).
  destruct (encode_values_ok values Hv) as (d & Ed & _ & Fd & Ld).
  pose proof (CreateChecksum_native e hrp values c Ec Hh) as Hc.
  set (cs := Bech32_CreateChecksum (Encoding_int e) hrp values) in *.
  assert (Forall (is_uint 5) cs /\ length cs = 6%nat) as [Fcs Lcs].
  { unfold CreateChecksum in Hc. rewrite Ec in Hc. cbn [mbind result_bind] in Hc. apply (f_equal (constant [])) in Hc.
    cbn [constant] in Hc. rewrite <- Hc. split; [apply groups_wf|done]. }
  destruct (encode_values_ok cs Fcs) as (k & Ek & _ & Fk & Lk).
  exists (hrp ++ [SEPARATOR] ++ d ++ k). split_and!.
  - unfold Encode. rewrite Hu, Ed. cbn [mbind result_bind]. rewrite Hc. cbn [mbind result_bind]. by rewrite Ek.
  - unfold Bech32_Encode. assert (existsb (fun c => (0x41 <=? c) && (c <=? 0x5a)) hrp = false) as -> by exact Hu.
    unfold Debug_Assert. destruct e; [done|..]; cbn [Encoding_int negb andb orb Encoding_Bech32 Encoding_Bech32m];
      rewrite ?andb_false_r; cbn [mbind result_bind]; rewrite (append_charset_native values d) by done;
      cbn [mbind result_bind]; fold cs; rewrite (append_charset_native cs k) by done; by rewrite <- !app_assoc.
  - rewrite !Forall_app. split_and!; [done|by constructor|..];
      (eapply Forall_impl; [|eassumption]; unfold ascii, data_char; intros ? ?; lia).
  - unfold zlen. rewrite !length_app. simpl. lia.
Qed.

(** * UTF-8 *)

Lemma GetString_ascii bs : Forall ascii bs -> UTF8_GetString bs = bs.
Proof.
  induction 1 as [|b bs Hb Hbs IH]; [done|]. simpl. unfold ascii in Hb. destruct (Z.ltb_spec b 0x80); [by rewrite IH|lia].
Qed.

Lemma UTF8_bytes_ascii s : Forall ascii s -> UTF8_bytes s = s.
Proof.
  induction 1 as [|b bs Hb Hbs IH]; [done|]. simpl. unfold ascii in Hb. destruct (Z.ltb_spec b 0x80); [by rewrite IH|lia].
Qed.

Lemma lor_ge_l a b : 0 <= a -> 0 <= b -> a <= Z.lor a b.
Proof.
  intros Ha Hb. pose proof (Z.add_lor_land a b). assert (Z.land a b <= b); [|lia].
  rewrite <- (Z2N.id a), <- (Z2N.id b), <- N2Z.inj_land by done. apply N2Z.inj_le, N.land_le_r.
Qed.

(** What a two or three byte sequence decodes to is not ASCII. *)
Lemma two_bytes_high b0 b1 : 0xC2 <= b0 <= 0xDF -> 128 <= Z.lor (Z.shiftl (Z.land b0 0x1F) 6) (Z.land b1 0x3F).
Proof.
  intros H. assert (forall b, 0 <= b < 256 -> (b <? 0xC2) || (0xDF <? b) || (128 <=? Z.shiftl (Z.land b 0x1F) 6) = true) as Hb
    by (apply range_forall; vm_compute; reflexivity).
  specialize (Hb b0 ltac:(lia)). destruct (Z.ltb_spec b0 0xC2), (Z.ltb_spec 0xDF b0); try lia. simpl in Hb. apply Z.leb_le in Hb.
  pose proof (lor_ge_l (Z.shiftl (Z.land b0 0x1F) 6) (Z.land b1 0x3F) ltac:(lia) ltac:(apply Z.land_nonneg; lia)). lia.
Qed.

Lemma three_bytes_high b0 b1 b2 :
  0xE0 <= b0 <= 0xEF -> 0 <= b1 < 256 -> second_ok b0 b1 = true ->
  128 <= Z.lor (Z.shiftl (Z.land b0 0x0F) 12) (Z.lor (Z.shiftl (Z.land b1 0x3F) 6) (Z.land b2 0x3F)).
Proof.
  intros H0 H1 Hs. rewrite Z.lor_assoc.
  assert (forall x, 0 <= x < 4096 -> let b0 := 0xE0 + Z.shiftr x 8 in let b1 := Z.land x 255 in
            negb (second_ok b0 b1)
            || (128 <=? Z.lor (Z.shiftl (Z.land b0 0x0F) 12) (Z.shiftl (Z.land b1 0x3F) 6)) = true) as H
    by (apply range_forall; vm_compute; reflexivity).
  specialize (H (256 * (b0 - 0xE0) + b1) ltac:(lia)). cbv zeta in H.
  rewrite Z.shiftr_div_pow2 in H by lia. change 255 with (Z.ones 8) in H. rewrite Z.land_ones in H by lia. change (2 ^ 8) with 256 in H.
  replace (0xE0 + (256 * (b0 - 0xE0) + b1) / 256) with b0 in H by (Z.to_euclidean_division_equations; lia).
  replace ((256 * (b0 - 0xE0) + b1) mod 256) with b1 in H by (Z.to_euclidean_division_equations; lia).
  rewrite Hs in H. cbn [negb orb] in H. apply Z.leb_le in H.
  pose proof (lor_ge_l _ (Z.land b2 0x3F) (Z.le_trans 0 128 _ ltac:(lia) H) ltac:(apply Z.land_nonneg; lia)). lia.
Qed.

Lemma surrogates_high cp l : 0 <= cp -> Exists (fun c => 128 <= c) (surrogates cp ++ l).
Proof.
  intros H. left. rewrite Z.shiftr_div_pow2 by lia. assert (- 64 <= (cp - 0x10000) / 2 ^ 10); [|lia].
  apply Z.div_le_lower_bound; lia.
Qed.

(** A string with a byte that is not ASCII decodes to one with such a character. *)
Lemma GetString_non_ascii bs : wf_bytes bs -> Forall ascii bs \/ Exists (fun c => 128 <= c) (UTF8_GetString bs).
Proof.
  assert (Exists (fun c => 128 <= c) [replacement]) as R by (by left).
  assert (forall l, Exists (fun c => 128 <= c) (replacement :: l)) as R' by (by left).
  induction bs as [|b0 bs IH]; intros Hwf; [by left|]. apply Forall_cons_iff in Hwf as [H0 Hwf]. unfold is_uint in H0. simpl.
  destruct (Z.ltb_spec b0 0x80) as [Hb|Hb].
  { destruct (IH Hwf) as [?|?]; [left; constructor; [unfold ascii; lia|done]|right; by right]. }
  right. destruct ((0xC2 <=? b0) && (b0 <=? 0xDF)) eqn:E2.
  { bool_props. destruct bs as [|b1 bs]; [done|]. destruct (continuation b1); [left; by apply two_bytes_high|done]. }
  destruct ((0xE0 <=? b0) && (b0 <=? 0xEF)) eqn:E3.
  { bool_props. destruct bs as [|b1 bs]; [done|]. apply Forall_cons_iff in Hwf as [Hb1 _].
    destruct (second_ok b0 b1) eqn:Es; [|done]. destruct bs as [|b2 bs]; [done|].
    destruct (continuation b2); [left; by apply three_bytes_high|done]. }
  destruct ((0xF0 <=? b0) && (b0 <=? 0xF4)); [|done].
  destruct bs as [|b1 bs]; [done|]. destruct (second_ok b0 b1); [|done]. destruct bs as [|b2 bs]; [done|].
  destruct (continuation b2); [|done]. destruct bs as [|b3 bs]; [done|]. destruct (continuation b3); [|done].
  apply (surrogates_high _ (UTF8_GetString bs)). rewrite !Z.lor_nonneg, !Z.shiftl_nonneg, !Z.land_nonneg. lia.
Qed.

(** * The bridge *)

Lemma take_write_at n o bs m : (n <= o)%nat -> (o <= length m)%nat -> take n (write_at o bs m) = take n m.
Proof. intros Hn Ho. unfold write_at. rewrite take_app_le by (rewrite length_take; lia). by rewrite take_take, Nat.min_l. Qed.

Lemma read_write_at o bs m : (o <= length m)%nat -> take (length bs) (drop o (write_at o bs m)) = bs.
Proof.
  intros Ho. unfold write_at. rewrite drop_app_ge by (rewrite length_take; lia). rewrite length_take, Nat.min_l, Nat.sub_diag by lia.
  rewrite drop_0. apply take_app_length.
Qed.

Lemma length_write_at o bs m : (o + length bs <= length m)%nat -> length (write_at o bs m) = length m.
Proof. intros H. unfold write_at. rewrite !length_app, length_take, length_drop. lia. Qed.

Lemma i32_small z : 0 <= z < 2 ^ 31 -> i32 z = z.
Proof. intros H. apply swrap_small; [lia|]. unfold is_sint. lia. Qed.

(** The struct carries a result whose parts fit. *)
Lemma FillResult_carries e hrp data :
  e <> INVALID -> Forall ascii hrp -> zlen hrp <= 90 -> zlen data <= 91 ->
  exists m, FillResult (ManagedResult (Encoding_int e) hrp data) result_default
            = (Bech32Result (Encoding_int e) (zlen hrp) (zlen data) m, Ok tt)
    /\ take (length hrp) m = hrp /\ take (length data) (drop 91 m) = data.
Proof.
  intros He Hh Lh Ld. unfold FillResult. cbn [mr_Encoding mr_Hrp mr_Data].
  assert ((Encoding_int e =? Encoding_Invalid) = false) as -> by (by destruct e).
  unfold UTF8_GetBytes. rewrite UTF8_bytes_ascii by done. destruct (Z.ltb_spec 91 (zlen hrp)); [lia|].
  rewrite Z.min_l by lia. unfold zlen in *. rewrite Nat2Z.id, (take_ge data) by lia.
  eexists. split; [done|]. cbn [r_Hrp_Data result_default].
  set (m0 := replicate 182 0). assert (length m0 = 182%nat) as L0 by done.
  assert (length (write_at 0 hrp m0) = 182%nat) as L1 by (rewrite length_write_at; simpl; lia).
  assert (length (write_at (length hrp) [0] (write_at 0 hrp m0)) = 182%nat) as L2 by (rewrite length_write_at; simpl; lia).
  split.
  - rewrite take_write_at, take_write_at by lia. exact (read_write_at 0 hrp m0 ltac:(lia)).
  - apply read_write_at. lia.
Qed.

Lemma Decode_parts str limit r :
  Decode str limit = Ok r -> encoding r <> INVALID -> limit <= 90 ->
  Forall ascii (hrp r) /\ zlen (hrp r) <= 90 /\ zlen (data r) <= 91 /\ Forall ascii str.
Proof.
  intros H He Hl. destruct (Decode_inv str limit r H He) as (h & d & w & -> & _ & Hp & Hlen & _ & Hw & Hh & _ & Hd).
  apply printable_ascii in Hp. destruct (decode_values_ok d w Hw) as (_ & _ & _ & Lw).
  unfold zlen in *. rewrite length_app in Hlen. simpl in Hlen. rewrite Hh, Hd, length_fmap, length_take.
  apply Forall_app in Hp as [Hp1 Hp2]. split_and!; [|lia|lia|by apply Forall_app].
  apply Forall_fmap. revert Hp1. apply Forall_impl. intros c. unfold ascii, compose, LowerCase, is_upper.
  destruct (_ && _) eqn:E; [bool_props|]; lia.
Qed.

Lemma Decode_invalid str limit r : Decode str limit = Ok r -> encoding r = INVALID -> r = DecodeResult_invalid.
Proof.
  unfold Decode. intros H He. destruct (negb _); [congruence|]. destruct (_ <? _); [congruence|].
  destruct (rfind _ _); [|congruence]. destruct (_ || _); [congruence|].
  apply result_bind_inv in H as ([w|] & _ & H); [|congruence]. apply result_bind_inv in H as (e & _ & H).
  destruct (bool_decide_reflect (e = INVALID)); [congruence|]. by simplify_eq/=.
Qed.

Lemma bridge_Decode b str limit :
  wf_bytes str -> zlen str < 2 ^ 32 -> 0 <= limit <= 90 -> bech32_managed_Decode b str limit = Decode str limit.
Proof.
  intros Hwf Hlen Hlim. unfold bech32_managed_Decode. destruct (s_decode b); [|done]. cbn [negb].
  destruct (Decode_native str limit) as (r & Hr & _). rewrite Hr. rewrite (i32_small limit) by lia.
  unfold Bech32Bridge_Decode, span. destruct (Z.ltb_spec (i32 (zlen str)) 0) as [Hneg|Hpos].
  - (* longer than [int32_t] can say: invalid on both sides *)
    cbn [mbind result_bind native default]. simpl. unfold Decode in Hr.
    destruct (negb _); [congruence|]. destruct (Z.ltb_spec limit (zlen str)); [congruence|].
    rewrite i32_small in Hneg; unfold zlen in *; lia.
  - assert (i32 (zlen str) = zlen str) as ->.
    { unfold swrap in *. unfold zlen in *. change (2 ^ (32 - 1)) with 2147483648 in *. change (2 ^ 32) with 4294967296 in *.
      Z.to_euclidean_division_equations; lia. }
    unfold zlen at 1. rewrite Nat2Z.id, firstn_all. cbn [mbind result_bind]. unfold DecodeManaged.
    destruct (GetString_non_ascii str Hwf) as [Ha|Hx].
    + rewrite GetString_ascii by done. destruct (Decode_native str limit) as (r' & Hr' & ->).
      assert (r' = r) as -> by congruence. destruct (decide (encoding r = INVALID)) as [He|He].
      * unfold managed. rewrite He. cbn. f_equal. symmetry. by apply (Decode_invalid str limit).
      * destruct (Decode_parts str limit r Hr He) as (H1 & H2 & H3 & _); [lia|].
        destruct (FillResult_carries (encoding r) (hrp r) (data r) He H1 H2 H3) as (m & Hm & T1 & T2).
        unfold managed. rewrite Hm. cbn [native mbind result_bind default r_Encoding r_HrpLen r_DataLen r_Hrp_Data id].
        assert (Encoding_cast (Encoding_int (encoding r)) = encoding r) as -> by (by destruct (encoding r)).
        rewrite bool_decide_false by done. unfold zlen. rewrite !Nat2Z.id, T1, T2. by destruct r.
    + destruct (Decode_native (UTF8_GetString str) limit) as (r' & Hr' & ->).
      assert (encoding r' = INVALID) as He'.
      { destruct (decide (encoding r' = INVALID)) as [|He]; [done|]. destruct (Decode_parts _ _ _ Hr' He) as (_ & _ & _ & Ha); [lia|].
        apply Exists_exists in Hx as (c & Hin & Hc). rewrite Forall_forall in Ha. specialize (Ha c Hin). unfold ascii in Ha. lia. }
      unfold managed. rewrite He'. cbn. f_equal. symmetry. apply (Decode_invalid str limit); [done|].
      destruct (decide (encoding r = INVALID)) as [|He]; [done|]. destruct (Decode_parts _ _ _ Hr He) as (_ & _ & _ & Ha); [lia|].
      rewrite GetString_ascii in Hx by done. apply Exists_exists in Hx as (c & Hin & Hc). rewrite Forall_forall in Ha.
      specialize (Ha c Hin). unfold ascii in Ha. lia.
Qed.

(** What the bridge returns for a string that the native code can build: the string
    if it fits the buffer of 91 bytes, and nothing otherwise. *)
Lemma bridge_Encode b e hrp values s :
  s_encode b = true -> e <> INVALID -> Forall ascii hrp -> existsb is_upper hrp = false -> Forall (is_uint 5) values ->
  zlen hrp < 2 ^ 31 -> zlen values < 2 ^ 31 -> Encode e hrp values = Ok s ->
  bech32_managed_Encode b e hrp values = Ok (if 91 <? zlen s then [] else s).
Proof.
  intros Hb He Hh Hu Hv Lh Lv Hs. unfold bech32_managed_Encode. rewrite Hb. cbn [negb].
  destruct (Encode_native (assembly_debug b) e hrp values He Hh Hu Hv) as (s' & Es' & Em & Fa & Ls).
  assert (s' = s) as -> by congruence. clear Es'.
  unfold Bech32Bridge_Encode, span. change (91 <=? 0) with false. cbn [fmap option_fmap option_map].
  assert (0 <= zlen hrp) by (unfold zlen; lia). assert (0 <= zlen values) by (unfold zlen; lia).
  rewrite !i32_small by lia. rewrite !(proj2 (Z.ltb_ge _ 0)) by lia. cbn [mbind result_bind].
  assert (forall l : bytes, take (Z.to_nat (zlen l)) l = l) as All by (intros; unfold zlen; rewrite Nat2Z.id; apply firstn_all).
  rewrite !All. unfold EncodeManaged.
  assert ((Encoding_int e =? Encoding_Invalid) = false) as -> by (by destruct e).
  rewrite GetString_ascii, Em by done. cbn [mbind result_bind]. rewrite (proj2 (Z.eqb_neq (zlen s) 0)) by lia.
  unfold UTF8_GetBytes. rewrite UTF8_bytes_ascii by done. destruct (Z.ltb_spec 91 (zlen s)); [done|].
  cbn [mbind result_bind native default snd fst]. f_equal. unfold zlen. simpl. rewrite Nat2Z.id.
  exact (read_write_at 0 s (replicate 91 0) ltac:(lia)).
Qed.

(** C29: The managed port is the native code. Through the bridge, whether or not the
    assembly is loaded and in either build, [Decode] returns the same result for every
    byte string (also one that is not ASCII or not valid UTF-8) up to the limit of
    addresses, and [Encode] the same string for everything that fits one; the port's
    [LocateErrors] reports the same message and positions on every string. *)
Theorem managed_bech32_is_native b :
  (forall str limit, wf_bytes str -> zlen str < 2 ^ 32 -> 0 <= limit <= CharLimit_BECH32 ->
     bech32_managed_Decode b str limit = Decode str limit)
  /\ (forall e hrp values, e <> INVALID -> Forall ascii hrp -> existsb is_upper hrp = false ->
        Forall (is_uint 5) values -> zlen hrp + 1 + zlen values + 6 <= 91 ->
        bech32_managed_Encode b e hrp values = Encode e hrp values)
  /\ (forall str limit, agree eq (Bech32_LocateErrors str limit) (LocateErrors str limit)).
Proof.
  split; [|split].
  - intros str limit Hwf Hlen Hlim. by apply bridge_Decode.
  - intros e hrp values He Hh Hu Hv Hl. destruct (s_encode b) eqn:Hb; [|unfold bech32_managed_Encode; by rewrite Hb].
    destruct (Encode_native true e hrp values He Hh Hu Hv) as (s & Es & _ & _ & Ls). rewrite Es.
    unfold zlen in *. rewrite (bridge_Encode b e hrp values s) by (try done; unfold zlen; lia).
    destruct (Z.ltb_spec 91 (zlen s)); [unfold zlen in *; lia|done].
  - intros str limit. apply LocateErrors_native.
Qed.

(** A string with a stray UTF-8 character, an address, and one with a typing error. *)
Lemma managed_bech32_is_native_witness :
  let b := Bridge true true true in
  bech32_managed_Decode b (to_bytes "a1" ++ [0xC3; 0xA9] ++ to_bytes "2uel5l") 90 = Ok DecodeResult_invalid
  /\ bech32_managed_Encode b BECH32 (to_bytes "a") [] = Ok (to_bytes "a12uel5l")
  /\ agree eq (Bech32_LocateErrors (to_bytes "a12qel5l") 90) (LocateErrors (to_bytes "a12qel5l") 90).
Proof.
  destruct (managed_bech32_is_native (Bridge true true true)) as (HD & HE & HL). split; [|split].
  - rewrite HD by (lia || by_decide). vm_compute. reflexivity.
  - rewrite HE by (done || by_decide || vm_compute; congruence). vm_compute. reflexivity.
  - exact (HL _ _).
Defined.

(** The bridge is not a replacement for longer strings: where the native [Encode]
    returns a string of more than 91 characters, the managed one returns none. *)
Theorem managed_encode_too_long b e hrp values :
  s_encode b = true -> e <> INVALID -> Forall ascii hrp -> existsb is_upper hrp = false -> Forall (is_uint 5) values ->
  zlen hrp < 2 ^ 31 -> zlen values < 2 ^ 31 -> 91 < zlen hrp + 1 + zlen values + 6 ->
  exists s, Encode e hrp values = Ok s /\ s <> [] /\ bech32_managed_Encode b e hrp values = Ok [].
Proof.
  intros Hb He Hh Hu Hv Lh Lv Hl. destruct (Encode_native true e hrp values He Hh Hu Hv) as (s & Es & _ & _ & Ls).
  exists s. split; [done|]. split; [intros ->; unfold zlen in *; simpl in *; lia|].
  rewrite (bridge_Encode b e hrp values s) by done. by rewrite (proj2 (Z.ltb_lt 91 (zlen s))) by lia.
Qed.
