(* ===== verification/Hostfxr.v ===== *)
(** The life cycle of the managed runtime: the reference-counted host of
    src/bitcoin/src/hostfxr_bridge.cpp, and the function pointers that the Bech32
    and log bridges take from it (src/bitcoin/src/btcsharp_bech32_bridge.cpp,
    btcsharp_log_bridge.cpp).  What the .NET host answers is an argument. *)

From S2P Require Import Prelude.

(** * The host *)

(** The globals: [g_refcount], whether [g_ctx] and [g_load_asm_and_get_ptr] are set,
    and whether the library of [g_fxr] is loaded. *)
Record fxr := Fxr {
  g_refcount : Z;
  g_ctx : bool;
  g_load_asm_and_get_ptr : bool;
  lib_handle : bool
}.

Definition fxr_start : fxr := Fxr 0 false false false.

(** The answers of the host while it is initialised: whether hostfxr and its exports
    are found, the code and the context that [initialize] returns, and whether the
    delegate is returned. *)
Record host := Host {
  exports_found : bool;
  initialize_rc : Z;
  initialize_ctx : bool;
  delegate_found : bool
}.

Definition fxr_init_from_runtimeconfig (h : host) (runtimeconfig_path : option bytes) (f : fxr) : fxr * bool :=
  if bool_decide (default [] runtimeconfig_path = []) then (f, false)
  else if 0 <? g_refcount f then (Fxr (g_refcount f + 1) (g_ctx f) (g_load_asm_and_get_ptr f) (lib_handle f), true)
  else if negb (exports_found h) then (f, false)
  else
    let f := Fxr (g_refcount f) (initialize_ctx h) (g_load_asm_and_get_ptr f) true in
    if negb (initialize_rc h =? 0) || negb (g_ctx f) then (f, false)
    else if negb (delegate_found h) then (Fxr (g_refcount f) false (g_load_asm_and_get_ptr f) true, false)
    else (Fxr 1 (g_ctx f) true true, true).

(** [fxr_load_umco], for arguments that are not null; [found] says whether the host
    has the method. *)
Definition fxr_load_umco (found : bool) (f : fxr) : bool :=
  if negb (g_ctx f) || negb (g_load_asm_and_get_ptr f) then false else found.

Definition fxr_shutdown (f : fxr) : fxr :=
  if g_refcount f <=? 0 then f
  else
    let f' := Fxr (g_refcount f - 1) (g_ctx f) (g_load_asm_and_get_ptr f) (lib_handle f) in
    if negb (g_refcount f =? 1) then f'
    else Fxr (g_refcount f') false (if g_ctx f' then false else g_load_asm_and_get_ptr f') false.

(** * The bridges *)

(** The pointers of the two bridges, next to the host. *)
Record process := Process {
  p_fxr : fxr;
  p_encode : bool;
  p_decode : bool;
  p_log : bool;
  p_shutdown : bool
}.

Definition process_start : process := Process fxr_start false false false false.

(** [found] says which methods the host has. *)
Definition btcsharp_bech32_init (h : host) (path : option bytes) (found_encode found_decode : bool) (p : process)
    : process * bool :=
  let '(f, ok) := fxr_init_from_runtimeconfig h path (p_fxr p) in
  let p := Process f (p_encode p) (p_decode p) (p_log p) (p_shutdown p) in
  if negb ok then (p, false)
  else if negb (fxr_load_umco found_encode f) then (p, false)
  else
    let p := Process f true (p_decode p) (p_log p) (p_shutdown p) in
    if negb (fxr_load_umco found_decode f) then (p, false)
    else (Process f true true (p_log p) (p_shutdown p), true).

Definition btcsharp_bech32_shutdown (p : process) : process :=
  Process (fxr_shutdown (p_fxr p)) false false (p_log p) (p_shutdown p).

Definition btcsharp_logging_init (h : host) (path : option bytes) (found_log found_shutdown : bool) (p : process)
    : process * bool :=
  let '(f, ok) := fxr_init_from_runtimeconfig h path (p_fxr p) in
  let p := Process f (p_encode p) (p_decode p) (p_log p) (p_shutdown p) in
  if negb ok then (p, false)
  else if negb (fxr_load_umco found_log f) then (p, false)
  else
    let p := Process f (p_encode p) (p_decode p) true (p_shutdown p) in
    (Process f (p_encode p) (p_decode p) true (p_shutdown p || fxr_load_umco found_shutdown f), p_log p).

Definition btcsharp_logging_shutdown (p : process) : process :=
  Process (fxr_shutdown (p_fxr p)) (p_encode p) (p_decode p) (p_log p) (p_shutdown p).

(** * Sequential use

    [held] counts the references that each user has taken and not returned: an init
    takes one when the host could be initialised, even if it then fails, and a user
    does not shut down more often than it took references. *)

Inductive user := Node | Bech32Bridge | LogBridge.

#[export] Instance user_eq_dec : EqDecision user.
Proof. solve_decision. Defined.

Definition took (f f' : fxr) : bool := g_refcount f <? g_refcount f'.

Definition give (u : user) (held : user -> Z) (d : Z) : user -> Z :=
  fun v => if decide (v = u) then held v + d else held v.

Inductive step : process * (user -> Z) -> process * (user -> Z) -> Prop :=
  | step_node_init h path p held f ok :
      fxr_init_from_runtimeconfig h path (p_fxr p) = (f, ok) ->
      step (p, held) (Process f (p_encode p) (p_decode p) (p_log p) (p_shutdown p), if ok then give Node held 1 else held)
  | step_node_shutdown p held :
      0 < held Node ->
      step (p, held) (Process (fxr_shutdown (p_fxr p)) (p_encode p) (p_decode p) (p_log p) (p_shutdown p), give Node held (-1))
  | step_bech32_init h path fe fd p held p' ok :
      btcsharp_bech32_init h path fe fd p = (p', ok) ->
      step (p, held) (p', if took (p_fxr p) (p_fxr p') then give Bech32Bridge held 1 else held)
  | step_bech32_shutdown p held :
      0 < held Bech32Bridge -> step (p, held) (btcsharp_bech32_shutdown p, give Bech32Bridge held (-1))
  | step_logging_init h path fl fs p held p' ok :
      btcsharp_logging_init h path fl fs p = (p', ok) ->
      step (p, held) (p', if took (p_fxr p) (p_fxr p') then give LogBridge held 1 else held)
  | step_logging_shutdown p held :
      0 < held LogBridge -> step (p, held) (btcsharp_logging_shutdown p, give LogBridge held (-1)).

Definition start : process * (user -> Z) := (process_start, fun _ => 0).

(** ** The invariant *)

Definition open (f : fxr) : Prop := g_ctx f = true /\ g_load_asm_and_get_ptr f = true /\ lib_handle f = true.

Definition fxr_inv (f : fxr) : Prop := 0 <= g_refcount f /\ (0 < g_refcount f -> open f).

Definition inv (s : process * (user -> Z)) : Prop :=
  let '(p, held) := s in
  fxr_inv (p_fxr p) /\ (forall u, 0 <= held u) /\
  g_refcount (p_fxr p) = held Node + held Bech32Bridge + held LogBridge /\
  (p_encode p || p_decode p = true -> 0 < held Bech32Bridge).

Lemma fxr_init_spec h path f f' ok :
  fxr_inv f -> fxr_init_from_runtimeconfig h path f = (f', ok) ->
  fxr_inv f' /\ g_refcount f' = g_refcount f + (if ok then 1 else 0).
Proof.
  intros [Hr Ho] H. unfold fxr_init_from_runtimeconfig in H. unfold fxr_inv, open in *.
  destruct (bool_decide _); [simplify_eq; split; [done|lia]|].
  destruct (Z.ltb_spec 0 (g_refcount f)); [simplify_eq/=; split; [split; [lia|auto]|lia]|].
  destruct (exports_found h); cbn [negb] in H; [|simplify_eq; split; [done|lia]].
  destruct (_ || _) eqn:E; [simplify_eq/=; split; [split; [lia|intros; lia]|lia]|].
  destruct (delegate_found h); simplify_eq/=; [|split; [split; [lia|intros; lia]|lia]].
  apply orb_false_elim in E as [_ E%negb_false_iff]. split; [split; [lia|done]|lia].
Qed.

Lemma fxr_shutdown_spec f :
  fxr_inv f -> 0 < g_refcount f -> fxr_inv (fxr_shutdown f) /\ g_refcount (fxr_shutdown f) = g_refcount f - 1.
Proof.
  intros [Hr Ho] Hp. specialize (Ho Hp) as (H1 & H2 & H3). unfold fxr_shutdown. destruct (Z.leb_spec (g_refcount f) 0); [lia|].
  destruct (Z.eqb_spec (g_refcount f) 1) as [E|E]; cbn [negb]; unfold fxr_inv, open; simpl; [lia|].
  split; [split; [lia|done]|done].
Qed.

Lemma give_same u held d : give u held d u = held u + d.
Proof. unfold give. by rewrite decide_True. Qed.

Lemma give_other u v held d : v <> u -> give u held d v = held v.
Proof. intros H. unfold give. by rewrite decide_False. Qed.

(** An init of a bridge is one of the host, after which only pointers change. *)
Lemma bech32_init_spec h path fe fd p p' ok :
  btcsharp_bech32_init h path fe fd p = (p', ok) ->
  exists f b, fxr_init_from_runtimeconfig h path (p_fxr p) = (f, b) /\ p_fxr p' = f
    /\ (b = false -> p_encode p' = p_encode p /\ p_decode p' = p_decode p).
Proof.
  unfold btcsharp_bech32_init. destruct (fxr_init_from_runtimeconfig h path (p_fxr p)) as [f b] eqn:E. intros H. exists f, b.
  split; [done|]. destruct b; cbn [negb] in H; [|simplify_eq/=; done].
  destruct (negb (fxr_load_umco fe f)); [simplify_eq/=; done|]. destruct (negb (fxr_load_umco fd f)); simplify_eq/=; done.
Qed.

Lemma logging_init_spec h path fl fs p p' ok :
  btcsharp_logging_init h path fl fs p = (p', ok) ->
  exists f b, fxr_init_from_runtimeconfig h path (p_fxr p) = (f, b) /\ p_fxr p' = f
    /\ p_encode p' = p_encode p /\ p_decode p' = p_decode p.
Proof.
  unfold btcsharp_logging_init. destruct (fxr_init_from_runtimeconfig h path (p_fxr p)) as [f b] eqn:E. intros H. exists f, b.
  split; [done|]. destruct b; cbn [negb] in H; [|simplify_eq/=; done].
  destruct (negb (fxr_load_umco fl f)); simplify_eq/=; done.
Qed.

(** Taking or returning a reference keeps the counts in step. *)
Lemma inv_init p held u f b p' :
  inv (p, held) -> fxr_inv f -> g_refcount f = g_refcount (p_fxr p) + (if b : bool then 1 else 0) -> p_fxr p' = f ->
  (b = false \/ u <> Bech32Bridge -> p_encode p' = p_encode p /\ p_decode p' = p_decode p) ->
  inv (p', if b then give u held 1 else held).
Proof.
  intros (_ & Hh & Hc & Hp) Hf Hr Ef Hq. unfold inv. rewrite Ef. destruct b.
  - split; [done|]. split; [intros v; unfold give; case_decide; specialize (Hh v); lia|].
    destruct u; [rewrite give_same, !give_other by done|rewrite give_same, !give_other by done|rewrite give_same, !give_other by done];
      (split; [lia|]); intros H; try (specialize (Hh Bech32Bridge); lia).
    + apply Hp. destruct Hq as [<- <-]; [by right|done].
    + apply Hp. destruct Hq as [<- <-]; [by right|done].
  - destruct Hq as [-> ->]; [by left|]. split_and!; [done..|lia|done].
Qed.

Lemma inv_shutdown p held u p' :
  inv (p, held) -> 0 < held u -> p_fxr p' = fxr_shutdown (p_fxr p) ->
  (if decide (u = Bech32Bridge) then p_encode p' || p_decode p' = false else p_encode p' = p_encode p /\ p_decode p' = p_decode p) ->
  inv (p', give u held (-1)).
Proof.
  intros (Hf & Hh & Hc & Hp) Hu Ef Hq. unfold inv. rewrite Ef.
  assert (0 < g_refcount (p_fxr p)) as Hpos by (pose proof (Hh Node); pose proof (Hh Bech32Bridge); pose proof (Hh LogBridge); destruct u; lia).
  destruct (fxr_shutdown_spec (p_fxr p) Hf Hpos) as [Hf' Hr]. split; [done|].
  split; [intros v; unfold give; specialize (Hh v); destruct (decide (v = u)) as [->|]; lia|].
  destruct u; rewrite ?give_same, ?give_other by done; (split; [lia|]); case_decide; try done.
  - destruct Hq as [-> ->]. done.
  - rewrite Hq. done.
  - destruct Hq as [-> ->]. done.
Qed.

Lemma took_spec f f' b : g_refcount f' = g_refcount f + (if b : bool then 1 else 0) -> took f f' = b.
Proof. intros H. unfold took. destruct b; [apply Z.ltb_lt|apply Z.ltb_ge]; lia. Qed.

Lemma step_inv s s' : inv s -> step s s' -> inv s'.
Proof.
  intros Hi H. destruct H as [h path p held f ok H|p held H|h path fe fd p held p' ok H|p held H|h path fl fs p held p' ok H|p held H].
  - destruct (fxr_init_spec h path _ f ok (proj1 Hi) H) as [Hf Hr]. by apply (inv_init p held Node f ok).
  - by apply (inv_shutdown p held Node).
  - apply bech32_init_spec in H as (f & b & E & Ef & Hq). destruct (fxr_init_spec h path _ f b (proj1 Hi) E) as [Hf Hr].
    rewrite Ef, (took_spec _ _ b Hr). apply (inv_init p held Bech32Bridge f b); try done. intros [?|?]; [by apply Hq|done].
  - by apply (inv_shutdown p held Bech32Bridge).
  - apply logging_init_spec in H as (f & b & E & Ef & Hq). destruct (fxr_init_spec h path _ f b (proj1 Hi) E) as [Hf Hr].
    rewrite Ef, (took_spec _ _ b Hr). by apply (inv_init p held LogBridge f b).
  - by apply (inv_shutdown p held LogBridge).
Qed.

(** C40: The managed functions are called only while the runtime is open. However the
    node, the Bech32 bridge and the log bridge initialise and shut down the host one
    after the other, each returning no more references than it took, and whatever the
    host answers: the reference count is the number of references held, and as long
    as [s_encode] or [s_decode] points to a managed function the count is positive and
    the runtime is open. *)
Theorem bridge_pointers_live p held :
  rtc step start (p, held) ->
  g_refcount (p_fxr p) = held Node + held Bech32Bridge + held LogBridge
  /\ (p_encode p || p_decode p = true -> 0 < g_refcount (p_fxr p) /\ open (p_fxr p)).
Proof.
  intros H. assert (inv (p, held)) as ([Hr Ho] & Hh & Hc & Hp).
  { remember start as s eqn:Es. remember (p, held) as s' eqn:Es'. assert (inv s) as Hi by (subst s; split_and!; done).
    clear Es Es'. induction H as [s|s t u Hst Htu IH]; [done|]. apply IH. by apply (step_inv s). }
  split; [done|]. intros E%Hp. assert (0 < g_refcount (p_fxr p)); [|auto].
  pose proof (Hh Node). pose proof (Hh LogBridge). lia.
Qed.

(** Both bridges up, the log bridge down again, and an encoder that stays usable. *)
Lemma bridge_pointers_live_witness :
  exists p held, rtc step start (p, held) /\ p_encode p = true /\ g_refcount (p_fxr p) = 1 /\ open (p_fxr p).
Proof.
  pose (h := Host true 0 true true). pose (path := Some (to_bytes "rc.json")).
  pose (p1 := (btcsharp_bech32_init h path true true process_start).1).
  pose (p2 := (btcsharp_logging_init h path true true p1).1). pose (p3 := btcsharp_logging_shutdown p2).
  pose (held1 := give Bech32Bridge (fun _ => 0) 1). pose (held2 := give LogBridge held1 1).
  assert (rtc step start (p3, give LogBridge held2 (-1))) as H.
  { eapply rtc_l; [apply (step_bech32_init h path true true process_start (fun _ => 0) p1 true); reflexivity|].
    eapply rtc_l; [apply (step_logging_init h path true true p1 held1 p2 true); reflexivity|].
    apply rtc_once. apply (step_logging_shutdown p2 held2). reflexivity. }
  exists p3, (give LogBridge held2 (-1)). split; [exact H|].
  destruct (bridge_pointers_live p3 _ H) as [Hc Ho]. split; [reflexivity|]. split; [exact Hc|]. apply Ho. reflexivity.
Defined.

(** * Two threads

    The first test of the count in [fxr_init_from_runtimeconfig] is not under the
    lock.  A thread is idle, between that test and its increment, or between the
    decrement to 0 and the close in [fxr_shutdown]. *)

Inductive thread := Idle | Counting | Closing.

Inductive thread_step (h : host) (path : bytes) : fxr * thread -> fxr * thread -> Prop :=
  | fast_path_test f : 0 < g_refcount f -> thread_step h path (f, Idle) (f, Counting)
  | fast_path_add f :
      thread_step h path (f, Counting) (Fxr (g_refcount f + 1) (g_ctx f) (g_load_asm_and_get_ptr f) (lib_handle f), Idle)
  | slow_path f f' ok :
      g_refcount f <= 0 -> fxr_init_from_runtimeconfig h (Some path) f = (f', ok) -> thread_step h path (f, Idle) (f', Idle)
  | shutdown_last f :
      g_refcount f = 1 ->
      thread_step h path (f, Idle) (Fxr 0 (g_ctx f) (g_load_asm_and_get_ptr f) (lib_handle f), Closing)
  | shutdown_other f :
      1 < g_refcount f -> thread_step h path (f, Idle) (fxr_shutdown f, Idle)
  | shutdown_close f :
      thread_step h path (f, Closing)
        (Fxr (g_refcount f) false (if g_ctx f then false else g_load_asm_and_get_ptr f) false, Idle).

Inductive race_step (h : host) (path : bytes) : fxr * (thread * thread) -> fxr * (thread * thread) -> Prop :=
  | first_thread f f' a a' b : thread_step h path (f, a) (f', a') -> race_step h path (f, (a, b)) (f', (a', b))
  | second_thread f f' a b b' : thread_step h path (f, b) (f', b') -> race_step h path (f, (a, b)) (f', (a, b')).

(** The count and the runtime can come apart for good: an init that runs beside the
    last shutdown returns true and leaves a count of 1 with the runtime closed, and
    then every later init succeeds at once while no function can be loaded. *)
Theorem init_shutdown_race h path :
  path <> [] -> exports_found h = true -> initialize_rc h = 0 -> initialize_ctx h = true -> delegate_found h = true ->
  exists f, rtc (race_step h path) (fxr_start, (Idle, Idle)) (f, (Idle, Idle))
    /\ g_refcount f = 1 /\ g_ctx f = false
    /\ (fxr_init_from_runtimeconfig h (Some path) f).2 = true
    /\ forall found, fxr_load_umco found (fxr_init_from_runtimeconfig h (Some path) f).1 = false.
Proof.
  intros Hp He Hrc Hctx Hd. exists (Fxr 1 false false false).
  assert (fxr_init_from_runtimeconfig h (Some path) fxr_start = (Fxr 1 true true true, true)) as Ei.
  { unfold fxr_init_from_runtimeconfig. simpl. rewrite bool_decide_false by done. by rewrite He, Hctx, Hrc, Hd. }
  assert (fxr_init_from_runtimeconfig h (Some path) (Fxr 1 false false false) = (Fxr 2 false false false, true)) as Ej.
  { unfold fxr_init_from_runtimeconfig. simpl. by rewrite bool_decide_false by done. }
  rewrite Ej. split; [|by split_and!].
  eapply rtc_l; [apply first_thread, (slow_path h path _ _ true); [simpl; lia|exact Ei]|].
  eapply rtc_l; [apply first_thread, fast_path_test; simpl; lia|].
  eapply rtc_l; [apply second_thread, shutdown_last; reflexivity|].
  eapply rtc_l; [apply second_thread, shutdown_close|].
  eapply rtc_l; [apply first_thread, fast_path_add|]. apply rtc_refl.
Qed.
